(* ===== verification/_CoqProject ===== *)
-Q . S2P
Prelude.v
Memslot.v
QxlAbi.v
QxlLogic.v
QxlChunks.v
QxlImage.v
QxlGeom.v
QxlDraw.v
QxlCmds.v
QxlLayout.v
QxlThms.v
CharDevice.v
CharDeviceThms.v
CharDeviceSend.v
StreamDevice.v
StreamDeviceThms.v
Dispatcher.v
DispatcherThms.v
ChannelClient.v
ChannelClientOk.v
ChannelClientOps.v
ChannelClientRecv.v
ChannelClientAck.v
ChannelClientDemo.v
ChannelClientThms.v
ChannelClientErr.v
AgentFilter.v
WebSocket.v
WebSocketRef.v
WebSocketOk.v
WebSocketRead.v
WebSocketThms.v
CacheIndex.v
ClientCache.v
PixmapCache.v
PixmapCacheThms.v
ImageCache.v
