(* ===== verification/Prelude.v ===== *)
(** * Verification of the SPICE server

    This library models the parts of the server (directory [server] of the
    sources) that take untrusted input or coordinate threads and connections,
    and proves what makes them correct.

    ** The program and its parts

    A virtual machine shows its guest display, input and devices to remote
    clients.  The guest's QXL driver puts commands with guest addresses into
    shared memory; [memslot.c] translates the addresses and
    [red-parse-qxl.cpp] copies the commands into host objects.  Guest agents
    write to character devices ([char-device.cpp]), one of which carries a
    video stream ([red-stream-device.cpp]).  Every connection of a client is a
    channel client ([red-channel-client.cpp]) with a pipe of messages, an
    acknowledgement window and latency and connectivity monitors.  The worker
    thread of a display is driven through a dispatcher ([dispatcher.cpp]).
    Browsers connect through WebSocket frames ([websocket.c]), and messages
    between client and guest agent pass a filter ([agent-msg-filter.c]).  The
    server keeps track of what clients cache ([cache-item.tmpl.cpp],
    [pixmap-cache.cpp]) and caches decoded images itself ([image-cache.cpp]).

    ** Files

    - [Prelude]: machine integers ([u8] ... [s64] write out every wrap-around),
      the monad [M] of functions with state, aborts and undefined behaviour,
      its weakest preconditions [wp] and invariants [keeps], little-endian
      bytes, tactics.
    - [Memslot]: the slot table, address validation and translation.
    - [QxlAbi] (the layout of guest structures as a class of offsets),
      [QxlLogic] (guest memory that changes between reads, a heap of live
      blocks), [QxlChunks], [QxlImage], [QxlGeom], [QxlDraw], [QxlCmds] (the
      functions of [red-parse-qxl.cpp], bottom up), [QxlLayout] (a concrete
      layout and guest for the examples), [QxlThms] (their properties).
    - [CharDevice], [CharDeviceThms], [CharDeviceSend]: flow control by tokens,
      the write queue, reads, migration.
    - [StreamDevice], [StreamDeviceThms]: the message parser of the streaming
      device against a reference parser.
    - [Dispatcher], [DispatcherThms]: threads that exchange messages over a
      socket pair, as a transition system.
    - [ChannelClient] (the whole of [red-channel-client.cpp]; the channel's
      [send_item] and [handle_message], the parser, the socket and the clock
      are parameters), [ChannelClientOk] (the laws of the parameters, the
      invariant, Hoare triples, sending), [ChannelClientOps] (the other
      operations), [ChannelClientRecv] (receiving), [ChannelClientAck] (the
      window), [ChannelClientDemo] (an instance), [ChannelClientThms],
      [ChannelClientErr] (failures that are proved).
    - [AgentFilter]: the filter on messages of the guest agent
      ([agent-msg-filter.c]).
    - [WebSocket] ([websocket.c]), [WebSocketRef] (a decoder of RFC 6455 that
      takes one byte at a time), [WebSocketOk] (the laws of the raw stream and
      the sending side), [WebSocketRead] (the receiving side),
      [WebSocketThms].
    - [CacheIndex] (a hash table with a ring in the order of use),
      [ClientCache] (the caches of palettes and cursors,
      [cache-item.tmpl.cpp]), [PixmapCache] and [PixmapCacheThms]
      ([pixmap-cache.cpp] and its users in [dcc.cpp] and [dcc-send.cpp]),
      [ImageCache] ([image-cache.cpp]).

    ** How code becomes definitions

    A function of the source is a definition of the same name; one that
    changes state is a value of [M S A].  [spice_assert] and [spice_error]
    are [Abort], C undefined behaviour is [Ub], an early return is a branch.
    Records hold the fields of the C structures.  Code outside the sources
    (the protocol headers, the virtual machine's callbacks, sockets, clocks)
    is a class of operations ([QxlAbi], [CharDeviceImpl], [StreamProto],
    [StreamEnv], ...) whose documented laws are a second class, instantiated by
    the examples.

    Loops that are not structural take fuel and end in [Ub UbFuel] without it;
    the theorems that exclude [Ub] show how much is enough: the chunks limit
    of the QXL parser, one more than the bytes the port holds for the streaming
    device, the tokens and waiting messages for a character device.  A channel
    client that may be interrupted [i] times sends with more than
    [(i + 1) * 2 * (max_body + 256) + i] turns and reads with more than
    [(i + 1) * (length avail + 1) + 2]; a WebSocket read takes at most two
    turns per waiting byte and one more.

    ** What the theorems show

    - Memory slots: a translated address is inside its slot with all its
      bytes; registered slots translate, deleted ones do not.
    - QXL parser: for every content of guest memory, changing during the
      parse, commands are parsed within the buffers, every block is freed
      exactly once, chunk chains end, sizes agree; where this fails (an
      uninitialised use and two races) the failure is proved.
    - Character devices: tokens are conserved whatever the callbacks do;
      bytes reach the device in order; migration restores bytes and tokens;
      messages keep their order, unless a callback re-enters.
    - Streaming device: the parser implements its specification for every cut
      of the bytes into reads.
    - Dispatcher: messages arrive whole, in order, synchronously when asked,
      and the threads do not deadlock.
    - Channel clients: the invariant holds after any run, the wire holds whole
      messages in order, the messages of the client are handed on in order for
      every cut of the bytes, the window is bounded, the connectivity timer
      disconnects exactly the silent; four failures are proved.
    - Agent filter: all chunks of a message get the verdict of the first.
    - WebSocket: reads and writes in any order agree with the reference
      decoder in both directions, headers round trip, the handshake is safe; a
      header that [websocket_writev] sends in part corrupts the stream.
    - Caches: the palette and cursor caches are equivalent to a plain list in
      the order of use; display channels that share the pixmap cache never
      drop what a message in flight needs; the image cache keeps exact
      reference counts.

    ** Not modelled

    The rest of rendering and encoding ([display-channel.cpp], [dcc*.cpp],
    [image-encoders.cpp], the video encoders), sound, USB redirection, the
    connection set-up and option parsing of [reds.cpp], statistics and
    replay, and everything under [tests] and [tools]: their core is pixel
    processing, calls of codec and TLS libraries, or input and output.  The
    marshallers and parsers generated from [spice.proto] and the
    [spice-common] submodule are not part of the sources. *)

From stdpp Require Import base list numbers tactics option.
From Stdlib Require Import ZArith Lia.

Open Scope Z_scope.

(** ** Machine integers

    A C integer of width [w] is a [Z]; every place where the source stores a
    wider value into a narrower variable, or lets unsigned arithmetic wrap, is
    written with one of these functions. *)

Definition uwrap (w z : Z) : Z := z mod 2 ^ w.
Definition u8 (z : Z) : Z := uwrap 8 z.
Definition u16 (z : Z) : Z := uwrap 16 z.
Definition u32 (z : Z) : Z := uwrap 32 z.
Definition u64 (z : Z) : Z := uwrap 64 z.

(** Conversion to a signed type of width [w] (two's complement). *)
Definition swrap (w z : Z) : Z :=
  let u := uwrap w z in if u <? 2 ^ (w - 1) then u else u - 2 ^ w.
Definition s32 (z : Z) : Z := swrap 32 z.
Definition s64 (z : Z) : Z := swrap 64 z.

Definition in_u (w z : Z) : Prop := 0 <= z < 2 ^ w.

Lemma uwrap_range w z : 0 <= w -> in_u w (uwrap w z).
Proof. intros; unfold in_u, uwrap; apply Z.mod_pos_bound, Z.pow_pos_nonneg; lia. Qed.

Lemma uwrap_id w z : in_u w z -> uwrap w z = z.
Proof. intros; unfold uwrap; now apply Z.mod_small. Qed.

Lemma u8_range z : 0 <= u8 z < 256.
Proof. apply (uwrap_range 8); lia. Qed.
Lemma u16_range z : 0 <= u16 z < 65536.
Proof. apply (uwrap_range 16); lia. Qed.
Lemma u32_range z : 0 <= u32 z < 4294967296.
Proof. apply (uwrap_range 32); lia. Qed.
Lemma u64_range z : 0 <= u64 z < 18446744073709551616.
Proof. apply (uwrap_range 64); lia. Qed.

Lemma u8_id z : 0 <= z < 256 -> u8 z = z.
Proof. intros; now apply (uwrap_id 8). Qed.
Lemma u16_id z : 0 <= z < 65536 -> u16 z = z.
Proof. intros; now apply (uwrap_id 16). Qed.
Lemma u32_id z : 0 <= z < 4294967296 -> u32 z = z.
Proof. intros; now apply (uwrap_id 32). Qed.
Lemma u64_id z : 0 <= z < 18446744073709551616 -> u64 z = z.
Proof. intros; now apply (uwrap_id 64). Qed.

Lemma s32_range z : -2147483648 <= s32 z < 2147483648.
Proof.
  unfold s32, swrap. pose proof (u32_range z) as H. unfold u32 in H.
  change (2 ^ (32 - 1)) with 2147483648. change (2 ^ 32) with 4294967296.
  destruct (Z.ltb_spec (uwrap 32 z) 2147483648); lia.
Qed.

Lemma s32_id z : -2147483648 <= z < 2147483648 -> s32 z = z.
Proof.
  intros H. unfold s32, swrap, uwrap.
  change (2 ^ (32 - 1)) with 2147483648. change (2 ^ 32) with 4294967296.
  destruct (Z.leb_spec 0 z).
  - rewrite Z.mod_small by lia. destruct (Z.ltb_spec z 2147483648); lia.
  - replace (z mod 4294967296) with (z + 4294967296).
    + destruct (Z.ltb_spec (z + 4294967296) 2147483648); lia.
    + apply (Z.mod_unique _ _ (-1)); lia.
Qed.

Lemma s64_id z : - 2 ^ 63 <= z < 2 ^ 63 -> s64 z = z.
Proof.
  intros Hz. unfold s64, swrap, uwrap. change (2 ^ (64 - 1)) with (2 ^ 63). destruct (Z.leb_spec 0 z).
  - rewrite Z.mod_small by lia. destruct (Z.ltb_spec z (2 ^ 63)); lia.
  - replace (z mod 2 ^ 64) with (z + 2 ^ 64) by (apply (Z.mod_unique _ _ (-1)); lia).
    destruct (Z.ltb_spec (z + 2 ^ 64) (2 ^ 63)); lia.
Qed.

(** A C comparison of an [int] with a [uint32_t] bound below 2^31: the
    conversion of a negative value fails the test. *)
Lemma u32_lt_bound x b :
  -2147483648 <= x < 2147483648 -> b < 2147483648 -> u32 x < b -> 0 <= x < b.
Proof.
  intros Hx Hb H. destruct (Z.lt_ge_cases x 0).
  - exfalso. revert H. unfold u32, uwrap.
    replace x with (x + 2 ^ 32 + (-1) * 2 ^ 32) by lia.
    rewrite Z.mod_add, Z.mod_small by lia. lia.
  - rewrite u32_id in H; lia.
Qed.

(** ** Computations with state, aborts and undefined behaviour

    The source is imperative.  A function of the model that reads or changes
    state, may fail a [spice_assert], or may run into undefined behaviour is a
    value of [M S A]: a function from the state to an outcome.

    - [Ok a s]: the function returned [a] in state [s];
    - [Abort s]: a [spice_assert]/[g_assert]/[spice_error] stopped the process
      in state [s];
    - [Ub k s]: C undefined behaviour of kind [k] happened in state [s].
      [UbFuel] is not C behaviour: it is the value of a loop whose fuel ran
      out, so a theorem that excludes [Ub] also shows that the loops end. *)

Inductive ub_kind :=
  | UbIndex    (** array index out of range *)
  | UbUninit   (** use of an uninitialised automatic variable *)
  | UbFree     (** free of a block that is not live *)
  | UbHostOob  (** access outside a host buffer *)
  | UbNull     (** null pointer dereference *)
  | UbFuel.    (** the loop of the model ran out of fuel *)

#[global] Instance ub_kind_eq_dec : EqDecision ub_kind.
Proof. solve_decision. Defined.

Inductive outcome (S A : Type) :=
  | Ok (a : A) (s : S)
  | Abort (s : S)
  | Ub (k : ub_kind) (s : S).
Arguments Ok {S A} a s.
Arguments Abort {S A} s.
Arguments Ub {S A} k s.

Definition M (S A : Type) : Type := S -> outcome S A.

#[global] Instance M_ret S : MRet (M S) := fun A a s => Ok a s.
Definition bindM {S A B} (m : M S A) (f : A -> M S B) : M S B := fun s =>
  match m s with
  | Ok a s' => f a s'
  | Abort s' => Abort s'
  | Ub k s' => Ub k s'
  end.
#[global] Instance M_fmap S : FMap (M S) := fun A B f m s =>
  match m s with
  | Ok a s' => Ok (f a) s'
  | Abort s' => Abort s'
  | Ub k s' => Ub k s'
  end.

Declare Scope spice_scope.
Delimit Scope spice_scope with spice.
Notation "x ← y ; z" := (bindM y (fun x => z))
  (at level 20, y at level 100, z at level 200, only parsing) : spice_scope.
Notation "' x ← y ; z" := (bindM y (fun x => z))
  (at level 20, x pattern, y at level 100, z at level 200, only parsing) : spice_scope.
Notation "y ;; z" := (bindM y (fun _ => z))
  (at level 100, z at level 200, only parsing, right associativity) : spice_scope.
Open Scope spice_scope.

Definition getS {S} : M S S := fun s => Ok s s.
Definition getsS {S A} (f : S -> A) : M S A := fun s => Ok (f s) s.
Definition modS {S} (f : S -> S) : M S unit := fun s => Ok tt (f s).
Definition abort {S A} : M S A := fun s => Abort s.
Definition undef {S A} (k : ub_kind) : M S A := fun s => Ub k s.

(** [spice_assert(b)] *)
Definition spice_assert {S} (b : bool) : M S unit :=
  if b then mret tt else abort.

(** [xs[i]] of a C array that the model holds as a list *)
Definition index {S A} (xs : list A) (i : Z) : M S A :=
  if i <? 0 then undef UbIndex
  else match xs !! Z.to_nat i with
       | Some x => mret x
       | None => undef UbIndex
       end.

(** ** Weakest preconditions

    [wp m Q E s]: running [m] from [s] ends in a state and value that satisfy
    [Q], or stops with an abort ([E None]) or undefined behaviour
    ([E (Some k)]) in a state that satisfies [E]. *)

Definition wp {S A} (m : M S A) (Q : A -> S -> Prop)
    (E : option ub_kind -> S -> Prop) (s : S) : Prop :=
  match m s with
  | Ok a s' => Q a s'
  | Abort s' => E None s'
  | Ub k s' => E (Some k) s'
  end.

Section wp.
Context {S : Type}.
Implicit Types (s : S) (E : option ub_kind -> S -> Prop).

Lemma wp_ret {A} (a : A) (Q : A -> S -> Prop) E s :
  Q a s -> wp (mret a) Q E s.
Proof. done. Qed.

Lemma wp_bind {A B} (m : M S A) (f : A -> M S B) Q E s :
  wp m (fun a s' => wp (f a) Q E s') E s -> wp (bindM m f) Q E s.
Proof. unfold wp, bindM. by destruct (m s). Qed.

Lemma wp_fmap {A B} (f : A -> B) (m : M S A) Q E s :
  wp m (fun a s' => Q (f a) s') E s -> wp (f <$> m) Q E s.
Proof. unfold wp, fmap, M_fmap. by destruct (m s). Qed.

Lemma wp_mono {A} (m : M S A) (Q Q' : A -> S -> Prop) (E E' : option ub_kind -> S -> Prop) s :
  wp m Q E s -> (forall a s', Q a s' -> Q' a s') -> (forall k s', E k s' -> E' k s') ->
  wp m Q' E' s.
Proof. unfold wp. destruct (m s); eauto. Qed.

Lemma wp_conseq {A} (m : M S A) (Q Q' : A -> S -> Prop) E s :
  wp m Q E s -> (forall a s', Q a s' -> Q' a s') -> wp m Q' E s.
Proof. eauto using wp_mono. Qed.

Lemma wp_assert (b : bool) Q E s :
  (b = true -> Q tt s) -> (b = false -> E None s) -> wp (spice_assert b) Q E s.
Proof. destruct b; unfold wp; simpl; auto. Qed.

Lemma wp_index {A} (xs : list A) i (Q : A -> S -> Prop) E s :
  0 <= i < Z.of_nat (length xs) ->
  (forall x, xs !! Z.to_nat i = Some x -> Q x s) -> wp (index xs i) Q E s.
Proof.
  intros Hi HQ. unfold wp, index.
  destruct (Z.ltb_spec i 0); [lia|].
  destruct (lookup_lt_is_Some_2 xs (Z.to_nat i)) as [x Hx]; [lia|].
  rewrite Hx. simpl. auto.
Qed.
End wp.

(** ** Invariants of operations

    [keeps I E m]: an operation started in a state that satisfies [I] ends in
    one, or stops in a way [E] allows. *)

Fixpoint iterM {S A} (f : A -> M S unit) (l : list A) : M S unit :=
  match l with
  | [] => mret tt
  | a :: l' => f a;; iterM f l'
  end.

Lemma wp_getS {S A} (k : S -> M S A) Q E s : wp (k s) Q E s -> wp (bindM getS k) Q E s.
Proof. done. Qed.

Lemma wp_getsS {S A B} (g : S -> A) (k : A -> M S B) Q E s :
  wp (k (g s)) Q E s -> wp (bindM (getsS g) k) Q E s.
Proof. done. Qed.

Lemma wp_modS {S A} (f : S -> S) (k : unit -> M S A) Q E s :
  wp (k tt) Q E (f s) -> wp (bindM (modS f) k) Q E s.
Proof. done. Qed.

Section keeps.
Context {S : Type} (I : S -> Prop) (E : option ub_kind -> Prop).

Definition keeps {A} (m : M S A) : Prop :=
  forall s, I s -> wp m (fun _ s' => I s') (fun k _ => E k) s.

Lemma keeps_ret {A} (a : A) : keeps (mret a).
Proof. by intros s Hs. Qed.

Lemma keeps_bind {A B} (m : M S A) (f : A -> M S B) :
  keeps m -> (forall a, keeps (f a)) -> keeps (bindM m f).
Proof. intros Hm Hf s Hs. apply wp_bind. eapply wp_conseq; [by apply Hm|]. intros a s' Hs'. by apply Hf. Qed.

Lemma wp_keeps_bind {A B} (m : M S A) (f : A -> M S B) s :
  keeps m -> I s -> (forall a, keeps (f a)) -> wp (bindM m f) (fun _ s' => I s') (fun k _ => E k) s.
Proof. intros Hm Hs Hf. by apply keeps_bind. Qed.

Lemma keeps_mod (f : S -> S) : (forall s, I s -> I (f s)) -> keeps (modS f).
Proof. intros Hf s Hs. by apply Hf. Qed.

Lemma keeps_assert b : E None -> keeps (spice_assert b).
Proof. intros HE s Hs. by apply wp_assert. Qed.

Lemma keeps_abort {A} : E None -> keeps (abort (A := A)).
Proof. by intros HE s Hs. Qed.

Lemma keeps_undef {A} k : E (Some k) -> keeps (undef (A := A) k).
Proof. by intros HE s Hs. Qed.

Lemma keeps_iter {A} (f : A -> M S unit) l : (forall a, keeps (f a)) -> keeps (iterM f l).
Proof. intros Hf. induction l as [|a l IH]; [apply keeps_ret|]. by apply keeps_bind. Qed.
End keeps.

(** A count of [S n] elements of [x] bytes: the first one and the rest. *)
Lemma succ_mul n x : 0 <= x -> Z.of_nat (S n) * x = x + Z.of_nat n * x /\ 0 <= Z.of_nat n * x.
Proof. intros; split; [lia|]. apply Z.mul_nonneg_nonneg; lia. Qed.

(** ** Little-endian byte sequences *)

Fixpoint le_decode (bs : list Z) : Z :=
  match bs with
  | [] => 0
  | b :: bs' => b mod 256 + 256 * le_decode bs'
  end.

Fixpoint le_encode (n : nat) (z : Z) : list Z :=
  match n with
  | O => []
  | S n' => z mod 256 :: le_encode n' (z / 256)
  end.

Lemma le_decode_range bs : 0 <= le_decode bs < 256 ^ Z.of_nat (length bs).
Proof.
  induction bs as [|b bs IH]; [simpl; lia|].
  cbn [le_decode length]. rewrite Nat2Z.inj_succ, Z.pow_succ_r by lia.
  pose proof (Z.mod_pos_bound b 256). lia.
Qed.

Lemma length_le_encode n z : length (le_encode n z) = n.
Proof. revert z; induction n; intros; simpl; auto. Qed.

Lemma le_decode_encode n z : le_decode (le_encode n z) = z mod 256 ^ Z.of_nat n.
Proof.
  revert z; induction n as [|n IH]; intros z; [simpl; now rewrite Z.mod_1_r|].
  cbn [le_encode le_decode]. rewrite IH, Z.mod_mod, Nat2Z.inj_succ, Z.pow_succ_r by lia.
  rewrite Z.rem_mul_r by (try apply Z.pow_pos_nonneg; lia). lia.
Qed.

Lemma le_decode_app bs1 bs2 :
  le_decode (bs1 ++ bs2) = le_decode bs1 + 256 ^ Z.of_nat (length bs1) * le_decode bs2.
Proof.
  induction bs1 as [|b bs1 IH]; [simpl; lia|].
  cbn [le_decode length app]. rewrite IH, Nat2Z.inj_succ, Z.pow_succ_r by lia. lia.
Qed.

(** The addresses [a], [a+1], ..., [a+n-1]. *)
Definition zseq (a n : Z) : list Z := (fun i => a + Z.of_nat i) <$> seq 0 (Z.to_nat n).

Lemma length_zseq a n : length (zseq a n) = Z.to_nat n.
Proof. unfold zseq. by rewrite length_fmap, length_seq. Qed.

(** ** Lists as multisets of live blocks *)

(** Remove one occurrence. *)
Fixpoint remove1 (p : Z) (l : list Z) : option (list Z) :=
  match l with
  | [] => None
  | q :: l' => if q =? p then Some l' else cons q <$> remove1 p l'
  end.

Lemma remove1_perm p l F :
  l ≡ₚ p :: F -> exists l', remove1 p l = Some l' /\ l' ≡ₚ F.
Proof.
  revert F; induction l as [|q l IH]; intros F HP.
  { by apply Permutation_nil_cons in HP. }
  simpl. destruct (Z.eqb_spec q p) as [->|Hne].
  - exists l. split; [done|]. by apply Permutation_cons_inv in HP.
  - assert (p ∈ l) as Hin.
    { assert (p ∈ q :: l) as Hp by (rewrite HP; left). by apply elem_of_cons in Hp as [?|?]. }
    apply elem_of_Permutation in Hin as [l0 Hl0].
    destruct (IH l0 Hl0) as (l' & -> & Hl'). exists (q :: l'). split; [done|].
    rewrite Hl'. apply (Permutation_cons_inv (a := p)).
    rewrite <- HP, Hl0. constructor.
Qed.

(** ** Tactics *)

(** Split a boolean test of the code and reflect it to [Z]. *)
Ltac zbool :=
  repeat match goal with
  | H : andb _ _ = true |- _ => apply andb_prop in H; destruct H
  | H : orb _ _ = false |- _ => apply orb_false_elim in H; destruct H
  | H : negb _ = true |- _ => apply negb_true_iff in H
  | H : negb _ = false |- _ => apply negb_false_iff in H
  | H : Z.ltb _ _ = true |- _ => apply Z.ltb_lt in H
  | H : Z.ltb _ _ = false |- _ => apply Z.ltb_ge in H
  | H : Z.leb _ _ = true |- _ => apply Z.leb_le in H
  | H : Z.leb _ _ = false |- _ => apply Z.leb_gt in H
  | H : Z.eqb _ _ = true |- _ => apply Z.eqb_eq in H
  | H : Z.eqb _ _ = false |- _ => apply Z.eqb_neq in H
  end.

(** Case analysis on the test of the [if] in the goal. *)
Ltac case_if :=
  match goal with
  | |- context [if ?b then _ else _] => let E := fresh "Eb" in destruct b eqn:E
  end.

Ltac wp_step :=
  lazymatch goal with
  | |- wp (bindM _ _) _ _ _ => apply wp_bind
  | |- wp (mret _) _ _ _ => apply wp_ret
  | |- wp (fmap _ _) _ _ _ => apply wp_fmap
  | |- wp (let '(_, _) := ?x in _) _ _ _ => destruct x
  end.
