(* ===== verification/Memslot.v ===== *)
(** * Guest memory slots (src/server/memslot.c, memslot.h)

    A QXL guest address carries a slot id and a generation in its top bits; the
    server turns it into a host address through the table of memory slots the
    hypervisor registered.  This file models the table, its set-up and update
    operations and the translation and validation of addresses.

    Pointers and [uintptr_t] are 64 bits wide; the null pointer is [0].  The
    log output ([print_memslots], [spice_warning], [spice_critical]) is not
    modelled: [spice_critical] is followed by the error return in every case,
    and that return is what the model does. *)

From stdpp Require Import base list numbers tactics option.
From Stdlib Require Import ZArith Lia.
From S2P Require Import Prelude.

Open Scope Z_scope.

Record MemSlot := mkMemSlot {
  generation : Z;        (** int *)
  virt_start_addr : Z;   (** uintptr_t *)
  virt_end_addr : Z;
  address_delta : Z }.

Record RedMemSlotInfo := mkRedMemSlotInfo {
  mem_slots : list (list MemSlot);  (** [mem_slots[group][slot]] *)
  num_memslots_groups : Z;
  num_memslots : Z;
  mem_slot_bits : Z;
  generation_bits : Z;
  memslot_id_shift : Z;
  memslot_gen_shift : Z;
  internal_groupslot_id : Z;
  memslot_gen_mask : Z;
  memslot_clean_virt_mask : Z }.

Definition zero_slot : MemSlot := mkMemSlot 0 0 0 0.

Definition memslot_get_id (info : RedMemSlotInfo) (addr : Z) : Z :=
  s32 (Z.shiftr addr (memslot_id_shift info)).

Definition memslot_get_generation (info : RedMemSlotInfo) (addr : Z) : Z :=
  s32 (Z.land (Z.shiftr addr (memslot_gen_shift info)) (memslot_gen_mask info)).

Definition __get_clean_virt (info : RedMemSlotInfo) (addr : Z) : Z :=
  Z.land addr (memslot_clean_virt_mask info).

Section operations.
Context {S : Type}.

(** [&info->mem_slots[group_id][slot_id]] *)
Definition slot_ref (info : RedMemSlotInfo) (group_id slot_id : Z) : M S MemSlot :=
  group ← index (mem_slots info) group_id;
  index group slot_id.

(** [true] is the 1 of a successful validation. *)
Definition memslot_validate_virt (info : RedMemSlotInfo) (virt slot_id add_size group_id : Z)
    : M S bool :=
  let add_size := u32 add_size in
  slot ← slot_ref info (u32 group_id) slot_id;
  if u64 (virt + add_size) <? virt then mret false
  else if (virt <? virt_start_addr slot) || (virt_end_addr slot <? u64 (virt + add_size))
  then mret false
  else mret true.

Definition memslot_max_size_virt (info : RedMemSlotInfo) (virt slot_id group_id : Z) : M S Z :=
  slot ← slot_ref info (u32 group_id) slot_id;
  if (virt <? virt_start_addr slot) || (virt_end_addr slot <? virt) then mret 0
  else mret (u64 (virt_end_addr slot - virt)).

(** Comparisons between an [int] and a [uint32_t] convert the [int]. *)
Definition memslot_get_virt (info : RedMemSlotInfo) (addr add_size group_id : Z) : M S Z :=
  if num_memslots_groups info <=? u32 group_id then mret 0
  else
    let slot_id := memslot_get_id info addr in
    if num_memslots info <=? u32 slot_id then mret 0
    else
      slot ← slot_ref info group_id slot_id;
      if negb (memslot_get_generation info addr =? generation slot) then mret 0
      else
        let h_virt := u64 (__get_clean_virt info addr + address_delta slot) in
        ok ← memslot_validate_virt info h_virt slot_id add_size group_id;
        if negb ok then mret 0 else mret h_virt.

Definition memslot_info_init (num_groups num_slots gen_bits id_bits internal_id : Z)
    : M S RedMemSlotInfo :=
  spice_assert (0 <? num_slots);;
  spice_assert (0 <? num_groups);;
  mret {| mem_slots := replicate (Z.to_nat num_groups) (replicate (Z.to_nat num_slots) zero_slot);
          num_memslots_groups := num_groups;
          num_memslots := num_slots;
          mem_slot_bits := id_bits;
          generation_bits := gen_bits;
          memslot_id_shift := u8 (64 - id_bits);
          memslot_gen_shift := u8 (64 - (id_bits + gen_bits));
          internal_groupslot_id := internal_id;
          memslot_gen_mask := u64 (Z.lnot (Z.shiftl (-1) gen_bits));
          memslot_clean_virt_mask := Z.shiftr (u64 (-1)) (id_bits + gen_bits) |}.

(** [info->mem_slots[group][id] = f(info->mem_slots[group][id])] *)
Definition upd_slot (info : RedMemSlotInfo) (group id : Z) (f : MemSlot -> MemSlot)
    : RedMemSlotInfo :=
  {| mem_slots := alter (alter f (Z.to_nat id)) (Z.to_nat group) (mem_slots info);
     num_memslots_groups := num_memslots_groups info;
     num_memslots := num_memslots info;
     mem_slot_bits := mem_slot_bits info;
     generation_bits := generation_bits info;
     memslot_id_shift := memslot_id_shift info;
     memslot_gen_shift := memslot_gen_shift info;
     internal_groupslot_id := internal_groupslot_id info;
     memslot_gen_mask := memslot_gen_mask info;
     memslot_clean_virt_mask := memslot_clean_virt_mask info |}.

Definition memslot_info_add_slot (info : RedMemSlotInfo)
    (slot_group_id slot_id addr_delta virt_start virt_end gen : Z) : M S RedMemSlotInfo :=
  spice_assert (slot_group_id <? num_memslots_groups info);;
  spice_assert (slot_id <? num_memslots info);;
  mret (upd_slot info slot_group_id slot_id
          (fun _ => mkMemSlot (s32 gen) virt_start virt_end addr_delta)).
End operations.

(** [spice_return_if_fail] leaves the table as it is. *)
Definition memslot_info_del_slot (info : RedMemSlotInfo) (slot_group_id slot_id : Z)
    : RedMemSlotInfo :=
  if negb (slot_group_id <? num_memslots_groups info) then info
  else if negb (slot_id <? num_memslots info) then info
  else upd_slot info slot_group_id slot_id
         (fun s => mkMemSlot (generation s) 0 0 (address_delta s)).

Definition memslot_info_reset (info : RedMemSlotInfo) : RedMemSlotInfo :=
  {| mem_slots := (fun _ => replicate (Z.to_nat (num_memslots info)) zero_slot) <$> mem_slots info;
     num_memslots_groups := num_memslots_groups info;
     num_memslots := num_memslots info;
     mem_slot_bits := mem_slot_bits info;
     generation_bits := generation_bits info;
     memslot_id_shift := memslot_id_shift info;
     memslot_gen_shift := memslot_gen_shift info;
     internal_groupslot_id := internal_groupslot_id info;
     memslot_gen_mask := memslot_gen_mask info;
     memslot_clean_virt_mask := memslot_clean_virt_mask info |}.

(** ** Invariant of the table *)

Definition slot_ok (sl : MemSlot) : Prop :=
  0 <= virt_start_addr sl < 2 ^ 64 /\ 0 <= virt_end_addr sl < 2 ^ 64 /\
  0 <= address_delta sl < 2 ^ 64 /\ -2 ^ 31 <= generation sl < 2 ^ 31.

Record slots_wf (info : RedMemSlotInfo) : Prop := {
  wf_groups : Z.of_nat (length (mem_slots info)) = num_memslots_groups info;
  wf_groups_pos : 0 < num_memslots_groups info < 2 ^ 31;
  wf_slots : Forall (fun g => Z.of_nat (length g) = num_memslots info) (mem_slots info);
  wf_slots_pos : 0 < num_memslots info < 2 ^ 31;
  wf_slot_ok : Forall (Forall slot_ok) (mem_slots info) }.

(** The bytes [a, a+n) lie inside the host range of slot [sid] of group [gid]. *)
Definition in_slot (info : RedMemSlotInfo) (gid sid a n : Z) : Prop :=
  exists g sl, mem_slots info !! Z.to_nat gid = Some g /\ g !! Z.to_nat sid = Some sl /\
    virt_start_addr sl <= a /\ 0 <= n /\ a + n <= virt_end_addr sl.

Definition slot_id_ok (info : RedMemSlotInfo) (sid : Z) : Prop := 0 <= sid < num_memslots info.
Definition group_ok (info : RedMemSlotInfo) (gid : Z) : Prop := 0 <= gid < num_memslots_groups info.

Lemma in_slot_sub info gid sid a n a' n' :
  in_slot info gid sid a n -> a <= a' -> 0 <= n' -> a' + n' <= a + n ->
  in_slot info gid sid a' n'.
Proof. intros (g & sl & ? & ? & ? & ? & ?) ? ? ?. exists g, sl. repeat split; auto; lia. Qed.

Lemma in_slot_bound info gid sid a n :
  slots_wf info -> in_slot info gid sid a n -> 0 <= a /\ a + n < 2 ^ 64.
Proof.
  intros Hwf (g & sl & Hg & Hsl & ? & ? & ?).
  pose proof (wf_slot_ok _ Hwf) as HF.
  eapply Forall_lookup_1 in HF; [|exact Hg]. eapply Forall_lookup_1 in HF; [|exact Hsl].
  destruct HF as (? & ? & _). lia.
Qed.

Section specs.
Context {S : Type}.
Implicit Types (s : S) (E : option ub_kind -> S -> Prop).

Lemma wp_slot_ref info gid sid (Q : MemSlot -> S -> Prop) E s :
  slots_wf info -> group_ok info gid -> slot_id_ok info sid ->
  (forall g sl, mem_slots info !! Z.to_nat gid = Some g -> g !! Z.to_nat sid = Some sl ->
     slot_ok sl -> Q sl s) ->
  wp (slot_ref info gid sid) Q E s.
Proof.
  intros Hwf Hg Hs HQ. unfold slot_ref, group_ok, slot_id_ok in *. apply wp_bind, wp_index.
  { rewrite (wf_groups _ Hwf). lia. }
  intros g Hlg. pose proof (wf_slots _ Hwf) as HF.
  eapply Forall_lookup_1 in HF; [|exact Hlg].
  apply wp_index; [lia|]. intros sl Hsl. apply (HQ g); auto.
  pose proof (wf_slot_ok _ Hwf) as HF2.
  eapply Forall_lookup_1 in HF2; [|exact Hlg]. by eapply Forall_lookup_1 in HF2.
Qed.

Lemma wp_validate_virt info virt sid size gid (Q : bool -> S -> Prop) E s :
  slots_wf info -> group_ok info gid -> slot_id_ok info sid -> 0 <= virt < 2 ^ 64 ->
  (in_slot info gid sid virt (u32 size) -> Q true s) ->
  (~ in_slot info gid sid virt (u32 size) -> Q false s) ->
  wp (memslot_validate_virt info virt sid size gid) Q E s.
Proof.
  intros Hwf Hg Hs Hv HQt HQf. unfold memslot_validate_virt.
  pose proof (wf_groups_pos _ Hwf). unfold group_ok in Hg.
  rewrite (u32_id gid) by lia.
  apply wp_bind, wp_slot_ref; [done..|]. intros g sl Hlg Hsl (Hs1 & Hs2 & _).
  pose proof (u32_range size) as Hr.
  assert (Hiff : in_slot info gid sid virt (u32 size) <->
                 virt_start_addr sl <= virt /\ virt + u32 size <= virt_end_addr sl).
  { split.
    - intros (g' & sl' & Hg' & Hsl' & ? & ? & ?). simplify_eq. done.
    - intros []. exists g, sl. repeat split; auto; lia. }
  case_if.
  { apply wp_ret, HQf. zbool. rewrite Hiff. intros [? ?].
    rewrite u64_id in Eb; lia. }
  assert (virt + u32 size < 2 ^ 64) as Hlt.
  { zbool. destruct (Z.lt_ge_cases (virt + u32 size) (2 ^ 64)) as [|Hge]; [done|exfalso].
    revert Eb. unfold u64, uwrap.
    replace (virt + u32 size) with (virt + u32 size - 2 ^ 64 + 1 * 2 ^ 64) by lia.
    rewrite Z.mod_add, Z.mod_small by lia. lia. }
  rewrite u64_id by lia.
  case_if; apply wp_ret; [apply HQf|apply HQt]; rewrite Hiff; zbool; [|lia].
  apply orb_prop in Eb0 as [Eb0|Eb0]; zbool; lia.
Qed.

(** A successful translation: where the address points to. *)
Definition virt_ok (info : RedMemSlotInfo) (gid addr size v : Z) : Prop :=
  group_ok info gid /\ slot_id_ok info (memslot_get_id info addr) /\
  0 < v < 2 ^ 64 /\ in_slot info gid (memslot_get_id info addr) v (u32 size).

Lemma wp_get_virt info addr size gid (Q : Z -> S -> Prop) E s :
  slots_wf info -> -2 ^ 31 <= gid < 2 ^ 31 ->
  Q 0 s ->
  (forall v, virt_ok info gid addr size v -> Q v s) ->
  wp (memslot_get_virt info addr size gid) Q E s.
Proof.
  intros Hwf Hgid HQ0 HQ. unfold memslot_get_virt.
  pose proof (wf_groups_pos _ Hwf). pose proof (wf_slots_pos _ Hwf).
  case_if; [by apply wp_ret|]. zbool.
  assert (group_ok info gid) as Hg by (apply u32_lt_bound; lia).
  case_if; [by apply wp_ret|]. zbool.
  pose proof (s32_range (Z.shiftr addr (memslot_id_shift info))) as Hr.
  fold (memslot_get_id info addr) in Hr.
  assert (slot_id_ok info (memslot_get_id info addr)) as Hs by (apply u32_lt_bound; lia).
  apply wp_bind, wp_slot_ref; [done..|]. intros g sl Hlg Hsl Hok.
  case_if; [by apply wp_ret|].
  set (v := u64 _). assert (0 <= v < 2 ^ 64) as Hv by apply u64_range.
  apply wp_bind, wp_validate_virt; [done..| |]; intros Hin; simpl; [|by apply wp_ret].
  apply wp_ret. destruct (decide (v = 0)) as [->|]; [done|].
  apply HQ. unfold virt_ok. repeat split; auto; unfold group_ok, slot_id_ok in *; try lia.
Qed.

Lemma wp_max_size_virt info virt sid gid (Q : Z -> S -> Prop) E s :
  slots_wf info -> group_ok info gid -> slot_id_ok info sid -> 0 <= virt < 2 ^ 64 ->
  (forall n, 0 <= n < 2 ^ 64 -> (0 < n -> in_slot info gid sid virt n) -> Q n s) ->
  wp (memslot_max_size_virt info virt sid gid) Q E s.
Proof.
  intros Hwf Hg Hs Hv HQ. unfold memslot_max_size_virt.
  pose proof (wf_groups_pos _ Hwf). unfold group_ok in Hg. rewrite (u32_id gid) by lia.
  apply wp_bind, wp_slot_ref; [done..|]. intros g sl Hlg Hsl (Hs1 & Hs2 & _).
  case_if; apply wp_ret; [apply HQ; lia|]. zbool. rewrite u64_id by lia.
  apply HQ; [lia|]. intros _. exists g, sl. repeat split; auto; lia.
Qed.
End specs.

(** ** The table operations preserve the invariant *)

Lemma upd_slot_wf info gid sid f :
  slots_wf info -> (forall sl, slot_ok sl -> slot_ok (f sl)) -> slots_wf (upd_slot info gid sid f).
Proof.
  intros [H1 H2 H3 H4 H5] Hf. split; simpl; try done.
  - by rewrite length_alter.
  - apply Forall_alter; [done|]. intros g Hg Hlen. by rewrite length_alter.
  - apply Forall_alter; [done|]. intros g Hg Hg'. apply Forall_alter; auto.
Qed.

Lemma memslot_info_init_wf {S} ng ns gb ib iid (s s' : S) info :
  ng < 2 ^ 31 -> ns < 2 ^ 31 ->
  memslot_info_init ng ns gb ib iid s = Ok info s' -> slots_wf info.
Proof.
  intros Hng Hns Hi. unfold memslot_info_init in Hi. cbn in Hi.
  destruct (Z.ltb_spec 0 ns); [|done]. destruct (Z.ltb_spec 0 ng); [|done].
  cbn in Hi. injection Hi as <- <-. split; simpl; try lia.
  - rewrite length_replicate. lia.
  - apply Forall_replicate. rewrite length_replicate. lia.
  - apply Forall_replicate, Forall_replicate. unfold slot_ok; simpl; lia.
Qed.

(** A slot written by [upd_slot] is read back. *)
Lemma upd_slot_lookup info gid sid f :
  slots_wf info -> group_ok info gid -> slot_id_ok info sid ->
  exists g sl, mem_slots info !! Z.to_nat gid = Some g /\ g !! Z.to_nat sid = Some sl /\
    mem_slots (upd_slot info gid sid f) !! Z.to_nat gid = Some (alter f (Z.to_nat sid) g) /\
    alter f (Z.to_nat sid) g !! Z.to_nat sid = Some (f sl).
Proof.
  intros Hwf Hg Hs. unfold group_ok, slot_id_ok in *.
  destruct (lookup_lt_is_Some_2 (mem_slots info) (Z.to_nat gid)) as [g Hlg].
  { rewrite <- (wf_groups _ Hwf) in Hg. lia. }
  pose proof (wf_slots _ Hwf) as HF. eapply Forall_lookup_1 in HF; [|exact Hlg]. simpl in HF.
  destruct (lookup_lt_is_Some_2 g (Z.to_nat sid)) as [sl Hsl]; [lia|].
  exists g, sl. repeat split; auto; simpl.
  - rewrite list_lookup_alter_eq. by rewrite Hlg.
  - rewrite list_lookup_alter_eq. by rewrite Hsl.
Qed.

(** Evaluation of the translation once the slot is known. *)
Lemma get_virt_eval {S} info addr size gid g sl (s : S) :
  slots_wf info -> group_ok info gid -> slot_id_ok info (memslot_get_id info addr) ->
  mem_slots info !! Z.to_nat gid = Some g ->
  g !! Z.to_nat (memslot_get_id info addr) = Some sl ->
  memslot_get_virt info addr size gid s =
  Ok (if memslot_get_generation info addr =? generation sl then
        let v := u64 (__get_clean_virt info addr + address_delta sl) in
        if (virt_start_addr sl <=? v) && (v + u32 size <=? virt_end_addr sl) then v else 0
      else 0) s.
Proof.
  intros Hwf Hg Hs Hlg Hsl. unfold memslot_get_virt.
  pose proof (wf_groups_pos _ Hwf). pose proof (wf_slots_pos _ Hwf).
  unfold group_ok, slot_id_ok in *.
  rewrite (u32_id gid) by lia. rewrite (u32_id (memslot_get_id info addr)) by lia.
  destruct (Z.leb_spec (num_memslots_groups info) gid); [lia|].
  destruct (Z.leb_spec (num_memslots info) (memslot_get_id info addr)); [lia|].
  unfold slot_ref, index, bindM, mret, M_ret.
  destruct (Z.ltb_spec gid 0); [lia|]. rewrite Hlg. cbn.
  destruct (Z.ltb_spec (memslot_get_id info addr) 0); [lia|]. rewrite Hsl.
  destruct (_ =? generation sl); cbn; [|done].
  set (v := u64 _). assert (0 <= v < 2 ^ 64) as Hv by apply u64_range.
  pose proof (wp_validate_virt (S := S) info v (memslot_get_id info addr) size gid
    (fun b s' => s' = s /\ (b = true <-> in_slot info gid (memslot_get_id info addr) v (u32 size)))
    (fun _ _ => False) s Hwf ltac:(done) ltac:(done) Hv) as Hw.
  specialize (Hw ltac:(done) ltac:(intros; split; [done|split; [discriminate|tauto]])).
  assert (Hiff : in_slot info gid (memslot_get_id info addr) v (u32 size) <->
                 virt_start_addr sl <= v /\ v + u32 size <= virt_end_addr sl).
  { pose proof (u32_range size). split.
    - intros (g' & sl' & Hg' & Hsl' & ? & ? & ?). simplify_eq. done.
    - intros []. exists g, sl. repeat split; auto; lia. }
  unfold wp in Hw. destruct (memslot_validate_virt _ _ _ _ _ s) as [b s'|s'|k s'];
    [|done|done].
  destruct Hw as [-> Hb]. rewrite Hiff in Hb.
  destruct b; simpl; f_equal.
  - destruct Hb as [Hb _]. specialize (Hb eq_refl) as [? ?].
    destruct (Z.leb_spec (virt_start_addr sl) v); [|lia].
    destruct (Z.leb_spec (v + u32 size) (virt_end_addr sl)); [done|lia].
  - destruct (Z.leb_spec (virt_start_addr sl) v); [|done].
    destruct (Z.leb_spec (v + u32 size) (virt_end_addr sl)); [|done].
    exfalso. destruct Hb as [_ Hb]. by discriminate Hb.
Qed.

(** ** Addresses built from a slot id, a generation and an offset *)

(** The guest address of offset [off] in slot [id], generation [gen], for a
    table with [ib] slot-id bits and [gb] generation bits. *)
Definition guest_addr (ib gb id gen off : Z) : Z :=
  id * 2 ^ (64 - ib) + gen * 2 ^ (64 - (ib + gb)) + off.

Definition init_geometry (ib gb : Z) (info : RedMemSlotInfo) : Prop :=
  memslot_id_shift info = 64 - ib /\ memslot_gen_shift info = 64 - (ib + gb) /\
  memslot_gen_mask info = Z.ones gb /\ memslot_clean_virt_mask info = Z.ones (64 - (ib + gb)).

Lemma init_has_geometry {S} ng ns gb ib iid (s s' : S) info :
  0 < ib -> 0 <= gb -> ib + gb < 64 ->
  memslot_info_init ng ns gb ib iid s = Ok info s' -> init_geometry ib gb info.
Proof.
  intros Hib Hgb Hsum Hi. unfold memslot_info_init in Hi. cbn -[Z.shiftl Z.shiftr u8 u64] in Hi.
  destruct (Z.ltb_spec 0 ns); [|done]. destruct (Z.ltb_spec 0 ng); [|done].
  cbn -[Z.shiftl Z.shiftr u8 u64] in Hi. injection Hi as <- <-. unfold init_geometry.
  cbn -[Z.shiftl Z.shiftr u8 u64 Z.ones]. rewrite !u8_id by lia. split_and!; auto.
  - rewrite Z.shiftl_mul_pow2 by lia. replace (Z.lnot (-1 * 2 ^ gb)) with (Z.ones gb).
    + rewrite u64_id; [done|]. rewrite Z.ones_equiv.
      assert (0 < 2 ^ gb) by (apply Z.pow_pos_nonneg; lia).
      assert (2 ^ gb <= 2 ^ 63) by (apply Z.pow_le_mono_r; lia). lia.
    + rewrite Z.ones_equiv. pose proof (Z.add_lnot_diag (-1 * 2 ^ gb)). lia.
  - change (u64 (-1)) with (Z.ones 64). rewrite Z.shiftr_div_pow2 by lia.
    rewrite Z.ones_div_pow2 by lia. done.
Qed.

Lemma guest_addr_fields ib gb id gen off info :
  init_geometry ib gb info ->
  0 < ib <= 31 -> 0 <= gb <= 31 -> 0 <= id < 2 ^ ib -> 0 <= gen < 2 ^ gb ->
  0 <= off < 2 ^ (64 - (ib + gb)) ->
  memslot_get_id info (guest_addr ib gb id gen off) = id /\
  memslot_get_generation info (guest_addr ib gb id gen off) = gen /\
  __get_clean_virt info (guest_addr ib gb id gen off) = off.
Proof.
  intros (H1 & H2 & H3 & H4) Hib Hgb Hid Hgen Hoff.
  set (w := 64 - (ib + gb)) in *.
  assert (0 < 2 ^ w) by (apply Z.pow_pos_nonneg; lia).
  assert (2 ^ (64 - ib) = 2 ^ gb * 2 ^ w) as Hpow
    by (rewrite <- Z.pow_add_r by lia; f_equal; lia).
  assert (2 ^ ib <= 2 ^ 31) by (apply Z.pow_le_mono_r; lia).
  assert (2 ^ gb <= 2 ^ 31) by (apply Z.pow_le_mono_r; lia).
  assert (gen * 2 ^ w + off < 2 ^ (64 - ib)) by (rewrite Hpow; nia).
  unfold memslot_get_id, memslot_get_generation, __get_clean_virt.
  rewrite H1, H2, H3, H4. fold w. unfold guest_addr. fold w. split_and!.
  - rewrite Z.shiftr_div_pow2 by lia.
    replace (_ / _) with id; [apply s32_id; lia|].
    apply Z.div_unique with (gen * 2 ^ w + off); lia.
  - rewrite Z.shiftr_div_pow2, Z.land_ones by lia.
    replace (_ / _) with (id * 2 ^ gb + gen).
    + rewrite Z.add_comm, Z.mod_add, Z.mod_small, s32_id; lia.
    + apply Z.div_unique with off; [lia|]. rewrite Hpow. lia.
  - rewrite Z.land_ones by lia. rewrite Hpow.
    replace (_ + off) with (off + (id * 2 ^ gb + gen) * 2 ^ w) by lia.
    rewrite Z.mod_add, Z.mod_small; lia.
Qed.

(** C17: a slot registered with [memslot_info_add_slot] in a freshly
    initialised table is reachable: the guest address made of its id, its
    generation and an offset whose translated range fits the slot is
    translated to [addr_delta + off], and the same address with another
    generation is refused. *)
Theorem memslot_add_then_get_virt (ng ns gb ib iid gid sid delta vstart vend gen gen' off size : Z)
    (info info' : RedMemSlotInfo) :
  0 < ib <= 31 -> 0 <= gb <= 31 -> ng < 2 ^ 31 -> ns < 2 ^ 31 ->
  memslot_info_init ng ns gb ib iid tt = Ok info tt ->
  0 <= gid -> 0 <= sid < 2 ^ ib -> 0 <= gen < 2 ^ gb -> 0 <= gen' < 2 ^ gb -> gen' <> gen ->
  memslot_info_add_slot info gid sid delta vstart vend gen tt = Ok info' tt ->
  0 <= vstart -> 0 <= delta -> vend < 2 ^ 64 ->
  0 <= off < 2 ^ (64 - (ib + gb)) -> 0 <= size < 2 ^ 32 ->
  vstart <= delta + off -> delta + off + size <= vend ->
  memslot_get_virt info' (guest_addr ib gb sid gen off) size gid tt = Ok (delta + off) tt /\
  memslot_get_virt info' (guest_addr ib gb sid gen' off) size gid tt = Ok 0 tt.
Proof.
  intros Hib Hgb Hng Hns Hinit Hgid Hsid Hgen Hgen' Hne Hadd Hvs Hd Hve Hoff Hsize Hlo Hhi.
  pose proof (memslot_info_init_wf _ _ _ _ _ _ _ _ Hng Hns Hinit) as Hwf.
  pose proof (init_has_geometry ng ns gb ib iid tt tt info ltac:(lia) ltac:(lia) ltac:(lia) Hinit) as Hgeo.
  unfold memslot_info_add_slot in Hadd. cbn in Hadd.
  destruct (Z.ltb_spec gid (num_memslots_groups info)); [|done].
  destruct (Z.ltb_spec sid (num_memslots info)); [|done]. cbn in Hadd. injection Hadd as <-.
  set (f := fun _ => _).
  assert (2 ^ gb <= 2 ^ 31) by (apply Z.pow_le_mono_r; lia).
  assert (slots_wf (upd_slot info gid sid f)) as Hwf'.
  { apply upd_slot_wf; [done|]. intros sl0 _. unfold f, slot_ok; simpl.
    rewrite s32_id by lia. lia. }
  destruct (upd_slot_lookup info gid sid f Hwf) as (g & sl & Hg & Hsl & Hg' & Hsl');
    [unfold group_ok; lia|unfold slot_id_ok; lia|].
  assert (init_geometry ib gb (upd_slot info gid sid f)) as Hgeo' by exact Hgeo.
  assert (0 < 2 ^ (64 - (ib + gb))) by (apply Z.pow_pos_nonneg; lia).
  destruct (guest_addr_fields ib gb sid gen off _ Hgeo') as (I1 & I2 & I3); [lia..|].
  destruct (guest_addr_fields ib gb sid gen' off _ Hgeo') as (J1 & J2 & J3); [lia..|].
  split; (erewrite get_virt_eval;
    [|done|unfold group_ok; simpl; lia|rewrite ?I1, ?J1; unfold slot_id_ok; simpl; lia
     |exact Hg'|rewrite ?I1, ?J1; exact Hsl']); f_equal;
    rewrite ?I2, ?I3, ?J2, ?J3; unfold f; simpl; rewrite s32_id by lia.
  - rewrite Z.eqb_refl. rewrite (u32_id size) by lia. rewrite u64_id by lia.
    replace (off + delta) with (delta + off) by lia.
    destruct (Z.leb_spec vstart (delta + off)); [|lia].
    destruct (Z.leb_spec (delta + off + size) vend); [done|lia].
  - destruct (Z.eqb_spec gen' gen); [lia|done].
Qed.

Lemma memslot_add_then_get_virt_witness :
  exists info info',
    memslot_info_init 1 8 8 8 0 tt = Ok info tt /\
    memslot_info_add_slot info 0 1 4096 4096 8192 5 tt = Ok info' tt /\
    memslot_get_virt info' (guest_addr 8 8 1 5 16) 32 0 tt = Ok 4112 tt /\
    memslot_get_virt info' (guest_addr 8 8 1 6 16) 32 0 tt = Ok 0 tt.
Proof.
  eexists _, _. split; [reflexivity|]. split; [reflexivity|].
  eapply (memslot_add_then_get_virt 1 8 8 8 0 0 1 4096 4096 8192 5 6 16 32);
    try reflexivity; try lia.
Defined.

(** C1: no guest address makes the translation step outside the slot table or
    hand out memory outside a registered slot.  For every well-formed table and
    every guest address, size and group id, [memslot_get_virt] returns (no
    out-of-range index); a non-null result is the clean address plus the delta
    of the slot the address names, that slot has the address's generation, and
    the whole range [v, v + size) lies between the slot's bounds. *)
Theorem memslot_get_virt_safe (info : RedMemSlotInfo) (addr size gid : Z) :
  slots_wf info -> -2 ^ 31 <= gid < 2 ^ 31 ->
  exists v, memslot_get_virt info addr size gid tt = Ok v tt /\
    (v <> 0 -> exists g sl,
       mem_slots info !! Z.to_nat gid = Some g /\
       g !! Z.to_nat (memslot_get_id info addr) = Some sl /\
       memslot_get_generation info addr = generation sl /\
       v = u64 (__get_clean_virt info addr + address_delta sl) /\
       virt_start_addr sl <= v /\ v + u32 size <= virt_end_addr sl).
Proof.
  intros Hwf Hgid.
  destruct (Z.leb_spec (num_memslots_groups info) (u32 gid)) as [H|H].
  { exists 0. split; [|done]. unfold memslot_get_virt. by rewrite (proj2 (Z.leb_le _ _) H). }
  destruct (Z.leb_spec (num_memslots info) (u32 (memslot_get_id info addr))) as [H'|H'].
  { exists 0. split; [|done]. unfold memslot_get_virt.
    by rewrite (proj2 (Z.leb_gt _ _) H), (proj2 (Z.leb_le _ _) H'). }
  pose proof (wf_groups_pos _ Hwf). pose proof (wf_slots_pos _ Hwf).
  assert (group_ok info gid) as Hg by (apply u32_lt_bound; lia).
  assert (slot_id_ok info (memslot_get_id info addr)) as Hs
    by (apply u32_lt_bound; [apply s32_range|lia|lia]).
  destruct (upd_slot_lookup info gid _ (fun x => x) Hwf Hg Hs) as (g & sl & Hlg & Hsl & _).
  eexists. split; [by eapply get_virt_eval|].
  destruct (Z.eqb_spec (memslot_get_generation info addr) (generation sl)); [|done].
  cbv zeta. destruct (_ && _) eqn:Eb; [|done]. zbool. intros _.
  exists g, sl. repeat split; auto; lia.
Qed.

Lemma memslot_get_virt_safe_witness :
  let info := mkRedMemSlotInfo [[mkMemSlot 3 4096 8192 4096]] 1 1 8 8 56 48 0 255 (Z.ones 48) in
  exists v, memslot_get_virt info (guest_addr 8 8 0 3 100) 50 0 tt = Ok v tt /\ v = 4196.
Proof.
  intros info.
  assert (slots_wf info) as Hwf.
  { split; simpl; try lia; repeat constructor; simpl; try lia. }
  destruct (memslot_get_virt_safe info (guest_addr 8 8 0 3 100) 50 0 Hwf ltac:(lia)) as (v & Hv & _).
  exists v. split; [exact Hv|]. vm_compute in Hv. by injection Hv as <-.
Defined.

(** C18: a deleted slot is dead until it is registered again: after
    [memslot_info_del_slot] every non-empty access through that slot of that
    group is refused, whatever the generation, and accesses through any other
    slot or group are translated as before. *)
Theorem memslot_del_slot_refuses (info : RedMemSlotInfo) (gid sid gid' addr size : Z) :
  slots_wf info -> group_ok info gid -> slot_id_ok info sid ->
  -2 ^ 31 <= gid' < 2 ^ 31 -> 0 < size < 2 ^ 32 ->
  memslot_get_virt (memslot_info_del_slot info gid sid) addr size gid' tt =
  if (gid' =? gid) && (memslot_get_id info addr =? sid) then Ok 0 tt
  else memslot_get_virt info addr size gid' tt.
Proof.
  intros Hwf Hg Hs Hgid' Hsize. unfold memslot_info_del_slot.
  pose proof Hg as Hg0. pose proof Hs as Hs0. unfold group_ok, slot_id_ok in Hg0, Hs0.
  rewrite (proj2 (Z.ltb_lt gid _)) by lia. rewrite (proj2 (Z.ltb_lt sid _)) by lia. cbn [negb].
  set (f := fun s => _).
  assert (slots_wf (upd_slot info gid sid f)) as Hwf'.
  { apply upd_slot_wf; [done|]. unfold f, slot_ok; simpl; intros; lia. }
  destruct (upd_slot_lookup info gid sid f Hwf Hg Hs) as (g & sl & Hlg & Hsl & Hlg' & Hsl').
  destruct (Z.eqb_spec gid' gid) as [->|Hne]; simpl.
  - destruct (Z.eqb_spec (memslot_get_id info addr) sid) as [Hid|Hne].
    + erewrite get_virt_eval; [|done|done| |done|]; [|simpl..].
      2: { change (slot_id_ok info (memslot_get_id info addr)). by rewrite Hid. }
      2: { change (memslot_get_id (upd_slot info gid sid f) addr) with (memslot_get_id info addr).
           rewrite Hid. exact Hsl'. }
      f_equal. destruct (_ =? _); [|done]. cbv zeta. set (v := u64 _).
      assert (0 <= v < 2 ^ 64) by apply u64_range. unfold f; simpl.
      rewrite u32_id by lia. destruct (Z.leb_spec 0 v); [|done].
      destruct (Z.leb_spec (v + size) 0); [lia|done].
    + unfold memslot_get_virt, memslot_validate_virt, slot_ref, index.
      change (memslot_get_id (upd_slot info gid sid f) addr) with (memslot_get_id info addr).
      simpl. pose proof (s32_range (Z.shiftr addr (memslot_id_shift info))) as Hr.
      fold (memslot_get_id info addr) in Hr.
      destruct (Z.leb_spec (num_memslots_groups info) (u32 gid)); [done|].
      destruct (Z.leb_spec (num_memslots info) (u32 (memslot_get_id info addr))); [done|].
      pose proof (wf_groups_pos _ Hwf). pose proof (wf_slots_pos _ Hwf).
      assert (0 <= memslot_get_id info addr < num_memslots info) by (apply u32_lt_bound; lia).
      rewrite (u32_id gid) by lia.
      unfold bindM. destruct (Z.ltb_spec gid 0); [lia|].
      rewrite list_lookup_alter_eq, Hlg. simpl.
      destruct (Z.ltb_spec (memslot_get_id info addr) 0); [lia|].
      rewrite list_lookup_alter_ne by lia. done.
  - unfold memslot_get_virt, memslot_validate_virt, slot_ref, index.
    change (memslot_get_id (upd_slot info gid sid f) addr) with (memslot_get_id info addr). simpl.
    destruct (Z.leb_spec (num_memslots_groups info) (u32 gid')); [done|].
    pose proof (wf_groups_pos _ Hwf).
    assert (0 <= gid' < num_memslots_groups info) by (apply u32_lt_bound; lia).
    rewrite (u32_id gid') by lia.
    unfold bindM. rewrite list_lookup_alter_ne by lia. done.
Qed.

Lemma memslot_del_slot_refuses_witness :
  let info := mkRedMemSlotInfo [[mkMemSlot 3 4096 8192 4096]] 1 1 8 8 56 48 0 255 (Z.ones 48) in
  memslot_get_virt info (guest_addr 8 8 0 3 100) 50 0 tt = Ok 4196 tt /\
  memslot_get_virt (memslot_info_del_slot info 0 0) (guest_addr 8 8 0 3 100) 50 0 tt = Ok 0 tt.
Proof.
  intros info.
  assert (slots_wf info) as Hwf by (split; simpl; try lia; repeat constructor; simpl; lia).
  split; [reflexivity|].
  rewrite (memslot_del_slot_refuses info 0 0 0 (guest_addr 8 8 0 3 100) 50 Hwf);
    [reflexivity|unfold group_ok; simpl; lia|unfold slot_id_ok; simpl; lia|lia|lia].
Defined.
