(* ===== verification/QxlAbi.v ===== *)
(** * The guest ABI and the machine of the QXL parser

    The parser of src/server/red-parse-qxl.cpp reads structures that the guest
    driver wrote into its own memory.  Their layout is declared in
    spice-protocol ([spice/qxl_dev.h]), outside this repository, so the layout
    is a parameter here: [Abi] gives every structure a size and every member a
    place, and [AbiOk] states what C guarantees of any layout (a member lies
    inside its structure).  The same class carries the sizes of the host
    structures of spice-common, the numeric values of the protocol constants
    and the [SPICE_ALIGN] macro.

    The machine has the guest memory, the host heap and the resources handed
    back to the guest.  The guest runs concurrently with the server: the memory
    is a function of time, every read of a guest field is one tick, and the
    guest may change any byte between two reads.  Every guest access is logged,
    so that theorems can say where the parser reads. *)

From stdpp Require Import base list numbers tactics option.
From Stdlib Require Import ZArith Lia.
From S2P Require Import Prelude Memslot.

Open Scope Z_scope.

(** ** Structures and members

    Names follow the C declarations as the parser uses them: [QXLImage_bitmap_format]
    is the [bitmap.format] of a [QXLImage]. *)

Inductive qstruct :=
  | QXLDataChunk | QXLPoint | QXLPoint16 | QXLPointFix | QXLRect | QXLPath | QXLPathSeg
  | QXLClipRects | QXLImage | QXLPalette | QXLBrush | QXLQMask | QXLFill | QXLOpaque
  | QXLCopy | QXLTransparent | QXLAlphaBlend | QXLCompatAlphaBlend | QXLComposite | QXLRop3
  | QXLStroke | QXLString | QXLRasterGlyph | QXLText | QXLWhiteness | QXLClip
  | QXLDrawable | QXLCompatDrawable | QXLUpdateCmd | QXLMessage | QXLSurfaceCmd
  | QXLCursor | QXLCursorCmd.

(** Scalar members. *)
Inductive fld :=
  | QXLDataChunk_data_size | QXLDataChunk_next_chunk
  | QXLPoint_x | QXLPoint_y | QXLPoint16_x | QXLPoint16_y | QXLPointFix_x | QXLPointFix_y
  | QXLRect_top | QXLRect_left | QXLRect_bottom | QXLRect_right
  | QXLPathSeg_flags | QXLPathSeg_count
  | QXLClipRects_num_rects
  | QXLImage_descriptor_id | QXLImage_descriptor_type | QXLImage_descriptor_flags
  | QXLImage_descriptor_width | QXLImage_descriptor_height
  | QXLImage_bitmap_format | QXLImage_bitmap_flags | QXLImage_bitmap_x | QXLImage_bitmap_y
  | QXLImage_bitmap_stride | QXLImage_bitmap_palette | QXLImage_bitmap_data
  | QXLImage_surface_image_surface_id | QXLImage_quic_data_size
  | QXLPalette_num_ents | QXLPalette_unique
  | QXLBrush_type | QXLBrush_u_color | QXLBrush_u_pattern_pat
  | QXLQMask_bitmap | QXLQMask_flags
  | QXLFill_rop_descriptor
  | QXLOpaque_src_bitmap | QXLOpaque_rop_descriptor | QXLOpaque_scale_mode
  | QXLCopy_src_bitmap | QXLCopy_rop_descriptor | QXLCopy_scale_mode
  | QXLTransparent_src_bitmap | QXLTransparent_src_color | QXLTransparent_true_color
  | QXLAlphaBlend_alpha_flags | QXLAlphaBlend_alpha | QXLAlphaBlend_src_bitmap
  | QXLCompatAlphaBlend_alpha | QXLCompatAlphaBlend_src_bitmap
  | QXLComposite_flags | QXLComposite_src | QXLComposite_src_transform | QXLComposite_mask
  | QXLComposite_mask_transform | QXLComposite_src_origin_x | QXLComposite_src_origin_y
  | QXLComposite_mask_origin_x | QXLComposite_mask_origin_y
  | QXLRop3_src_bitmap | QXLRop3_rop3 | QXLRop3_scale_mode
  | QXLStroke_path | QXLStroke_attr_flags | QXLStroke_attr_style_nseg | QXLStroke_attr_style
  | QXLStroke_fore_mode | QXLStroke_back_mode
  | QXLString_data_size | QXLString_flags | QXLString_length
  | QXLRasterGlyph_width | QXLRasterGlyph_height
  | QXLText_str | QXLText_fore_mode | QXLText_back_mode
  | QXLClip_type | QXLClip_data
  | QXLDrawable_effect | QXLDrawable_mm_time | QXLDrawable_self_bitmap | QXLDrawable_surface_id
  | QXLDrawable_surfaces_dest_0 | QXLDrawable_surfaces_dest_1 | QXLDrawable_surfaces_dest_2
  | QXLDrawable_type
  | QXLCompatDrawable_effect | QXLCompatDrawable_mm_time | QXLCompatDrawable_bitmap_offset
  | QXLCompatDrawable_type
  | QXLUpdateCmd_update_id | QXLUpdateCmd_surface_id
  | QXLSurfaceCmd_surface_id | QXLSurfaceCmd_type | QXLSurfaceCmd_flags
  | QXLSurfaceCmd_u_surface_create_format | QXLSurfaceCmd_u_surface_create_width
  | QXLSurfaceCmd_u_surface_create_height | QXLSurfaceCmd_u_surface_create_stride
  | QXLSurfaceCmd_u_surface_create_data
  | QXLCursor_header_unique | QXLCursor_header_type | QXLCursor_header_width
  | QXLCursor_header_height | QXLCursor_header_hot_spot_x | QXLCursor_header_hot_spot_y
  | QXLCursor_data_size
  | QXLCursorCmd_type | QXLCursorCmd_u_set_visible | QXLCursorCmd_u_set_shape
  | QXLCursorCmd_u_trail_length | QXLCursorCmd_u_trail_frequency.

(** Members that are themselves structures; their address is taken with [&]. *)
Inductive memb :=
  | QXLPath_chunk | QXLClipRects_chunk | QXLString_chunk | QXLCursor_chunk
  | QXLImage_quic_data  (** the chunk header that [quic.data] is cast to *)
  | QXLBrush_u_pattern_pos | QXLQMask_pos
  | QXLFill_brush | QXLFill_mask
  | QXLOpaque_src_area | QXLOpaque_brush | QXLOpaque_mask
  | QXLCopy_src_area | QXLCopy_mask
  | QXLTransparent_src_area | QXLAlphaBlend_src_area | QXLCompatAlphaBlend_src_area
  | QXLRop3_src_area | QXLRop3_brush | QXLRop3_mask
  | QXLStroke_brush
  | QXLRasterGlyph_render_pos | QXLRasterGlyph_glyph_origin
  | QXLText_back_area | QXLText_fore_brush | QXLText_back_brush
  | QXLWhiteness_mask
  | QXLDrawable_bbox | QXLDrawable_clip | QXLDrawable_self_bitmap_area
  | QXLDrawable_surfaces_rects_0 | QXLDrawable_surfaces_rects_1 | QXLDrawable_surfaces_rects_2
  | QXLDrawable_u_alpha_blend | QXLDrawable_u_blackness | QXLDrawable_u_blend
  | QXLDrawable_u_copy | QXLDrawable_u_copy_bits_src_pos | QXLDrawable_u_fill
  | QXLDrawable_u_opaque | QXLDrawable_u_invers | QXLDrawable_u_rop3
  | QXLDrawable_u_composite | QXLDrawable_u_stroke | QXLDrawable_u_text
  | QXLDrawable_u_transparent | QXLDrawable_u_whiteness
  | QXLCompatDrawable_bbox | QXLCompatDrawable_clip | QXLCompatDrawable_bitmap_area
  | QXLCompatDrawable_u_alpha_blend | QXLCompatDrawable_u_blackness | QXLCompatDrawable_u_blend
  | QXLCompatDrawable_u_copy | QXLCompatDrawable_u_copy_bits_src_pos | QXLCompatDrawable_u_fill
  | QXLCompatDrawable_u_opaque | QXLCompatDrawable_u_invers | QXLCompatDrawable_u_rop3
  | QXLCompatDrawable_u_stroke | QXLCompatDrawable_u_text
  | QXLCompatDrawable_u_transparent | QXLCompatDrawable_u_whiteness
  | QXLUpdateCmd_area
  | QXLCursorCmd_u_set_position | QXLCursorCmd_u_position.

(** Members of which the parser only takes the address: the trailing arrays
    ([data[0]], [points[0]], [ents[0]]) and the release records. *)
Inductive tail :=
  | QXLDataChunk_data | QXLPathSeg_points | QXLPalette_ents | QXLRasterGlyph_data
  | QXLMessage_data
  | QXLDrawable_release_info | QXLCompatDrawable_release_info | QXLUpdateCmd_release_info
  | QXLMessage_release_info | QXLSurfaceCmd_release_info | QXLCursorCmd_release_info.

Definition fld_of (f : fld) : qstruct :=
  match f with
  | QXLDataChunk_data_size | QXLDataChunk_next_chunk => QXLDataChunk
  | QXLPoint_x | QXLPoint_y => QXLPoint
  | QXLPoint16_x | QXLPoint16_y => QXLPoint16
  | QXLPointFix_x | QXLPointFix_y => QXLPointFix
  | QXLRect_top | QXLRect_left | QXLRect_bottom | QXLRect_right => QXLRect
  | QXLPathSeg_flags | QXLPathSeg_count => QXLPathSeg
  | QXLClipRects_num_rects => QXLClipRects
  | QXLImage_descriptor_id | QXLImage_descriptor_type | QXLImage_descriptor_flags
  | QXLImage_descriptor_width | QXLImage_descriptor_height
  | QXLImage_bitmap_format | QXLImage_bitmap_flags | QXLImage_bitmap_x | QXLImage_bitmap_y
  | QXLImage_bitmap_stride | QXLImage_bitmap_palette | QXLImage_bitmap_data
  | QXLImage_surface_image_surface_id | QXLImage_quic_data_size => QXLImage
  | QXLPalette_num_ents | QXLPalette_unique => QXLPalette
  | QXLBrush_type | QXLBrush_u_color | QXLBrush_u_pattern_pat => QXLBrush
  | QXLQMask_bitmap | QXLQMask_flags => QXLQMask
  | QXLFill_rop_descriptor => QXLFill
  | QXLOpaque_src_bitmap | QXLOpaque_rop_descriptor | QXLOpaque_scale_mode => QXLOpaque
  | QXLCopy_src_bitmap | QXLCopy_rop_descriptor | QXLCopy_scale_mode => QXLCopy
  | QXLTransparent_src_bitmap | QXLTransparent_src_color
  | QXLTransparent_true_color => QXLTransparent
  | QXLAlphaBlend_alpha_flags | QXLAlphaBlend_alpha | QXLAlphaBlend_src_bitmap => QXLAlphaBlend
  | QXLCompatAlphaBlend_alpha | QXLCompatAlphaBlend_src_bitmap => QXLCompatAlphaBlend
  | QXLComposite_flags | QXLComposite_src | QXLComposite_src_transform | QXLComposite_mask
  | QXLComposite_mask_transform | QXLComposite_src_origin_x | QXLComposite_src_origin_y
  | QXLComposite_mask_origin_x | QXLComposite_mask_origin_y => QXLComposite
  | QXLRop3_src_bitmap | QXLRop3_rop3 | QXLRop3_scale_mode => QXLRop3
  | QXLStroke_path | QXLStroke_attr_flags | QXLStroke_attr_style_nseg | QXLStroke_attr_style
  | QXLStroke_fore_mode | QXLStroke_back_mode => QXLStroke
  | QXLString_data_size | QXLString_flags | QXLString_length => QXLString
  | QXLRasterGlyph_width | QXLRasterGlyph_height => QXLRasterGlyph
  | QXLText_str | QXLText_fore_mode | QXLText_back_mode => QXLText
  | QXLClip_type | QXLClip_data => QXLClip
  | QXLDrawable_effect | QXLDrawable_mm_time | QXLDrawable_self_bitmap | QXLDrawable_surface_id
  | QXLDrawable_surfaces_dest_0 | QXLDrawable_surfaces_dest_1 | QXLDrawable_surfaces_dest_2
  | QXLDrawable_type => QXLDrawable
  | QXLCompatDrawable_effect | QXLCompatDrawable_mm_time | QXLCompatDrawable_bitmap_offset
  | QXLCompatDrawable_type => QXLCompatDrawable
  | QXLUpdateCmd_update_id | QXLUpdateCmd_surface_id => QXLUpdateCmd
  | QXLSurfaceCmd_surface_id | QXLSurfaceCmd_type | QXLSurfaceCmd_flags
  | QXLSurfaceCmd_u_surface_create_format | QXLSurfaceCmd_u_surface_create_width
  | QXLSurfaceCmd_u_surface_create_height | QXLSurfaceCmd_u_surface_create_stride
  | QXLSurfaceCmd_u_surface_create_data => QXLSurfaceCmd
  | QXLCursor_header_unique | QXLCursor_header_type | QXLCursor_header_width
  | QXLCursor_header_height | QXLCursor_header_hot_spot_x | QXLCursor_header_hot_spot_y
  | QXLCursor_data_size => QXLCursor
  | QXLCursorCmd_type | QXLCursorCmd_u_set_visible | QXLCursorCmd_u_set_shape
  | QXLCursorCmd_u_trail_length | QXLCursorCmd_u_trail_frequency => QXLCursorCmd
  end.

(** The structure a member belongs to, and the structure it is. *)
Definition memb_of (m : memb) : qstruct * qstruct :=
  match m with
  | QXLPath_chunk => (QXLPath, QXLDataChunk)
  | QXLClipRects_chunk => (QXLClipRects, QXLDataChunk)
  | QXLString_chunk => (QXLString, QXLDataChunk)
  | QXLCursor_chunk => (QXLCursor, QXLDataChunk)
  | QXLImage_quic_data => (QXLImage, QXLDataChunk)
  | QXLBrush_u_pattern_pos => (QXLBrush, QXLPoint)
  | QXLQMask_pos => (QXLQMask, QXLPoint)
  | QXLFill_brush => (QXLFill, QXLBrush)
  | QXLFill_mask => (QXLFill, QXLQMask)
  | QXLOpaque_src_area => (QXLOpaque, QXLRect)
  | QXLOpaque_brush => (QXLOpaque, QXLBrush)
  | QXLOpaque_mask => (QXLOpaque, QXLQMask)
  | QXLCopy_src_area => (QXLCopy, QXLRect)
  | QXLCopy_mask => (QXLCopy, QXLQMask)
  | QXLTransparent_src_area => (QXLTransparent, QXLRect)
  | QXLAlphaBlend_src_area => (QXLAlphaBlend, QXLRect)
  | QXLCompatAlphaBlend_src_area => (QXLCompatAlphaBlend, QXLRect)
  | QXLRop3_src_area => (QXLRop3, QXLRect)
  | QXLRop3_brush => (QXLRop3, QXLBrush)
  | QXLRop3_mask => (QXLRop3, QXLQMask)
  | QXLStroke_brush => (QXLStroke, QXLBrush)
  | QXLRasterGlyph_render_pos | QXLRasterGlyph_glyph_origin => (QXLRasterGlyph, QXLPoint)
  | QXLText_back_area => (QXLText, QXLRect)
  | QXLText_fore_brush | QXLText_back_brush => (QXLText, QXLBrush)
  | QXLWhiteness_mask => (QXLWhiteness, QXLQMask)
  | QXLDrawable_bbox | QXLDrawable_self_bitmap_area
  | QXLDrawable_surfaces_rects_0 | QXLDrawable_surfaces_rects_1
  | QXLDrawable_surfaces_rects_2 => (QXLDrawable, QXLRect)
  | QXLDrawable_clip => (QXLDrawable, QXLClip)
  | QXLDrawable_u_alpha_blend => (QXLDrawable, QXLAlphaBlend)
  | QXLDrawable_u_blackness | QXLDrawable_u_invers
  | QXLDrawable_u_whiteness => (QXLDrawable, QXLWhiteness)
  | QXLDrawable_u_blend | QXLDrawable_u_copy => (QXLDrawable, QXLCopy)
  | QXLDrawable_u_copy_bits_src_pos => (QXLDrawable, QXLPoint)
  | QXLDrawable_u_fill => (QXLDrawable, QXLFill)
  | QXLDrawable_u_opaque => (QXLDrawable, QXLOpaque)
  | QXLDrawable_u_rop3 => (QXLDrawable, QXLRop3)
  | QXLDrawable_u_composite => (QXLDrawable, QXLComposite)
  | QXLDrawable_u_stroke => (QXLDrawable, QXLStroke)
  | QXLDrawable_u_text => (QXLDrawable, QXLText)
  | QXLDrawable_u_transparent => (QXLDrawable, QXLTransparent)
  | QXLCompatDrawable_bbox | QXLCompatDrawable_bitmap_area => (QXLCompatDrawable, QXLRect)
  | QXLCompatDrawable_clip => (QXLCompatDrawable, QXLClip)
  | QXLCompatDrawable_u_alpha_blend => (QXLCompatDrawable, QXLCompatAlphaBlend)
  | QXLCompatDrawable_u_blackness | QXLCompatDrawable_u_invers
  | QXLCompatDrawable_u_whiteness => (QXLCompatDrawable, QXLWhiteness)
  | QXLCompatDrawable_u_blend | QXLCompatDrawable_u_copy => (QXLCompatDrawable, QXLCopy)
  | QXLCompatDrawable_u_copy_bits_src_pos => (QXLCompatDrawable, QXLPoint)
  | QXLCompatDrawable_u_fill => (QXLCompatDrawable, QXLFill)
  | QXLCompatDrawable_u_opaque => (QXLCompatDrawable, QXLOpaque)
  | QXLCompatDrawable_u_rop3 => (QXLCompatDrawable, QXLRop3)
  | QXLCompatDrawable_u_stroke => (QXLCompatDrawable, QXLStroke)
  | QXLCompatDrawable_u_text => (QXLCompatDrawable, QXLText)
  | QXLCompatDrawable_u_transparent => (QXLCompatDrawable, QXLTransparent)
  | QXLUpdateCmd_area => (QXLUpdateCmd, QXLRect)
  | QXLCursorCmd_u_set_position | QXLCursorCmd_u_position => (QXLCursorCmd, QXLPoint16)
  end.

Definition tail_of (t : tail) : qstruct :=
  match t with
  | QXLDataChunk_data => QXLDataChunk
  | QXLPathSeg_points => QXLPathSeg
  | QXLPalette_ents => QXLPalette
  | QXLRasterGlyph_data => QXLRasterGlyph
  | QXLMessage_data | QXLMessage_release_info => QXLMessage
  | QXLDrawable_release_info => QXLDrawable
  | QXLCompatDrawable_release_info => QXLCompatDrawable
  | QXLUpdateCmd_release_info => QXLUpdateCmd
  | QXLSurfaceCmd_release_info => QXLSurfaceCmd
  | QXLCursorCmd_release_info => QXLCursorCmd
  end.

(** ** The ABI *)

Class Abi := {
  sizeof : qstruct -> Z;
  foff : fld -> Z;
  fwidth : fld -> Z;
  fsigned : fld -> bool;
  moff : memb -> Z;
  toff : tail -> Z;
  (** host structures and element types *)
  sizeof_SpicePath : Z;
  sizeof_SpicePathSeg : Z;
  sizeof_SpicePointFix : Z;
  sizeof_SpiceString : Z;
  sizeof_SpiceRasterGlyph : Z;
  sizeof_SpiceTransform : Z;
  sizeof_pointer : Z;
  sizeof_QXLPalette_ent : Z;
  sizeof_QXLFIXED : Z;
  sizeof_SPICE_FIXED28_4 : Z;
  SPICE_ALIGN : Z -> Z -> Z;
  (** protocol constants *)
  QXL_COMMAND_FLAG_COMPAT : Z; QXL_COMMAND_FLAG_COMPAT_16BPP : Z;
  QXL_IMAGE_CACHE : Z; QXL_IMAGE_HIGH_BITS_SET : Z;
  SPICE_IMAGE_FLAGS_CACHE_ME : Z; SPICE_IMAGE_FLAGS_HIGH_BITS_SET : Z;
  SPICE_IMAGE_TYPE_BITMAP : Z; SPICE_IMAGE_TYPE_QUIC : Z; SPICE_IMAGE_TYPE_SURFACE : Z;
  QXL_BITMAP_DIRECT : Z; QXL_BITMAP_UNSTABLE : Z; QXL_BITMAP_TOP_DOWN : Z;
  SPICE_BITMAP_FLAGS_TOP_DOWN : Z; SPICE_CHUNKS_FLAGS_UNSTABLE : Z;
  SPICE_BRUSH_TYPE_SOLID : Z; SPICE_BRUSH_TYPE_PATTERN : Z;
  SPICE_COMPOSITE_HAS_SRC_TRANSFORM : Z; SPICE_COMPOSITE_HAS_MASK : Z;
  SPICE_COMPOSITE_HAS_MASK_TRANSFORM : Z;
  SPICE_LINE_FLAGS_STYLED : Z;
  SPICE_STRING_FLAGS_RASTER_A1 : Z; SPICE_STRING_FLAGS_RASTER_A4 : Z;
  SPICE_STRING_FLAGS_RASTER_A8 : Z;
  SPICE_CLIP_TYPE_RECTS : Z;
  QXL_DRAW_ALPHA_BLEND : Z; QXL_DRAW_BLACKNESS : Z; QXL_DRAW_BLEND : Z; QXL_DRAW_COPY : Z;
  QXL_COPY_BITS : Z; QXL_DRAW_FILL : Z; QXL_DRAW_OPAQUE : Z; QXL_DRAW_INVERS : Z;
  QXL_DRAW_NOP : Z; QXL_DRAW_ROP3 : Z; QXL_DRAW_COMPOSITE : Z; QXL_DRAW_STROKE : Z;
  QXL_DRAW_TEXT : Z; QXL_DRAW_TRANSPARENT : Z; QXL_DRAW_WHITENESS : Z;
  SPICE_SURFACE_FMT_1_A : Z; SPICE_SURFACE_FMT_8_A : Z; SPICE_SURFACE_FMT_16_555 : Z;
  SPICE_SURFACE_FMT_16_565 : Z; SPICE_SURFACE_FMT_32_xRGB : Z; SPICE_SURFACE_FMT_32_ARGB : Z;
  QXL_SURFACE_CMD_CREATE : Z;
  QXL_CURSOR_SET : Z; QXL_CURSOR_MOVE : Z; QXL_CURSOR_TRAIL : Z }.

(** What C and the protocol header guarantee of any layout. *)
Class AbiOk (abi : Abi) : Prop := {
  sizeof_range q : 0 < sizeof q < 2 ^ 16;
  fld_inside f : 0 <= foff f /\ 0 <= fwidth f /\ foff f + fwidth f <= sizeof (fld_of f);
  memb_inside m : 0 <= moff m /\ moff m + sizeof (snd (memb_of m)) <= sizeof (fst (memb_of m));
  tail_inside t : 0 <= toff t <= sizeof (tail_of t);
  points_at_end : toff QXLPathSeg_points = sizeof QXLPathSeg;
  glyph_data_at_end : toff QXLRasterGlyph_data = sizeof QXLRasterGlyph;
  (** the counts the parser multiplies are small unsigned members *)
  count_widths : fsigned QXLPalette_num_ents = false /\ fwidth QXLPalette_num_ents <= 2 /\
    fsigned QXLStroke_attr_style_nseg = false /\ fwidth QXLStroke_attr_style_nseg <= 2;
  host_sizes : 0 < sizeof_SpicePath < 2 ^ 16 /\ 0 < sizeof_SpicePathSeg < 2 ^ 16 /\
    0 < sizeof_SpicePointFix < 2 ^ 16 /\ 0 < sizeof_SpiceString < 2 ^ 16 /\
    0 < sizeof_SpiceRasterGlyph < 2 ^ 16 /\ 0 < sizeof_SpiceTransform < 2 ^ 16 /\
    0 < sizeof_pointer < 2 ^ 16 /\ 0 < sizeof_QXLPalette_ent < 2 ^ 8 /\
    0 < sizeof_QXLFIXED < 2 ^ 8;
  (** [QXLFIXED] and [SPICE_FIXED28_4] are both [int32_t] *)
  fixed_sizes : sizeof_SPICE_FIXED28_4 = sizeof_QXLFIXED;
  (** the case labels of a C switch are distinct *)
  image_types_distinct : SPICE_IMAGE_TYPE_BITMAP <> SPICE_IMAGE_TYPE_SURFACE /\
    SPICE_IMAGE_TYPE_BITMAP <> SPICE_IMAGE_TYPE_QUIC /\
    SPICE_IMAGE_TYPE_SURFACE <> SPICE_IMAGE_TYPE_QUIC;
  brush_types_distinct : SPICE_BRUSH_TYPE_SOLID <> SPICE_BRUSH_TYPE_PATTERN;
  (** [SPICE_ALIGN(a, 4)] rounds up *)
  align_up a : a <= SPICE_ALIGN a 4 < a + 4 }.

(** The guest: the byte at an address at a time. *)
Class GuestMem := guest_at : nat -> Z -> Z.

(** ** The machine *)

Record pst := mkPst {
  clk : nat;                  (** time: one tick per guest read *)
  glog : list (Z * Z);        (** guest accesses so far: address and length *)
  heap : list Z;              (** live host allocations *)
  next : Z;                   (** next fresh allocation *)
  released : list (Z * Z) }.  (** resources given back: release info and group *)

Abbreviation P := (M pst).

Section machine.
Context {abi : Abi} {gm : GuestMem}.

Definition guest_read (a n : Z) : P (list Z) := fun s =>
  Ok (guest_at (clk s) <$> zseq a n)
     (mkPst (S (clk s)) ((a, n) :: glog s) (heap s) (next s) (released s)).

(** [g_malloc], [g_new0]: a fresh block. *)
Definition g_malloc : P Z := fun s =>
  Ok (next s) (mkPst (clk s) (glog s) (next s :: heap s) (next s + 1) (released s)).

(** [g_free(NULL)] does nothing. *)
Definition g_free (p : Z) : P unit := fun s =>
  if p =? 0 then Ok tt s
  else match remove1 p (heap s) with
       | Some h => Ok tt (mkPst (clk s) (glog s) h (next s) (released s))
       | None => Ub UbFree s
       end.

(** A pointer to read QXL data through: into guest memory, or into a host copy. *)
Inductive qptr :=
  | GuestP (a : Z)
  | HostP (bs : list Z) (o : Z).

Definition padd (p : qptr) (n : Z) : qptr :=
  match p with
  | GuestP a => GuestP (a + n)
  | HostP bs o => HostP bs (o + n)
  end.

Definition read_bytes (p : qptr) (n : Z) : P (list Z) :=
  match p with
  | GuestP a => guest_read a n
  | HostP bs o =>
      if (0 <=? o) && (o + n <=? Z.of_nat (length bs))
      then mret (take (Z.to_nat n) (drop (Z.to_nat o) bs))
      else undef UbHostOob
  end.

Definition decode (f : fld) (bs : list Z) : Z :=
  if fsigned f then swrap (8 * fwidth f) (le_decode bs) else le_decode bs.

(** [p->f] *)
Definition rd (f : fld) (p : qptr) : P Z :=
  bs ← read_bytes (padd p (foff f)) (fwidth f);
  mret (decode f bs).

(** [&p->m] *)
Definition addr_of (m : memb) (p : qptr) : qptr := padd p (moff m).
End machine.
