(* ===== verification/QxlLogic.v ===== *)
(** * A program logic for the QXL parser

    [spec info gid E pre m post Q] is the triple the parser's functions are specified
    with.  Started in a machine whose heap owns the blocks [pre] (and any
    frame), with only in-slot guest accesses so far, [m]
    - accesses guest memory only inside the slots of the group,
    - ends with the heap owning [post a] instead of [pre] (the frame is
      untouched: nothing leaks and nothing else is freed),
    - hands no resource back, and returns a value that satisfies [Q];
    - or stops in one of the ways [E] allows: [E None] for a failed
      [spice_assert], [E (Some k)] for undefined behaviour of kind [k].
    The guest memory is arbitrary and may change between any two reads. *)

From stdpp Require Import base list list_tactics numbers tactics option.
From Stdlib Require Import ZArith Lia.
From S2P Require Import Prelude Memslot QxlAbi.

Open Scope Z_scope.

Section logic.
Context {abi : Abi} {gm : GuestMem}.
Context (info : RedMemSlotInfo) (gid : Z) (E : option ub_kind -> Prop).

Definition guest_ok (a n : Z) : Prop := exists sid, in_slot info gid sid a n.

Definition safe_log (l : list (Z * Z)) : Prop := Forall (fun an => guest_ok an.1 an.2) l.

(** [n] bytes can be read through [p]. *)
Definition readable (p : qptr) (n : Z) : Prop :=
  match p with
  | GuestP a => guest_ok a n
  | HostP bs o => 0 <= o /\ 0 <= n /\ o + n <= Z.of_nat (length bs)
  end.

Lemma guest_ok_sub a n a' n' :
  guest_ok a n -> a <= a' -> 0 <= n' -> a' + n' <= a + n -> guest_ok a' n'.
Proof. intros [sid H] ? ? ?. exists sid. by eapply in_slot_sub. Qed.

Lemma readable_sub p n o n' :
  readable p n -> 0 <= o -> 0 <= n' -> o + n' <= n -> readable (padd p o) n'.
Proof.
  destruct p as [a|bs i]; simpl; intros H ? ? ?; [|lia].
  eapply guest_ok_sub; [done|lia..].
Qed.

(** What every machine state between two steps satisfies. *)
Definition inv (s : pst) : Prop := safe_log (glog s) /\ 0 < next s.

(** The block a pointer owns; the null pointer owns nothing. *)
Definition own_ptr (p : Z) : list Z := if p =? 0 then [] else [p].

Definition spec {A} (pre : list Z) (m : P A) (post : A -> list Z) (Q : A -> Prop) : Prop :=
  forall s F, heap s ≡ₚ pre ++ F -> inv s ->
    wp m (fun a s' => heap s' ≡ₚ post a ++ F /\ inv s' /\ released s' = released s /\ Q a)
         (fun k s' => inv s' /\ released s' = released s /\ E k) s.

Lemma spec_ret {A} (a : A) pre post (Q : A -> Prop) :
  Q a -> pre ≡ₚ post a -> spec pre (mret a) post Q.
Proof. intros HQ HP s F Hh Hl. apply wp_ret. by rewrite <- HP. Qed.

Lemma spec_perm {A} pre pre' (m : P A) post Q :
  spec pre m post Q -> pre' ≡ₚ pre -> spec pre' m post Q.
Proof. intros Hm HP s F Hh Hl. apply Hm; [|done]. by rewrite <- HP. Qed.

Lemma spec_conseq {A} pre pre' (m : P A) post post' (Q Q' : A -> Prop) :
  spec pre m post Q -> pre' ≡ₚ pre -> (forall a, Q a -> Q' a /\ post a ≡ₚ post' a) ->
  spec pre' m post' Q'.
Proof.
  intros Hm HP HQ s F Hh Hl. eapply wp_conseq; [apply (Hm s F); [by rewrite <- HP|done]|].
  intros a s' (Hh' & Hl' & Hr & Ha). destruct (HQ a Ha) as [HQ' HP']. by rewrite <- HP'.
Qed.

(** Sequencing with a frame: [m] works on [pre], the rest [R] is kept. *)
Lemma spec_bind {A B} pre R pre' (m : P A) (f : A -> P B) post1 Q1 post2 Q2 :
  spec pre m post1 Q1 -> pre' ≡ₚ pre ++ R ->
  (forall a, Q1 a -> spec (post1 a ++ R) (f a) post2 Q2) ->
  spec pre' (bindM m f) post2 Q2.
Proof.
  intros Hm HP Hf s F Hh Hl. apply wp_bind.
  specialize (Hm s (R ++ F)). eapply wp_mono; [apply Hm|..].
  - rewrite Hh, HP. by rewrite (assoc_L (++)).
  - done.
  - intros a s' (Hh' & Hl' & Hr & Ha). specialize (Hf a Ha s' F).
    eapply wp_mono; [apply Hf; [by rewrite <- (assoc_L (++))|done]|..].
    + intros b s'' (? & ? & Hr' & ?). by rewrite Hr'.
    + intros k s'' (? & Hr' & ?). by rewrite Hr'.
  - done.
Qed.

(** A pure step (no heap effect). *)
Lemma spec_seq {A B} pre (m : P A) (f : A -> P B) Q1 post2 Q2 :
  spec [] m (fun _ => []) Q1 ->
  (forall a, Q1 a -> spec pre (f a) post2 Q2) ->
  spec pre (bindM m f) post2 Q2.
Proof. intros Hm Hf. by eapply (spec_bind [] pre pre). Qed.

(** A call that allocates: its blocks are added to the ones held. *)
Lemma spec_call {A B} pre (m : P A) (f : A -> P B) post1 Q1 post2 Q2 :
  spec [] m post1 Q1 ->
  (forall a, Q1 a -> spec (post1 a ++ pre) (f a) post2 Q2) ->
  spec pre (bindM m f) post2 Q2.
Proof. intros Hm Hf. by eapply (spec_bind [] pre pre). Qed.

Lemma spec_frame {A} pre R (m : P A) post Q :
  spec pre m post Q -> spec (pre ++ R) m (fun a => post a ++ R) Q.
Proof.
  intros Hm s F Hh Hl. eapply wp_conseq; [apply (Hm s (R ++ F)); [|done]|].
  - by rewrite Hh, (assoc_L (++)).
  - intros a s' (Hh' & ? & ? & ?). by rewrite Hh', (assoc_L (++)).
Qed.

Lemma spec_fmap {A B} pre (g : A -> B) (m : P A) post Q :
  spec pre m (fun a => post (g a)) (fun a => Q (g a)) -> spec pre (g <$> m) post Q.
Proof. intros Hm s F Hh Hl. apply wp_fmap. by apply Hm. Qed.

(** An assertion that may fail ends the process; one that is known to hold is
    a no-op. *)
Lemma spec_assert b :
  (b = true \/ E None) -> spec [] (spice_assert b) (fun _ => []) (fun _ => b = true).
Proof.
  intros HE s F Hh Hl. apply wp_assert; intros ->; [done|]. by destruct HE.
Qed.

Lemma spec_undef {A} k pre post (Q : A -> Prop) : E (Some k) -> spec pre (undef k) post Q.
Proof. intros HE s F Hh Hl. by unfold wp, undef. Qed.

Lemma spec_guest_read a n :
  guest_ok a n -> spec [] (guest_read a n) (fun _ => []) (fun bs => length bs = Z.to_nat n).
Proof.
  intros Hok s F Hh [Hl Hn]. unfold wp, guest_read. simpl. split_and!; auto.
  - split; [by constructor|done].
  - by rewrite length_fmap, length_zseq.
Qed.

Lemma spec_read_bytes p n :
  readable p n -> spec [] (read_bytes p n) (fun _ => []) (fun bs => length bs = Z.to_nat n).
Proof.
  destruct p as [a|bs o]; simpl; intros Hr; [by apply spec_guest_read|].
  destruct (Z.leb_spec 0 o); [|lia]. destruct (Z.leb_spec (o + n) (Z.of_nat (length bs))); [|lia].
  intros s F Hh Hl. apply wp_ret. split_and!; auto. rewrite length_take, length_drop. lia.
Qed.

Lemma spec_rd `{!AbiOk abi} f p :
  readable p (sizeof (fld_of f)) -> spec [] (rd f p) (fun _ => []) (fun _ => True).
Proof.
  intros Hr. unfold rd. eapply spec_seq.
  - apply spec_read_bytes. pose proof (fld_inside f). eapply readable_sub; [done|lia..].
  - intros bs Hbs. by apply spec_ret.
Qed.

(** An unsigned member is in the range of its width. *)
Lemma spec_rd_unsigned `{!AbiOk abi} f p w :
  readable p (sizeof (fld_of f)) -> fsigned f = false -> fwidth f <= w ->
  spec [] (rd f p) (fun _ => []) (fun z => 0 <= z < 256 ^ w).
Proof.
  intros Hr Hs Hw. unfold rd. pose proof (fld_inside f) as (? & ? & ?). eapply spec_seq.
  - apply spec_read_bytes. eapply readable_sub; [done|lia..].
  - intros bs Hbs. cbn beta in Hbs. apply spec_ret; [|done]. unfold decode. rewrite Hs.
    pose proof (le_decode_range bs) as Hd. rewrite Hbs, Z2Nat.id in Hd by lia.
    assert (256 ^ fwidth f <= 256 ^ w) by (apply Z.pow_le_mono_r; lia). lia.
Qed.

(** A field stored into a narrower variable. *)
Lemma spec_rd_wrap `{!AbiOk abi} (g : Z -> Z) (R : Z -> Prop) f p :
  readable p (sizeof (fld_of f)) -> (forall z, R (g z)) ->
  spec [] (g <$> rd f p) (fun _ => []) R.
Proof.
  intros Hr HR. apply spec_fmap. eapply spec_conseq; [by apply spec_rd|done|]. auto.
Qed.

Lemma spec_rd_u32 `{!AbiOk abi} f p :
  readable p (sizeof (fld_of f)) ->
  spec [] (u32 <$> rd f p) (fun _ => []) (fun z => 0 <= z < 2 ^ 32).
Proof. intros. apply spec_rd_wrap; [done|exact u32_range]. Qed.

Lemma spec_rd_u16 `{!AbiOk abi} f p :
  readable p (sizeof (fld_of f)) ->
  spec [] (u16 <$> rd f p) (fun _ => []) (fun z => 0 <= z < 2 ^ 16).
Proof. intros. apply spec_rd_wrap; [done|exact u16_range]. Qed.

Lemma readable_memb `{!AbiOk abi} m p :
  readable p (sizeof (fst (memb_of m))) -> readable (addr_of m p) (sizeof (snd (memb_of m))).
Proof.
  intros Hr. pose proof (memb_inside m). pose proof (sizeof_range (snd (memb_of m))).
  unfold addr_of. eapply readable_sub; [done|lia..].
Qed.

Lemma spec_malloc : spec [] g_malloc own_ptr (fun p => p <> 0).
Proof.
  intros s F Hh [Hl Hn]. unfold wp, g_malloc, own_ptr. simpl.
  destruct (Z.eqb_spec (next s) 0); [lia|]. unfold inv; simpl. split_and!; auto; try lia.
Qed.

Lemma spec_free p : spec (own_ptr p) (g_free p) (fun _ => []) (fun _ => True).
Proof.
  intros s F Hh Hl. unfold wp, g_free, own_ptr in *.
  destruct (Z.eqb_spec p 0); [done|].
  destruct (remove1_perm p (heap s) F Hh) as (h & -> & Hp). done.
Qed.

Lemma spec_get_virt addr size :
  slots_wf info -> -2 ^ 31 <= gid < 2 ^ 31 ->
  spec [] (memslot_get_virt info addr size gid) (fun _ => [])
    (fun v => v <> 0 -> virt_ok info gid addr size v).
Proof.
  intros Hwf Hg s F Hh Hl. apply wp_get_virt; try done.
Qed.

Lemma spec_validate_virt virt sid size :
  slots_wf info -> group_ok info gid -> slot_id_ok info sid -> 0 <= virt < 2 ^ 64 ->
  spec [] (memslot_validate_virt info virt sid size gid) (fun _ => [])
    (fun b => b = true -> guest_ok virt (u32 size)).
Proof.
  intros Hwf Hg Hs Hv s F Hh Hl. apply wp_validate_virt; try done.
  intros Hin. split_and!; auto. intros _. by exists sid.
Qed.
End logic.

Lemma spec_weaken {gm : GuestMem} info gid (E E' : option ub_kind -> Prop) {A} pre (m : P A) post Q :
  (forall k, E k -> E' k) -> spec info gid E pre m post Q -> spec info gid E' pre m post Q.
Proof.
  intros HE Hm s F Hh Hl. eapply wp_mono; [by apply (Hm s F)|done|].
  intros k s' (? & ? & ?). auto.
Qed.

(** ** The chunk containers of spice-common

    [SpiceChunks] is allocated and destroyed by spice-common
    ([common/mem.h]); the parser relies on the first to give a fresh container
    and on the second to give it back. *)
Class SpiceChunksApi := {
  spice_chunks_new : Z -> P Z;
  spice_chunks_destroy : Z -> P unit }.

Class SpiceChunksOk {gm : GuestMem} (api : SpiceChunksApi) : Prop := {
  chunks_new_ok info gid E n :
    spec info gid E [] (spice_chunks_new n) own_ptr (fun p => p <> 0);
  chunks_destroy_ok info gid E p :
    p <> 0 -> spec info gid E (own_ptr p) (spice_chunks_destroy p) (fun _ => []) (fun _ => True) }.

(** The containers as one block each. *)
#[export] Instance glib_chunks : SpiceChunksApi :=
  {| spice_chunks_new := fun _ => g_malloc; spice_chunks_destroy := g_free |}.
#[export] Instance glib_chunks_ok {gm : GuestMem} : SpiceChunksOk glib_chunks.
Proof. split; intros; [apply spec_malloc|apply spec_free]. Qed.
