(* ===== verification/QxlChunks.v ===== *)
(** * Data chunks (red-parse-qxl.cpp: red_get_data_chunks and friends)

    Variable-size QXL data is a linked list of chunks in guest memory.  The
    parser walks the list, checks every chunk against its memory slot, bounds
    the number of chunks and the total size, and builds a host list of the
    chunk addresses; [red_linearize_chunk] turns that list into one buffer. *)

From stdpp Require Import base list list_tactics numbers tactics option.
From Stdlib Require Import ZArith Lia.
From S2P Require Import Prelude Memslot QxlAbi QxlLogic.

Open Scope Z_scope.

Definition MAX_DATA_CHUNK : Z := 0x7fffffff.
Definition MAX_CHUNKS : Z := MAX_DATA_CHUNK / 1024.
Definition INVALID_SIZE : Z := 2 ^ 64 - 1.

(** Fuel of the chunk walk: the code gives up after [MAX_CHUNKS] chunks. *)
Definition chunk_fuel : nat := Z.to_nat MAX_CHUNKS.
Arguments chunk_fuel : simpl never.

Lemma chunk_fuel_spec : Z.of_nat chunk_fuel = MAX_CHUNKS.
Proof. unfold chunk_fuel. apply Z2Nat.id. by vm_compute. Qed.
#[global] Opaque chunk_fuel.

(** [RedDataChunk]: the host block it lives in (0 for the head, which is an
    automatic variable of the caller), the size and the guest address of the
    data.  The [prev_chunk]/[next_chunk] links are the order of the list. *)
Record RedDataChunk := mkRedDataChunk { blk : Z; data_size : Z; data : Z }.

Record chunk_list := mkChunkList { head_chunk : RedDataChunk; next_chunks : list RedDataChunk }.

Section chunks.
Context {abi : Abi} {gm : GuestMem}.

(** The [while] loop of [red_get_data_chunks_ptr].  [true] in the result: the
    loop ended at the end of the guest list; [false]: [goto error]. *)
Fixpoint red_get_data_chunks_loop (fuel : nat) (slots : RedMemSlotInfo) (group_id : Z)
    (qxl memslot_id : Z) (acc : list RedDataChunk) (size num_chunks : Z)
    : P (bool * Z * list RedDataChunk) :=
  match fuel with
  | O => undef UbFuel
  | S fuel' =>
      next_chunk ← rd QXLDataChunk_next_chunk (GuestP qxl);
      if next_chunk =? 0 then mret (true, size, acc)
      else
        let num_chunks := u32 (num_chunks + 1) in
        if MAX_CHUNKS <=? num_chunks then mret (false, size, acc)
        else
          let memslot_id := memslot_get_id slots next_chunk in
          qxl ← memslot_get_virt slots next_chunk (sizeof QXLDataChunk) group_id;
          if qxl =? 0 then mret (false, size, acc)
          else
            chunk_data_size ← u32 <$> rd QXLDataChunk_data_size (GuestP qxl);
            if chunk_data_size =? 0
            then red_get_data_chunks_loop fuel' slots group_id qxl memslot_id acc size num_chunks
            else
              red ← g_malloc;
              let chunk := mkRedDataChunk red chunk_data_size (qxl + toff QXLDataChunk_data) in
              let acc := acc ++ [chunk] in
              let size := u64 (size + chunk_data_size) in
              if MAX_DATA_CHUNK <? size then mret (false, size, acc)
              else
                ok ← memslot_validate_virt slots (data chunk) memslot_id chunk_data_size group_id;
                if negb ok then mret (false, size, acc)
                else red_get_data_chunks_loop fuel' slots group_id qxl memslot_id acc size num_chunks
  end.

(** [g_free] of every chunk of a list, in order. *)
Fixpoint free_chunks (cs : list RedDataChunk) : P unit :=
  match cs with
  | [] => mret tt
  | c :: cs' => g_free (blk c);; free_chunks cs'
  end.

Definition red_get_data_chunks_ptr (slots : RedMemSlotInfo) (group_id memslot_id qxl : Z)
    : P (Z * chunk_list) :=
  sz ← u32 <$> rd QXLDataChunk_data_size (GuestP qxl);
  let red := mkRedDataChunk 0 sz (qxl + toff QXLDataChunk_data) in
  ok ← memslot_validate_virt slots (data red) memslot_id (data_size red) group_id;
  if negb ok then mret (INVALID_SIZE, mkChunkList (mkRedDataChunk 0 sz 0) [])
  else
    '(ok, size, cs) ← red_get_data_chunks_loop chunk_fuel slots group_id qxl
                        memslot_id [] (data_size red) 0;
    if ok then mret (size, mkChunkList red cs)
    else
      free_chunks (reverse cs);;
      mret (INVALID_SIZE, mkChunkList (mkRedDataChunk 0 0 0) []).

(** [None] in the second component: the caller's chunk head was not written. *)
Definition red_get_data_chunks (slots : RedMemSlotInfo) (group_id addr : Z)
    : P (Z * option chunk_list) :=
  let memslot_id := memslot_get_id slots addr in
  qxl ← memslot_get_virt slots addr (sizeof QXLDataChunk) group_id;
  if qxl =? 0 then mret (INVALID_SIZE, None)
  else
    '(size, cl) ← red_get_data_chunks_ptr slots group_id memslot_id qxl;
    mret (size, Some cl).

Definition red_put_data_chunks (red : option chunk_list) : P unit :=
  match red with
  | None => undef UbUninit
  | Some cl => free_chunks (next_chunks cl)
  end.

(** The copy loop of [red_linearize_chunk]: the bytes copied and the [size] left. *)
Fixpoint linearize_loop (cs : list RedDataChunk) (size : Z) : P (list Z * Z) :=
  match cs with
  | [] => mret ([], size)
  | c :: cs' =>
      if negb (0 <? size) then mret ([], size)
      else
        let copy := u32 (Z.min (data_size c) size) in
        bs ← guest_read (data c) copy;
        '(bs', size') ← linearize_loop cs' (size - copy);
        mret (bs ++ bs', size')
  end.

(** The buffer and the block to free (0: [free_chunk] is false, the buffer is
    guest memory). *)
Definition red_linearize_chunk (cl : chunk_list) (size : Z) : P (qptr * Z) :=
  match next_chunks cl with
  | [] =>
      spice_assert (size <=? data_size (head_chunk cl));;
      mret (GuestP (data (head_chunk cl)), 0)
  | cs =>
      b ← g_malloc;
      '(bs, size') ← linearize_loop (head_chunk cl :: cs) size;
      spice_assert (size' =? 0);;
      mret (HostP bs 0, b)
  end.
End chunks.

(** ** Specifications *)

Definition chunks_sum (cs : list RedDataChunk) : Z := foldr (fun c n => data_size c + n) 0 cs.

Definition own_chunks (cs : list RedDataChunk) : list Z := cs ≫= (fun c => own_ptr (blk c)).

Lemma own_chunks_app cs cs' : own_chunks (cs ++ cs') = own_chunks cs ++ own_chunks cs'.
Proof. unfold own_chunks. by rewrite bind_app. Qed.

Lemma own_chunks_reverse cs : own_chunks (reverse cs) ≡ₚ own_chunks cs.
Proof. unfold own_chunks. by rewrite reverse_Permutation. Qed.

Lemma chunks_sum_app cs cs' : chunks_sum (cs ++ cs') = chunks_sum cs + chunks_sum cs'.
Proof. induction cs; simpl; lia. Qed.

Section specs.
Context {abi : Abi} {gm : GuestMem} `{!AbiOk abi}.
Context (slots : RedMemSlotInfo) (gid : Z) (E : option ub_kind -> Prop).
Context (Hwf : slots_wf slots) (Hgid : -2 ^ 31 <= gid < 2 ^ 31).
#[local] Abbreviation guest_ok := (guest_ok slots gid).
#[local] Abbreviation readable := (readable slots gid).
#[local] Abbreviation spec := (spec slots gid E).

(** A chunk whose data was validated. *)
Definition chunk_ok (c : RedDataChunk) : Prop :=
  0 <= data_size c < 2 ^ 32 /\ guest_ok (data c) (data_size c).

Lemma chunks_sum_nonneg cs : Forall chunk_ok cs -> 0 <= chunks_sum cs.
Proof. induction 1 as [|c cs [? ?] ? IH]; simpl in *; lia. Qed.

(** A complete chunk list of total size [size]. *)
Record chunks_ok (size : Z) (cl : chunk_list) : Prop := {
  co_head : chunk_ok (head_chunk cl);
  co_next : Forall chunk_ok (next_chunks cl);
  co_blocks : Forall (fun c => blk c <> 0 /\ 0 < data_size c) (next_chunks cl);
  co_size : size = data_size (head_chunk cl) + chunks_sum (next_chunks cl);
  co_bound : next_chunks cl <> [] -> size <= MAX_DATA_CHUNK;
  co_count : Z.of_nat (length (next_chunks cl)) < MAX_CHUNKS }.

Lemma spec_free_chunks cs :
  spec (own_chunks cs) (free_chunks cs) (fun _ => []) (fun _ => True).
Proof.
  induction cs as [|c cs IH]; [by apply spec_ret|].
  simpl. eapply spec_bind; [apply spec_free|done|]. intros [] _. apply IH.
Qed.

Lemma guest_chunk_data v :
  0 <= v -> guest_ok v (sizeof QXLDataChunk) ->
  0 <= v + toff QXLDataChunk_data < 2 ^ 64.
Proof.
  intros Hv [sid Hin]. pose proof (in_slot_bound _ _ _ _ _ Hwf Hin).
  pose proof (tail_inside QXLDataChunk_data). simpl in *. lia.
Qed.

Lemma virt_ok_struct addr q v :
  virt_ok slots gid addr (sizeof q) v ->
  guest_ok v (sizeof q) /\ group_ok slots gid /\ slot_id_ok slots (memslot_get_id slots addr) /\
  0 < v < 2 ^ 64.
Proof.
  intros (? & ? & ? & Hin). pose proof (sizeof_range q). rewrite u32_id in Hin by lia.
  split_and!; auto; try lia. by exists (memslot_get_id slots addr).
Qed.

(** What the walk has established when it has read [acc] after the head. *)
Record walk_ok (hd_size size num : Z) (acc : list RedDataChunk) : Prop := {
  wk_next : Forall chunk_ok acc;
  wk_blocks : Forall (fun c => blk c <> 0 /\ 0 < data_size c) acc;
  wk_size : size = hd_size + chunks_sum acc;
  wk_bound : acc <> [] -> size <= MAX_DATA_CHUNK;
  wk_count : Z.of_nat (length acc) <= num < MAX_CHUNKS }.

Lemma spec_chunks_loop fuel qxl sid acc hd_size size num :
  group_ok slots gid -> slot_id_ok slots sid ->
  guest_ok qxl (sizeof QXLDataChunk) -> 0 <= hd_size < 2 ^ 32 ->
  walk_ok hd_size size num acc -> MAX_CHUNKS <= num + Z.of_nat fuel ->
  spec (own_chunks acc) (red_get_data_chunks_loop fuel slots gid qxl sid acc size num)
    (fun r => own_chunks r.2)
    (fun r => r.1.1 = true -> exists num', walk_ok hd_size r.1.2 num' r.2).
Proof.
  intros Hg. revert qxl sid acc size num.
  induction fuel as [|fuel IH]; intros qxl sid acc size num Hsid Hqxl Hhd Hwk Hfuel.
  { destruct Hwk. lia. }
  cbn [red_get_data_chunks_loop].
  assert (Hret : forall z (acc' : list RedDataChunk) (b : bool),
     (b = true -> exists num', walk_ok hd_size z num' acc') ->
     spec (own_chunks acc') (mret (b, z, acc')) (fun r => own_chunks r.2)
       (fun r => r.1.1 = true -> exists num', walk_ok hd_size r.1.2 num' r.2)).
  { intros z acc' b Hb. by apply spec_ret. }
  eapply spec_seq; [by apply spec_rd|]. intros next_chunk _. cbn beta.
  case_if; [apply Hret; eauto|]. zbool.
  destruct Hwk as [Hnx Hbk Hsz Hbd Hct].
  assert (MAX_CHUNKS = 2097151) as HMC by reflexivity.
  assert (MAX_DATA_CHUNK = 2147483647) as HMD by reflexivity.
  rewrite (u32_id (num + 1)) by lia.
  case_if; [by apply Hret|]. zbool.
  eapply spec_seq; [by apply spec_get_virt|]. intros v Hv.
  case_if; [by apply Hret|]. zbool. specialize (Hv Eb1).
  apply virt_ok_struct in Hv as (Hok & _ & Hid & Hvr).
  eapply spec_seq; [by apply spec_rd_u32|]. intros csz Hcsz. cbn beta in Hcsz.
  case_if; [apply IH; auto; [split; auto; lia|lia]|]. zbool.
  eapply spec_call; [apply spec_malloc|]. intros b Hb. cbn beta in Hb. simpl.
  set (chunk := mkRedDataChunk b csz _).
  assert (Hsum : chunks_sum (acc ++ [chunk]) = chunks_sum acc + csz)
    by (rewrite chunks_sum_app; simpl; lia).
  assert (Hpre : own_ptr b ++ own_chunks acc ≡ₚ own_chunks (acc ++ [chunk])).
  { rewrite own_chunks_app. simpl. rewrite app_nil_r. apply Permutation_app_comm. }
  assert (0 <= size < 2 ^ 33).
  { destruct (decide (acc = [])) as [->|Hne]; [simpl in *; lia|].
    specialize (Hbd Hne). pose proof (chunks_sum_nonneg _ Hnx). lia. }
  rewrite (u64_id (size + csz)) by lia.
  eapply spec_perm; [|exact Hpre].
  case_if; [by apply Hret|]. zbool.
  eapply spec_seq; [apply spec_validate_virt; auto; apply guest_chunk_data; auto; lia|].
  intros [] Hval; simpl; [|by apply Hret]. specialize (Hval eq_refl).
  rewrite (u32_id csz) in Hval by lia.
  apply IH; auto; [|lia]. split.
  - apply Forall_app; split; [done|]. constructor; [|done]. split; [unfold chunk; simpl; lia|done].
  - apply Forall_app; split; [done|]. constructor; [|done]. unfold chunk; simpl. lia.
  - lia.
  - lia.
  - rewrite length_app. simpl. lia.
Qed.

(** What [red_get_data_chunks_ptr] gives its callers. *)
Lemma spec_get_data_chunks_ptr sid qxl :
  group_ok slots gid -> slot_id_ok slots sid -> 0 <= qxl ->
  guest_ok qxl (sizeof QXLDataChunk) ->
  spec [] (red_get_data_chunks_ptr slots gid sid qxl)
    (fun r => own_chunks (next_chunks r.2))
    (fun r => r.1 = INVALID_SIZE /\ next_chunks r.2 = [] \/ chunks_ok r.1 r.2).
Proof.
  intros Hg Hsid Hq Hqxl. unfold red_get_data_chunks_ptr.
  eapply spec_seq; [by apply spec_rd_u32|]. intros sz Hsz. cbn beta in Hsz.
  eapply spec_seq; [apply spec_validate_virt; auto; by apply guest_chunk_data|].
  intros [] Hval; simpl.
  2: { apply spec_ret; [by left|done]. }
  specialize (Hval eq_refl). cbn [data data_size] in Hval. rewrite u32_id in Hval by lia.
  eapply spec_call.
  { apply (spec_chunks_loop chunk_fuel qxl sid [] sz sz 0 Hg Hsid Hqxl Hsz).
    - split; [done|done|simpl; lia|done|split; by vm_compute].
    - rewrite chunk_fuel_spec. lia. }
  intros [[ok size] cs] Hwk. simpl in *. rewrite app_nil_r.
  destruct ok.
  - destruct (Hwk eq_refl) as [num' [? ? ? ? ?]].
    apply spec_ret; [right|done].
    split; simpl; auto; try lia. split; simpl; [lia|done].
  - eapply spec_bind; [apply spec_free_chunks| |].
    + rewrite own_chunks_reverse, app_nil_r. done.
    + intros [] _. apply spec_ret; [by left|done].
Qed.

Lemma spec_get_data_chunks addr :
  spec [] (red_get_data_chunks slots gid addr)
    (fun r => from_option (own_chunks ∘ next_chunks) [] r.2)
    (fun r => match r.2 with
              | None => r.1 = INVALID_SIZE
              | Some cl => r.1 = INVALID_SIZE /\ next_chunks cl = [] \/ chunks_ok r.1 cl
              end).
Proof.
  unfold red_get_data_chunks. eapply spec_seq; [by apply spec_get_virt|]. intros v Hv.
  case_if; [by apply spec_ret|].
  zbool. apply Hv, virt_ok_struct in Eb as (Hok & Hg & Hid & Hvr).
  eapply spec_call; [apply (spec_get_data_chunks_ptr (memslot_get_id slots addr)); auto; lia|].
  intros [size cl] Hr. simpl in *. rewrite app_nil_r.
  by apply spec_ret.
Qed.

Lemma spec_put_data_chunks o :
  (o = None -> E (Some UbUninit)) ->
  spec (from_option (own_chunks ∘ next_chunks) [] o) (red_put_data_chunks o)
    (fun _ => []) (fun _ => True).
Proof. intros HE. destruct o as [cl|]; simpl; [apply spec_free_chunks|by apply spec_undef, HE]. Qed.

Lemma spec_linearize_loop cs size :
  Forall chunk_ok cs -> 0 <= size <= chunks_sum cs ->
  spec [] (linearize_loop cs size) (fun _ => [])
    (fun r => Z.of_nat (length r.1) = size /\ r.2 = 0).
Proof.
  revert size. induction cs as [|c cs IH]; intros size Hcs Hsize; cbn [linearize_loop].
  { apply spec_ret; [simpl in *; lia|done]. }
  apply Forall_cons_1 in Hcs as [[Hr Hok] Hcs].
  change (chunks_sum (c :: cs)) with (data_size c + chunks_sum cs) in Hsize.
  case_if; zbool; [apply spec_ret; [simpl; lia|done]|].
  rewrite u32_id by lia.
  eapply spec_seq; [apply spec_guest_read; eapply guest_ok_sub; [done|lia..]|].
  intros bs Hbs. cbn beta in Hbs.
  eapply spec_seq; [apply IH; [done|]|]. { pose proof (chunks_sum_nonneg cs Hcs). lia. }
  intros [bs' size'] Hl. simpl in Hl.
  apply spec_ret; [simpl; rewrite length_app; lia|done].
Qed.

(** The linear buffer can be read over its whole size; the assertions of
    [red_linearize_chunk] hold. *)
Lemma spec_linearize_chunk cl size :
  chunks_ok size cl ->
  spec [] (red_linearize_chunk cl size) (fun r => own_ptr r.2)
    (fun r => readable r.1 size /\ (r.2 = 0 -> r.1 = GuestP (data (head_chunk cl)) /\ next_chunks cl = [])).
Proof.
  intros [[Hr Hok] Hnx Hbk Hsz Hbd Hct]. unfold red_linearize_chunk.
  pose proof (chunks_sum_nonneg _ Hnx).
  destruct (next_chunks cl) as [|c cs] eqn:Ecs.
  - simpl in Hsz. eapply spec_seq; [apply spec_assert; left; apply Z.leb_le; lia|]. intros [] Ha.
    apply spec_ret; [simpl in *; by rewrite Hsz, Z.add_0_r|done].
  - eapply spec_call; [apply spec_malloc|]. intros b Hb. cbn beta in Hb. rewrite app_nil_r.
    eapply spec_seq; [apply spec_linearize_loop; [by constructor; [split|]|]|].
    { change (chunks_sum (head_chunk cl :: c :: cs))
        with (data_size (head_chunk cl) + chunks_sum (c :: cs)). lia. }
    intros [bs size'] [Hl Hs]. cbn [fst snd] in *. subst size'.
    eapply spec_seq; [apply spec_assert; by left|]. intros [] _.
    apply spec_ret; [simpl; split; [lia|done]|done].
Qed.
End specs.
