(* ===== verification/QxlImage.v ===== *)
(** * Images (red-parse-qxl.cpp: red_get_image, brushes and masks)

    An image in guest memory is a bitmap (with an optional palette), a surface
    reference or QUIC data.  The parser copies the descriptor and the palette,
    checks the bitmap geometry against its format and collects the addresses
    of the pixel data. *)

From stdpp Require Import base list list_tactics numbers tactics option.
From Stdlib Require Import ZArith Lia.
From S2P Require Import Prelude Memslot QxlAbi QxlLogic QxlChunks.

Open Scope Z_scope.

(** ** Data *)

Record SpicePoint := mkSpicePoint { pt_x : Z; pt_y : Z }.
Record SpiceRect := mkSpiceRect { r_left : Z; r_top : Z; r_right : Z; r_bottom : Z }.

Record SpiceChunks := mkSpiceChunks {
  sc_blk : Z; sc_data_size : Z; sc_flags : Z; sc_chunk : list (Z * Z) (** data, len *) }.

Record SpicePalette := mkSpicePalette { pal_blk : Z; pal_unique : Z; pal_ents : list Z }.

Record SpiceBitmap := mkSpiceBitmap {
  bm_format : Z; bm_flags : Z; bm_x : Z; bm_y : Z; bm_stride : Z;
  bm_palette : option SpicePalette; bm_palette_id : Z; bm_data : SpiceChunks }.

Inductive image_u :=
  | ImgBitmap (bm : SpiceBitmap)
  | ImgSurface (surface_id : Z)
  | ImgQuic (data_size : Z) (d : SpiceChunks).

Record SpiceImage := mkSpiceImage {
  im_blk : Z; im_id : Z; im_type : Z; im_flags : Z; im_width : Z; im_height : Z;
  im_u : image_u }.

Inductive brush_u := BrNone | BrColor (color : Z) | BrPattern (pat : option SpiceImage) (pos : SpicePoint).
Record SpiceBrush := mkSpiceBrush { br_type : Z; br_u : brush_u }.

Record SpiceQMask := mkSpiceQMask { qm_flags : Z; qm_pos : SpicePoint; qm_bitmap : option SpiceImage }.

(** ** Pure checks *)

Definition color_16_to_32 (color : Z) : Z :=
  let ret := Z.lor (u32 (Z.shiftl (Z.land color 0x001f) 3)) (Z.shiftr (Z.land color 0x001c) 2) in
  let ret := Z.lor ret (Z.lor (u32 (Z.shiftl (Z.land color 0x03e0) 6))
                              (u32 (Z.shiftl (Z.land color 0x0380) 1))) in
  Z.lor ret (Z.lor (u32 (Z.shiftl (Z.land color 0x7c00) 9))
                   (u32 (Z.shiftl (Z.land color 0x7000) 4))).

(** spice-bitmap-utils.h *)
Definition bitmap_fmt_is_rgb (fmt : Z) : bool :=
  default false ([false; false; false; false; false; false; true; true; true; true; true]
                 !! Z.to_nat fmt).

Definition MAP_BITMAP_FMT_TO_BITS_PER_PIXEL : list Z := [0; 1; 1; 4; 4; 8; 16; 24; 32; 32; 8].

Definition bitmap_consistent (format x stride : Z) : bool :=
  if Z.of_nat (length MAP_BITMAP_FMT_TO_BITS_PER_PIXEL) <=? format then false
  else
    let bpp := default 0 (MAP_BITMAP_FMT_TO_BITS_PER_PIXEL !! Z.to_nat format) in
    negb (stride <? (x * bpp + 7) / 8).

Section image.
Context {abi : Abi} {gm : GuestMem} {api : SpiceChunksApi}.

Definition red_get_point_ptr (qxl : qptr) : P SpicePoint :=
  x ← rd QXLPoint_x qxl;
  y ← rd QXLPoint_y qxl;
  mret (mkSpicePoint x y).

Definition red_get_point16_ptr (qxl : qptr) : P SpicePoint :=
  x ← rd QXLPoint16_x qxl;
  y ← rd QXLPoint16_y qxl;
  mret (mkSpicePoint x y).

Definition red_get_rect_ptr (qxl : qptr) : P SpiceRect :=
  top ← rd QXLRect_top qxl;
  left ← rd QXLRect_left qxl;
  bottom ← rd QXLRect_bottom qxl;
  right ← rd QXLRect_right qxl;
  mret (mkSpiceRect left top right bottom).

Definition red_get_image_data_flat (slots : RedMemSlotInfo) (group_id addr size : Z)
    : P (option SpiceChunks) :=
  bitmap_virt ← memslot_get_virt slots addr size group_id;
  if bitmap_virt =? 0 then mret None
  else
    b ← spice_chunks_new 1;
    mret (Some (mkSpiceChunks b size 0 [(bitmap_virt, size)])).

Definition red_get_image_data_chunked (cl : chunk_list) : P SpiceChunks :=
  let cs := head_chunk cl :: next_chunks cl in
  b ← spice_chunks_new (Z.of_nat (length cs));
  let chunk := (fun c => (data c, data_size c)) <$> cs in
  spice_assert (Z.of_nat (length chunk) =? Z.of_nat (length cs));;
  mret (mkSpiceChunks b (chunks_sum cs) 0 chunk).

(** [qp->ents[i]] for [i < n], one guest read each. *)
Fixpoint read_ents (n : nat) (ents : Z) : P (list Z) :=
  match n with
  | O => mret []
  | S n' =>
      bs ← guest_read ents sizeof_QXLPalette_ent;
      es ← read_ents n' (ents + sizeof_QXLPalette_ent);
      mret (le_decode bs :: es)
  end.

(** The palette part of [red_get_image]; [None]: [goto error]. *)
Definition red_get_palette (slots : RedMemSlotInfo) (group_id palette flags : Z)
    : P (option SpicePalette) :=
  qp ← memslot_get_virt slots palette (sizeof QXLPalette) group_id;
  if qp =? 0 then mret None
  else
    num_ents ← s32 <$> rd QXLPalette_num_ents (GuestP qp);
    ok ← memslot_validate_virt slots (qp + toff QXLPalette_ents) (memslot_get_id slots palette)
           (num_ents * sizeof_QXLPalette_ent) group_id;
    if negb ok then mret None
    else
      rp ← g_malloc;
      unique ← rd QXLPalette_unique (GuestP qp);
      ents ← read_ents (Z.to_nat num_ents) (qp + toff QXLPalette_ents);
      let ents := if negb (Z.land flags QXL_COMMAND_FLAG_COMPAT_16BPP =? 0)
                  then color_16_to_32 <$> ents else ents in
      mret (Some (mkSpicePalette rp unique ents)).

(** [error:] *)
Definition image_error (red : Z) (rp : option SpicePalette) : P (option image_u) :=
  g_free red;;
  g_free (from_option pal_blk 0 rp);;
  mret None.

Definition or_flag (b : bool) (fl v : Z) : Z := if b then Z.lor v fl else v.
Definition has_flag (v fl : Z) : bool := negb (Z.land v fl =? 0).

(** The pixel data of a bitmap; [None]: [goto error]. *)
Definition red_get_bitmap_data (slots : RedMemSlotInfo) (group_id : Z) (qxl : qptr)
    (qxl_flags bitmap_size : Z) : P (option SpiceChunks) :=
  if has_flag qxl_flags QXL_BITMAP_DIRECT
  then
    addr ← rd QXLImage_bitmap_data qxl;
    red_get_image_data_flat slots group_id addr bitmap_size
  else
    addr ← rd QXLImage_bitmap_data qxl;
    '(size, chunks) ← red_get_data_chunks slots group_id addr;
    if (size =? INVALID_SIZE) || negb (size =? bitmap_size)
    then red_put_data_chunks chunks;; mret None
    else
      match chunks with
      | None => undef UbUninit
      | Some cl =>
          d ← red_get_image_data_chunked cl;
          red_put_data_chunks chunks;;
          mret (Some d)
      end.

(** The end of [case SPICE_IMAGE_TYPE_BITMAP], after the palette. *)
Definition red_get_image_bitmap_rest (slots : RedMemSlotInfo) (group_id : Z) (qxl : qptr) (red : Z)
    (rp : option SpicePalette) (format x y stride qxl_flags : Z) : P (option image_u) :=
  let bitmap_size := y * stride in
  if MAX_DATA_CHUNK <? bitmap_size then image_error red rp
  else
    d ← red_get_bitmap_data slots group_id qxl qxl_flags bitmap_size;
    match d with
    | None => image_error red rp
    | Some d =>
        let bflags := if has_flag qxl_flags QXL_BITMAP_TOP_DOWN
                      then SPICE_BITMAP_FLAGS_TOP_DOWN else 0 in
        let d := mkSpiceChunks (sc_blk d) (sc_data_size d)
                   (or_flag (has_flag qxl_flags QXL_BITMAP_UNSTABLE)
                            SPICE_CHUNKS_FLAGS_UNSTABLE (sc_flags d)) (sc_chunk d) in
        mret (Some (ImgBitmap (mkSpiceBitmap format bflags x y stride rp
                                 (from_option pal_unique 0 rp) d)))
    end.

(** [case SPICE_IMAGE_TYPE_BITMAP]; [red] is the block of the image. *)
Definition red_get_image_bitmap (slots : RedMemSlotInfo) (group_id : Z) (qxl : qptr) (red : Z)
    (flags : Z) (is_mask : bool) : P (option image_u) :=
  format ← u8 <$> rd QXLImage_bitmap_format qxl;
  x ← u32 <$> rd QXLImage_bitmap_x qxl;
  y ← u32 <$> rd QXLImage_bitmap_y qxl;
  stride ← u32 <$> rd QXLImage_bitmap_stride qxl;
  palette ← rd QXLImage_bitmap_palette qxl;
  if negb (bitmap_fmt_is_rgb format) && (palette =? 0) && negb is_mask
  then image_error red None
  else if (x =? 0) || (y =? 0) then image_error red None
  else
    qxl_flags ← u8 <$> rd QXLImage_bitmap_flags qxl;
    if negb (bitmap_consistent format x stride) then image_error red None
    else if negb (palette =? 0)
    then
      rp ← red_get_palette slots group_id palette flags;
      match rp with
      | None => image_error red None
      | Some _ => red_get_image_bitmap_rest slots group_id qxl red rp format x y stride qxl_flags
      end
    else red_get_image_bitmap_rest slots group_id qxl red None format x y stride qxl_flags.

(** [case SPICE_IMAGE_TYPE_QUIC] *)
Definition red_get_image_quic (slots : RedMemSlotInfo) (group_id addr : Z) (qxl red : Z)
    : P (option image_u) :=
  quic_size ← u32 <$> rd QXLImage_quic_data_size (GuestP qxl);
  '(size, cl) ← red_get_data_chunks_ptr slots group_id (memslot_get_id slots addr)
                  (qxl + moff QXLImage_quic_data);
  if (size =? INVALID_SIZE) || negb (size =? quic_size)
  then red_put_data_chunks (Some cl);; image_error red None
  else
    d ← red_get_image_data_chunked cl;
    red_put_data_chunks (Some cl);;
    mret (Some (ImgQuic quic_size d)).

Definition red_get_image (slots : RedMemSlotInfo) (group_id addr flags : Z) (is_mask : bool)
    : P (option SpiceImage) :=
  if addr =? 0 then mret None
  else
    qxl ← memslot_get_virt slots addr (sizeof QXLImage) group_id;
    if qxl =? 0 then mret None
    else
      red ← g_malloc;
      id ← rd QXLImage_descriptor_id (GuestP qxl);
      type ← u8 <$> rd QXLImage_descriptor_type (GuestP qxl);
      f1 ← rd QXLImage_descriptor_flags (GuestP qxl);
      let dflags := or_flag (has_flag f1 QXL_IMAGE_HIGH_BITS_SET) SPICE_IMAGE_FLAGS_HIGH_BITS_SET 0 in
      f2 ← rd QXLImage_descriptor_flags (GuestP qxl);
      let dflags := or_flag (has_flag f2 QXL_IMAGE_CACHE) SPICE_IMAGE_FLAGS_CACHE_ME dflags in
      width ← rd QXLImage_descriptor_width (GuestP qxl);
      height ← rd QXLImage_descriptor_height (GuestP qxl);
      u ← (if type =? SPICE_IMAGE_TYPE_BITMAP
           then red_get_image_bitmap slots group_id (GuestP qxl) red flags is_mask
           else if type =? SPICE_IMAGE_TYPE_SURFACE
           then sid ← rd QXLImage_surface_image_surface_id (GuestP qxl);
                mret (Some (ImgSurface sid))
           else if type =? SPICE_IMAGE_TYPE_QUIC
           then red_get_image_quic slots group_id addr qxl red
           else image_error red None);
      mret ((fun u => mkSpiceImage red id type dflags width height u) <$> u).

Definition red_put_image (red : option SpiceImage) : P unit :=
  match red with
  | None => mret tt
  | Some im =>
      (if im_type im =? SPICE_IMAGE_TYPE_BITMAP
       then match im_u im with
            | ImgBitmap bm =>
                g_free (from_option pal_blk 0 (bm_palette bm));;
                spice_chunks_destroy (sc_blk (bm_data bm))
            | _ => undef UbNull
            end
       else if im_type im =? SPICE_IMAGE_TYPE_QUIC
       then match im_u im with
            | ImgQuic _ d => spice_chunks_destroy (sc_blk d)
            | _ => undef UbNull
            end
       else mret tt);;
      g_free (im_blk im)
  end.

Definition red_get_brush_ptr (slots : RedMemSlotInfo) (group_id : Z) (qxl : qptr) (flags : Z)
    : P SpiceBrush :=
  type ← u8 <$> rd QXLBrush_type qxl;
  if type =? SPICE_BRUSH_TYPE_SOLID
  then
    color ← u32 <$> rd QXLBrush_u_color qxl;
    let color := if has_flag flags QXL_COMMAND_FLAG_COMPAT_16BPP
                 then color_16_to_32 color else color in
    mret (mkSpiceBrush type (BrColor color))
  else if type =? SPICE_BRUSH_TYPE_PATTERN
  then
    pat_addr ← rd QXLBrush_u_pattern_pat qxl;
    pat ← red_get_image slots group_id pat_addr flags false;
    pos ← red_get_point_ptr (addr_of QXLBrush_u_pattern_pos qxl);
    mret (mkSpiceBrush type (BrPattern pat pos))
  else mret (mkSpiceBrush type BrNone).

Definition red_put_brush (red : SpiceBrush) : P unit :=
  if br_type red =? SPICE_BRUSH_TYPE_PATTERN
  then match br_u red with
       | BrPattern pat _ => red_put_image pat
       | BrNone => mret tt     (** the zeroed union: a null image *)
       | BrColor _ => undef UbNull
       end
  else mret tt.

Definition red_get_qmask_ptr (slots : RedMemSlotInfo) (group_id : Z) (qxl : qptr) (flags : Z)
    : P SpiceQMask :=
  addr ← rd QXLQMask_bitmap qxl;
  bitmap ← red_get_image slots group_id addr flags true;
  match bitmap with
  | Some _ =>
      f ← rd QXLQMask_flags qxl;
      pos ← red_get_point_ptr (addr_of QXLQMask_pos qxl);
      mret (mkSpiceQMask f pos bitmap)
  | None => mret (mkSpiceQMask 0 (mkSpicePoint 0 0) None)
  end.

Definition red_put_qmask (red : SpiceQMask) : P unit := red_put_image (qm_bitmap red).
End image.

(** ** Ownership and well-formedness of the result *)

Definition own_pal (o : option SpicePalette) : list Z := own_ptr (from_option pal_blk 0 o).
Definition own_sc (d : SpiceChunks) : list Z := own_ptr (sc_blk d).
Definition own_u (u : image_u) : list Z :=
  match u with
  | ImgBitmap bm => own_pal (bm_palette bm) ++ own_sc (bm_data bm)
  | ImgSurface _ => []
  | ImgQuic _ d => own_sc d
  end.
Definition own_image (o : option SpiceImage) : list Z :=
  match o with None => [] | Some im => own_ptr (im_blk im) ++ own_u (im_u im) end.
Definition own_brush (b : SpiceBrush) : list Z :=
  match br_u b with BrPattern pat _ => own_image pat | _ => [] end.
Definition own_qmask (m : SpiceQMask) : list Z := own_image (qm_bitmap m).

Section image_specs.
Context {abi : Abi} {gm : GuestMem} {api : SpiceChunksApi} `{!AbiOk abi} `{!SpiceChunksOk api}.
Context (slots : RedMemSlotInfo) (gid : Z) (E : option ub_kind -> Prop).
Context (Hwf : slots_wf slots) (Hgid : -2 ^ 31 <= gid < 2 ^ 31) (HE : E (Some UbUninit)).
#[local] Abbreviation guest_ok := (guest_ok slots gid).
#[local] Abbreviation readable := (readable slots gid).
#[local] Abbreviation spec := (spec slots gid E).

(** Pixel data of [size] bytes, every piece inside a slot. *)
Record sc_ok (size : Z) (d : SpiceChunks) : Prop := {
  sc_live : sc_blk d <> 0;
  sc_size : sc_data_size d = size;
  sc_sum : foldr (fun c n => snd c + n) 0 (sc_chunk d) = size;
  sc_mem : Forall (fun c => guest_ok (fst c) (snd c)) (sc_chunk d) }.

(** The geometry of an accepted bitmap is consistent with its format and its data. *)
Record bitmap_ok (is_mask : bool) (bm : SpiceBitmap) : Prop := {
  bo_area : 0 < bm_x bm /\ 0 < bm_y bm;
  bo_format : 0 <= bm_format bm < 11;
  bo_stride : (bm_x bm * default 0 (MAP_BITMAP_FMT_TO_BITS_PER_PIXEL !! Z.to_nat (bm_format bm)) + 7) / 8
              <= bm_stride bm;
  bo_size : bm_y bm * bm_stride bm <= MAX_DATA_CHUNK;
  bo_palette : bitmap_fmt_is_rgb (bm_format bm) = true \/ bm_palette bm <> None \/ is_mask = true;
  bo_data : sc_ok (bm_y bm * bm_stride bm) (bm_data bm) }.

Definition u_ok (is_mask : bool) (type : Z) (u : image_u) : Prop :=
  match u with
  | ImgBitmap bm => type = SPICE_IMAGE_TYPE_BITMAP /\ bitmap_ok is_mask bm
  | ImgSurface _ => type = SPICE_IMAGE_TYPE_SURFACE
  | ImgQuic n d => type = SPICE_IMAGE_TYPE_QUIC /\ sc_ok n d
  end.

Definition image_ok (is_mask : bool) (o : option SpiceImage) : Prop :=
  match o with
  | None => True
  | Some im => im_blk im <> 0 /\ u_ok is_mask (im_type im) (im_u im)
  end.

Definition brush_ok (b : SpiceBrush) : Prop :=
  match br_u b with
  | BrNone => True
  | BrColor _ => br_type b <> SPICE_BRUSH_TYPE_PATTERN
  | BrPattern pat _ => br_type b = SPICE_BRUSH_TYPE_PATTERN /\ image_ok false pat
  end.

Definition qmask_ok (m : SpiceQMask) : Prop := image_ok true (qm_bitmap m).

Lemma spec_get_point p :
  readable p (sizeof QXLPoint) -> spec [] (red_get_point_ptr p) (fun _ => []) (fun _ => True).
Proof.
  intros. unfold red_get_point_ptr.
  do 2 (eapply spec_seq; [by apply spec_rd|]; intros ? _). by apply spec_ret.
Qed.

Lemma spec_get_point16 p :
  readable p (sizeof QXLPoint16) -> spec [] (red_get_point16_ptr p) (fun _ => []) (fun _ => True).
Proof.
  intros. unfold red_get_point16_ptr.
  do 2 (eapply spec_seq; [by apply spec_rd|]; intros ? _). by apply spec_ret.
Qed.

Lemma spec_get_rect p :
  readable p (sizeof QXLRect) -> spec [] (red_get_rect_ptr p) (fun _ => []) (fun _ => True).
Proof.
  intros. unfold red_get_rect_ptr.
  do 4 (eapply spec_seq; [by apply spec_rd|]; intros ? _). by apply spec_ret.
Qed.

Lemma spec_image_data_flat addr size :
  0 <= size < 2 ^ 32 ->
  spec [] (red_get_image_data_flat slots gid addr size) (from_option own_sc [])
    (from_option (sc_ok size) True).
Proof.
  intros Hs. unfold red_get_image_data_flat.
  eapply spec_seq; [by apply spec_get_virt|]. intros v Hv. cbn beta in Hv.
  case_if; [by apply spec_ret|]. zbool. specialize (Hv Eb) as (_ & _ & _ & Hin).
  rewrite u32_id in Hin by lia.
  eapply spec_call; [apply chunks_new_ok|]. intros b Hb. rewrite app_nil_r.
  apply spec_ret; [|done]. split; simpl; auto; [lia|].
  constructor; [|done]. by exists (memslot_get_id slots addr).
Qed.

Lemma spec_image_data_chunked size cl :
  chunks_ok slots gid size cl ->
  spec [] (red_get_image_data_chunked cl) own_sc (sc_ok size).
Proof.
  intros Hc. unfold red_get_image_data_chunked.
  eapply spec_call; [apply chunks_new_ok|]. intros b Hb. rewrite app_nil_r.
  eapply spec_seq; [apply spec_assert; left; apply Z.eqb_eq; by rewrite length_fmap|].
  intros [] _. apply spec_ret; [|done].
  destruct Hc as [[Hr Hok] Hnx Hbk Hsz Hbd Hct]. split; simpl; auto.
  - rewrite Hsz. f_equal. clear. induction (next_chunks cl); simpl; [done|]. by f_equal.
  - constructor; [done|]. clear -Hnx. induction Hnx as [|c cs [? ?] ? IH]; simpl; auto.
Qed.

Lemma spec_read_ents n a :
  guest_ok a (Z.of_nat n * sizeof_QXLPalette_ent) ->
  spec [] (read_ents n a) (fun _ => []) (fun l => length l = n).
Proof.
  pose proof host_sizes as (_ & _ & _ & _ & _ & _ & _ & Hsz & _).
  revert a; induction n as [|n IH]; intros a Hok; cbn [read_ents]; [by apply spec_ret|].
  eapply spec_seq; [apply spec_guest_read; eapply guest_ok_sub; [done|nia..]|]. intros bs _.
  eapply spec_seq; [apply IH; eapply guest_ok_sub; [done|nia..]|]. intros es Hes.
  apply spec_ret; [|done]. simpl. by rewrite Hes.
Qed.

Lemma spec_get_palette addr flags :
  spec [] (red_get_palette slots gid addr flags) own_pal
    (fun o => from_option (fun p => pal_blk p <> 0) True o).
Proof.
  unfold red_get_palette.
  eapply spec_seq; [by apply spec_get_virt|]. intros v Hv. cbn beta in Hv.
  case_if; [by apply spec_ret|]. zbool. specialize (Hv Eb).
  apply virt_ok_struct in Hv as (Hok & Hg & Hid & Hvr).
  pose proof count_widths as (Hsg & Hw & _).
  pose proof host_sizes as (_ & _ & _ & _ & _ & _ & _ & Hsz & _).
  eapply spec_seq.
  { apply spec_fmap. eapply spec_conseq; [by apply (spec_rd_unsigned _ _ _ _ _ 2)|done|].
    intros z Hz. cbn beta in Hz. split; [|done]. instantiate (1 := fun z => 0 <= z < 65536). cbn beta.
    rewrite s32_id; lia. }
  intros num Hnum. cbn beta in Hnum.
  eapply spec_seq.
  { apply spec_validate_virt; auto. destruct Hok as [sid Hin].
    pose proof (in_slot_bound _ _ _ _ _ Hwf Hin). pose proof (tail_inside QXLPalette_ents).
    simpl in *. lia. }
  intros [] Hval; cbn [negb]; [|by apply spec_ret]. specialize (Hval eq_refl).
  rewrite u32_id in Hval by nia.
  eapply spec_call; [apply spec_malloc|]. intros b Hb. cbn beta in Hb. rewrite app_nil_r.
  eapply spec_seq; [by apply spec_rd|]. intros uq _.
  eapply spec_seq; [apply spec_read_ents; rewrite Z2Nat.id by lia; done|]. intros es Hes.
  by apply spec_ret.
Qed.

Lemma spec_image_error b rp :
  spec (own_ptr b ++ own_pal rp) (image_error b rp) (fun _ => []) (fun u => u = None).
Proof.
  unfold image_error. eapply spec_bind; [apply spec_free|reflexivity|]. intros [] _. simpl.
  eapply (spec_bind _ _ _ _ []); [apply spec_free|by rewrite app_nil_r|]. intros [] _.
  by apply spec_ret.
Qed.

(** The image part of a result, with the block [b] of the image itself. *)
Definition own_new (b : Z) (u : option image_u) : list Z :=
  match u with None => [] | Some u => own_ptr b ++ own_u u end.

(** [goto error]: everything built so far is given back. *)
Lemma spec_image_fail (is_mask : bool) type b rp pre :
  pre ≡ₚ own_ptr b ++ own_pal rp ->
  spec pre (image_error b rp) (own_new b) (from_option (u_ok is_mask type) True).
Proof.
  intros Hp. eapply spec_conseq; [apply spec_image_error|exact Hp|]. by intros ? ->.
Qed.

(** The data of a bitmap: from one block, or from chunks. *)
Lemma spec_get_bitmap_data p qflags size :
  readable p (sizeof QXLImage) -> 0 <= size <= MAX_DATA_CHUNK ->
  spec [] (red_get_bitmap_data slots gid p qflags size)
    (from_option own_sc []) (from_option (sc_ok size) True).
Proof.
  intros Hr Hsz. assert (MAX_DATA_CHUNK = 2147483647) as HM by reflexivity.
  assert (INVALID_SIZE = 18446744073709551615) as HI by reflexivity.
  unfold red_get_bitmap_data. case_if; (eapply spec_seq; [by apply spec_rd|]; intros addr _).
  - apply spec_image_data_flat. lia.
  - eapply spec_call; [by apply spec_get_data_chunks|]. intros [size' chunks] Hc. cbn [snd fst] in *.
    rewrite app_nil_r. case_if.
    + eapply (spec_bind _ _ _ _ []); [by apply spec_put_data_chunks|by rewrite app_nil_r|].
      intros [] _. by apply spec_ret.
    + zbool. subst size'. destruct chunks as [cl|]; [|lia]. destruct Hc as [[? ?]|Hc]; [lia|].
      eapply spec_call; [by apply spec_image_data_chunked|]. intros d Hd.
      eapply spec_bind; [by apply spec_put_data_chunks|apply Permutation_app_comm|]. intros [] _.
      by apply spec_ret.
Qed.

Lemma bitmap_consistent_ok format x stride :
  bitmap_consistent format x stride = true ->
  format < 11 /\ (x * default 0 (MAP_BITMAP_FMT_TO_BITS_PER_PIXEL !! Z.to_nat format) + 7) / 8 <= stride.
Proof.
  unfold bitmap_consistent. case_if; [done|]. cbv zeta. simpl length in Eb. intros H. zbool. lia.
Qed.

Lemma spec_get_image_bitmap_rest v b rp format x y stride qflags is_mask :
  readable (GuestP v) (sizeof QXLImage) ->
  0 <= format < 11 -> 0 < x < 2 ^ 32 -> 0 < y < 2 ^ 32 -> 0 <= stride < 2 ^ 32 ->
  (x * default 0 (MAP_BITMAP_FMT_TO_BITS_PER_PIXEL !! Z.to_nat format) + 7) / 8 <= stride ->
  (bitmap_fmt_is_rgb format = true \/ rp <> None \/ is_mask = true) ->
  spec (own_pal rp ++ own_ptr b)
    (red_get_image_bitmap_rest slots gid (GuestP v) b rp format x y stride qflags)
    (own_new b) (from_option (u_ok is_mask SPICE_IMAGE_TYPE_BITMAP) True).
Proof.
  intros Hr Hf Hx Hy Hst Hstr Hpal. unfold red_get_image_bitmap_rest. cbv zeta.
  case_if; [apply spec_image_fail, Permutation_app_comm|]. zbool.
  eapply spec_call; [apply spec_get_bitmap_data; [done|nia]|]. intros [d|] Hd; simpl.
  - apply spec_ret; [|simpl; solve_Permutation]. split; [done|]. destruct Hd.
    split; simpl; auto; try lia. by split.
  - apply spec_image_fail, Permutation_app_comm.
Qed.

Lemma spec_get_image_bitmap v b flags is_mask :
  readable (GuestP v) (sizeof QXLImage) ->
  spec (own_ptr b) (red_get_image_bitmap slots gid (GuestP v) b flags is_mask)
    (own_new b) (from_option (u_ok is_mask SPICE_IMAGE_TYPE_BITMAP) True).
Proof.
  intros Hr. unfold red_get_image_bitmap.
  assert (Hfail : spec (own_ptr b) (image_error b None) (own_new b)
                    (from_option (u_ok is_mask SPICE_IMAGE_TYPE_BITMAP) True)).
  { apply spec_image_fail. unfold own_pal, own_ptr. simpl. by rewrite app_nil_r. }
  eapply spec_seq; [apply (spec_rd_wrap _ _ _ u8 (fun z => 0 <= z < 256)); [done|exact u8_range]|].
  intros format Hf. cbn beta in Hf.
  eapply spec_seq; [by apply spec_rd_u32|]. intros x Hx. cbn beta in Hx.
  eapply spec_seq; [by apply spec_rd_u32|]. intros y Hy. cbn beta in Hy.
  eapply spec_seq; [by apply spec_rd_u32|]. intros stride Hst. cbn beta in Hst.
  eapply spec_seq; [by apply spec_rd|]. intros palette _.
  case_if; [done|]. case_if; [done|].
  eapply spec_seq; [apply (spec_rd_wrap _ _ _ u8 (fun z => True)); [done|done]|].
  intros qflags _. case_if; [done|]. zbool. apply bitmap_consistent_ok in Eb1 as [Hfmt Hstr].
  case_if; zbool.
  - eapply spec_call; [apply spec_get_palette|]. intros [p|] Hp; [|done].
    apply spec_get_image_bitmap_rest; auto; lia.
  - apply (spec_get_image_bitmap_rest v b None); auto; try lia.
    apply andb_false_iff in Eb as [Eb|Eb]; zbool; [|by auto].
    apply andb_false_iff in Eb as [Eb|Eb]; zbool; [by auto|done].
Qed.

Lemma spec_get_image_quic addr v b is_mask :
  group_ok slots gid -> slot_id_ok slots (memslot_get_id slots addr) -> 0 < v ->
  readable (GuestP v) (sizeof QXLImage) ->
  spec (own_ptr b) (red_get_image_quic slots gid addr v b)
    (own_new b) (from_option (u_ok is_mask SPICE_IMAGE_TYPE_QUIC) True).
Proof.
  intros Hg Hid Hv Hr. unfold red_get_image_quic.
  assert (INVALID_SIZE = 18446744073709551615) as HI by reflexivity.
  eapply spec_seq; [by apply spec_rd_u32|]. intros qs Hqs. cbn beta in Hqs.
  eapply spec_call.
  { apply spec_get_data_chunks_ptr; auto.
    - pose proof (memb_inside QXLImage_quic_data). lia.
    - by apply (readable_memb _ _ QXLImage_quic_data (GuestP v)). }
  intros [size cl] Hc. cbn [fst snd] in *. case_if.
  - eapply spec_bind; [by apply (spec_put_data_chunks _ _ _ (Some cl))|reflexivity|]. intros [] _.
    apply spec_image_fail. unfold own_pal, own_ptr. simpl. by rewrite app_nil_r.
  - zbool. subst size. destruct Hc as [[? ?]|Hc]; [lia|].
    eapply spec_call; [by apply spec_image_data_chunked|]. intros d Hd.
    eapply (spec_bind _ _ _ _ (own_sc d ++ own_ptr b));
      [by apply (spec_put_data_chunks _ _ _ (Some cl))|simpl; solve_Permutation|]. intros [] _.
    apply spec_ret; [done|]. simpl. apply Permutation_app_comm.
Qed.

(** [red_get_image] returns either nothing, having given back all it took, or
    an image that owns its blocks and is consistent with the slots. *)
Lemma spec_get_image addr flags is_mask :
  spec [] (red_get_image slots gid addr flags is_mask) own_image (image_ok is_mask).
Proof.
  unfold red_get_image. case_if; [by apply spec_ret|].
  eapply spec_seq; [by apply spec_get_virt|]. intros v Hv. cbn beta in Hv.
  case_if; [by apply spec_ret|]. zbool. specialize (Hv Eb0).
  apply virt_ok_struct in Hv as (Hok & Hg & Hid & Hvr).
  eapply spec_call; [apply spec_malloc|]. intros b Hb. cbn beta in Hb. rewrite app_nil_r.
  eapply spec_seq; [by apply spec_rd|]. intros id _.
  eapply spec_seq; [apply (spec_rd_wrap _ _ _ u8 (fun z => True)); [done|done]|]. intros type _.
  do 4 (eapply spec_seq; [by apply spec_rd|]; intros ? _).
  eapply (spec_bind _ _ _ _ []).
  - instantiate (1 := from_option (u_ok is_mask type) True). instantiate (1 := own_new b).
    instantiate (1 := own_ptr b).
    case_if; [apply Z.eqb_eq in Eb1 as ->; by apply spec_get_image_bitmap|].
    case_if. { eapply spec_seq; [by apply spec_rd|]. intros sid _.
      apply spec_ret; [by apply Z.eqb_eq|]. simpl. by rewrite app_nil_r. }
    case_if; [apply Z.eqb_eq in Eb3 as ->; apply spec_get_image_quic; auto; lia|].
    apply spec_image_fail. unfold own_pal, own_ptr. simpl. by rewrite app_nil_r.
  - by rewrite app_nil_r.
  - intros [u|] Hu; (apply spec_ret; [done|by rewrite app_nil_r]).
Qed.

(** [red_put_image] gives back exactly what the image owns. *)
Lemma spec_put_image is_mask o :
  image_ok is_mask o -> spec (own_image o) (red_put_image o) (fun _ => []) (fun _ => True).
Proof.
  pose proof image_types_distinct as (Hd1 & Hd2 & Hd3).
  destruct o as [im|]; simpl; [|by intros; apply spec_ret]. intros [Hb Hu].
  eapply (spec_bind _ _ _ (own_u (im_u im)) (own_ptr (im_blk im)) _ _ _ (fun _ => []) (fun _ => True));
    [|apply Permutation_app_comm|].
  - destruct (im_u im) as [bm|sid|n d]; simpl in Hu.
    + destruct Hu as [-> Hbm]. rewrite Z.eqb_refl. simpl.
      eapply spec_bind; [apply spec_free|reflexivity|]. intros [] _.
      apply chunks_destroy_ok. apply Hbm.
    + rewrite Hu. destruct (Z.eqb_spec SPICE_IMAGE_TYPE_SURFACE SPICE_IMAGE_TYPE_BITMAP); [lia|].
      destruct (Z.eqb_spec SPICE_IMAGE_TYPE_SURFACE SPICE_IMAGE_TYPE_QUIC); [lia|]. by apply spec_ret.
    + destruct Hu as [-> Hd]. destruct (Z.eqb_spec SPICE_IMAGE_TYPE_QUIC SPICE_IMAGE_TYPE_BITMAP); [lia|].
      rewrite Z.eqb_refl. apply chunks_destroy_ok. apply Hd.
  - intros [] _. apply spec_free.
Qed.

Lemma spec_get_brush p flags :
  readable p (sizeof QXLBrush) ->
  spec [] (red_get_brush_ptr slots gid p flags) own_brush brush_ok.
Proof.
  intros Hr. pose proof brush_types_distinct. unfold red_get_brush_ptr.
  eapply spec_seq; [apply (spec_rd_wrap _ _ _ u8 (fun z => True)); [done|done]|]. intros type _.
  case_if.
  { eapply spec_seq; [by apply spec_rd_u32|]. intros c _. apply spec_ret; [|done].
    unfold brush_ok; simpl. apply Z.eqb_eq in Eb. congruence. }
  case_if; [|by apply spec_ret]. zbool. subst type.
  eapply spec_seq; [by apply spec_rd|]. intros pa _.
  eapply spec_call; [apply spec_get_image|]. intros pat Hp. rewrite app_nil_r.
  eapply spec_seq; [by apply spec_get_point, (readable_memb _ _ QXLBrush_u_pattern_pos)|]. intros pos _.
  by apply spec_ret.
Qed.

Lemma spec_put_brush b :
  brush_ok b -> spec (own_brush b) (red_put_brush b) (fun _ => []) (fun _ => True).
Proof.
  unfold brush_ok, own_brush, red_put_brush. destruct (br_u b) as [|c|pat pos]; intros Hb.
  - case_if; by apply spec_ret.
  - destruct (Z.eqb_spec (br_type b) SPICE_BRUSH_TYPE_PATTERN); [done|]. by apply spec_ret.
  - destruct Hb as [-> Hi]. rewrite Z.eqb_refl. by eapply spec_put_image.
Qed.

Lemma spec_get_qmask p flags :
  readable p (sizeof QXLQMask) ->
  spec [] (red_get_qmask_ptr slots gid p flags) own_qmask qmask_ok.
Proof.
  intros Hr. unfold red_get_qmask_ptr.
  eapply spec_seq; [by apply spec_rd|]. intros a _.
  eapply spec_call; [apply spec_get_image|]. intros [im|] Hi; rewrite app_nil_r; [|by apply spec_ret].
  eapply spec_seq; [by apply spec_rd|]. intros f _.
  eapply spec_seq; [by apply spec_get_point, (readable_memb _ _ QXLQMask_pos)|]. intros pos _.
  by apply spec_ret.
Qed.

Lemma spec_put_qmask m :
  qmask_ok m -> spec (own_qmask m) (red_put_qmask m) (fun _ => []) (fun _ => True).
Proof. apply spec_put_image. Qed.
End image_specs.
