(* ===== verification/QxlGeom.v ===== *)
(** * Paths, clip rectangles and text (red-parse-qxl.cpp: red_get_path,
      red_get_clip_rects, red_get_string)

    These three parse variable-size data in two passes: the first pass measures,
    the second copies into a block of the measured size.  When the data is one
    chunk it stays in guest memory, so the guest can change it between the
    passes.  The copies of the model check every write against the size of the
    block ([host_write]) and every guest read is logged, so both effects of such
    a change are visible. *)

From stdpp Require Import base list list_tactics numbers tactics option.
From Stdlib Require Import ZArith Lia.
From S2P Require Import Prelude Memslot QxlAbi QxlLogic QxlChunks QxlImage.

Open Scope Z_scope.

Record SpicePathSeg := mkSpicePathSeg { ps_flags : Z; ps_points : list (Z * Z) }.
Record SpicePath := mkSpicePath { pa_blk : Z; pa_segments : list SpicePathSeg }.

Record SpiceClipRects := mkSpiceClipRects { cr_blk : Z; cr_rects : list SpiceRect }.

Record SpiceRasterGlyph := mkSpiceRasterGlyph {
  gl_width : Z; gl_height : Z; gl_render_pos : SpicePoint; gl_origin : SpicePoint;
  gl_data : list Z }.
Record SpiceString := mkSpiceString {
  st_blk : Z; st_flags : Z; st_glyphs : list SpiceRasterGlyph }.

Section geom.
Context {abi : Abi} {gm : GuestMem}.

(** A write of [len] bytes at offset [off] of a host block of [size] bytes. *)
Definition host_write (size off len : Z) : P unit :=
  if (0 <=? off) && (off + len <=? size) then mret tt else undef UbHostOob.

(** The data of a structure at [qxl] (guest address [addr]) whose chunk header
    is the member [m]: walk the chunks, linearize, drop the chunk list.  The
    result is the data, its size and the block to free. *)
Definition linearize_at (slots : RedMemSlotInfo) (group_id addr qxl : Z) (m : memb)
    : P (option (qptr * Z * Z)) :=
  '(size, chunks) ← red_get_data_chunks_ptr slots group_id (memslot_get_id slots addr)
                      (qxl + moff m);
  if size =? INVALID_SIZE then mret None
  else
    '(data, free_data) ← red_linearize_chunk chunks size;
    red_put_data_chunks (Some chunks);;
    mret (Some (data, size, free_data)).

(** The common start of the three functions below; the result begins with the
    structure's address. *)
Definition red_get_linear (slots : RedMemSlotInfo) (group_id addr : Z) (q : qstruct) (m : memb)
    : P (option (Z * qptr * Z * Z)) :=
  qxl ← memslot_get_virt slots addr (sizeof q) group_id;
  if qxl =? 0 then mret None
  else
    r ← linearize_at slots group_id addr qxl m;
    mret ((fun '(data, size, free_data) => (qxl, data, size, free_data)) <$> r).

(** First pass of [red_get_path]: number of segments and memory needed. *)
Fixpoint path_measure (fuel : nat) (data : qptr) (size start n_segments mem_size : Z) : P (Z * Z) :=
  match fuel with
  | O => undef UbFuel
  | S fuel' =>
      if negb (start + sizeof QXLPathSeg <? size) then mret (n_segments, mem_size)
      else
        count ← u32 <$> rd QXLPathSeg_count (padd data start);
        let segment_size := u64 (sizeof_SpicePathSeg + count * sizeof_SpicePointFix) in
        let mem_size := u64 (mem_size + (sizeof_pointer + SPICE_ALIGN segment_size 4)) in
        let points := start + toff QXLPathSeg_points in
        spice_assert (u64 (count * sizeof QXLPointFix) <=? u64 (size - points));;
        path_measure fuel' data size (points + count * sizeof QXLPointFix) (n_segments + 1) mem_size
  end.

(** The [for] loop that copies the points of a segment. *)
Fixpoint path_points (n : nat) (data : qptr) (points seg mem_size : Z) : P (list (Z * Z)) :=
  match n with
  | O => mret []
  | S n' =>
      x ← rd QXLPointFix_x (padd data points);
      y ← rd QXLPointFix_y (padd data points);
      host_write mem_size seg sizeof_SpicePointFix;;
      ps ← path_points n' data (points + sizeof QXLPointFix) (seg + sizeof_SpicePointFix) mem_size;
      mret ((x, y) :: ps)
  end.

(** Second pass: [seg] is the offset of the next segment in the block. *)
Fixpoint path_copy (fuel : nat) (data : qptr) (size start n_segments num_segments seg mem_size2 mem_size : Z)
    : P (Z * list SpicePathSeg) :=
  match fuel with
  | O => undef UbFuel
  | S fuel' =>
      if negb ((start + sizeof QXLPathSeg <? size) && (n_segments <? num_segments))
      then mret (n_segments, [])
      else
        host_write mem_size (sizeof_SpicePath + n_segments * sizeof_pointer) sizeof_pointer;;
        count ← u32 <$> rd QXLPathSeg_count (padd data start);
        let mem_size2 := u64 (mem_size2 + (sizeof_SpicePathSeg + count * sizeof_SpicePointFix)) in
        spice_assert (mem_size2 <=? mem_size);;
        flags ← rd QXLPathSeg_flags (padd data start);
        host_write mem_size seg sizeof_SpicePathSeg;;
        let points := start + toff QXLPathSeg_points in
        ps ← path_points (Z.to_nat count) data points (seg + sizeof_SpicePathSeg) mem_size;
        '(n, segs) ← path_copy fuel' data size (points + count * sizeof QXLPointFix)
                       (n_segments + 1) num_segments
                       (seg + sizeof_SpicePathSeg + count * sizeof_SpicePointFix) mem_size2 mem_size;
        mret (n, mkSpicePathSeg flags ps :: segs)
  end.

Definition red_get_path (slots : RedMemSlotInfo) (group_id addr : Z) : P (option SpicePath) :=
  r ← red_get_linear slots group_id addr QXLPath QXLPath_chunk;
  match r with
  | None => mret None
  | Some (_, data, size, free_data) =>
      '(num_segments, mem_size) ← path_measure (S (Z.to_nat size)) data size 0 0 sizeof_SpicePath;
      red ← g_malloc;
      '(n_segments, segs) ← path_copy (S (Z.to_nat size)) data size 0 0 num_segments
                              (sizeof_SpicePath + num_segments * sizeof_pointer)
                              sizeof_SpicePath mem_size;
      spice_assert (n_segments =? num_segments);;
      g_free free_data;;
      mret (Some (mkSpicePath red segs))
  end.

Fixpoint read_rects (n : nat) (start : qptr) : P (list SpiceRect) :=
  match n with
  | O => mret []
  | S n' =>
      r ← red_get_rect_ptr start;
      rs ← read_rects n' (padd start (sizeof QXLRect));
      mret (r :: rs)
  end.

Definition red_get_clip_rects (slots : RedMemSlotInfo) (group_id addr : Z)
    : P (option SpiceClipRects) :=
  r ← red_get_linear slots group_id addr QXLClipRects QXLClipRects_chunk;
  match r with
  | None => mret None
  | Some (qxl, data, size, free_data) =>
      num_rects ← u32 <$> rd QXLClipRects_num_rects (GuestP qxl);
      spice_assert (num_rects * sizeof QXLRect =? size);;
      red ← g_malloc;
      rects ← read_rects (Z.to_nat num_rects) data;
      g_free free_data;;
      mret (Some (mkSpiceClipRects red rects))
  end.

(** [height * ((width * bpp + 7U) / 8U)] in unsigned 32-bit arithmetic *)
Definition glyph_bytes (height width bpp : Z) : Z :=
  u32 (height * (u32 (width * bpp + 7) / 8)).

(** First pass of [red_get_string]: glyphs, memory and end offset. *)
Fixpoint string_measure (fuel : nat) (data : qptr) (size bpp start glyphs red_size : Z)
    : P (Z * Z * Z) :=
  match fuel with
  | O => undef UbFuel
  | S fuel' =>
      if negb (start <? size) then mret (glyphs, red_size, start)
      else
        let gdata := start + toff QXLRasterGlyph_data in
        spice_assert (gdata <=? size);;
        height ← u16 <$> rd QXLRasterGlyph_height (padd data start);
        width ← u16 <$> rd QXLRasterGlyph_width (padd data start);
        let glyph_size := glyph_bytes height width bpp in
        let red_size := u64 (red_size + (sizeof_pointer +
                                         SPICE_ALIGN (sizeof_SpiceRasterGlyph + glyph_size) 4)) in
        spice_assert (glyph_size <=? u64 (size - gdata));;
        string_measure fuel' data size bpp (gdata + glyph_size) (glyphs + 1) red_size
  end.

(** Second pass: [glyph] is the offset of the next glyph in the block of
    [red_size] bytes, [i] its index. *)
Fixpoint string_copy (n : nat) (data : qptr) (size bpp start i glyph red_size : Z)
    : P (list SpiceRasterGlyph) :=
  match n with
  | O => mret []
  | S n' =>
      let gdata := start + toff QXLRasterGlyph_data in
      spice_assert (gdata <=? size);;
      host_write red_size (sizeof_SpiceString + i * sizeof_pointer) sizeof_pointer;;
      width ← u16 <$> rd QXLRasterGlyph_width (padd data start);
      height ← u16 <$> rd QXLRasterGlyph_height (padd data start);
      render_pos ← red_get_point_ptr (addr_of QXLRasterGlyph_render_pos (padd data start));
      glyph_origin ← red_get_point_ptr (addr_of QXLRasterGlyph_glyph_origin (padd data start));
      host_write red_size glyph sizeof_SpiceRasterGlyph;;
      let glyph_size := glyph_bytes height width bpp in
      spice_assert (glyph_size <=? u64 (size - gdata));;
      bs ← read_bytes (padd data gdata) glyph_size;
      host_write red_size (glyph + sizeof_SpiceRasterGlyph) glyph_size;;
      gs ← string_copy n' data size bpp (gdata + glyph_size) (i + 1)
             (glyph + SPICE_ALIGN (sizeof_SpiceRasterGlyph + glyph_size) 4) red_size;
      mret (mkSpiceRasterGlyph width height render_pos glyph_origin bs :: gs)
  end.

Definition string_bpp (qxl_flags : Z) : Z :=
  if has_flag qxl_flags SPICE_STRING_FLAGS_RASTER_A1 then 1
  else if has_flag qxl_flags SPICE_STRING_FLAGS_RASTER_A4 then 4
  else if has_flag qxl_flags SPICE_STRING_FLAGS_RASTER_A8 then 8
  else 0.

Definition red_get_string (slots : RedMemSlotInfo) (group_id addr : Z) : P (option SpiceString) :=
  r ← red_get_linear slots group_id addr QXLString QXLString_chunk;
  match r with
  | None => mret None
  | Some (qxl, data, chunk_size, free_data) =>
      qxl_size ← rd QXLString_data_size (GuestP qxl);
      qxl_flags ← u16 <$> rd QXLString_flags (GuestP qxl);
      qxl_length ← u16 <$> rd QXLString_length (GuestP qxl);
      spice_assert (chunk_size =? qxl_size);;
      let bpp := string_bpp qxl_flags in
      spice_assert (negb (bpp =? 0));;
      '(glyphs, red_size, start) ←
        string_measure (S (Z.to_nat chunk_size)) data chunk_size bpp 0 0 sizeof_SpiceString;
      spice_assert (start <=? chunk_size);;
      spice_assert (glyphs =? qxl_length);;
      red ← g_malloc;
      gs ← string_copy (Z.to_nat qxl_length) data chunk_size bpp 0 0
             (sizeof_SpiceString + qxl_length * sizeof_pointer) red_size;
      g_free free_data;;
      mret (Some (mkSpiceString red qxl_flags gs))
  end.
End geom.

(** ** Stable data

    The guest does not write while the command is parsed, or the data is a host
    copy: then a read is a function of the address alone. *)

Definition race_free {gm : GuestMem} : Prop := forall t a, guest_at t a = guest_at 0 a.

Section stable.
Context {abi : Abi} {gm : GuestMem}.

Definition stable (p : qptr) : Prop :=
  match p with GuestP _ => race_free | HostP _ _ => True end.

Definition peek_bytes (p : qptr) (n : Z) : list Z :=
  match p with
  | GuestP a => guest_at 0 <$> zseq a n
  | HostP bs o => take (Z.to_nat n) (drop (Z.to_nat o) bs)
  end.

Definition peek (f : fld) (p : qptr) : Z := decode f (peek_bytes (padd p (foff f)) (fwidth f)).

Lemma stable_padd p n : stable p -> stable (padd p n).
Proof. by destruct p. Qed.
End stable.

Section geom_specs.
Context {abi : Abi} {gm : GuestMem} `{!AbiOk abi}.
Context (slots : RedMemSlotInfo) (gid : Z) (E : option ub_kind -> Prop).
Context (Hwf : slots_wf slots) (Hgid : -2 ^ 31 <= gid < 2 ^ 31).
#[local] Abbreviation guest_ok := (guest_ok slots gid).
#[local] Abbreviation readable := (readable slots gid).
#[local] Abbreviation spec := (spec slots gid E).

Lemma spec_read_bytes_stable p n :
  stable p -> readable p n ->
  spec [] (read_bytes p n) (fun _ => []) (fun bs => bs = peek_bytes p n).
Proof.
  destruct p as [a|bs o]; simpl; intros Hst Hr s F Hh [Hl Hn].
  - unfold wp, guest_read. split_and!; auto.
    + split; [by constructor|done].
    + apply list_fmap_ext. intros; apply Hst.
  - destruct (Z.leb_spec 0 o); [|lia].
    destruct (Z.leb_spec (o + n) (Z.of_nat (length bs))); [|lia]. by apply wp_ret.
Qed.

Lemma spec_rd_stable f p :
  stable p -> readable p (sizeof (fld_of f)) ->
  spec [] (rd f p) (fun _ => []) (fun z => z = peek f p).
Proof.
  intros Hst Hr. unfold rd. pose proof (fld_inside f). eapply spec_seq.
  - apply spec_read_bytes_stable; [by apply stable_padd|]. eapply readable_sub; [done|lia..].
  - intros bs ->. by apply spec_ret.
Qed.

Lemma spec_rd_stable_wrap (g : Z -> Z) f p :
  stable p -> readable p (sizeof (fld_of f)) ->
  spec [] (g <$> rd f p) (fun _ => []) (fun z => z = g (peek f p)).
Proof.
  intros Hst Hr. apply spec_fmap. eapply spec_conseq; [by apply spec_rd_stable|done|].
  by intros ? ->.
Qed.

Lemma spec_host_write size off len :
  0 <= off -> off + len <= size -> spec [] (host_write size off len) (fun _ => []) (fun _ => True).
Proof.
  intros ? ?. unfold host_write. destruct (Z.leb_spec 0 off); [|lia].
  destruct (Z.leb_spec (off + len) size); [|lia]. by apply spec_ret.
Qed.

(** Data that [red_get_linear] delivers. *)
Lemma spec_linearize_at addr q m v :
  memb_of m = (q, QXLDataChunk) ->
  guest_ok v (sizeof q) -> group_ok slots gid -> slot_id_ok slots (memslot_get_id slots addr) ->
  0 < v < 2 ^ 64 ->
  spec [] (linearize_at slots gid addr v m)
    (fun r => match r with None => [] | Some (_, _, b) => own_ptr b end)
    (fun r => match r with
              | None => True
              | Some (d, size, b) => readable d size /\ 0 <= size < 2 ^ 32
              end).
Proof.
  intros Hm Hok Hg Hid Hvr. unfold linearize_at.
  assert (INVALID_SIZE = 18446744073709551615) as HI by reflexivity.
  assert (MAX_DATA_CHUNK = 2147483647) as HM by reflexivity.
  eapply spec_call.
  { apply spec_get_data_chunks_ptr; auto.
    - pose proof (memb_inside m). lia.
    - pose proof (readable_memb slots gid m (GuestP v)) as Hrm. rewrite Hm in Hrm. by apply Hrm. }
  intros [size cl] Hc. cbn [fst snd] in *. rewrite app_nil_r.
  assert (chunks_ok slots gid size cl -> 0 <= size < 2 ^ 32) as Hrange.
  { intros Hc'. pose proof (chunks_sum_nonneg _ _ _ (co_next _ _ _ _ Hc')).
    destruct Hc' as [[? ?] ? ? Hsz Hbd ?]. subst size.
    destruct (next_chunks cl); simpl in *; [lia|]. specialize (Hbd ltac:(done)). lia. }
  case_if.
  { zbool. destruct Hc as [[? ->]|Hc]; [by apply spec_ret|]. specialize (Hrange Hc). lia. }
  zbool. destruct Hc as [[? ?]|Hc]; [done|].
  eapply spec_call; [by apply spec_linearize_chunk|]. intros [d b] [Hd Hdb]. cbn [fst snd] in *.
  eapply spec_bind; [by apply (spec_put_data_chunks _ _ _ (Some cl))|apply Permutation_app_comm|].
  intros [] _. apply spec_ret; auto.
Qed.

Definition linear_ok (q : qstruct) (r : option (Z * qptr * Z * Z)) : Prop :=
  match r with
  | None => True
  | Some (v, d, size, b) =>
      guest_ok v (sizeof q) /\ readable d size /\ 0 <= size < 2 ^ 32
  end.

Lemma spec_get_linear addr q m :
  memb_of m = (q, QXLDataChunk) ->
  spec [] (red_get_linear slots gid addr q m)
    (fun r => match r with None => [] | Some (_, _, _, b) => own_ptr b end) (linear_ok q).
Proof.
  intros Hm. unfold red_get_linear.
  eapply spec_seq; [by apply spec_get_virt|]. intros v Hv. cbn beta in Hv.
  case_if; [by apply spec_ret|]. zbool. specialize (Hv Eb).
  apply virt_ok_struct in Hv as (Hok & Hg & Hid & Hvr).
  eapply spec_call; [by apply (spec_linearize_at _ q)|].
  intros [[[d size] b]|] Hr; (apply spec_ret; [done|by rewrite app_nil_r]).
Qed.

(** *** Clip rectangles: safe whatever the guest does meanwhile *)

Lemma spec_read_rects n p :
  readable p (Z.of_nat n * sizeof QXLRect) ->
  spec [] (read_rects n p) (fun _ => []) (fun l => length l = n).
Proof.
  pose proof (sizeof_range QXLRect).
  revert p; induction n as [|n IH]; intros p Hr; cbn [read_rects]; [by apply spec_ret|].
  destruct (succ_mul n (sizeof QXLRect)) as [Hn Hn0]; [lia|]. rewrite Hn in Hr.
  eapply spec_seq.
  { apply spec_get_rect. replace p with (padd p 0) by (destruct p; simpl; f_equal; lia).
    eapply readable_sub; [done|lia..]. }
  intros r _.
  eapply spec_seq; [apply IH; eapply readable_sub; [done|lia..]|]. intros rs Hrs.
  apply spec_ret; [|done]. simpl. by rewrite Hrs.
Qed.

Lemma spec_get_clip_rects addr :
  E None ->
  spec [] (red_get_clip_rects slots gid addr)
    (fun o => own_ptr (from_option cr_blk 0 o)) (fun _ => True).
Proof.
  intros HN. unfold red_get_clip_rects.
  eapply spec_call; [by apply spec_get_linear|]. intros [[[[v d] size] b]|] Hr; [|by apply spec_ret].
  destruct Hr as (Hv & Hd & Hs). rewrite app_nil_r.
  eapply spec_seq; [by apply spec_rd_u32|]. intros num Hnum. cbn beta in Hnum.
  eapply spec_seq; [by apply spec_assert; right|]. intros [] Ha. zbool.
  eapply spec_call; [apply spec_malloc|]. intros red Hred.
  eapply spec_seq; [apply spec_read_rects; rewrite Z2Nat.id by lia; by rewrite Ha|]. intros rs _.
  eapply spec_bind; [apply spec_free|apply Permutation_app_comm|]. intros [] _.
  by apply spec_ret.
Qed.

(** *** Paths *)

(** The point counts of the segments found from offset [o] on. *)
Inductive seg_chain (d : qptr) (size : Z) : Z -> list Z -> Prop :=
  | chain_end o : size <= o + sizeof QXLPathSeg -> seg_chain d size o []
  | chain_seg o c cs :
      o + sizeof QXLPathSeg < size ->
      c = u32 (peek QXLPathSeg_count (padd d o)) ->
      c * sizeof QXLPointFix <= size - (o + sizeof QXLPathSeg) ->
      seg_chain d size (o + sizeof QXLPathSeg + c * sizeof QXLPointFix) cs ->
      seg_chain d size o (c :: cs).

Definition seg_bytes (c : Z) : Z := sizeof_SpicePathSeg + c * sizeof_SpicePointFix.
Definition segs_bytes (cs : list Z) : Z := foldr (fun c n => seg_bytes c + n) 0 cs.
Definition segs_cost (cs : list Z) : Z :=
  foldr (fun c n => sizeof_pointer + SPICE_ALIGN (seg_bytes c) 4 + n) 0 cs.

Lemma segs_cost_ge cs :
  Z.of_nat (length cs) * sizeof_pointer + segs_bytes cs <= segs_cost cs.
Proof.
  induction cs as [|c cs IH]; [simpl; lia|]. simpl length.
  change (segs_bytes (c :: cs)) with (seg_bytes c + segs_bytes cs).
  change (segs_cost (c :: cs)) with (sizeof_pointer + SPICE_ALIGN (seg_bytes c) 4 + segs_cost cs).
  pose proof (align_up (seg_bytes c)). lia.
Qed.

Lemma seg_bytes_nonneg c : 0 <= c -> 0 <= seg_bytes c.
Proof.
  intros. pose proof host_sizes as (_ & Hp2 & Hp3 & _). unfold seg_bytes.
  pose proof (Z.mul_nonneg_nonneg c sizeof_SpicePointFix). lia.
Qed.

Lemma segs_bytes_nonneg d size o cs : seg_chain d size o cs -> 0 <= segs_bytes cs.
Proof.
  induction 1 as [|o c cs Hlt Hc Hcb Hch IH]; [simpl; lia|].
  change (segs_bytes (c :: cs)) with (seg_bytes c + segs_bytes cs).
  pose proof (u32_range (peek QXLPathSeg_count (padd d o))) as Hr. rewrite <- Hc in Hr.
  pose proof (seg_bytes_nonneg c). lia.
Qed.

Lemma spec_path_measure d size fuel o n mem :
  E None -> stable d -> readable d size -> 0 <= size < 2 ^ 32 ->
  0 <= o <= size -> size - o < Z.of_nat fuel ->
  0 <= mem <= sizeof_SpicePath + 2 ^ 18 * o ->
  spec [] (path_measure fuel d size o n mem) (fun _ => [])
    (fun r => exists cs, seg_chain d size o cs /\
       r = (n + Z.of_nat (length cs), mem + segs_cost cs) /\
       0 <= r.2 <= sizeof_SpicePath + 2 ^ 18 * size).
Proof.
  intros HN Hst Hr Hsize. pose proof host_sizes as (Hp1 & Hp2 & Hp3 & _ & _ & _ & Hptr & _).
  pose proof (sizeof_range QXLPathSeg). pose proof (sizeof_range QXLPointFix).
  revert o n mem. induction fuel as [|fuel IH]; intros o n mem Ho Hfuel Hmem; [lia|].
  cbn [path_measure]. case_if; zbool.
  { apply spec_ret; [|done]. exists []. split_and!; [by constructor|simpl; f_equal; lia|simpl; nia..]. }
  eapply spec_seq.
  { apply spec_rd_stable_wrap; [by apply stable_padd|]. eapply readable_sub; [done|simpl; lia..]. }
  intros c Hc. cbn beta in Hc. pose proof (u32_range (peek QXLPathSeg_count (padd d o))) as Hcr.
  rewrite <- Hc in Hcr. cbv zeta. rewrite points_at_end.
  change (sizeof_SpicePathSeg + c * sizeof_SpicePointFix) with (seg_bytes c).
  assert (0 <= seg_bytes c < 2 ^ 49) as Hsb by (unfold seg_bytes; nia).
  rewrite (u64_id (seg_bytes c)) by lia.
  pose proof (align_up (seg_bytes c)) as Hal.
  eapply spec_seq; [by apply spec_assert; right|]. intros [] Ha. zbool.
  rewrite !u64_id in Ha by nia.
  assert (Hcost : sizeof_pointer + SPICE_ALIGN (seg_bytes c) 4
                  <= 2 ^ 18 * (sizeof QXLPathSeg + c * sizeof QXLPointFix))
    by (unfold seg_bytes in *; nia).
  assert (2 ^ 18 * o <= 2 ^ 18 * 2 ^ 32) by lia.
  rewrite u64_id by lia.
  eapply spec_conseq; [apply IH; [nia|nia|lia]|done|].
  intros r (cs & Hch & -> & Hbd). split; [|done]. exists (c :: cs). split_and!.
  - by apply chain_seg.
  - simpl length. change (segs_cost (c :: cs)) with (sizeof_pointer + SPICE_ALIGN (seg_bytes c) 4 + segs_cost cs).
    f_equal; lia.
  - simpl in Hbd |- *. lia.
  - simpl in Hbd |- *. lia.
Qed.

Lemma spec_path_points n d o seg mem_size :
  readable (padd d o) (Z.of_nat n * sizeof QXLPointFix) ->
  0 <= seg -> seg + Z.of_nat n * sizeof_SpicePointFix <= mem_size ->
  spec [] (path_points n d o seg mem_size) (fun _ => []) (fun l => length l = n).
Proof.
  pose proof host_sizes as (_ & _ & Hp3 & _). pose proof (sizeof_range QXLPointFix).
  revert o seg; induction n as [|n IH]; intros o seg Hr H0 Hsz; cbn [path_points]; [by apply spec_ret|].
  destruct (succ_mul n (sizeof QXLPointFix)) as [Hn Hn0]; [lia|]. rewrite Hn in Hr.
  destruct (succ_mul n sizeof_SpicePointFix) as [Hm Hm0]; [lia|]. rewrite Hm in Hsz.
  assert (readable (padd d o) (sizeof QXLPointFix)) as Hr0.
  { replace (padd d o) with (padd (padd d o) 0) by (destruct d; simpl; f_equal; lia).
    eapply readable_sub; [done|lia..]. }
  eapply spec_seq; [by apply spec_rd|]. intros x _.
  eapply spec_seq; [by apply spec_rd|]. intros y _.
  eapply spec_seq; [apply spec_host_write; lia|]. intros [] _.
  eapply spec_seq; [apply IH; [|lia..]|].
  { replace (padd d (o + sizeof QXLPointFix)) with (padd (padd d o) (sizeof QXLPointFix))
      by (destruct d; simpl; f_equal; lia).
    eapply readable_sub; [exact Hr|lia..]. }
  intros ps Hps. apply spec_ret; [|done]. simpl. by rewrite Hps.
Qed.

Lemma spec_path_copy d size fuel o cs n seg mem2 mem_size :
  stable d -> readable d size -> 0 <= o -> seg_chain d size o cs ->
  (length cs < fuel)%nat -> 0 <= n -> 0 <= seg -> 0 <= mem2 -> 0 <= mem_size < 2 ^ 64 ->
  sizeof_SpicePath + (n + Z.of_nat (length cs)) * sizeof_pointer <= mem_size ->
  seg + segs_bytes cs <= mem_size -> mem2 + segs_bytes cs <= mem_size ->
  spec [] (path_copy fuel d size o n (n + Z.of_nat (length cs)) seg mem2 mem_size) (fun _ => [])
    (fun r => r.1 = n + Z.of_nat (length cs) /\
              (fun sg => Z.of_nat (length (ps_points sg))) <$> r.2 = cs).
Proof.
  intros Hst Hr. pose proof host_sizes as (Hp1 & Hp2 & Hp3 & _ & _ & _ & Hptr & _).
  pose proof (sizeof_range QXLPathSeg). pose proof (sizeof_range QXLPointFix).
  intros Ho Hch. revert fuel n seg mem2. induction Hch as [o Hend|o c cs Hlt Hc Hcb Hch IH];
    intros fuel n seg mem2 Hfuel Hn Hseg Hm2 Hms Hptrs Hsb Hmb; (destruct fuel as [|fuel]; [simpl in *; lia|]);
    cbn [path_copy].
  { rewrite (proj2 (Z.ltb_ge _ _)) by lia. apply spec_ret; [simpl; split; [lia|done]|done]. }
  rewrite (proj2 (Z.ltb_lt _ _)) by lia. simpl length in *.
  rewrite (proj2 (Z.ltb_lt _ _)) by lia. cbn [andb negb].
  change (segs_bytes (c :: cs)) with (seg_bytes c + segs_bytes cs) in *.
  pose proof (u32_range (peek QXLPathSeg_count (padd d o))) as Hcr. rewrite <- Hc in Hcr.
  pose proof (segs_bytes_nonneg _ _ _ _ Hch) as Hsb0. pose proof (seg_bytes_nonneg c ltac:(lia)) as Hsb1.
  assert (0 <= c * sizeof_SpicePointFix) as Hcp by (apply Z.mul_nonneg_nonneg; lia).
  assert (0 <= c * sizeof QXLPointFix) as Hcq by (apply Z.mul_nonneg_nonneg; lia).
  assert (seg_bytes c = sizeof_SpicePathSeg + c * sizeof_SpicePointFix) as Hsc by reflexivity.
  eapply spec_seq; [apply spec_host_write; nia|]. intros [] _.
  eapply spec_seq.
  { apply spec_rd_stable_wrap; [by apply stable_padd|]. eapply readable_sub; [done|simpl; lia..]. }
  intros c' Hc'. cbn beta in Hc'. rewrite <- Hc in Hc'. subst c'. cbv zeta. rewrite <- Hsc.
  rewrite (u64_id (mem2 + seg_bytes c)) by lia.
  eapply spec_seq; [apply spec_assert; left; apply Z.leb_le; lia|]. intros [] _.
  eapply spec_seq; [apply spec_rd; [done|eapply readable_sub; [exact Hr|simpl; lia..]]|]. intros flags _.
  eapply spec_seq; [apply spec_host_write; nia|]. intros [] _. rewrite points_at_end.
  eapply spec_seq.
  { apply spec_path_points; rewrite ?Z2Nat.id by lia; [|nia..]. eapply readable_sub; [done|nia..]. }
  intros ps Hps. cbn beta in Hps.
  replace (seg + sizeof_SpicePathSeg + c * sizeof_SpicePointFix) with (seg + seg_bytes c) by lia.
  replace (n + Z.of_nat (S (length cs))) with (n + 1 + Z.of_nat (length cs)) in * by lia.
  eapply spec_seq; [apply IH; try lia; nia|].
  intros [n' segs] [Hn' Hsegs]. cbn [fst snd] in *. apply spec_ret; [|done]. cbn [fst snd]. split; [done|].
  rewrite fmap_cons, Hsegs. cbn [ps_points]. by rewrite Hps, Z2Nat.id by lia.
Qed.

Lemma seg_chain_length d size o cs :
  seg_chain d size o cs -> o <= size -> Z.of_nat (length cs) <= size - o.
Proof.
  pose proof (sizeof_range QXLPathSeg). pose proof (sizeof_range QXLPointFix).
  induction 1 as [|o c cs Hlt Hc Hcb Hch IH]; intros Ho; [simpl; lia|]. simpl length.
  pose proof (u32_range (peek QXLPathSeg_count (padd d o))). nia.
Qed.

Lemma spec_get_path addr :
  E None -> race_free ->
  spec [] (red_get_path slots gid addr) (fun o => own_ptr (from_option pa_blk 0 o))
    (from_option (fun p => pa_blk p <> 0) True).
Proof.
  intros HN Hrf. unfold red_get_path. pose proof host_sizes as (Hp1 & Hp2 & Hp3 & _ & _ & _ & Hptr & _).
  eapply spec_call; [by apply spec_get_linear|]. intros [[[[v d] size] b]|] Hr; [|by apply spec_ret].
  destruct Hr as (Hv & Hd & Hs). rewrite app_nil_r.
  assert (stable d) as Hst by (by destruct d).
  eapply spec_seq; [apply spec_path_measure; auto; lia|].
  intros r (cs & Hch & -> & Hbd). cbn [fst snd] in *.
  eapply spec_call; [apply spec_malloc|]. intros red Hred. cbn beta in Hred.
  pose proof (segs_cost_ge cs) as Hcost. pose proof (seg_chain_length _ _ _ _ Hch ltac:(lia)).
  pose proof (segs_bytes_nonneg _ _ _ _ Hch).
  assert (0 <= Z.of_nat (length cs) * sizeof_pointer) by (apply Z.mul_nonneg_nonneg; lia).
  eapply spec_seq; [apply (spec_path_copy d size _ 0 cs 0); auto; lia|].
  intros [n segs] [Hn _]. cbn [fst snd] in Hn.
  eapply spec_seq; [apply spec_assert; left; by apply Z.eqb_eq|]. intros [] _.
  eapply spec_bind; [apply spec_free|apply Permutation_app_comm|]. intros [] _.
  by apply spec_ret.
Qed.

(** *** Strings *)

(** The data sizes of the glyphs found from offset [o] on. *)
Inductive glyph_chain (d : qptr) (size bpp : Z) : Z -> list Z -> Prop :=
  | glyph_end o : size <= o -> glyph_chain d size bpp o []
  | glyph_next o g gs :
      o < size -> o + sizeof QXLRasterGlyph <= size ->
      g = glyph_bytes (u16 (peek QXLRasterGlyph_height (padd d o)))
                      (u16 (peek QXLRasterGlyph_width (padd d o))) bpp ->
      g <= size - (o + sizeof QXLRasterGlyph) ->
      glyph_chain d size bpp (o + sizeof QXLRasterGlyph + g) gs ->
      glyph_chain d size bpp o (g :: gs).

Definition glyph_room (g : Z) : Z := SPICE_ALIGN (sizeof_SpiceRasterGlyph + g) 4.
Definition glyphs_room (gs : list Z) : Z := foldr (fun g n => glyph_room g + n) 0 gs.

Lemma glyph_bytes_range h w bpp : 0 <= glyph_bytes h w bpp < 2 ^ 32.
Proof. apply u32_range. Qed.

Lemma glyph_chain_room d size bpp o gs : glyph_chain d size bpp o gs -> 0 <= glyphs_room gs.
Proof.
  pose proof host_sizes as (_ & _ & _ & _ & Hg & _).
  induction 1 as [|o g gs Hlt Hle Hg' Hb Hch IH]; [simpl; lia|].
  change (glyphs_room (g :: gs)) with (glyph_room g + glyphs_room gs).
  pose proof (align_up (sizeof_SpiceRasterGlyph + g)). unfold glyph_room.
  pose proof (glyph_bytes_range (u16 (peek QXLRasterGlyph_height (padd d o)))
                                (u16 (peek QXLRasterGlyph_width (padd d o))) bpp). lia.
Qed.

Lemma spec_string_measure d size bpp fuel o n mem :
  E None -> stable d -> readable d size -> 0 <= size < 2 ^ 32 ->
  0 <= o <= size -> size - o < Z.of_nat fuel ->
  0 <= mem <= sizeof_SpiceString + 2 ^ 18 * o ->
  spec [] (string_measure fuel d size bpp o n mem) (fun _ => [])
    (fun r => exists gs, glyph_chain d size bpp o gs /\
       r.1 = (n + Z.of_nat (length gs),
              mem + Z.of_nat (length gs) * sizeof_pointer + glyphs_room gs) /\
       0 <= r.1.2 <= sizeof_SpiceString + 2 ^ 18 * size).
Proof.
  intros HN Hst Hr Hsize. pose proof host_sizes as (_ & _ & _ & Hss & Hg & _ & Hptr & _).
  pose proof (sizeof_range QXLRasterGlyph).
  revert o n mem. induction fuel as [|fuel IH]; intros o n mem Ho Hfuel Hmem; [lia|].
  cbn [string_measure]. case_if; zbool.
  { apply spec_ret; [|done]. exists []. split_and!; [by constructor|simpl; f_equal; lia|simpl; lia..]. }
  rewrite glyph_data_at_end.
  eapply spec_seq; [by apply spec_assert; right|]. intros [] Ha. zbool.
  eapply spec_seq.
  { apply spec_rd_stable_wrap; [by apply stable_padd|]. eapply readable_sub; [done|simpl; lia..]. }
  intros h Hh. cbn beta in Hh.
  eapply spec_seq.
  { apply spec_rd_stable_wrap; [by apply stable_padd|]. eapply readable_sub; [done|simpl; lia..]. }
  intros w Hw. cbn beta in Hw. cbv zeta.
  pose proof (glyph_bytes_range h w bpp) as Hgr. set (g := glyph_bytes h w bpp) in *.
  pose proof (align_up (sizeof_SpiceRasterGlyph + g)) as Hal.
  eapply spec_seq; [by apply spec_assert; right|]. intros [] Hb. zbool.
  rewrite u64_id in Hb by lia. rewrite u64_id by lia.
  eapply spec_conseq; [apply IH; lia|done|].
  intros r (gs & Hch & Hr1 & Hbd). split; [|done]. exists (g :: gs). rewrite Hr1 in *. split_and!.
  - apply glyph_next; try done. by subst h w g.
  - cbn [length]. destruct (succ_mul (length gs) sizeof_pointer) as [-> _]; [lia|].
    change (glyphs_room (g :: gs)) with (SPICE_ALIGN (sizeof_SpiceRasterGlyph + g) 4 + glyphs_room gs).
    f_equal; lia.
  - simpl in Hbd |- *. lia.
  - simpl in Hbd |- *. lia.
Qed.

Lemma spec_string_copy d size bpp o gs i glyph red_size :
  stable d -> readable d size -> size < 2 ^ 32 -> 0 <= o -> glyph_chain d size bpp o gs ->
  0 <= i -> 0 <= glyph ->
  sizeof_SpiceString + (i + Z.of_nat (length gs)) * sizeof_pointer <= red_size ->
  glyph + glyphs_room gs <= red_size ->
  spec [] (string_copy (length gs) d size bpp o i glyph red_size) (fun _ => [])
    (fun l => (fun g => Z.of_nat (length (gl_data g))) <$> l = gs).
Proof.
  intros Hst Hr Hsize. pose proof host_sizes as (_ & _ & _ & Hss & Hg & _ & Hptr & _).
  pose proof (sizeof_range QXLRasterGlyph).
  intros Ho Hch. revert i glyph. induction Hch as [|o g gs Hlt Hle Hg' Hgb Hch IH];
    intros i glyph Hi Hgl Hps Hrm; [by apply spec_ret|]. cbn [length string_copy].
  cbn [length] in Hps. destruct (succ_mul (length gs) sizeof_pointer) as [Hsm Hsm0]; [lia|].
  assert (0 <= i * sizeof_pointer) by (apply Z.mul_nonneg_nonneg; lia).
  change (glyphs_room (g :: gs)) with (glyph_room g + glyphs_room gs) in Hrm.
  pose proof (glyph_chain_room _ _ _ _ _ Hch) as Hrm0.
  pose proof (align_up (sizeof_SpiceRasterGlyph + g)) as Hal. fold (glyph_room g) in *.
  pose proof (glyph_bytes_range (u16 (peek QXLRasterGlyph_height (padd d o)))
                (u16 (peek QXLRasterGlyph_width (padd d o))) bpp) as Hgr. rewrite <- Hg' in Hgr.
  rewrite glyph_data_at_end.
  assert (readable (padd d o) (sizeof QXLRasterGlyph)) as Hro
    by (eapply readable_sub; [exact Hr|lia..]).
  eapply spec_seq; [apply spec_assert; left; apply Z.leb_le; lia|]. intros [] _.
  eapply spec_seq; [apply spec_host_write; lia|]. intros [] _.
  eapply spec_seq; [apply spec_rd_stable_wrap; [by apply stable_padd|done]|].
  intros w Hw. cbn beta in Hw.
  eapply spec_seq; [apply spec_rd_stable_wrap; [by apply stable_padd|done]|].
  intros h Hh. cbn beta in Hh. subst w h.
  eapply spec_seq; [by apply spec_get_point, (readable_memb _ _ QXLRasterGlyph_render_pos)|]. intros rp _.
  eapply spec_seq; [by apply spec_get_point, (readable_memb _ _ QXLRasterGlyph_glyph_origin)|]. intros go _.
  eapply spec_seq; [apply spec_host_write; lia|]. intros [] _. rewrite <- Hg'.
  eapply spec_seq; [apply spec_assert; left; rewrite u64_id by lia; by apply Z.leb_le|]. intros [] _.
  eapply spec_seq; [apply spec_read_bytes; eapply readable_sub; [exact Hr|lia..]|].
  intros bs Hbs. cbn beta in Hbs.
  eapply spec_seq; [apply spec_host_write; lia|]. intros [] _.
  eapply spec_seq; [apply IH; try fold (glyph_room g); lia|]. intros l Hl. apply spec_ret; [|done].
  rewrite fmap_cons, Hl. cbn [gl_data]. f_equal. lia.
Qed.

Lemma glyph_chain_length d size bpp o gs :
  glyph_chain d size bpp o gs -> o <= size -> Z.of_nat (length gs) <= size - o.
Proof.
  pose proof (sizeof_range QXLRasterGlyph).
  induction 1 as [|o g gs Hlt Hle Hg Hb Hch IH]; intros Ho; [simpl; lia|]. simpl length.
  pose proof (glyph_bytes_range (u16 (peek QXLRasterGlyph_height (padd d o)))
                                (u16 (peek QXLRasterGlyph_width (padd d o))) bpp). lia.
Qed.

Lemma spec_get_string addr :
  E None -> race_free ->
  spec [] (red_get_string slots gid addr) (fun o => own_ptr (from_option st_blk 0 o))
    (from_option (fun p => st_blk p <> 0) True).
Proof.
  intros HN Hrf. unfold red_get_string. pose proof host_sizes as (_ & _ & _ & Hss & Hg & _ & Hptr & _).
  eapply spec_call; [by apply spec_get_linear|]. intros [[[[v d] size] b]|] Hr; [|by apply spec_ret].
  destruct Hr as (Hv & Hd & Hs). rewrite app_nil_r.
  assert (stable d) as Hst by (by destruct d).
  eapply spec_seq; [by apply spec_rd|]. intros qsize _.
  eapply spec_seq; [by apply spec_rd_u16|]. intros qflags _.
  eapply spec_seq; [by apply spec_rd_u16|]. intros qlen Hqlen. cbn beta in Hqlen.
  do 2 (eapply spec_seq; [by apply spec_assert; right|]; intros [] _).
  eapply spec_seq; [apply spec_string_measure; auto; lia|].
  intros [[glyphs red_size] start] (gs & Hch & Hr1 & Hbd). cbn [fst snd] in *. injection Hr1 as -> ->.
  eapply spec_seq; [by apply spec_assert; right|]; intros [] _.
  eapply spec_seq; [by apply spec_assert; right|]; intros [] Hlen. zbool.
  eapply spec_call; [apply spec_malloc|]. intros red Hred. cbn beta in Hred.
  pose proof (glyph_chain_room _ _ _ _ _ Hch). pose proof (glyph_chain_length _ _ _ _ _ Hch ltac:(lia)).
  replace (Z.to_nat qlen) with (length gs) by lia.
  assert (0 <= Z.of_nat (length gs) * sizeof_pointer) by (apply Z.mul_nonneg_nonneg; lia).
  replace qlen with (Z.of_nat (length gs)) by lia.
  eapply spec_seq; [apply spec_string_copy; auto; lia|]. intros l _.
  eapply spec_bind; [apply spec_free|apply Permutation_app_comm|]. intros [] _.
  by apply spec_ret.
Qed.
End geom_specs.
