(* ===== verification/QxlDraw.v ===== *)
(** * Drawables (red-parse-qxl.cpp: red_drawable_new and ~RedDrawable)

    A drawable command is a [QXLDrawable] (or, for old drivers, a
    [QXLCompatDrawable]) in guest memory.  The parser fills a [RedDrawable]
    member by member and gives up half way on bad input; the destructor then
    runs on the partly filled object.  The object starts zeroed
    ([make_shared] value-initialises it), so every member has a defined value
    at every point: a partly filled object is modelled as such, and the
    destructor frees what the members say.

    The command also carries a release record: [set_resource] remembers it and
    the destructor of [RedQXLResource] hands it back to the guest. *)

From stdpp Require Import base list list_tactics numbers tactics option.
From Stdlib Require Import ZArith Lia.
From S2P Require Import Prelude Memslot QxlAbi QxlLogic QxlChunks QxlImage QxlGeom.

Open Scope Z_scope.

(** ** Data *)

Record SpiceFill := mkSpiceFill { fi_brush : SpiceBrush; fi_rop : Z; fi_mask : SpiceQMask }.
Record SpiceOpaque := mkSpiceOpaque {
  op_src_bitmap : option SpiceImage; op_src_area : SpiceRect; op_brush : SpiceBrush;
  op_rop : Z; op_scale_mode : Z; op_mask : SpiceQMask }.
Record SpiceCopy := mkSpiceCopy {
  co_src_bitmap : option SpiceImage; co_src_area : SpiceRect; co_rop : Z; co_scale_mode : Z;
  co_mask : SpiceQMask }.
Record SpiceTransparent := mkSpiceTransparent {
  tr_src_bitmap : option SpiceImage; tr_src_area : SpiceRect; tr_src_color : Z; tr_true_color : Z }.
Record SpiceAlphaBlend := mkSpiceAlphaBlend {
  ab_flags : Z; ab_alpha : Z; ab_src_bitmap : option SpiceImage; ab_src_area : SpiceRect }.
Record SpiceComposite := mkSpiceComposite {
  cm_flags : Z; cm_src_bitmap : option SpiceImage; cm_src_transform : list Z;
  cm_mask_bitmap : option SpiceImage; cm_mask_transform : list Z;
  cm_src_origin : SpicePoint; cm_mask_origin : SpicePoint }.
Record SpiceRop3 := mkSpiceRop3 {
  ro_src_bitmap : option SpiceImage; ro_src_area : SpiceRect; ro_brush : SpiceBrush;
  ro_rop3 : Z; ro_scale_mode : Z; ro_mask : SpiceQMask }.
Record SpiceLineAttr := mkSpiceLineAttr {
  la_flags : Z; la_style_nseg : Z; la_style : Z (** the block *); la_style_data : list Z }.
Record SpiceStroke := mkSpiceStroke {
  sk_path : option SpicePath; sk_attr : SpiceLineAttr; sk_brush : SpiceBrush;
  sk_fore_mode : Z; sk_back_mode : Z }.
Record SpiceText := mkSpiceText {
  tx_str : option SpiceString; tx_back_area : SpiceRect; tx_fore_brush : SpiceBrush;
  tx_back_brush : SpiceBrush; tx_fore_mode : Z; tx_back_mode : Z }.
Record SpiceWhiteness := mkSpiceWhiteness { wh_mask : SpiceQMask }.
Record SpiceClip := mkSpiceClip { cl_type : Z; cl_rects : option SpiceClipRects }.

(** The union of a drawable.  [SpiceBlend] is [SpiceCopy], and [SpiceInvers] and
    [SpiceBlackness] are [SpiceWhiteness]; [UZero] is the zeroed union. *)
Inductive draw_u :=
  | UZero
  | UFill (f : SpiceFill) | UOpaque (o : SpiceOpaque) | UCopy (c : SpiceCopy)
  | UTransparent (t : SpiceTransparent) | UAlphaBlend (a : SpiceAlphaBlend)
  | UCopyBits (src_pos : SpicePoint) | URop3 (r : SpiceRop3) | UStroke (s : SpiceStroke)
  | UText (t : SpiceText) | UWhiteness (w : SpiceWhiteness) | UComposite (c : SpiceComposite).

Definition zero_point : SpicePoint := mkSpicePoint 0 0.
Definition zero_rect : SpiceRect := mkSpiceRect 0 0 0 0.
Definition zero_brush : SpiceBrush := mkSpiceBrush 0 BrNone.
Definition zero_qmask : SpiceQMask := mkSpiceQMask 0 zero_point None.
Definition zero_attr : SpiceLineAttr := mkSpiceLineAttr 0 0 0 [].

(** [RedQXLResource]: the instance (0 is null) and the release record. *)
Record RedQXLResource := mkRedQXLResource { res_qxl : Z; res_info : Z; res_group_id : Z }.

Record RedDrawable := mkRedDrawable {
  dr_res : RedQXLResource;
  dr_surface_id : Z; dr_effect : Z; dr_type : Z; dr_self_bitmap : Z;
  dr_self_bitmap_area : SpiceRect; dr_self_bitmap_image : option SpiceImage;
  dr_bbox : SpiceRect; dr_clip : SpiceClip; dr_mm_time : Z;
  dr_surface_deps : list Z; dr_surfaces_rects : list SpiceRect;
  dr_u : draw_u }.

Definition zero_resource : RedQXLResource := mkRedQXLResource 0 0 0.
Definition zero_drawable : RedDrawable :=
  mkRedDrawable zero_resource 0 0 0 0 zero_rect None zero_rect (mkSpiceClip 0 None) 0
    [0; 0; 0] [zero_rect; zero_rect; zero_rect] UZero.

Definition set_u (red : RedDrawable) (u : draw_u) : RedDrawable :=
  mkRedDrawable (dr_res red) (dr_surface_id red) (dr_effect red) (dr_type red) (dr_self_bitmap red)
    (dr_self_bitmap_area red) (dr_self_bitmap_image red) (dr_bbox red) (dr_clip red)
    (dr_mm_time red) (dr_surface_deps red) (dr_surfaces_rects red) u.
Definition set_self_bitmap (red : RedDrawable) (b : Z) : RedDrawable :=
  mkRedDrawable (dr_res red) (dr_surface_id red) (dr_effect red) (dr_type red) b
    (dr_self_bitmap_area red) (dr_self_bitmap_image red) (dr_bbox red) (dr_clip red)
    (dr_mm_time red) (dr_surface_deps red) (dr_surfaces_rects red) (dr_u red).
(** [surface_deps[0] = d; surfaces_rects[0] = r] *)
Definition set_dep0 (red : RedDrawable) (d : Z) (r : SpiceRect) : RedDrawable :=
  mkRedDrawable (dr_res red) (dr_surface_id red) (dr_effect red) (dr_type red) (dr_self_bitmap red)
    (dr_self_bitmap_area red) (dr_self_bitmap_image red) (dr_bbox red) (dr_clip red)
    (dr_mm_time red) (<[0%nat := d]> (dr_surface_deps red))
    (<[0%nat := r]> (dr_surfaces_rects red)) (dr_u red).

(** ** The members of the union *)
Section draw.
Context {abi : Abi} {gm : GuestMem} {api : SpiceChunksApi}.

(** [g_malloc_n(0, _)] returns null. *)
Definition g_malloc_n (n : Z) : P Z := if n =? 0 then mret 0 else g_malloc.

(** RedQXLResource<T>::set_resource *)
Definition set_resource (qxl_instance info group_id : Z) : RedQXLResource :=
  mkRedQXLResource qxl_instance info (u32 group_id).

(** ~RedQXLResource, with red_qxl_release_resource (red-qxl.cpp) handing the
    record to the device. *)
Definition release_resource (r : RedQXLResource) : P unit := fun s =>
  if res_qxl r =? 0 then Ok tt s
  else Ok tt (mkPst (clk s) (glog s) (heap s) (next s) ((res_info r, res_group_id r) :: released s)).

Definition red_get_fill_ptr (slots : RedMemSlotInfo) (group_id : Z) (qxl : qptr) (flags : Z)
    : P SpiceFill :=
  brush ← red_get_brush_ptr slots group_id (addr_of QXLFill_brush qxl) flags;
  rop ← rd QXLFill_rop_descriptor qxl;
  mask ← red_get_qmask_ptr slots group_id (addr_of QXLFill_mask qxl) flags;
  mret (mkSpiceFill brush rop mask).

Definition red_put_fill (red : SpiceFill) : P unit :=
  red_put_brush (fi_brush red);; red_put_qmask (fi_mask red).

Definition red_get_opaque_ptr (slots : RedMemSlotInfo) (group_id : Z) (qxl : qptr) (flags : Z)
    : P SpiceOpaque :=
  a ← rd QXLOpaque_src_bitmap qxl;
  src_bitmap ← red_get_image slots group_id a flags false;
  src_area ← red_get_rect_ptr (addr_of QXLOpaque_src_area qxl);
  brush ← red_get_brush_ptr slots group_id (addr_of QXLOpaque_brush qxl) flags;
  rop ← rd QXLOpaque_rop_descriptor qxl;
  scale_mode ← rd QXLOpaque_scale_mode qxl;
  mask ← red_get_qmask_ptr slots group_id (addr_of QXLOpaque_mask qxl) flags;
  mret (mkSpiceOpaque src_bitmap src_area brush rop scale_mode mask).

Definition red_put_opaque (red : SpiceOpaque) : P unit :=
  red_put_image (op_src_bitmap red);; red_put_brush (op_brush red);; red_put_qmask (op_mask red).

(** The rejected source areas; [x] and [y] are unsigned, and so the
    comparison of a bitmap is. *)
Definition area_swapped (r : SpiceRect) : bool :=
  (r_left r <? 0) || (r_right r <? r_left r) || (r_top r <? 0) || (r_bottom r <? r_top r).
Definition area_outside (im : SpiceImage) (r : SpiceRect) : P bool :=
  if im_type im =? SPICE_IMAGE_TYPE_BITMAP
  then match im_u im with
       | ImgBitmap bm => mret ((bm_x bm <? u32 (r_right r)) || (bm_y bm <? u32 (r_bottom r)))
       | _ => undef UbNull
       end
  else mret false.

(** Also [red_get_blend_ptr].  The boolean is the result, the drawable the
    object as it was left. *)
Definition red_get_copy_ptr (slots : RedMemSlotInfo) (group_id : Z) (red_drawable : RedDrawable)
    (qxl : qptr) (flags : Z) : P (bool * RedDrawable) :=
  let red_drawable := set_self_bitmap red_drawable 0 in
  a ← rd QXLCopy_src_bitmap qxl;
  src_bitmap ← red_get_image slots group_id a flags false;
  match src_bitmap with
  | None => mret (false, set_u red_drawable (UCopy (mkSpiceCopy None zero_rect 0 0 zero_qmask)))
  | Some im =>
      src_area ← red_get_rect_ptr (addr_of QXLCopy_src_area qxl);
      let partial := set_u red_drawable (UCopy (mkSpiceCopy src_bitmap src_area 0 0 zero_qmask)) in
      if area_swapped src_area then mret (false, partial)
      else
        outside ← area_outside im src_area;
        if (outside : bool) then mret (false, partial)
        else
          rop ← rd QXLCopy_rop_descriptor qxl;
          scale_mode ← rd QXLCopy_scale_mode qxl;
          mask ← red_get_qmask_ptr slots group_id (addr_of QXLCopy_mask qxl) flags;
          mret (true, set_u red_drawable
                        (UCopy (mkSpiceCopy src_bitmap src_area rop scale_mode mask)))
  end.

Definition red_put_copy (red : SpiceCopy) : P unit :=
  red_put_image (co_src_bitmap red);; red_put_qmask (co_mask red).

Definition red_get_transparent_ptr (slots : RedMemSlotInfo) (group_id : Z) (qxl : qptr) (flags : Z)
    : P SpiceTransparent :=
  a ← rd QXLTransparent_src_bitmap qxl;
  src_bitmap ← red_get_image slots group_id a flags false;
  src_area ← red_get_rect_ptr (addr_of QXLTransparent_src_area qxl);
  src_color ← rd QXLTransparent_src_color qxl;
  true_color ← rd QXLTransparent_true_color qxl;
  mret (mkSpiceTransparent src_bitmap src_area src_color true_color).

Definition red_put_transparent (red : SpiceTransparent) : P unit := red_put_image (tr_src_bitmap red).

Definition red_get_alpha_blend_ptr (slots : RedMemSlotInfo) (group_id : Z) (qxl : qptr) (flags : Z)
    : P SpiceAlphaBlend :=
  alpha_flags ← rd QXLAlphaBlend_alpha_flags qxl;
  alpha ← rd QXLAlphaBlend_alpha qxl;
  a ← rd QXLAlphaBlend_src_bitmap qxl;
  src_bitmap ← red_get_image slots group_id a flags false;
  src_area ← red_get_rect_ptr (addr_of QXLAlphaBlend_src_area qxl);
  mret (mkSpiceAlphaBlend alpha_flags alpha src_bitmap src_area).

Definition red_get_alpha_blend_ptr_compat (slots : RedMemSlotInfo) (group_id : Z) (qxl : qptr)
    (flags : Z) : P SpiceAlphaBlend :=
  alpha ← rd QXLCompatAlphaBlend_alpha qxl;
  a ← rd QXLCompatAlphaBlend_src_bitmap qxl;
  src_bitmap ← red_get_image slots group_id a flags false;
  src_area ← red_get_rect_ptr (addr_of QXLCompatAlphaBlend_src_area qxl);
  mret (mkSpiceAlphaBlend 0 alpha src_bitmap src_area).

Definition red_put_alpha_blend (red : SpiceAlphaBlend) : P unit := red_put_image (ab_src_bitmap red).

(** The transform, when there is one. *)
Definition get_transform (slots : RedMemSlotInfo) (group_id qxl_transform : Z) : P (option (list Z)) :=
  if qxl_transform =? 0 then mret None
  else
    t ← memslot_get_virt slots qxl_transform sizeof_SpiceTransform group_id;
    if t =? 0 then mret None
    else
      bs ← guest_read t sizeof_SpiceTransform;
      mret (Some bs).

Definition red_get_composite_ptr (slots : RedMemSlotInfo) (group_id : Z) (qxl : qptr) (flags : Z)
    : P SpiceComposite :=
  f ← rd QXLComposite_flags qxl;
  a ← rd QXLComposite_src qxl;
  src_bitmap ← red_get_image slots group_id a flags false;
  ta ← rd QXLComposite_src_transform qxl;
  st ← get_transform slots group_id ta;
  let f := or_flag (bool_decide (is_Some st)) SPICE_COMPOSITE_HAS_SRC_TRANSFORM f in
  ma ← rd QXLComposite_mask qxl;
  '(f, mask_bitmap, mt) ←
    (if negb (ma =? 0)
     then
       ma ← rd QXLComposite_mask qxl;
       mask_bitmap ← red_get_image slots group_id ma flags false;
       let f := Z.lor f SPICE_COMPOSITE_HAS_MASK in
       ta ← rd QXLComposite_mask_transform qxl;
       mt ← get_transform slots group_id ta;
       mret (or_flag (bool_decide (is_Some mt)) SPICE_COMPOSITE_HAS_MASK_TRANSFORM f, mask_bitmap, mt)
     else mret (f, None, None));
  sx ← rd QXLComposite_src_origin_x qxl;
  sy ← rd QXLComposite_src_origin_y qxl;
  mx ← rd QXLComposite_mask_origin_x qxl;
  my ← rd QXLComposite_mask_origin_y qxl;
  mret (mkSpiceComposite f src_bitmap (default [] st) mask_bitmap (default [] mt)
          (mkSpicePoint sx sy) (mkSpicePoint mx my)).

Definition red_put_composite (red : SpiceComposite) : P unit :=
  red_put_image (cm_src_bitmap red);;
  match cm_mask_bitmap red with
  | Some _ => red_put_image (cm_mask_bitmap red)
  | None => mret tt
  end.

Definition red_get_rop3_ptr (slots : RedMemSlotInfo) (group_id : Z) (qxl : qptr) (flags : Z)
    : P SpiceRop3 :=
  a ← rd QXLRop3_src_bitmap qxl;
  src_bitmap ← red_get_image slots group_id a flags false;
  src_area ← red_get_rect_ptr (addr_of QXLRop3_src_area qxl);
  brush ← red_get_brush_ptr slots group_id (addr_of QXLRop3_brush qxl) flags;
  rop3 ← rd QXLRop3_rop3 qxl;
  scale_mode ← rd QXLRop3_scale_mode qxl;
  mask ← red_get_qmask_ptr slots group_id (addr_of QXLRop3_mask qxl) flags;
  mret (mkSpiceRop3 src_bitmap src_area brush rop3 scale_mode mask).

Definition red_put_rop3 (red : SpiceRop3) : P unit :=
  red_put_image (ro_src_bitmap red);; red_put_brush (ro_brush red);; red_put_qmask (ro_mask red).

(** The styled line of a stroke; [inr] is the attribute of an object whose
    style could not be read. *)
Definition red_get_line_attr (slots : RedMemSlotInfo) (group_id : Z) (qxl : qptr)
    : P (bool * SpiceLineAttr) :=
  f ← u8 <$> rd QXLStroke_attr_flags qxl;
  if has_flag f SPICE_LINE_FLAGS_STYLED
  then
    style_nseg ← s32 <$> rd QXLStroke_attr_style_nseg qxl;
    style ← g_malloc_n (style_nseg * sizeof_SPICE_FIXED28_4);
    a0 ← rd QXLStroke_attr_style qxl;
    spice_assert (negb (a0 =? 0));;
    a ← rd QXLStroke_attr_style qxl;
    buf ← memslot_get_virt slots a (style_nseg * sizeof_QXLFIXED) group_id;
    if buf =? 0 then mret (false, mkSpiceLineAttr f style_nseg style [])
    else
      bs ← guest_read buf (style_nseg * sizeof_QXLFIXED);
      host_write (style_nseg * sizeof_SPICE_FIXED28_4) 0 (style_nseg * sizeof_QXLFIXED);;
      mret (true, mkSpiceLineAttr f style_nseg style bs)
  else mret (true, mkSpiceLineAttr f 0 0 []).

Definition red_get_stroke_ptr (slots : RedMemSlotInfo) (group_id : Z) (qxl : qptr) (flags : Z)
    : P (bool * SpiceStroke) :=
  a ← rd QXLStroke_path qxl;
  path ← red_get_path slots group_id a;
  match path with
  | None => mret (false, mkSpiceStroke None zero_attr zero_brush 0 0)
  | Some _ =>
      '(ok, attr) ← red_get_line_attr slots group_id qxl;
      if negb ok then mret (false, mkSpiceStroke path attr zero_brush 0 0)
      else
        brush ← red_get_brush_ptr slots group_id (addr_of QXLStroke_brush qxl) flags;
        fore ← rd QXLStroke_fore_mode qxl;
        back ← rd QXLStroke_back_mode qxl;
        mret (true, mkSpiceStroke path attr brush fore back)
  end.

Definition red_put_stroke (red : SpiceStroke) : P unit :=
  red_put_brush (sk_brush red);;
  g_free (from_option pa_blk 0 (sk_path red));;
  if has_flag (la_flags (sk_attr red)) SPICE_LINE_FLAGS_STYLED
  then g_free (la_style (sk_attr red))
  else mret tt.

Definition red_get_text_ptr (slots : RedMemSlotInfo) (group_id : Z) (qxl : qptr) (flags : Z)
    : P SpiceText :=
  a ← rd QXLText_str qxl;
  str ← red_get_string slots group_id a;
  back_area ← red_get_rect_ptr (addr_of QXLText_back_area qxl);
  fore_brush ← red_get_brush_ptr slots group_id (addr_of QXLText_fore_brush qxl) flags;
  back_brush ← red_get_brush_ptr slots group_id (addr_of QXLText_back_brush qxl) flags;
  fore_mode ← rd QXLText_fore_mode qxl;
  back_mode ← rd QXLText_back_mode qxl;
  mret (mkSpiceText str back_area fore_brush back_brush fore_mode back_mode).

Definition red_put_text_ptr (red : SpiceText) : P unit :=
  g_free (from_option st_blk 0 (tx_str red));;
  red_put_brush (tx_fore_brush red);;
  red_put_brush (tx_back_brush red).

(** Also [red_get_invers_ptr] and [red_get_blackness_ptr]. *)
Definition red_get_whiteness_ptr (slots : RedMemSlotInfo) (group_id : Z) (qxl : qptr) (flags : Z)
    : P SpiceWhiteness :=
  mask ← red_get_qmask_ptr slots group_id (addr_of QXLWhiteness_mask qxl) flags;
  mret (mkSpiceWhiteness mask).

Definition red_put_whiteness (red : SpiceWhiteness) : P unit := red_put_qmask (wh_mask red).

Definition red_get_clip_ptr (slots : RedMemSlotInfo) (group_id : Z) (qxl : qptr) : P SpiceClip :=
  type ← u8 <$> rd QXLClip_type qxl;
  if type =? SPICE_CLIP_TYPE_RECTS
  then
    a ← rd QXLClip_data qxl;
    rects ← red_get_clip_rects slots group_id a;
    mret (mkSpiceClip type rects)
  else mret (mkSpiceClip type None).

Definition red_put_clip (red : SpiceClip) : P unit :=
  if cl_type red =? SPICE_CLIP_TYPE_RECTS
  then g_free (from_option cr_blk 0 (cl_rects red))
  else mret tt.
End draw.

(** ** The drawable *)

(** The case labels of the switches on the type. *)
Inductive draw_op :=
  | OpAlphaBlend | OpBlackness | OpBlend | OpCopy | OpCopyBits | OpFill | OpOpaque | OpInvers
  | OpNop | OpRop3 | OpComposite | OpStroke | OpText | OpTransparent | OpWhiteness.

Section drawable.
Context {abi : Abi} {gm : GuestMem} {api : SpiceChunksApi}.

(** [switch (type)]: the label a type selects, [None] for [default]. *)
Definition draw_op_of (type : Z) : option draw_op :=
  list_find (fun c => fst c = type)
    [(QXL_DRAW_ALPHA_BLEND, OpAlphaBlend); (QXL_DRAW_BLACKNESS, OpBlackness);
     (QXL_DRAW_BLEND, OpBlend); (QXL_DRAW_COPY, OpCopy); (QXL_COPY_BITS, OpCopyBits);
     (QXL_DRAW_FILL, OpFill); (QXL_DRAW_OPAQUE, OpOpaque); (QXL_DRAW_INVERS, OpInvers);
     (QXL_DRAW_NOP, OpNop); (QXL_DRAW_ROP3, OpRop3); (QXL_DRAW_COMPOSITE, OpComposite);
     (QXL_DRAW_STROKE, OpStroke); (QXL_DRAW_TEXT, OpText); (QXL_DRAW_TRANSPARENT, OpTransparent);
     (QXL_DRAW_WHITENESS, OpWhiteness)] ≫= fun r => Some r.2.2.

(** The switch of [red_get_native_drawable]. *)
Definition get_native_u (slots : RedMemSlotInfo) (group_id : Z) (red : RedDrawable) (q : qptr)
    (flags : Z) : P (bool * RedDrawable) :=
  match draw_op_of (dr_type red) with
  | Some OpAlphaBlend =>
      v ← red_get_alpha_blend_ptr slots group_id (addr_of QXLDrawable_u_alpha_blend q) flags;
      mret (true, set_u red (UAlphaBlend v))
  | Some OpBlackness =>
      v ← red_get_whiteness_ptr slots group_id (addr_of QXLDrawable_u_blackness q) flags;
      mret (true, set_u red (UWhiteness v))
  | Some OpBlend => red_get_copy_ptr slots group_id red (addr_of QXLDrawable_u_blend q) flags
  | Some OpCopy => red_get_copy_ptr slots group_id red (addr_of QXLDrawable_u_copy q) flags
  | Some OpCopyBits =>
      v ← red_get_point_ptr (addr_of QXLDrawable_u_copy_bits_src_pos q);
      mret (true, set_u red (UCopyBits v))
  | Some OpFill =>
      v ← red_get_fill_ptr slots group_id (addr_of QXLDrawable_u_fill q) flags;
      mret (true, set_u red (UFill v))
  | Some OpOpaque =>
      v ← red_get_opaque_ptr slots group_id (addr_of QXLDrawable_u_opaque q) flags;
      mret (true, set_u red (UOpaque v))
  | Some OpInvers =>
      v ← red_get_whiteness_ptr slots group_id (addr_of QXLDrawable_u_invers q) flags;
      mret (true, set_u red (UWhiteness v))
  | Some OpNop => mret (true, red)
  | Some OpRop3 =>
      v ← red_get_rop3_ptr slots group_id (addr_of QXLDrawable_u_rop3 q) flags;
      mret (true, set_u red (URop3 v))
  | Some OpComposite =>
      v ← red_get_composite_ptr slots group_id (addr_of QXLDrawable_u_composite q) flags;
      mret (true, set_u red (UComposite v))
  | Some OpStroke =>
      r ← red_get_stroke_ptr slots group_id (addr_of QXLDrawable_u_stroke q) flags;
      mret (r.1, set_u red (UStroke r.2))
  | Some OpText =>
      v ← red_get_text_ptr slots group_id (addr_of QXLDrawable_u_text q) flags;
      mret (true, set_u red (UText v))
  | Some OpTransparent =>
      v ← red_get_transparent_ptr slots group_id (addr_of QXLDrawable_u_transparent q) flags;
      mret (true, set_u red (UTransparent v))
  | Some OpWhiteness =>
      v ← red_get_whiteness_ptr slots group_id (addr_of QXLDrawable_u_whiteness q) flags;
      mret (true, set_u red (UWhiteness v))
  | None => mret (false, red)
  end.

Definition red_get_native_drawable (qxl_instance : Z) (slots : RedMemSlotInfo) (group_id : Z)
    (red : RedDrawable) (addr flags : Z) : P (bool * RedDrawable) :=
  qxl ← memslot_get_virt slots addr (sizeof QXLDrawable) group_id;
  if qxl =? 0 then mret (false, red)
  else
    let q := GuestP qxl in
    let res := set_resource qxl_instance (qxl + toff QXLDrawable_release_info) group_id in
    bbox ← red_get_rect_ptr (addr_of QXLDrawable_bbox q);
    clip ← red_get_clip_ptr slots group_id (addr_of QXLDrawable_clip q);
    effect ← rd QXLDrawable_effect q;
    mm_time ← rd QXLDrawable_mm_time q;
    self_bitmap ← rd QXLDrawable_self_bitmap q;
    self_bitmap_area ← red_get_rect_ptr (addr_of QXLDrawable_self_bitmap_area q);
    surface_id ← rd QXLDrawable_surface_id q;
    dep0 ← rd QXLDrawable_surfaces_dest_0 q;
    rect0 ← red_get_rect_ptr (addr_of QXLDrawable_surfaces_rects_0 q);
    dep1 ← rd QXLDrawable_surfaces_dest_1 q;
    rect1 ← red_get_rect_ptr (addr_of QXLDrawable_surfaces_rects_1 q);
    dep2 ← rd QXLDrawable_surfaces_dest_2 q;
    rect2 ← red_get_rect_ptr (addr_of QXLDrawable_surfaces_rects_2 q);
    type ← u8 <$> rd QXLDrawable_type q;
    get_native_u slots group_id
      (mkRedDrawable res surface_id effect type self_bitmap self_bitmap_area
         (dr_self_bitmap_image red) bbox clip mm_time [dep0; dep1; dep2] [rect0; rect1; rect2]
         (dr_u red)) q flags.

(** The switch of [red_get_compat_drawable]. *)
Definition get_compat_u (slots : RedMemSlotInfo) (group_id : Z) (red : RedDrawable) (q : qptr)
    (flags : Z) : P (bool * RedDrawable) :=
  match draw_op_of (dr_type red) with
  | Some OpAlphaBlend =>
      v ← red_get_alpha_blend_ptr_compat slots group_id
            (addr_of QXLCompatDrawable_u_alpha_blend q) flags;
      mret (true, set_u red (UAlphaBlend v))
  | Some OpBlackness =>
      v ← red_get_whiteness_ptr slots group_id (addr_of QXLCompatDrawable_u_blackness q) flags;
      mret (true, set_u red (UWhiteness v))
  | Some OpBlend => red_get_copy_ptr slots group_id red (addr_of QXLCompatDrawable_u_blend q) flags
  | Some OpCopy => red_get_copy_ptr slots group_id red (addr_of QXLCompatDrawable_u_copy q) flags
  | Some OpCopyBits =>
      v ← red_get_point_ptr (addr_of QXLCompatDrawable_u_copy_bits_src_pos q);
      let b := dr_bbox red in
      mret (true,
        set_dep0 (set_u red (UCopyBits v)) 0
          (mkSpiceRect (pt_x v) (pt_y v)
             (s32 (pt_x v + s32 (r_right b - r_left b)))
             (s32 (pt_y v + s32 (r_bottom b - r_top b)))))
  | Some OpFill =>
      v ← red_get_fill_ptr slots group_id (addr_of QXLCompatDrawable_u_fill q) flags;
      mret (true, set_u red (UFill v))
  | Some OpOpaque =>
      v ← red_get_opaque_ptr slots group_id (addr_of QXLCompatDrawable_u_opaque q) flags;
      mret (true, set_u red (UOpaque v))
  | Some OpInvers =>
      v ← red_get_whiteness_ptr slots group_id (addr_of QXLCompatDrawable_u_invers q) flags;
      mret (true, set_u red (UWhiteness v))
  | Some OpNop => mret (true, red)
  | Some OpRop3 =>
      v ← red_get_rop3_ptr slots group_id (addr_of QXLCompatDrawable_u_rop3 q) flags;
      mret (true, set_u red (URop3 v))
  | Some OpStroke =>
      r ← red_get_stroke_ptr slots group_id (addr_of QXLCompatDrawable_u_stroke q) flags;
      mret (r.1, set_u red (UStroke r.2))
  | Some OpText =>
      v ← red_get_text_ptr slots group_id (addr_of QXLCompatDrawable_u_text q) flags;
      mret (true, set_u red (UText v))
  | Some OpTransparent =>
      v ← red_get_transparent_ptr slots group_id (addr_of QXLCompatDrawable_u_transparent q) flags;
      mret (true, set_u red (UTransparent v))
  | Some OpWhiteness =>
      v ← red_get_whiteness_ptr slots group_id (addr_of QXLCompatDrawable_u_whiteness q) flags;
      mret (true, set_u red (UWhiteness v))
  | Some OpComposite | None => mret (false, red)
  end.

Definition red_get_compat_drawable (qxl_instance : Z) (slots : RedMemSlotInfo) (group_id : Z)
    (red : RedDrawable) (addr flags : Z) : P (bool * RedDrawable) :=
  qxl ← memslot_get_virt slots addr (sizeof QXLCompatDrawable) group_id;
  if qxl =? 0 then mret (false, red)
  else
    let q := GuestP qxl in
    let res := set_resource qxl_instance (qxl + toff QXLCompatDrawable_release_info) group_id in
    bbox ← red_get_rect_ptr (addr_of QXLCompatDrawable_bbox q);
    clip ← red_get_clip_ptr slots group_id (addr_of QXLCompatDrawable_clip q);
    effect ← rd QXLCompatDrawable_effect q;
    mm_time ← rd QXLCompatDrawable_mm_time q;
    bitmap_offset ← rd QXLCompatDrawable_bitmap_offset q;
    self_bitmap_area ← red_get_rect_ptr (addr_of QXLCompatDrawable_bitmap_area q);
    type ← u8 <$> rd QXLCompatDrawable_type q;
    get_compat_u slots group_id
      (mkRedDrawable res (dr_surface_id red) effect type (Z.b2z (negb (bitmap_offset =? 0)))
         self_bitmap_area (dr_self_bitmap_image red) bbox clip mm_time [-1; -1; -1]
         (dr_surfaces_rects red) (dr_u red)) q flags.

Definition red_get_drawable (qxl : Z) (slots : RedMemSlotInfo) (group_id : Z) (red : RedDrawable)
    (addr flags : Z) : P (bool * RedDrawable) :=
  if has_flag flags QXL_COMMAND_FLAG_COMPAT
  then red_get_compat_drawable qxl slots group_id red addr flags
  else red_get_native_drawable qxl slots group_id red addr flags.

(** Reading a member of the union: the one that was written, or the zeroed
    storage. *)
Definition use_u {A} (sel : draw_u -> option A) (u : draw_u) (put : A -> P unit) : P unit :=
  match u with
  | UZero => mret tt      (** null pointers and zero flags: nothing to free *)
  | _ => match sel u with Some a => put a | None => undef UbNull end
  end.

(** RedDrawable::~RedDrawable *)
Definition destroy_RedDrawable (red : RedDrawable) : P unit :=
  red_put_clip (dr_clip red);;
  red_put_image (dr_self_bitmap_image red);;
  let u := dr_u red in
  match draw_op_of (dr_type red) with
  | Some OpAlphaBlend => use_u (fun u => if u is UAlphaBlend v then Some v else None) u red_put_alpha_blend
  | Some OpBlackness => use_u (fun u => if u is UWhiteness v then Some v else None) u red_put_whiteness
  | Some OpBlend => use_u (fun u => if u is UCopy v then Some v else None) u red_put_copy
  | Some OpCopy => use_u (fun u => if u is UCopy v then Some v else None) u red_put_copy
  | Some OpFill => use_u (fun u => if u is UFill v then Some v else None) u red_put_fill
  | Some OpOpaque => use_u (fun u => if u is UOpaque v then Some v else None) u red_put_opaque
  | Some OpInvers => use_u (fun u => if u is UWhiteness v then Some v else None) u red_put_whiteness
  | Some OpRop3 => use_u (fun u => if u is URop3 v then Some v else None) u red_put_rop3
  | Some OpComposite => use_u (fun u => if u is UComposite v then Some v else None) u red_put_composite
  | Some OpStroke => use_u (fun u => if u is UStroke v then Some v else None) u red_put_stroke
  | Some OpText => use_u (fun u => if u is UText v then Some v else None) u red_put_text_ptr
  | Some OpTransparent => use_u (fun u => if u is UTransparent v then Some v else None) u red_put_transparent
  | Some OpWhiteness => use_u (fun u => if u is UWhiteness v then Some v else None) u red_put_whiteness
  | Some OpCopyBits | Some OpNop | None => mret tt
  end.

(** [delete]: the destructor of the class, then the one of [RedQXLResource]. *)
Definition delete_RedDrawable (red : RedDrawable) : P unit :=
  destroy_RedDrawable red;; release_resource (dr_res red).

(** [None]: the null shared pointer, the object having been deleted. *)
Definition red_drawable_new (qxl : Z) (slots : RedMemSlotInfo) (group_id addr flags : Z)
    : P (option RedDrawable) :=
  '(ok, red) ← red_get_drawable qxl slots group_id zero_drawable addr flags;
  if (ok : bool) then mret (Some red)
  else delete_RedDrawable red;; mret None.
End drawable.

(** ** Ownership and well-formedness *)

Definition own_draw (u : draw_u) : list Z :=
  match u with
  | UZero | UCopyBits _ => []
  | UFill f => own_brush (fi_brush f) ++ own_qmask (fi_mask f)
  | UOpaque o => own_image (op_src_bitmap o) ++ own_brush (op_brush o) ++ own_qmask (op_mask o)
  | UCopy c => own_image (co_src_bitmap c) ++ own_qmask (co_mask c)
  | UTransparent t => own_image (tr_src_bitmap t)
  | UAlphaBlend a => own_image (ab_src_bitmap a)
  | URop3 r => own_image (ro_src_bitmap r) ++ own_brush (ro_brush r) ++ own_qmask (ro_mask r)
  | UStroke s => own_brush (sk_brush s) ++ own_ptr (from_option pa_blk 0 (sk_path s)) ++
                 own_ptr (la_style (sk_attr s))
  | UText t => own_ptr (from_option st_blk 0 (tx_str t)) ++ own_brush (tx_fore_brush t) ++
               own_brush (tx_back_brush t)
  | UWhiteness w => own_qmask (wh_mask w)
  | UComposite c => own_image (cm_src_bitmap c) ++ own_image (cm_mask_bitmap c)
  end.

Definition own_clip (c : SpiceClip) : list Z := own_ptr (from_option cr_blk 0 (cl_rects c)).

Definition own_drawable (d : RedDrawable) : list Z :=
  own_clip (dr_clip d) ++ own_image (dr_self_bitmap_image d) ++ own_draw (dr_u d).

(** Give each call of a sequence its lemma, and collect the blocks. *)
Ltac get_call H := eapply spec_call; [H|]; intros ? ?; cbv beta in *.
Ltac get_field := eapply spec_seq; [by apply spec_rd|]; intros ? _.
Ltac get_memb L m := eapply spec_seq; [by apply L, (readable_memb _ _ m)|]; intros ? _.

Section draw_specs.
Context {abi : Abi} {gm : GuestMem} {api : SpiceChunksApi} `{!AbiOk abi} `{!SpiceChunksOk api}.
Context (slots : RedMemSlotInfo) (gid : Z) (E : option ub_kind -> Prop).
Context (Hwf : slots_wf slots) (Hgid : -2 ^ 31 <= gid < 2 ^ 31) (HE : E (Some UbUninit)).
#[local] Abbreviation guest_ok := (guest_ok slots gid).
#[local] Abbreviation readable := (readable slots gid).
#[local] Abbreviation spec := (spec slots gid E).
#[local] Abbreviation image_ok := (image_ok slots gid).
#[local] Abbreviation brush_ok := (brush_ok slots gid).
#[local] Abbreviation qmask_ok := (qmask_ok slots gid).

(** A copy is accepted only with an area inside its bitmap. *)
Definition copy_ok (accepted : bool) (c : SpiceCopy) : Prop :=
  image_ok false (co_src_bitmap c) /\ qmask_ok (co_mask c) /\
  (accepted = true ->
   exists im, co_src_bitmap c = Some im /\
     let a := co_src_area c in
     0 <= r_left a <= r_right a /\ 0 <= r_top a <= r_bottom a /\
     forall bm, im_u im = ImgBitmap bm ->
       u32 (r_right a) <= bm_x bm /\ u32 (r_bottom a) <= bm_y bm).

Definition attr_ok (a : SpiceLineAttr) : Prop :=
  has_flag (la_flags a) SPICE_LINE_FLAGS_STYLED = true \/ la_style a = 0.

Definition draw_ok (accepted : bool) (type : Z) (u : draw_u) : Prop :=
  match u, draw_op_of type with
  | UZero, _ => True
  | UCopyBits _, Some OpCopyBits => True
  | UFill f, Some OpFill => brush_ok (fi_brush f) /\ qmask_ok (fi_mask f)
  | UOpaque o, Some OpOpaque =>
      image_ok false (op_src_bitmap o) /\ brush_ok (op_brush o) /\ qmask_ok (op_mask o)
  | UCopy c, (Some OpCopy | Some OpBlend) => copy_ok accepted c
  | UTransparent t, Some OpTransparent => image_ok false (tr_src_bitmap t)
  | UAlphaBlend a, Some OpAlphaBlend => image_ok false (ab_src_bitmap a)
  | URop3 r, Some OpRop3 =>
      image_ok false (ro_src_bitmap r) /\ brush_ok (ro_brush r) /\ qmask_ok (ro_mask r)
  | UStroke s, Some OpStroke => brush_ok (sk_brush s) /\ attr_ok (sk_attr s)
  | UText t, Some OpText => brush_ok (tx_fore_brush t) /\ brush_ok (tx_back_brush t)
  | UWhiteness w, (Some OpWhiteness | Some OpInvers | Some OpBlackness) => qmask_ok (wh_mask w)
  | UComposite c, Some OpComposite =>
      image_ok false (cm_src_bitmap c) /\ image_ok false (cm_mask_bitmap c)
  | _, _ => False
  end.

Definition clip_ok (c : SpiceClip) : Prop :=
  cl_type c = SPICE_CLIP_TYPE_RECTS \/ cl_rects c = None.

Definition drawable_ok (accepted : bool) (d : RedDrawable) : Prop :=
  clip_ok (dr_clip d) /\ dr_self_bitmap_image d = None /\ draw_ok accepted (dr_type d) (dr_u d).

Lemma zero_qmask_ok : qmask_ok zero_qmask.
Proof. done. Qed.

Lemma spec_malloc_n n : spec [] (g_malloc_n n) own_ptr (fun _ => True).
Proof.
  unfold g_malloc_n. case_if; [by apply spec_ret|].
  eapply spec_conseq; [apply spec_malloc|done|auto].
Qed.

Lemma spec_get_fill p flags :
  readable p (sizeof QXLFill) ->
  spec [] (red_get_fill_ptr slots gid p flags) (fun f => own_draw (UFill f))
    (fun f => brush_ok (fi_brush f) /\ qmask_ok (fi_mask f)).
Proof.
  intros Hr. unfold red_get_fill_ptr.
  get_call ltac:(by apply spec_get_brush, (readable_memb _ _ QXLFill_brush)). get_field.
  get_call ltac:(by apply spec_get_qmask, (readable_memb _ _ QXLFill_mask)).
  apply spec_ret; [done|]. simpl. solve_Permutation.
Qed.

Lemma spec_get_opaque p flags :
  readable p (sizeof QXLOpaque) ->
  spec [] (red_get_opaque_ptr slots gid p flags) (fun o => own_draw (UOpaque o))
    (fun o => image_ok false (op_src_bitmap o) /\ brush_ok (op_brush o) /\ qmask_ok (op_mask o)).
Proof.
  intros Hr. unfold red_get_opaque_ptr. get_field. get_call ltac:(apply spec_get_image; auto).
  get_memb spec_get_rect QXLOpaque_src_area.
  get_call ltac:(by apply spec_get_brush, (readable_memb _ _ QXLOpaque_brush)). do 2 get_field.
  get_call ltac:(by apply spec_get_qmask, (readable_memb _ _ QXLOpaque_mask)).
  apply spec_ret; [done|]. simpl. solve_Permutation.
Qed.

Lemma spec_get_rop3 p flags :
  readable p (sizeof QXLRop3) ->
  spec [] (red_get_rop3_ptr slots gid p flags) (fun o => own_draw (URop3 o))
    (fun o => image_ok false (ro_src_bitmap o) /\ brush_ok (ro_brush o) /\ qmask_ok (ro_mask o)).
Proof.
  intros Hr. unfold red_get_rop3_ptr. get_field. get_call ltac:(apply spec_get_image; auto).
  get_memb spec_get_rect QXLRop3_src_area.
  get_call ltac:(by apply spec_get_brush, (readable_memb _ _ QXLRop3_brush)). do 2 get_field.
  get_call ltac:(by apply spec_get_qmask, (readable_memb _ _ QXLRop3_mask)).
  apply spec_ret; [done|]. simpl. solve_Permutation.
Qed.

Lemma spec_get_transparent p flags :
  readable p (sizeof QXLTransparent) ->
  spec [] (red_get_transparent_ptr slots gid p flags) (fun o => own_draw (UTransparent o))
    (fun o => image_ok false (tr_src_bitmap o)).
Proof.
  intros Hr. unfold red_get_transparent_ptr. get_field. get_call ltac:(apply spec_get_image; auto).
  get_memb spec_get_rect QXLTransparent_src_area. do 2 get_field.
  apply spec_ret; [done|]. simpl. by rewrite app_nil_r.
Qed.

Lemma spec_get_alpha_blend p flags :
  readable p (sizeof QXLAlphaBlend) ->
  spec [] (red_get_alpha_blend_ptr slots gid p flags) (fun o => own_draw (UAlphaBlend o))
    (fun o => image_ok false (ab_src_bitmap o)).
Proof.
  intros Hr. unfold red_get_alpha_blend_ptr. do 3 get_field.
  get_call ltac:(apply spec_get_image; auto). get_memb spec_get_rect QXLAlphaBlend_src_area.
  apply spec_ret; [done|]. simpl. by rewrite app_nil_r.
Qed.

Lemma spec_get_alpha_blend_compat p flags :
  readable p (sizeof QXLCompatAlphaBlend) ->
  spec [] (red_get_alpha_blend_ptr_compat slots gid p flags) (fun o => own_draw (UAlphaBlend o))
    (fun o => image_ok false (ab_src_bitmap o)).
Proof.
  intros Hr. unfold red_get_alpha_blend_ptr_compat. do 2 get_field.
  get_call ltac:(apply spec_get_image; auto). get_memb spec_get_rect QXLCompatAlphaBlend_src_area.
  apply spec_ret; [done|]. simpl. by rewrite app_nil_r.
Qed.

Lemma spec_get_whiteness p flags :
  readable p (sizeof QXLWhiteness) ->
  spec [] (red_get_whiteness_ptr slots gid p flags) (fun o => own_draw (UWhiteness o))
    (fun o => qmask_ok (wh_mask o)).
Proof.
  intros Hr. unfold red_get_whiteness_ptr.
  get_call ltac:(by apply spec_get_qmask, (readable_memb _ _ QXLWhiteness_mask)).
  apply spec_ret; [done|]. simpl. by rewrite app_nil_r.
Qed.

Lemma spec_get_transform a :
  spec [] (get_transform slots gid a) (fun _ => [])
    (from_option (fun t => length t = Z.to_nat sizeof_SpiceTransform) True).
Proof.
  pose proof host_sizes as (_ & _ & _ & _ & _ & Hsz & _).
  unfold get_transform. case_if; [by apply spec_ret|].
  eapply spec_seq; [by apply spec_get_virt|]. intros v Hv. cbn beta in Hv.
  case_if; [by apply spec_ret|]. zbool. specialize (Hv Eb0) as (_ & _ & _ & Hin).
  rewrite u32_id in Hin by lia.
  eapply spec_seq; [apply spec_guest_read; by eexists|]. intros bs Hbs. by apply spec_ret.
Qed.

Lemma spec_get_composite p flags :
  readable p (sizeof QXLComposite) ->
  spec [] (red_get_composite_ptr slots gid p flags) (fun o => own_draw (UComposite o))
    (fun o => image_ok false (cm_src_bitmap o) /\ image_ok false (cm_mask_bitmap o)).
Proof.
  intros Hr. unfold red_get_composite_ptr. do 2 get_field.
  eapply spec_call; [apply spec_get_image; auto|]. intros src Hsrc. get_field.
  eapply spec_seq; [apply spec_get_transform|]. intros st _. cbv zeta. get_field.
  eapply spec_call with (post1 := fun r => own_image r.1.2) (Q1 := fun r => image_ok false r.1.2).
  { case_if; [|by apply spec_ret]. get_field. get_call ltac:(apply spec_get_image; auto). get_field.
    eapply spec_seq; [apply spec_get_transform|]. intros mt _.
    apply spec_ret; [done|]. by rewrite app_nil_r. }
  intros [[f m] mt] Hm. simpl in Hm |- *. do 4 get_field.
  apply spec_ret; [done|]. simpl. solve_Permutation.
Qed.

Lemma area_outside_ok im a :
  image_ok false (Some im) ->
  spec [] (area_outside im a) (fun _ => [])
    (fun b => b = false -> forall bm, im_u im = ImgBitmap bm ->
       u32 (r_right a) <= bm_x bm /\ u32 (r_bottom a) <= bm_y bm).
Proof.
  pose proof image_types_distinct as (Hd1 & Hd2 & Hd3).
  intros [_ Hu]. unfold area_outside, u_ok in *. case_if; zbool.
  - destruct (im_u im) as [bm|sid|n d]; [|congruence|destruct Hu; congruence].
    apply spec_ret; [|done]. intros Hb bm' [= <-]. apply orb_false_iff in Hb as [? ?]. zbool. lia.
  - apply spec_ret; [|done]. intros _ bm Hbm. rewrite Hbm in Hu. by destruct Hu.
Qed.

Lemma spec_get_copy p flags red :
  readable p (sizeof QXLCopy) -> dr_u red = UZero ->
  draw_op_of (dr_type red) = Some OpCopy \/ draw_op_of (dr_type red) = Some OpBlend ->
  clip_ok (dr_clip red) -> dr_self_bitmap_image red = None ->
  spec (own_drawable red) (red_get_copy_ptr slots gid red p flags)
    (fun r => own_drawable r.2) (fun r => drawable_ok r.1 r.2 /\ dr_res r.2 = dr_res red).
Proof.
  intros Hr Hz Hop Hc Hi. unfold red_get_copy_ptr. cbv zeta. get_field.
  assert (forall b c, copy_ok b c ->
            drawable_ok b (set_u (set_self_bitmap red 0) (UCopy c)) /\
            dr_res (set_u (set_self_bitmap red 0) (UCopy c)) = dr_res red) as Hok.
  { intros b c Hcc. split; [|done]. split_and!; [done..|]. unfold draw_ok; simpl.
    by destruct Hop as [-> | ->]. }
  eapply spec_call; [by apply spec_get_image|]. intros [im|] Him.
  2: { apply spec_ret; [by apply Hok|]. unfold own_drawable. simpl. by rewrite Hz. }
  get_memb spec_get_rect QXLCopy_src_area. rename a0 into area.
  case_if.
  { apply spec_ret; [by apply Hok|]. unfold own_drawable. rewrite Hz. cbn [own_draw co_src_bitmap co_mask dr_clip dr_self_bitmap_image dr_u set_u set_self_bitmap own_qmask qm_bitmap zero_qmask]. simpl. solve_Permutation. }
  eapply spec_seq; [by apply area_outside_ok|]. intros out Hout. cbn beta in Hout.
  destruct out.
  { apply spec_ret; [by apply Hok|]. unfold own_drawable. rewrite Hz. simpl. solve_Permutation. }
  specialize (Hout eq_refl). do 2 get_field.
  eapply spec_call; [by apply spec_get_qmask, (readable_memb _ _ QXLCopy_mask)|]. intros mask Hm.
  apply spec_ret.
  - apply Hok. split_and!; [done..|]. intros _. exists im. split; [done|]. simpl.
    unfold area_swapped in Eb. repeat (apply orb_false_iff in Eb as [Eb ?]). zbool. split_and!; try lia.
    done.
  - unfold own_drawable. rewrite Hz. simpl. solve_Permutation.
Qed.

Lemma spec_get_clip p :
  E None -> readable p (sizeof QXLClip) ->
  spec [] (red_get_clip_ptr slots gid p) own_clip clip_ok.
Proof.
  intros HN Hr. unfold red_get_clip_ptr.
  eapply spec_seq; [by apply (spec_rd_wrap _ _ _ u8 (fun _ => True))|]. intros type _.
  case_if; [|apply spec_ret; [by right|done]]. zbool. get_field.
  eapply spec_call; [by apply spec_get_clip_rects|]. intros r _. rewrite app_nil_r.
  apply spec_ret; [by left|done].
Qed.

Lemma spec_get_line_attr p :
  E None -> readable p (sizeof QXLStroke) ->
  spec [] (red_get_line_attr slots gid p) (fun r => own_ptr (la_style r.2)) (fun r => attr_ok r.2).
Proof.
  intros HN Hr. pose proof host_sizes as (_ & _ & _ & _ & _ & _ & _ & _ & Hfx).
  pose proof fixed_sizes as Hfs. pose proof count_widths as (_ & _ & Hsg & Hw).
  unfold red_get_line_attr.
  eapply spec_seq; [by apply (spec_rd_wrap _ _ _ u8 (fun _ => True))|]. intros f _.
  case_if; [|apply spec_ret; [by right|done]].
  eapply spec_seq.
  { apply spec_fmap. eapply spec_conseq; [by apply (spec_rd_unsigned _ _ _ _ _ 2)|done|].
    intros z Hz. cbn beta in Hz. split; [|done]. instantiate (1 := fun z => 0 <= z < 65536). cbn beta.
    rewrite s32_id; lia. }
  intros n Hn. cbn beta in Hn.
  eapply spec_call; [apply spec_malloc_n|]. intros b _. rewrite app_nil_r. get_field.
  eapply spec_seq; [by apply spec_assert; right|]. intros [] _. get_field.
  eapply spec_seq; [by apply spec_get_virt|]. intros v Hv. cbn beta in Hv.
  case_if; [apply spec_ret; [by left|done]|]. zbool. specialize (Hv Eb0) as (_ & _ & _ & Hin).
  rewrite u32_id in Hin by nia.
  eapply spec_seq; [apply spec_guest_read; by eexists|]. intros bs _.
  eapply spec_seq; [apply spec_host_write; nia|]. intros [] _.
  apply spec_ret; [by left|done].
Qed.

Lemma spec_get_stroke p flags :
  E None -> race_free -> readable p (sizeof QXLStroke) ->
  spec [] (red_get_stroke_ptr slots gid p flags) (fun r => own_draw (UStroke r.2))
    (fun r => brush_ok (sk_brush r.2) /\ attr_ok (sk_attr r.2)).
Proof.
  intros HN Hrf Hr. unfold red_get_stroke_ptr. get_field.
  eapply spec_call; [by apply spec_get_path|].
  intros [pa|] Hpa; [|apply spec_ret; [split; [done|by right]|done]].
  eapply spec_call; [by apply spec_get_line_attr|]. intros [ok attr] Hat. simpl in Hat |- *.
  case_if; [apply spec_ret; [done|simpl; solve_Permutation]|].
  eapply spec_call; [by apply spec_get_brush, (readable_memb _ _ QXLStroke_brush)|]. intros br Hbr.
  do 2 get_field. apply spec_ret; [done|]. simpl. solve_Permutation.
Qed.

Lemma spec_get_text p flags :
  E None -> race_free -> readable p (sizeof QXLText) ->
  spec [] (red_get_text_ptr slots gid p flags) (fun r => own_draw (UText r))
    (fun r => brush_ok (tx_fore_brush r) /\ brush_ok (tx_back_brush r)).
Proof.
  intros HN Hrf Hr. unfold red_get_text_ptr. get_field.
  eapply spec_call; [by apply spec_get_string|]. intros str _.
  get_memb spec_get_rect QXLText_back_area.
  eapply spec_call; [by apply spec_get_brush, (readable_memb _ _ QXLText_fore_brush)|]. intros fb Hfb.
  eapply spec_call; [by apply spec_get_brush, (readable_memb _ _ QXLText_back_brush)|]. intros bb Hbb.
  do 2 get_field. apply spec_ret; [done|]. simpl. solve_Permutation.
Qed.

(** Freeing in sequence: each call gives back its part. *)
Lemma spec_put_then {A} (m : P unit) (k : P A) own rest post Q :
  spec own m (fun _ => []) (fun _ => True) -> spec rest k post Q ->
  spec (own ++ rest) (m;; k) post Q.
Proof. intros Hm Hk. eapply spec_bind; [exact Hm|reflexivity|]. by intros [] _. Qed.

Lemma spec_put_clip c :
  clip_ok c -> spec (own_clip c) (red_put_clip c) (fun _ => []) (fun _ => True).
Proof.
  unfold clip_ok, own_clip, red_put_clip. intros Hc.
  destruct (Z.eqb_spec (cl_type c) SPICE_CLIP_TYPE_RECTS); [apply spec_free|].
  destruct Hc as [?|Hc]; [done|]. rewrite Hc. by apply spec_ret.
Qed.

Lemma spec_put_stroke s :
  brush_ok (sk_brush s) -> attr_ok (sk_attr s) ->
  spec (own_draw (UStroke s)) (red_put_stroke s) (fun _ => []) (fun _ => True).
Proof.
  intros Hb Ha. apply spec_put_then; [by apply spec_put_brush|]. apply spec_put_then; [apply spec_free|].
  destruct (has_flag _ _) eqn:Hf; [apply spec_free|].
  destruct Ha as [Ha|Ha]; [congruence|]. rewrite Ha. by apply spec_ret.
Qed.

Lemma spec_put_composite c :
  image_ok false (cm_src_bitmap c) -> image_ok false (cm_mask_bitmap c) ->
  spec (own_draw (UComposite c)) (red_put_composite c) (fun _ => []) (fun _ => True).
Proof.
  intros Hs Hm. apply spec_put_then; [by eapply spec_put_image|].
  destruct (cm_mask_bitmap c); [by eapply spec_put_image|by apply spec_ret].
Qed.

(** The destructor gives back everything the object owns. *)
Lemma spec_destroy accepted d :
  drawable_ok accepted d ->
  spec (own_drawable d) (destroy_RedDrawable d) (fun _ => []) (fun _ => True).
Proof.
  intros (Hc & Hi & Hd). unfold destroy_RedDrawable, own_drawable.
  apply spec_put_then; [by apply spec_put_clip|].
  apply spec_put_then; [rewrite Hi; by apply spec_ret|]. cbv zeta.
  unfold draw_ok in Hd. unfold use_u.
  destruct (dr_u d) as [|f|o|c|t|a|pt|r|s|t|w|c]; [|
    destruct (draw_op_of (dr_type d)) as [[]|]; try contradiction..].
  - destruct (draw_op_of (dr_type d)) as [[]|]; by apply spec_ret.
  - destruct Hd as [? ?]. apply spec_put_then; [by apply spec_put_brush|by apply spec_put_qmask].
  - destruct Hd as (? & ? & ?). apply spec_put_then; [by eapply spec_put_image|].
    apply spec_put_then; [by apply spec_put_brush|by apply spec_put_qmask].
  - destruct Hd as (? & ? & ?). apply spec_put_then; [by eapply spec_put_image|by apply spec_put_qmask].
  - destruct Hd as (? & ? & ?). apply spec_put_then; [by eapply spec_put_image|by apply spec_put_qmask].
  - by eapply spec_put_image.
  - by eapply spec_put_image.
  - by apply spec_ret.
  - destruct Hd as (? & ? & ?). apply spec_put_then; [by eapply spec_put_image|].
    apply spec_put_then; [by apply spec_put_brush|by apply spec_put_qmask].
  - destruct Hd. by apply spec_put_stroke.
  - destruct Hd as [? ?]. apply spec_put_then; [apply spec_free|].
    apply spec_put_then; [by apply spec_put_brush|by apply spec_put_brush].
  - by apply spec_put_qmask.
  - by apply spec_put_qmask.
  - by apply spec_put_qmask.
  - destruct Hd. by apply spec_put_composite.
Qed.

(** Storing a parsed member in the union of a fresh object. *)
Lemma spec_store {A} (m : P A) (ok : A -> bool) (K : A -> draw_u) (upd : A -> RedDrawable) red Q :
  spec [] m (fun v => own_draw (K v)) Q ->
  dr_u red = UZero -> clip_ok (dr_clip red) -> dr_self_bitmap_image red = None ->
  (forall v, dr_u (upd v) = K v /\ dr_clip (upd v) = dr_clip red /\ dr_res (upd v) = dr_res red /\
     dr_type (upd v) = dr_type red /\ dr_self_bitmap_image (upd v) = None) ->
  (forall v, Q v -> draw_ok (ok v) (dr_type red) (K v)) ->
  spec (own_drawable red) (v ← m; mret (ok v, upd v))
    (fun r => own_drawable r.2) (fun r => drawable_ok r.1 r.2 /\ dr_res r.2 = dr_res red).
Proof.
  intros Hm Hz Hc Hi Hu Hq. eapply spec_call; [exact Hm|]. intros v Hv.
  destruct (Hu v) as (Eu & Ec & Er & Et & Ei). apply spec_ret; simpl.
  - split; [|done]. unfold drawable_ok. rewrite Ec, Et, Ei, Eu. auto.
  - unfold own_drawable. rewrite Ec, Ei, Eu, Hz, Hi. simpl. rewrite app_nil_r. apply Permutation_app_comm.
Qed.

Section switch.
Context (red : RedDrawable) (HN : E None) (Hrf : race_free).
Context (Hz : dr_u red = UZero) (Hc : clip_ok (dr_clip red)) (Hi : dr_self_bitmap_image red = None).

Lemma spec_keep b :
  spec (own_drawable red) (mret (b, red))
    (fun r => own_drawable r.2) (fun r => drawable_ok r.1 r.2 /\ dr_res r.2 = dr_res red).
Proof. apply spec_ret; [|done]. split; [|done]. split_and!; [done..|]. simpl. by rewrite Hz. Qed.

#[local] Ltac store K L m :=
  eapply (spec_store _ (fun _ => true) K); [by apply L, (readable_memb _ _ m)|try done..];
  intros v Hv; unfold draw_ok; match goal with H : draw_op_of _ = _ |- _ => rewrite H end; exact Hv.

Lemma spec_get_native_u q flags :
  readable q (sizeof QXLDrawable) ->
  spec (own_drawable red) (get_native_u slots gid red q flags)
    (fun r => own_drawable r.2) (fun r => drawable_ok r.1 r.2 /\ dr_res r.2 = dr_res red).
Proof.
  intros Hr. unfold get_native_u. destruct (draw_op_of (dr_type red)) as [[]|] eqn:Hop.
  - store UAlphaBlend spec_get_alpha_blend QXLDrawable_u_alpha_blend.
  - store UWhiteness spec_get_whiteness QXLDrawable_u_blackness.
  - apply spec_get_copy; auto. by apply (readable_memb _ _ QXLDrawable_u_blend).
  - apply spec_get_copy; auto. by apply (readable_memb _ _ QXLDrawable_u_copy).
  - store UCopyBits spec_get_point QXLDrawable_u_copy_bits_src_pos.
  - store UFill spec_get_fill QXLDrawable_u_fill.
  - store UOpaque spec_get_opaque QXLDrawable_u_opaque.
  - store UWhiteness spec_get_whiteness QXLDrawable_u_invers.
  - apply spec_keep.
  - store URop3 spec_get_rop3 QXLDrawable_u_rop3.
  - store UComposite spec_get_composite QXLDrawable_u_composite.
  - eapply (spec_store _ fst (fun v => UStroke v.2));
      [by apply spec_get_stroke, (readable_memb _ _ QXLDrawable_u_stroke)|try done..].
    intros v Hv; unfold draw_ok; rewrite Hop. exact Hv.
  - store UText spec_get_text QXLDrawable_u_text.
  - store UTransparent spec_get_transparent QXLDrawable_u_transparent.
  - store UWhiteness spec_get_whiteness QXLDrawable_u_whiteness.
  - apply spec_keep.
Qed.

Lemma spec_get_compat_u q flags :
  readable q (sizeof QXLCompatDrawable) ->
  spec (own_drawable red) (get_compat_u slots gid red q flags)
    (fun r => own_drawable r.2) (fun r => drawable_ok r.1 r.2 /\ dr_res r.2 = dr_res red).
Proof.
  intros Hr. unfold get_compat_u. destruct (draw_op_of (dr_type red)) as [[]|] eqn:Hop.
  - store UAlphaBlend spec_get_alpha_blend_compat QXLCompatDrawable_u_alpha_blend.
  - store UWhiteness spec_get_whiteness QXLCompatDrawable_u_blackness.
  - apply spec_get_copy; auto. by apply (readable_memb _ _ QXLCompatDrawable_u_blend).
  - apply spec_get_copy; auto. by apply (readable_memb _ _ QXLCompatDrawable_u_copy).
  - store UCopyBits spec_get_point QXLCompatDrawable_u_copy_bits_src_pos.
  - store UFill spec_get_fill QXLCompatDrawable_u_fill.
  - store UOpaque spec_get_opaque QXLCompatDrawable_u_opaque.
  - store UWhiteness spec_get_whiteness QXLCompatDrawable_u_invers.
  - apply spec_keep.
  - store URop3 spec_get_rop3 QXLCompatDrawable_u_rop3.
  - apply spec_keep.
  - eapply (spec_store _ fst (fun v => UStroke v.2));
      [by apply spec_get_stroke, (readable_memb _ _ QXLCompatDrawable_u_stroke)|try done..].
    intros v Hv; unfold draw_ok; rewrite Hop. exact Hv.
  - store UText spec_get_text QXLCompatDrawable_u_text.
  - store UTransparent spec_get_transparent QXLCompatDrawable_u_transparent.
  - store UWhiteness spec_get_whiteness QXLCompatDrawable_u_whiteness.
  - apply spec_keep.
Qed.
End switch.

(** What the release record of a parsed command is: none when its structure
    could not even be reached, else an address in the slot of the command. *)
Definition resource_of (qxl addr : Z) (ok : bool) (r : RedQXLResource) : Prop :=
  (ok = false /\ r = zero_resource) \/
  (exists v o, r = set_resource qxl (v + o) gid /\ 0 <= o /\ guest_ok v o).

Definition drawable_post (qxl addr : Z) (r : bool * RedDrawable) : Prop :=
  drawable_ok r.1 r.2 /\ resource_of qxl addr r.1 (dr_res r.2).

Lemma resource_of_tail qxl addr v t ok :
  guest_ok v (sizeof (tail_of t)) -> resource_of qxl addr ok (set_resource qxl (v + toff t) gid).
Proof.
  intros Hv. right. exists v, (toff t). pose proof (tail_inside t). split_and!; [done|lia|].
  eapply guest_ok_sub; [done|lia..].
Qed.

Lemma spec_get_native_drawable qxl addr flags :
  E None -> race_free ->
  spec [] (red_get_native_drawable qxl slots gid zero_drawable addr flags)
    (fun r => own_drawable r.2) (drawable_post qxl addr).
Proof.
  intros HN Hrf. unfold red_get_native_drawable.
  eapply spec_seq; [by apply spec_get_virt|]. intros v Hv. cbn beta in Hv.
  case_if; [apply spec_ret; [split; [by split_and!; [right|..]|by left]|done]|]. zbool. specialize (Hv Eb).
  apply virt_ok_struct in Hv as (Hok & Hg & Hid & Hvr). cbv zeta.
  get_memb spec_get_rect QXLDrawable_bbox.
  eapply spec_call; [by apply spec_get_clip, (readable_memb _ _ QXLDrawable_clip)|]. intros clip Hclip.
  do 3 get_field. get_memb spec_get_rect QXLDrawable_self_bitmap_area. get_field.
  get_field. get_memb spec_get_rect QXLDrawable_surfaces_rects_0.
  get_field. get_memb spec_get_rect QXLDrawable_surfaces_rects_1.
  get_field. get_memb spec_get_rect QXLDrawable_surfaces_rects_2.
  eapply spec_seq; [by apply (spec_rd_wrap _ _ _ u8 (fun _ => True))|]. intros type _.
  eapply spec_conseq; [by apply spec_get_native_u|..].
  - unfold own_drawable. simpl. by rewrite !app_nil_r.
  - intros [ok d] [Hd Hres]. split; [|done]. split; [done|]. simpl in *. rewrite Hres.
    by apply resource_of_tail.
Qed.

Lemma spec_get_compat_drawable qxl addr flags :
  E None -> race_free ->
  spec [] (red_get_compat_drawable qxl slots gid zero_drawable addr flags)
    (fun r => own_drawable r.2) (drawable_post qxl addr).
Proof.
  intros HN Hrf. unfold red_get_compat_drawable.
  eapply spec_seq; [by apply spec_get_virt|]. intros v Hv. cbn beta in Hv.
  case_if; [apply spec_ret; [split; [by split_and!; [right|..]|by left]|done]|]. zbool. specialize (Hv Eb).
  apply virt_ok_struct in Hv as (Hok & Hg & Hid & Hvr). cbv zeta.
  get_memb spec_get_rect QXLCompatDrawable_bbox.
  eapply spec_call; [by apply spec_get_clip, (readable_memb _ _ QXLCompatDrawable_clip)|]. intros clip Hclip.
  do 3 get_field. get_memb spec_get_rect QXLCompatDrawable_bitmap_area.
  eapply spec_seq; [by apply (spec_rd_wrap _ _ _ u8 (fun _ => True))|]. intros type _.
  eapply spec_conseq; [by apply spec_get_compat_u|..].
  - unfold own_drawable. simpl. by rewrite !app_nil_r.
  - intros [ok d] [Hd Hres]. split; [|done]. split; [done|]. simpl in *. rewrite Hres.
    by apply resource_of_tail.
Qed.

Lemma spec_get_drawable qxl addr flags :
  E None -> race_free ->
  spec [] (red_get_drawable qxl slots gid zero_drawable addr flags)
    (fun r => own_drawable r.2) (drawable_post qxl addr).
Proof.
  intros HN Hrf. unfold red_get_drawable.
  case_if; [by apply spec_get_compat_drawable|by apply spec_get_native_drawable].
Qed.
End draw_specs.
