(* ===== verification/QxlCmds.v ===== *)
(** * The other QXL commands (red-parse-qxl.cpp)

    Update, message, surface and cursor commands.  As for drawables, a parse
    function returns the object as it was left together with its result, and
    the destructor runs on it when the result is false. *)

From stdpp Require Import base list list_tactics numbers tactics option.
From Stdlib Require Import ZArith Lia.
From S2P Require Import Prelude Memslot QxlAbi QxlLogic QxlChunks QxlImage QxlGeom QxlDraw.

Open Scope Z_scope.

(** ** Data *)

Record RedUpdateCmd := mkRedUpdateCmd {
  up_res : RedQXLResource; up_area : SpiceRect; up_update_id : Z; up_surface_id : Z }.

(** [data] points into guest memory. *)
Record RedMessage := mkRedMessage { ms_res : RedQXLResource; ms_len : Z; ms_data : Z }.

Record RedSurfaceCreate := mkRedSurfaceCreate {
  su_format : Z; su_width : Z; su_height : Z; su_stride : Z; su_data : Z }.
Record RedSurfaceCmd := mkRedSurfaceCmd {
  sc_res : RedQXLResource; sc_surface_id : Z; sc_type : Z; sc_cmd_flags : Z;
  sc_create : RedSurfaceCreate }.

(** [cu_data] is the host block of the shape, [cu_bytes] its contents. *)
Record SpiceCursor := mkSpiceCursor {
  cu_unique : Z; cu_type : Z; cu_width : Z; cu_height : Z; cu_hot_spot_x : Z; cu_hot_spot_y : Z;
  cu_data_size : Z; cu_data : Z; cu_bytes : list Z }.
Inductive cursor_u :=
  | CurZero
  | CurSet (position : SpicePoint) (visible : Z) (shape : SpiceCursor)
  | CurMove (position : SpicePoint)
  | CurTrail (length frequency : Z).
Record RedCursorCmd := mkRedCursorCmd { cc_res : RedQXLResource; cc_type : Z; cc_u : cursor_u }.

Definition zero_cursor : SpiceCursor := mkSpiceCursor 0 0 0 0 0 0 0 0 [].
Definition zero_create : RedSurfaceCreate := mkRedSurfaceCreate 0 0 0 0 0.

(** ** Surfaces *)
Section surface.
Context {abi : Abi}.

Definition surface_format_to_bpp (format : Z) : Z :=
  if format =? SPICE_SURFACE_FMT_1_A then 1
  else if format =? SPICE_SURFACE_FMT_8_A then 8
  else if (format =? SPICE_SURFACE_FMT_16_555) || (format =? SPICE_SURFACE_FMT_16_565) then 16
  else if (format =? SPICE_SURFACE_FMT_32_xRGB) || (format =? SPICE_SURFACE_FMT_32_ARGB) then 32
  else 0.

Definition G_MININT32 : Z := - 2 ^ 31.

Definition red_validate_surface (width height stride format : Z) : bool :=
  let bpp := surface_format_to_bpp format in
  if bpp =? 0 then false
  else
    let size := u64 (u64 (u64 (width * bpp) + 7) / 8) in
    if (stride =? G_MININT32) || (u32 (Z.abs stride) <? size) then false
    else
      let size := u64 (height * Z.abs stride) in
      size <=? MAX_DATA_CHUNK.
End surface.

Section cmds.
Context {abi : Abi} {gm : GuestMem}.

(** [delete] of a class with a defaulted destructor. *)
Definition delete_default (r : RedQXLResource) : P unit := mret tt;; release_resource r.

Definition red_get_update_cmd (qxl_instance : Z) (slots : RedMemSlotInfo) (group_id : Z)
    (red : RedUpdateCmd) (addr : Z) : P (bool * RedUpdateCmd) :=
  qxl ← memslot_get_virt slots addr (sizeof QXLUpdateCmd) group_id;
  if qxl =? 0 then mret (false, red)
  else
    let q := GuestP qxl in
    let res := set_resource qxl_instance (qxl + toff QXLUpdateCmd_release_info) group_id in
    area ← red_get_rect_ptr (addr_of QXLUpdateCmd_area q);
    update_id ← rd QXLUpdateCmd_update_id q;
    surface_id ← rd QXLUpdateCmd_surface_id q;
    mret (true, mkRedUpdateCmd res area update_id surface_id).

(** [None]: the null pointer, the object having been deleted. *)
Definition red_update_cmd_new (qxl : Z) (slots : RedMemSlotInfo) (group_id addr : Z)
    : P (option RedUpdateCmd) :=
  '(ok, red) ← red_get_update_cmd qxl slots group_id (mkRedUpdateCmd zero_resource zero_rect 0 0) addr;
  if (ok : bool) then mret (Some red) else delete_default (up_res red);; mret None.

(** [memchr(data, 0, n)]: the offset of the first zero byte; bytes are read in
    order and none after the one found. *)
Fixpoint memchr0 (n : nat) (a off : Z) : P (option Z) :=
  match n with
  | O => mret None
  | S n' =>
      bs ← guest_read (a + off) 1;
      if le_decode bs =? 0 then mret (Some off) else memchr0 n' a (off + 1)
  end.

Definition red_get_message (qxl_instance : Z) (slots : RedMemSlotInfo) (group_id : Z)
    (red : RedMessage) (addr : Z) : P (bool * RedMessage) :=
  qxl ← memslot_get_virt slots addr (sizeof QXLMessage) group_id;
  if qxl =? 0 then mret (false, red)
  else
    let res := set_resource qxl_instance (qxl + toff QXLMessage_release_info) group_id in
    let data := qxl + toff QXLMessage_data in
    let memslot_id := memslot_get_id slots (u64 (addr + sizeof QXLMessage)) in
    len ← memslot_max_size_virt slots (u64 (qxl + sizeof QXLMessage)) memslot_id group_id;
    let len := Z.min len 100000 in
    end_ ← memchr0 (Z.to_nat len) data 0;
    match end_ with
    | None => mret (false, mkRedMessage res (ms_len red) data)
    | Some n => mret (true, mkRedMessage res n data)
    end.

Definition red_message_new (qxl : Z) (slots : RedMemSlotInfo) (group_id addr : Z)
    : P (option RedMessage) :=
  '(ok, red) ← red_get_message qxl slots group_id (mkRedMessage zero_resource 0 0) addr;
  if (ok : bool) then mret (Some red) else delete_default (ms_res red);; mret None.

Definition red_get_surface_cmd (qxl_instance : Z) (slots : RedMemSlotInfo) (group_id : Z)
    (red : RedSurfaceCmd) (addr : Z) : P (bool * RedSurfaceCmd) :=
  qxl ← memslot_get_virt slots addr (sizeof QXLSurfaceCmd) group_id;
  if qxl =? 0 then mret (false, red)
  else
    let q := GuestP qxl in
    let res := set_resource qxl_instance (qxl + toff QXLSurfaceCmd_release_info) group_id in
    surface_id ← rd QXLSurfaceCmd_surface_id q;
    type ← u8 <$> rd QXLSurfaceCmd_type q;
    flags ← rd QXLSurfaceCmd_flags q;
    let red := mkRedSurfaceCmd res surface_id type flags in
    if type =? QXL_SURFACE_CMD_CREATE
    then
      format ← u32 <$> rd QXLSurfaceCmd_u_surface_create_format q;
      width ← u32 <$> rd QXLSurfaceCmd_u_surface_create_width q;
      height ← u32 <$> rd QXLSurfaceCmd_u_surface_create_height q;
      stride ← s32 <$> rd QXLSurfaceCmd_u_surface_create_stride q;
      let create := mkRedSurfaceCreate format width height stride in
      if negb (red_validate_surface width height stride format) then mret (false, red (create 0))
      else
        let size := u32 (height * Z.abs stride) in
        a ← rd QXLSurfaceCmd_u_surface_create_data q;
        data ← memslot_get_virt slots a size group_id;
        if data =? 0 then mret (false, red (create 0)) else mret (true, red (create data))
    else mret (true, red zero_create).

Definition red_surface_cmd_new (qxl : Z) (slots : RedMemSlotInfo) (group_id addr : Z)
    : P (option RedSurfaceCmd) :=
  '(ok, cmd) ← red_get_surface_cmd qxl slots group_id
                 (mkRedSurfaceCmd zero_resource 0 0 0 zero_create) addr;
  if (ok : bool) then mret (Some cmd) else delete_default (sc_res cmd);; mret None.

(** [g_memdup2(data, size)]: null for an empty block. *)
Definition g_memdup2 (data : qptr) (size : Z) : P (Z * list Z) :=
  if size =? 0 then mret (0, [])
  else
    b ← g_malloc;
    bs ← read_bytes data size;
    mret (b, bs).

Definition red_get_cursor (slots : RedMemSlotInfo) (group_id addr : Z) : P (bool * SpiceCursor) :=
  qxl ← memslot_get_virt slots addr (sizeof QXLCursor) group_id;
  if qxl =? 0 then mret (false, zero_cursor)
  else
    let q := GuestP qxl in
    unique ← rd QXLCursor_header_unique q;
    type ← rd QXLCursor_header_type q;
    width ← u16 <$> rd QXLCursor_header_width q;
    height ← u16 <$> rd QXLCursor_header_height q;
    hx ← u16 <$> rd QXLCursor_header_hot_spot_x q;
    hy ← u16 <$> rd QXLCursor_header_hot_spot_y q;
    data_size ← u32 <$> rd QXLCursor_data_size q;
    r ← linearize_at slots group_id addr qxl QXLCursor_chunk;
    match r with
    | None => mret (false, mkSpiceCursor unique type width height hx hy data_size 0 [])
    | Some (data, size, free_data) =>
        let data_size := Z.min data_size size in
        '(b, bs) ← (if negb (free_data =? 0)
                    then bs ← read_bytes data size; mret (free_data, bs)
                    else g_memdup2 data size);
        mret (true, mkSpiceCursor unique type width height hx hy data_size b bs)
    end.

Definition red_put_cursor (red : SpiceCursor) : P unit := g_free (cu_data red).

Definition red_get_cursor_cmd (qxl_instance : Z) (slots : RedMemSlotInfo) (group_id : Z)
    (red : RedCursorCmd) (addr : Z) : P (bool * RedCursorCmd) :=
  qxl ← memslot_get_virt slots addr (sizeof QXLCursorCmd) group_id;
  if qxl =? 0 then mret (false, red)
  else
    let q := GuestP qxl in
    let res := set_resource qxl_instance (qxl + toff QXLCursorCmd_release_info) group_id in
    type ← u8 <$> rd QXLCursorCmd_type q;
    if type =? QXL_CURSOR_SET
    then
      position ← red_get_point16_ptr (addr_of QXLCursorCmd_u_set_position q);
      visible ← rd QXLCursorCmd_u_set_visible q;
      a ← rd QXLCursorCmd_u_set_shape q;
      r ← red_get_cursor slots group_id a;
      mret (r.1, mkRedCursorCmd res type (CurSet position visible r.2))
    else if type =? QXL_CURSOR_MOVE
    then
      position ← red_get_point16_ptr (addr_of QXLCursorCmd_u_position q);
      mret (true, mkRedCursorCmd res type (CurMove position))
    else if type =? QXL_CURSOR_TRAIL
    then
      length ← rd QXLCursorCmd_u_trail_length q;
      frequency ← rd QXLCursorCmd_u_trail_frequency q;
      mret (true, mkRedCursorCmd res type (CurTrail length frequency))
    else mret (true, mkRedCursorCmd res type (cc_u red)).

(** RedCursorCmd::~RedCursorCmd *)
Definition destroy_RedCursorCmd (red : RedCursorCmd) : P unit :=
  if cc_type red =? QXL_CURSOR_SET
  then match cc_u red with
       | CurSet _ _ shape => red_put_cursor shape
       | CurZero => mret tt
       | _ => undef UbNull
       end
  else mret tt.

Definition delete_RedCursorCmd (red : RedCursorCmd) : P unit :=
  destroy_RedCursorCmd red;; release_resource (cc_res red).

Definition red_cursor_cmd_new (qxl : Z) (slots : RedMemSlotInfo) (group_id addr : Z)
    : P (option RedCursorCmd) :=
  '(ok, cmd) ← red_get_cursor_cmd qxl slots group_id (mkRedCursorCmd zero_resource 0 CurZero) addr;
  if (ok : bool) then mret (Some cmd) else delete_RedCursorCmd cmd;; mret None.
End cmds.

(** ** Specifications *)

(** A surface that passes the check: the size the parser computes in 32 bits
    is the real one, and a line holds the pixels of a row. *)
Lemma validate_surface_ok {abi : Abi} width height stride format :
  0 <= width < 2 ^ 32 -> 0 <= height < 2 ^ 32 -> - 2 ^ 31 <= stride < 2 ^ 31 ->
  red_validate_surface width height stride format = true ->
  0 < surface_format_to_bpp format /\
  width * surface_format_to_bpp format <= 8 * Z.abs stride /\
  height * Z.abs stride <= MAX_DATA_CHUNK /\
  u32 (height * Z.abs stride) = height * Z.abs stride.
Proof.
  intros Hw Hh Hs. unfold red_validate_surface. cbv zeta.
  assert (0 <= surface_format_to_bpp format <= 32) as Hb
    by (unfold surface_format_to_bpp; repeat case_match; lia).
  set (bpp := surface_format_to_bpp format) in *. clearbody bpp.
  assert (MAX_DATA_CHUNK = 2147483647) as HM by reflexivity.
  case_if; [done|]. case_if; [done|]. unfold G_MININT32 in *.
  apply orb_false_iff in Eb0 as [Eb0 Eb1]. intros Hsz. zbool.
  assert (0 <= width * bpp < 2 ^ 38) by nia.
  rewrite u32_id in Eb1 by lia. rewrite (u64_id (width * bpp)) in Eb1 by lia.
  rewrite (u64_id (width * bpp + 7)) in Eb1 by lia.
  assert (0 <= (width * bpp + 7) / 8 < 2 ^ 38) as Hq.
  { split; [apply Z.div_pos; lia|apply Z.div_lt_upper_bound; lia]. }
  rewrite u64_id in Eb1 by lia.
  assert (0 <= height * Z.abs stride < 2 ^ 64) by nia. rewrite u64_id in Hsz by lia.
  pose proof (Z.div_mod (width * bpp + 7) 8 ltac:(lia)).
  pose proof (Z.mod_pos_bound (width * bpp + 7) 8 ltac:(lia)).
  split_and!; try lia. apply u32_id. lia.
Qed.

Definition own_cursor (c : cursor_u) : list Z :=
  match c with CurSet _ _ shape => own_ptr (cu_data shape) | _ => [] end.

Section cmd_specs.
Context {abi : Abi} {gm : GuestMem} `{!AbiOk abi}.
Context (slots : RedMemSlotInfo) (gid : Z) (E : option ub_kind -> Prop).
Context (Hwf : slots_wf slots) (Hgid : -2 ^ 31 <= gid < 2 ^ 31).
#[local] Abbreviation guest_ok := (guest_ok slots gid).
#[local] Abbreviation readable := (readable slots gid).
#[local] Abbreviation spec := (spec slots gid E).
#[local] Abbreviation resource_of := (resource_of slots gid).

(** The start of every command. *)
Lemma spec_cmd {A} addr q (pre : list Z) (z : A) (k : Z -> P A) post (Q : A -> Prop) :
  Q z -> pre ≡ₚ post z ->
  (forall v, guest_ok v (sizeof q) -> group_ok slots gid ->
     slot_id_ok slots (memslot_get_id slots addr) -> 0 < v < 2 ^ 64 -> spec pre (k v) post Q) ->
  spec pre (qxl ← memslot_get_virt slots addr (sizeof q) gid;
            if qxl =? 0 then mret z else k qxl) post Q.
Proof.
  intros Hz Hp Hk. eapply spec_seq; [by apply spec_get_virt|]. intros v Hv. cbn beta in Hv.
  case_if; [by apply spec_ret|]. zbool. specialize (Hv Eb).
  apply virt_ok_struct in Hv as (Hok & Hg & Hid & Hvr). by apply Hk.
Qed.

Lemma spec_get_update_cmd qxl addr :
  spec [] (red_get_update_cmd qxl slots gid (mkRedUpdateCmd zero_resource zero_rect 0 0) addr)
    (fun _ => []) (fun r => resource_of qxl addr r.1 (up_res r.2)).
Proof.
  apply spec_cmd; [by left|done|]. intros v Hok Hg Hid Hv. cbv zeta.
  get_memb spec_get_rect QXLUpdateCmd_area. do 2 get_field.
  apply spec_ret; [|done]. by apply (resource_of_tail _ _ _ _ _ QXLUpdateCmd_release_info).
Qed.

Lemma spec_memchr0 n a off :
  0 <= off -> guest_ok a (off + Z.of_nat n) ->
  spec [] (memchr0 n a off) (fun _ => [])
    (from_option (fun k => off <= k < off + Z.of_nat n) True).
Proof.
  revert off; induction n as [|n IH]; intros off Ho Hok; cbn [memchr0]; [by apply spec_ret|].
  eapply spec_seq; [apply spec_guest_read; eapply guest_ok_sub; [done|lia..]|]. intros bs _.
  case_if; [apply spec_ret; [simpl; lia|done]|].
  eapply spec_conseq; [apply IH; [lia|eapply guest_ok_sub; [done|lia..]]|done|].
  intros [k|] Hk; simpl in *; split; auto; lia.
Qed.

(** The message is inside a slot, as long as the address of its text has a
    valid slot number (which the parser does not check). *)
Lemma spec_get_message qxl addr :
  slot_id_ok slots (memslot_get_id slots (u64 (addr + sizeof QXLMessage))) ->
  toff QXLMessage_data = sizeof QXLMessage ->
  spec [] (red_get_message qxl slots gid (mkRedMessage zero_resource 0 0) addr)
    (fun _ => []) (fun r => resource_of qxl addr r.1 (ms_res r.2) /\
                     (r.1 = true -> 0 <= ms_len r.2 < 100000 /\ guest_ok (ms_data r.2) (ms_len r.2 + 1))).
Proof.
  intros Hsid Htail. apply spec_cmd; [split; [by left|done]|done|]. intros v Hok Hg Hid Hv. cbv zeta.
  assert (0 <= v + sizeof QXLMessage < 2 ^ 64) as Hvs.
  { destruct Hok as [sid Hin]. pose proof (in_slot_bound _ _ _ _ _ Hwf Hin).
    pose proof (sizeof_range QXLMessage). lia. }
  rewrite Htail, (u64_id (v + _)) by done. set (a := v + sizeof QXLMessage) in *.
  eapply (spec_seq _ _ _ _ _ _ (fun n => 0 <= n /\ (0 < n -> guest_ok a n))).
  { intros s F Hh Hl. apply wp_max_size_virt; auto. intros n Hn Hin. split_and!; auto; [lia|].
    intros H0. exists (memslot_get_id slots (u64 (addr + sizeof QXLMessage))). by apply Hin. }
  intros n [Hn0 Hn]. cbv beta.
  assert (Hres : forall ok, resource_of qxl addr ok
                   (set_resource qxl (v + toff QXLMessage_release_info) gid))
    by (intros; by apply (resource_of_tail _ _ _ _ _ QXLMessage_release_info)).
  destruct (decide (n = 0)) as [->|Hne].
  { apply spec_seq with (Q1 := fun r => r = None); [by apply spec_ret|].
    intros ? ->. apply spec_ret; [|done]. split; [apply Hres|done]. }
  eapply spec_seq; [apply spec_memchr0; [lia|]|].
  { eapply guest_ok_sub; [apply Hn; lia|lia..]. }
  intros [k|] Hk; simpl in Hk; (apply spec_ret; [|done]); (split; [apply Hres|]); simpl; [|done].
  intros _. split; [lia|]. eapply guest_ok_sub; [apply Hn; lia|lia..].
Qed.

(** An accepted surface: what [validate_surface_ok] says, and its whole pixel
    area inside a slot. *)
Definition surface_ok (c : RedSurfaceCmd) : Prop :=
  sc_type c = QXL_SURFACE_CMD_CREATE ->
  let u := sc_create c in
  0 < surface_format_to_bpp (su_format u) /\
  su_width u * surface_format_to_bpp (su_format u) <= 8 * Z.abs (su_stride u) /\
  guest_ok (su_data u) (su_height u * Z.abs (su_stride u)).

Lemma spec_get_surface_cmd qxl addr :
  spec [] (red_get_surface_cmd qxl slots gid (mkRedSurfaceCmd zero_resource 0 0 0 zero_create) addr)
    (fun _ => []) (fun r => resource_of qxl addr r.1 (sc_res r.2) /\ (r.1 = true -> surface_ok r.2)).
Proof.
  apply spec_cmd; [split; [by left|done]|done|]. intros v Hok Hg Hid Hv. cbv zeta.
  assert (Hres : forall ok, resource_of qxl addr ok
                   (set_resource qxl (v + toff QXLSurfaceCmd_release_info) gid))
    by (intros; by apply (resource_of_tail _ _ _ _ _ QXLSurfaceCmd_release_info)).
  get_field. eapply spec_seq; [by apply (spec_rd_wrap _ _ _ u8 (fun _ => True))|]. intros type _.
  get_field. case_if; zbool.
  2: { apply spec_ret; [|done]. split; [apply Hres|]. intros _ ?. done. }
  eapply spec_seq; [by apply spec_rd_u32|]. intros format Hf. cbn beta in Hf.
  eapply spec_seq; [by apply spec_rd_u32|]. intros width Hw. cbn beta in Hw.
  eapply spec_seq; [by apply spec_rd_u32|]. intros height Hh. cbn beta in Hh.
  eapply spec_seq; [apply (spec_rd_wrap _ _ _ s32 (fun z => - 2 ^ 31 <= z < 2 ^ 31)); [done|exact s32_range]|].
  intros stride Hs. cbn beta in Hs.
  case_if; zbool; [apply spec_ret; [split; [apply Hres|done]|done]|].
  apply validate_surface_ok in Eb0 as (Hb & Hrow & Hmax & Hu); [|lia..]. rewrite Hu.
  get_field. eapply spec_seq; [by apply spec_get_virt|]. intros d Hd. cbn beta in Hd.
  case_if; zbool; [apply spec_ret; [split; [apply Hres|done]|done]|].
  specialize (Hd Eb0) as (_ & _ & _ & Hin). rewrite Hu in Hin.
  apply spec_ret; [|done]. split; [apply Hres|]. intros _ _. simpl. split_and!; try done. by eexists.
Qed.

(** A cursor shape: its block holds all the data that [data_size] promises. *)
Definition cursor_ok (c : SpiceCursor) : Prop := cu_data_size c <= Z.of_nat (length (cu_bytes c)).

Lemma spec_get_cursor addr :
  spec [] (red_get_cursor slots gid addr) (fun r => own_ptr (cu_data r.2))
    (fun r => r.1 = true -> cursor_ok r.2).
Proof.
  apply spec_cmd; [done|done|]. intros v Hok Hg Hid Hv. cbv zeta.
  do 2 get_field.
  do 4 (eapply spec_seq; [by apply spec_rd_u16|]; intros ? _).
  eapply spec_seq; [by apply spec_rd_u32|]. intros dsz Hdsz. cbn beta in Hdsz.
  eapply spec_call; [by eapply spec_linearize_at|].
  intros [[[d size] b]|] Hr; [|apply spec_ret; [done|done]]. destruct Hr as [Hd Hsz]. rewrite app_nil_r.
  eapply (spec_bind _ _ _ (own_ptr b) [] _ _ _ (fun r => own_ptr r.1)
            (fun r => Z.of_nat (length r.2) = size)); [|by rewrite app_nil_r|].
  - case_if; zbool.
    + eapply spec_seq; [by apply spec_read_bytes|]. intros bs Hbs. cbn beta in Hbs. apply spec_ret; simpl; [lia|done].
    + subst b. unfold g_memdup2. case_if; zbool; [apply spec_ret; simpl; [lia|done]|].
      change (own_ptr 0) with (@nil Z).
      eapply spec_call; [apply spec_malloc|]. intros b Hb. rewrite app_nil_r.
      eapply spec_seq; [by apply spec_read_bytes|]. intros bs Hbs. cbn beta in Hbs. apply spec_ret; simpl; [lia|done].
  - intros [b' bs] Hbs. simpl in Hbs. apply spec_ret; [|by rewrite app_nil_r].
    intros _. unfold cursor_ok. simpl. lia.
Qed.

Definition cursor_cmd_ok (c : RedCursorCmd) : Prop :=
  match cc_u c with
  | CurZero => True
  | CurSet _ _ shape => cc_type c = QXL_CURSOR_SET
  | _ => cc_type c <> QXL_CURSOR_SET
  end.

Lemma spec_get_cursor_cmd qxl addr :
  spec [] (red_get_cursor_cmd qxl slots gid (mkRedCursorCmd zero_resource 0 CurZero) addr)
    (fun r => own_cursor (cc_u r.2))
    (fun r => resource_of qxl addr r.1 (cc_res r.2) /\ cursor_cmd_ok r.2 /\
       (r.1 = true -> forall p vis sh, cc_u r.2 = CurSet p vis sh -> cursor_ok sh)).
Proof.
  apply spec_cmd; [split; [by left|done]|done|]. intros v Hok Hg Hid Hv. cbv zeta.
  assert (Hres : forall ok, resource_of qxl addr ok
                   (set_resource qxl (v + toff QXLCursorCmd_release_info) gid))
    by (intros; by apply (resource_of_tail _ _ _ _ _ QXLCursorCmd_release_info)).
  eapply spec_seq; [by apply (spec_rd_wrap _ _ _ u8 (fun _ => True))|]. intros type _.
  case_if; zbool.
  { get_memb spec_get_point16 QXLCursorCmd_u_set_position. do 2 get_field.
    eapply spec_call; [apply spec_get_cursor|]. intros [ok c] Hc. rewrite app_nil_r. simpl in Hc.
    apply spec_ret; [|done]. split_and!; [apply Hres|done|]. intros Ht p vis sh [= _ _ <-]. auto. }
  case_if; zbool.
  { get_memb spec_get_point16 QXLCursorCmd_u_position. by apply spec_ret. }
  case_if; zbool; [do 2 get_field|]; by apply spec_ret.
Qed.

Lemma spec_destroy_cursor_cmd c :
  cursor_cmd_ok c -> spec (own_cursor (cc_u c)) (destroy_RedCursorCmd c) (fun _ => []) (fun _ => True).
Proof.
  unfold cursor_cmd_ok, destroy_RedCursorCmd. destruct (cc_u c); simpl; intros Hc.
  - case_if; by apply spec_ret.
  - rewrite Hc, Z.eqb_refl. apply spec_free.
  - destruct (Z.eqb_spec (cc_type c) QXL_CURSOR_SET); [done|by apply spec_ret].
  - destruct (Z.eqb_spec (cc_type c) QXL_CURSOR_SET); [done|by apply spec_ret].
Qed.
End cmd_specs.
