(* ===== verification/QxlLayout.v ===== *)
(** * A concrete layout

    The theorems about the QXL parser hold for every layout that [AbiOk]
    accepts.  This file gives one: the packed layout that the driver of a
    64-bit guest uses, with the numeric values of the protocol's constants, and
    guest memories described by the fields stored in them.  The concrete runs
    of the parser (examples and witnesses) use it. *)

From stdpp Require Import base list numbers tactics option.
From Stdlib Require Import ZArith Lia.
From S2P Require Import Prelude Memslot QxlAbi.

Open Scope Z_scope.

Definition qxl_sizeof (x : qstruct) : Z :=
  match x with
  | QXLPoint16 => 4
  | QXLPoint | QXLPointFix | QXLPathSeg | QXLMessage => 8
  | QXLPalette => 10
  | QXLClip => 12
  | QXLRect => 16
  | QXLQMask | QXLWhiteness => 17
  | QXLDataChunk | QXLBrush | QXLRasterGlyph => 20
  | QXLPath | QXLClipRects => 24
  | QXLCompatAlphaBlend => 25
  | QXLAlphaBlend => 27
  | QXLString => 28
  | QXLTransparent | QXLUpdateCmd => 32
  | QXLFill => 39
  | QXLSurfaceCmd => 41
  | QXLCursor => 42
  | QXLCopy | QXLComposite => 44
  | QXLImage | QXLStroke => 48
  | QXLRop3 => 63
  | QXLOpaque => 64
  | QXLText => 68
  | QXLCompatDrawable => 128
  | QXLCursorCmd => 150
  | QXLDrawable => 191
  end.

Definition qxl_foff (x : fld) : Z :=
  match x with
  | QXLDataChunk_data_size | QXLPoint_x | QXLPoint16_x | QXLPointFix_x | QXLRect_top |
    QXLPathSeg_flags | QXLClipRects_num_rects | QXLImage_descriptor_id | QXLPalette_unique |
    QXLBrush_type | QXLQMask_flags | QXLOpaque_src_bitmap | QXLCopy_src_bitmap |
    QXLTransparent_src_bitmap | QXLAlphaBlend_alpha_flags | QXLCompatAlphaBlend_alpha |
    QXLComposite_flags | QXLRop3_src_bitmap | QXLStroke_path | QXLString_data_size | QXLText_str |
    QXLClip_type | QXLCursor_header_unique => 0
  | QXLCompatAlphaBlend_src_bitmap => 1
  | QXLPoint16_y | QXLAlphaBlend_alpha => 2
  | QXLAlphaBlend_src_bitmap => 3
  | QXLPoint_y | QXLPointFix_y | QXLRect_left | QXLPathSeg_count | QXLBrush_u_color |
    QXLBrush_u_pattern_pat | QXLComposite_src | QXLString_length | QXLClip_data => 4
  | QXLString_flags => 6
  | QXLRect_bottom | QXLImage_descriptor_type | QXLPalette_num_ents | QXLStroke_attr_flags |
    QXLDrawable_surface_id | QXLCompatDrawable_effect | QXLSurfaceCmd_surface_id |
    QXLCursor_header_type | QXLCursorCmd_type => 8
  | QXLImage_descriptor_flags | QXLQMask_bitmap | QXLCompatDrawable_type |
    QXLCursorCmd_u_trail_length => 9
  | QXLImage_descriptor_width | QXLCompatDrawable_bitmap_offset | QXLCursor_header_width => 10
  | QXLStroke_attr_style_nseg | QXLCursorCmd_u_trail_frequency => 11
  | QXLDataChunk_next_chunk | QXLRect_right | QXLComposite_src_transform | QXLDrawable_effect |
    QXLSurfaceCmd_type | QXLCursor_header_height => 12
  | QXLDrawable_type | QXLSurfaceCmd_flags | QXLCursorCmd_u_set_visible => 13
  | QXLImage_descriptor_height | QXLDrawable_self_bitmap | QXLCursor_header_hot_spot_x |
    QXLCursorCmd_u_set_shape => 14
  | QXLStroke_attr_style | QXLRasterGlyph_width | QXLCursor_header_hot_spot_y => 16
  | QXLSurfaceCmd_u_surface_create_format => 17
  | QXLImage_bitmap_format | QXLImage_surface_image_surface_id | QXLImage_quic_data_size |
    QXLRasterGlyph_height | QXLCursor_data_size => 18
  | QXLImage_bitmap_flags => 19
  | QXLImage_bitmap_x | QXLFill_rop_descriptor | QXLComposite_mask => 20
  | QXLSurfaceCmd_u_surface_create_width => 21
  | QXLImage_bitmap_y | QXLCopy_rop_descriptor | QXLTransparent_src_color |
    QXLUpdateCmd_update_id => 24
  | QXLSurfaceCmd_u_surface_create_height => 25
  | QXLCopy_scale_mode => 26
  | QXLImage_bitmap_stride | QXLTransparent_true_color | QXLComposite_mask_transform |
    QXLUpdateCmd_surface_id => 28
  | QXLSurfaceCmd_u_surface_create_stride => 29
  | QXLImage_bitmap_palette => 32
  | QXLSurfaceCmd_u_surface_create_data => 33
  | QXLComposite_src_origin_x => 36
  | QXLComposite_src_origin_y => 38
  | QXLImage_bitmap_data | QXLComposite_mask_origin_x => 40
  | QXLComposite_mask_origin_y => 42
  | QXLOpaque_rop_descriptor | QXLRop3_rop3 | QXLStroke_fore_mode => 44
  | QXLRop3_scale_mode => 45
  | QXLOpaque_scale_mode | QXLStroke_back_mode => 46
  | QXLCompatDrawable_mm_time => 56
  | QXLDrawable_mm_time => 59
  | QXLDrawable_surfaces_dest_0 => 63
  | QXLText_fore_mode => 64
  | QXLText_back_mode => 66
  | QXLDrawable_surfaces_dest_1 => 67
  | QXLDrawable_surfaces_dest_2 => 71
  end.

Definition qxl_fwidth (x : fld) : Z :=
  match x with
  | QXLImage_descriptor_type | QXLImage_descriptor_flags | QXLImage_bitmap_format |
    QXLImage_bitmap_flags | QXLQMask_flags | QXLOpaque_scale_mode | QXLCopy_scale_mode |
    QXLAlphaBlend_alpha | QXLCompatAlphaBlend_alpha | QXLRop3_rop3 | QXLRop3_scale_mode |
    QXLStroke_attr_flags | QXLStroke_attr_style_nseg | QXLDrawable_effect |
    QXLDrawable_self_bitmap | QXLDrawable_type | QXLCompatDrawable_effect |
    QXLCompatDrawable_type | QXLSurfaceCmd_type | QXLCursorCmd_type |
    QXLCursorCmd_u_set_visible => 1
  | QXLPoint16_x | QXLPoint16_y | QXLPalette_num_ents | QXLFill_rop_descriptor |
    QXLOpaque_rop_descriptor | QXLCopy_rop_descriptor | QXLAlphaBlend_alpha_flags |
    QXLComposite_src_origin_x | QXLComposite_src_origin_y | QXLComposite_mask_origin_x |
    QXLComposite_mask_origin_y | QXLStroke_fore_mode | QXLStroke_back_mode | QXLString_flags |
    QXLString_length | QXLRasterGlyph_width | QXLRasterGlyph_height | QXLText_fore_mode |
    QXLText_back_mode | QXLCompatDrawable_bitmap_offset | QXLCursor_header_type |
    QXLCursor_header_width | QXLCursor_header_height | QXLCursor_header_hot_spot_x |
    QXLCursor_header_hot_spot_y | QXLCursorCmd_u_trail_length |
    QXLCursorCmd_u_trail_frequency => 2
  | QXLDataChunk_next_chunk | QXLImage_descriptor_id | QXLImage_bitmap_palette |
    QXLImage_bitmap_data | QXLPalette_unique | QXLBrush_u_pattern_pat | QXLQMask_bitmap |
    QXLOpaque_src_bitmap | QXLCopy_src_bitmap | QXLTransparent_src_bitmap |
    QXLAlphaBlend_src_bitmap | QXLCompatAlphaBlend_src_bitmap | QXLComposite_src |
    QXLComposite_src_transform | QXLComposite_mask | QXLComposite_mask_transform |
    QXLRop3_src_bitmap | QXLStroke_path | QXLStroke_attr_style | QXLText_str | QXLClip_data |
    QXLSurfaceCmd_u_surface_create_data | QXLCursor_header_unique | QXLCursorCmd_u_set_shape => 8
  | _ => 4
  end.

Definition qxl_fsigned (x : fld) : bool :=
  match x with
  | QXLPoint_x | QXLPoint_y | QXLPoint16_x | QXLPoint16_y | QXLPointFix_x | QXLPointFix_y |
    QXLRect_top | QXLRect_left | QXLRect_bottom | QXLRect_right | QXLComposite_src_origin_x |
    QXLComposite_src_origin_y | QXLComposite_mask_origin_x | QXLComposite_mask_origin_y |
    QXLDrawable_surfaces_dest_0 | QXLDrawable_surfaces_dest_1 | QXLDrawable_surfaces_dest_2 |
    QXLSurfaceCmd_u_surface_create_stride => true
  | _ => false
  end.

Definition qxl_moff (x : memb) : Z :=
  match x with
  | QXLFill_brush | QXLRasterGlyph_render_pos | QXLWhiteness_mask => 0
  | QXLQMask_pos => 1
  | QXLPath_chunk | QXLClipRects_chunk => 4
  | QXLString_chunk | QXLOpaque_src_area | QXLCopy_src_area | QXLTransparent_src_area |
    QXLRop3_src_area | QXLRasterGlyph_glyph_origin | QXLText_back_area | QXLUpdateCmd_area => 8
  | QXLCompatAlphaBlend_src_area | QXLCursorCmd_u_set_position | QXLCursorCmd_u_position => 9
  | QXLAlphaBlend_src_area => 11
  | QXLBrush_u_pattern_pos | QXLCompatDrawable_bitmap_area => 12
  | QXLDrawable_self_bitmap_area => 15
  | QXLCursor_chunk | QXLImage_quic_data | QXLFill_mask => 22
  | QXLOpaque_brush | QXLRop3_brush | QXLStroke_brush | QXLText_fore_brush => 24
  | QXLCopy_mask => 27
  | QXLCompatDrawable_bbox => 28
  | QXLDrawable_bbox => 31
  | QXLText_back_brush | QXLCompatDrawable_clip => 44
  | QXLRop3_mask => 46
  | QXLOpaque_mask | QXLDrawable_clip => 47
  | QXLCompatDrawable_u_alpha_blend | QXLCompatDrawable_u_blackness | QXLCompatDrawable_u_blend |
    QXLCompatDrawable_u_copy | QXLCompatDrawable_u_copy_bits_src_pos | QXLCompatDrawable_u_fill |
    QXLCompatDrawable_u_opaque | QXLCompatDrawable_u_invers | QXLCompatDrawable_u_rop3 |
    QXLCompatDrawable_u_stroke | QXLCompatDrawable_u_text | QXLCompatDrawable_u_transparent |
    QXLCompatDrawable_u_whiteness => 60
  | QXLDrawable_surfaces_rects_0 => 75
  | QXLDrawable_surfaces_rects_1 => 91
  | QXLDrawable_surfaces_rects_2 => 107
  | QXLDrawable_u_alpha_blend | QXLDrawable_u_blackness | QXLDrawable_u_blend |
    QXLDrawable_u_copy | QXLDrawable_u_copy_bits_src_pos | QXLDrawable_u_fill |
    QXLDrawable_u_opaque | QXLDrawable_u_invers | QXLDrawable_u_rop3 | QXLDrawable_u_composite |
    QXLDrawable_u_stroke | QXLDrawable_u_text | QXLDrawable_u_transparent |
    QXLDrawable_u_whiteness => 123
  end.

Definition qxl_toff (x : tail) : Z :=
  match x with
  | QXLDrawable_release_info | QXLCompatDrawable_release_info | QXLUpdateCmd_release_info |
    QXLMessage_release_info | QXLSurfaceCmd_release_info | QXLCursorCmd_release_info => 0
  | QXLPathSeg_points | QXLMessage_data => 8
  | QXLPalette_ents => 10
  | QXLDataChunk_data | QXLRasterGlyph_data => 20
  end.

#[export] Instance qxl_abi : Abi := {|
  sizeof := qxl_sizeof; foff := qxl_foff; fwidth := qxl_fwidth; fsigned := qxl_fsigned;
  moff := qxl_moff; toff := qxl_toff;
  sizeof_SpicePath := 8; sizeof_SpicePathSeg := 8; sizeof_SpicePointFix := 8;
  sizeof_SpiceString := 8; sizeof_SpiceRasterGlyph := 20; sizeof_SpiceTransform := 24;
  sizeof_pointer := 8; sizeof_QXLPalette_ent := 4; sizeof_QXLFIXED := 4;
  sizeof_SPICE_FIXED28_4 := 4;
  SPICE_ALIGN := fun a n => a + (n - 1) - (a + (n - 1)) mod n;
  QXL_COMMAND_FLAG_COMPAT := 1; QXL_COMMAND_FLAG_COMPAT_16BPP := 2;
  QXL_IMAGE_CACHE := 1; QXL_IMAGE_HIGH_BITS_SET := 2;
  SPICE_IMAGE_FLAGS_CACHE_ME := 1; SPICE_IMAGE_FLAGS_HIGH_BITS_SET := 2;
  SPICE_IMAGE_TYPE_BITMAP := 0; SPICE_IMAGE_TYPE_QUIC := 1; SPICE_IMAGE_TYPE_SURFACE := 104;
  QXL_BITMAP_DIRECT := 1; QXL_BITMAP_UNSTABLE := 2; QXL_BITMAP_TOP_DOWN := 4;
  SPICE_BITMAP_FLAGS_TOP_DOWN := 4; SPICE_CHUNKS_FLAGS_UNSTABLE := 1;
  SPICE_BRUSH_TYPE_SOLID := 1; SPICE_BRUSH_TYPE_PATTERN := 2;
  SPICE_COMPOSITE_HAS_SRC_TRANSFORM := 2 ^ 16; SPICE_COMPOSITE_HAS_MASK := 2 ^ 17;
  SPICE_COMPOSITE_HAS_MASK_TRANSFORM := 2 ^ 18;
  SPICE_LINE_FLAGS_STYLED := 8;
  SPICE_STRING_FLAGS_RASTER_A1 := 1; SPICE_STRING_FLAGS_RASTER_A4 := 2;
  SPICE_STRING_FLAGS_RASTER_A8 := 4;
  SPICE_CLIP_TYPE_RECTS := 1;
  QXL_DRAW_ALPHA_BLEND := 5; QXL_DRAW_BLACKNESS := 8; QXL_DRAW_BLEND := 7; QXL_DRAW_COPY := 3;
  QXL_COPY_BITS := 6; QXL_DRAW_FILL := 1; QXL_DRAW_OPAQUE := 2; QXL_DRAW_INVERS := 10;
  QXL_DRAW_NOP := 0; QXL_DRAW_ROP3 := 11; QXL_DRAW_COMPOSITE := 14; QXL_DRAW_STROKE := 12;
  QXL_DRAW_TEXT := 13; QXL_DRAW_TRANSPARENT := 4; QXL_DRAW_WHITENESS := 9;
  SPICE_SURFACE_FMT_1_A := 1; SPICE_SURFACE_FMT_8_A := 8; SPICE_SURFACE_FMT_16_555 := 16;
  SPICE_SURFACE_FMT_16_565 := 80; SPICE_SURFACE_FMT_32_xRGB := 32; SPICE_SURFACE_FMT_32_ARGB := 96;
  QXL_SURFACE_CMD_CREATE := 0;
  QXL_CURSOR_SET := 0; QXL_CURSOR_MOVE := 1; QXL_CURSOR_TRAIL := 3 |}.

#[export] Instance qxl_abi_ok : AbiOk qxl_abi.
Proof.
  split; [intros []; vm_compute; done..| | | | | | | |].
  1-7: vm_compute; by repeat split.
  intros a. cbn [SPICE_ALIGN qxl_abi]. pose proof (Z.mod_pos_bound (a + (4 - 1)) 4). lia.
Qed.

(** A guest memory that holds the given values: (address, width, value). *)
Definition mem_at (l : list (Z * Z * Z)) (a : Z) : Z :=
  match list_find (fun '(b, w, _) => b <= a < b + w) l with
  | Some (_, (b, _, v)) => Z.land (Z.shiftr v (8 * (a - b))) 255
  | None => 0
  end.

(** A guest that never changes its memory. *)
Definition still (l : list (Z * Z * Z)) : GuestMem := fun _ a => mem_at l a.

(** [p->f = v] at address [p]. *)
Definition stores (f : fld) (p v : Z) : Z * Z * Z := (p + foff f, fwidth f, v).

(** One group with one slot: 64 KiB at host address 0x1000, mapped one to one. *)
Definition demo_slots : RedMemSlotInfo :=
  {| mem_slots := [[mkMemSlot 0 0x1000 0x11000 0]]; num_memslots_groups := 1; num_memslots := 1;
     mem_slot_bits := 8; generation_bits := 8; memslot_id_shift := 56; memslot_gen_shift := 48;
     internal_groupslot_id := 0; memslot_gen_mask := 255; memslot_clean_virt_mask := 2 ^ 48 - 1 |}.

(** The table is the one the operations build. *)
Lemma demo_slots_built :
  (i ← memslot_info_init (S := unit) 1 1 8 8 0; memslot_info_add_slot i 0 0 0 0x1000 0x11000 0) tt
  = Ok demo_slots tt.
Proof. vm_compute. reflexivity. Qed.

Lemma demo_slots_wf : slots_wf demo_slots.
Proof.
  split; simpl; try lia; repeat constructor; unfold slot_ok; simpl; lia.
Qed.

Definition start : pst := mkPst 0 [] [] 1 [].
