(* ===== verification/QxlThms.v ===== *)
(** * What the QXL parser guarantees

    The theorems about red-parse-qxl.cpp, with concrete commands as witnesses.
    [parses] is the common contract of the functions that read guest memory;
    [constructs] the one of the [red_*_new] functions, which also give back the
    release record of a command they reject. *)

From stdpp Require Import base list list_tactics numbers tactics option.
From Stdlib Require Import ZArith Lia.
From S2P Require Import Prelude Memslot QxlAbi QxlLogic QxlChunks QxlImage QxlGeom QxlDraw QxlCmds.
From S2P Require Import QxlLayout.

Open Scope Z_scope.

(** No way to stop but a normal return. *)
Definition no_fault (k : option ub_kind) : Prop := False.
(** A failed [spice_assert] ends the process. *)
Definition may_abort (k : option ub_kind) : Prop := k = None.
(** The chunk list of a rejected bitmap is released before it is set
    (see [red_get_image_uninit]). *)
Definition may_abort_or_uninit (k : option ub_kind) : Prop := k = None \/ k = Some UbUninit.

(** [m] reads the guest only inside the slots of the group, keeps the heap but
    for the blocks its result owns, gives nothing back, stops only as [E]
    allows, and its result satisfies [Q]. *)
Definition parses {gm : GuestMem} (slots : RedMemSlotInfo) (gid : Z) (E : option ub_kind -> Prop)
    {A} (m : P A) (own : A -> list Z) (Q : A -> Prop) : Prop :=
  forall s, safe_log slots gid (glog s) -> 0 < next s ->
    match m s with
    | Ok a s' => safe_log slots gid (glog s') /\ heap s' ≡ₚ own a ++ heap s /\
                 released s' = released s /\ Q a
    | Abort s' => safe_log slots gid (glog s') /\ E None
    | Ub k s' => safe_log slots gid (glog s') /\ E (Some k)
    end.

(** As [parses] for a constructor: a rejected command leaves the heap as it
    was, and its release record is handed back at most once. *)
Definition constructs {gm : GuestMem} (slots : RedMemSlotInfo) (gid : Z) (E : option ub_kind -> Prop)
    {A} (m : P (option A)) (own : A -> list Z) (Q : A -> Prop) : Prop :=
  forall s, safe_log slots gid (glog s) -> 0 < next s ->
    match m s with
    | Ok (Some a) s' => safe_log slots gid (glog s') /\ heap s' ≡ₚ own a ++ heap s /\
                        released s' = released s /\ Q a
    | Ok None s' => safe_log slots gid (glog s') /\ heap s' ≡ₚ heap s /\
                    (released s' = released s \/
                     exists info, guest_ok slots gid info 0 /\
                       released s' = (info, u32 gid) :: released s)
    | Abort s' => safe_log slots gid (glog s') /\ E None
    | Ub k s' => safe_log slots gid (glog s') /\ E (Some k)
    end.

Lemma parses_spec {gm : GuestMem} slots gid E {A} (m : P A) own Q :
  spec slots gid E [] m own Q -> parses slots gid E m own Q.
Proof.
  intros Hm s Hl Hn. specialize (Hm s (heap s) ltac:(done) (conj Hl Hn)). unfold wp in Hm.
  destruct (m s) as [a s'|s'|k s'].
  - by destruct Hm as (? & [? ?] & ? & ?).
  - by destruct Hm as ([? ?] & ? & ?).
  - by destruct Hm as ([? ?] & ? & ?).
Qed.

(** Running the destructor of a rejected command. *)
Lemma constructs_spec {abi : Abi} {gm : GuestMem} slots gid E {A} qxl addr
    (get : P (bool * A)) (res : A -> RedQXLResource) (destroy : A -> P unit) own Q Q' :
  spec slots gid E [] get (fun r => own r.2) Q ->
  (forall a, Q (false, a) -> spec slots gid E (own a) (destroy a) (fun _ => []) (fun _ => True)) ->
  (forall r, Q r -> resource_of slots gid qxl addr r.1 (res r.2)) ->
  (forall a, Q (true, a) -> Q' a) ->
  constructs slots gid E
    ('(ok, red) ← get;
     if (ok : bool) then mret (Some red)
     else (destroy red;; release_resource (res red));; mret None) own Q'.
Proof.
  intros Hget Hdel Hres HQ s Hl Hn.
  specialize (Hget s (heap s) ltac:(done) (conj Hl Hn)). unfold wp in Hget. unfold bindM at 1.
  destruct (get s) as [[[] a] s'|s'|k s']; cbn [fst snd] in *;
    [destruct Hget as (Hh & [? ?] & ? & Hq)| |by destruct Hget as ([? ?] & ? & ?)..].
  - simpl. split_and!; auto.
  - destruct Hget as (Hh & Hi & Hr & Hq).
    specialize (Hdel a Hq s' (heap s) Hh Hi). unfold wp in Hdel. unfold bindM.
    destruct (destroy a s') as [[] s''|s''|k s'']; [|by destruct Hdel as ([? ?] & ? & ?)..].
    destruct Hdel as (Hh' & [? ?] & Hr' & _). unfold release_resource.
    specialize (Hres _ Hq). simpl in Hres.
    case_if; simpl; split_and!; auto; [left; congruence|].
    zbool. destruct Hres as [[_ Hz]|(v & o & Hv & Ho & Hok)]; [by rewrite Hz in Eb|].
    right. exists (v + o). rewrite Hv. simpl. split; [|by rewrite Hr', Hr].
    eapply guest_ok_sub; [done|lia..].
Qed.

(** ** Chunk lists *)

(** C20: whatever the guest writes, and even if it changes its memory during the
    walk, [red_get_data_chunks] ends, reads only inside the slots of the
    group, frees every node when it fails, and otherwise returns a list whose
    data lies inside the slots, whose length is below [MAX_CHUNKS] and whose
    size is the sum of its parts (at most [MAX_DATA_CHUNK] as soon as a second
    chunk is involved). *)
Theorem data_chunks_bounded `{!AbiOk abi} {gm : GuestMem} slots gid addr :
  slots_wf slots -> - 2 ^ 31 <= gid < 2 ^ 31 ->
  parses slots gid no_fault (red_get_data_chunks slots gid addr)
    (fun r => from_option (own_chunks ∘ next_chunks) [] r.2)
    (fun r => match r.2 with
              | None => r.1 = INVALID_SIZE
              | Some cl => r.1 = INVALID_SIZE /\ next_chunks cl = [] \/ chunks_ok slots gid r.1 cl
              end).
Proof. intros Hwf Hg. by apply parses_spec, spec_get_data_chunks. Qed.

(** Two chunks: "ab", then "cde". *)
Definition two_chunks : GuestMem := still
  [stores QXLDataChunk_data_size 0x2000 2; stores QXLDataChunk_next_chunk 0x2000 0x3000;
   (0x2014, 2, 0x6261); stores QXLDataChunk_data_size 0x3000 3; (0x3014, 3, 0x656463)].

Lemma data_chunks_bounded_witness :
  parses (gm := two_chunks) demo_slots 0 no_fault
    (red_get_data_chunks (gm := two_chunks) demo_slots 0 0x2000)
    (fun r => from_option (own_chunks ∘ next_chunks) [] r.2)
    (fun r => match r.2 with
              | None => r.1 = INVALID_SIZE
              | Some cl => r.1 = INVALID_SIZE /\ next_chunks cl = [] \/ chunks_ok demo_slots 0 r.1 cl
              end) /\
  exists cl s', red_get_data_chunks (gm := two_chunks) demo_slots 0 0x2000 start = Ok (5, Some cl) s'.
Proof.
  split; [apply data_chunks_bounded; [exact demo_slots_wf|lia]|].
  do 2 eexists. vm_compute. reflexivity.
Defined.

(** The bytes a chunk refers to. *)
Definition chunk_bytes {gm : GuestMem} (c : RedDataChunk) : list Z :=
  guest_at 0 <$> zseq (data c) (data_size c).

Lemma spec_linearize_bytes {gm : GuestMem} slots gid E cs :
  race_free -> Forall (chunk_ok slots gid) cs ->
  spec slots gid E [] (linearize_loop cs (chunks_sum cs)) (fun _ => [])
    (fun r => r = (cs ≫= chunk_bytes, 0)).
Proof.
  intros Hrf. induction 1 as [|c cs [Hr Hok] Hcs IH]; cbn [linearize_loop chunks_sum foldr];
    [by apply spec_ret|].
  fold (chunks_sum cs). pose proof (chunks_sum_nonneg _ _ _ Hcs).
  assert (Hread : spec slots gid E [] (guest_read (data c) (data_size c)) (fun _ => [])
                    (fun bs => bs = chunk_bytes c)).
  { intros s F Hh [Hl Hn]. unfold wp, guest_read. simpl. split_and!; auto; [by split; [constructor|]|].
    unfold chunk_bytes. apply list_fmap_ext. intros i x _. apply Hrf. }
  case_if; zbool.
  { assert (data_size c = 0) as Hz by lia. assert (chunks_sum cs = 0) as Hs by lia.
    assert (forall l, Forall (chunk_ok slots gid) l -> chunks_sum l = 0 -> l ≫= chunk_bytes = []) as Hnil.
    { clear. induction 1 as [|c l [Hr Hok] Hl IH]; intros Hs; [done|]. simpl in Hs.
      pose proof (chunks_sum_nonneg _ _ _ Hl). unfold chunks_sum in *. cbn.
      rewrite IH by lia. unfold chunk_bytes. by replace (data_size c) with 0 by lia. }
    apply spec_ret; [|done]. cbn. rewrite Hnil by done. unfold chunk_bytes. rewrite Hz, Hs. done. }
  rewrite Z.min_l, u32_id by lia.
  eapply spec_seq; [exact Hread|]. intros bs ->.
  replace (data_size c + chunks_sum cs - data_size c) with (chunks_sum cs) by lia.
  eapply spec_seq; [exact IH|]. intros [bs' n] [= -> ->]. by apply spec_ret.
Qed.

(** C21: linearizing a chunk list gives exactly the bytes of its chunks in
    order: the guest's own memory when there is one chunk, a host copy of the
    concatenation (in one fresh block) when there are more. *)
Theorem linearize_is_concat {gm : GuestMem} slots gid size cl :
  race_free -> chunks_ok slots gid size cl ->
  parses slots gid no_fault (red_linearize_chunk cl size) (fun r => own_ptr r.2)
    (fun r => r.1 = match next_chunks cl with
                    | [] => GuestP (data (head_chunk cl))
                    | cs => HostP ((head_chunk cl :: cs) ≫= chunk_bytes) 0
                    end).
Proof.
  intros Hrf [[Hr Hok] Hnx Hbk Hsz Hbd Hct]. apply parses_spec. unfold red_linearize_chunk.
  destruct (next_chunks cl) as [|c cs] eqn:Ecs.
  - simpl in Hsz. eapply spec_seq; [apply spec_assert; left; apply Z.leb_le; lia|]. intros [] _.
    by apply spec_ret.
  - eapply spec_call; [apply spec_malloc|]. intros b Hb. rewrite app_nil_r.
    replace size with (chunks_sum (head_chunk cl :: c :: cs)) by (simpl in *; lia).
    eapply spec_seq; [apply spec_linearize_bytes; [done|by constructor]|]. intros [bs n] [= -> ->].
    eapply spec_seq; [by apply spec_assert; left|]. intros [] _. by apply spec_ret.
Qed.

Lemma linearize_is_concat_witness :
  parses (gm := two_chunks) demo_slots 0 no_fault
    (red_linearize_chunk (gm := two_chunks)
       (mkChunkList (mkRedDataChunk 0 2 0x2014) [mkRedDataChunk 7 3 0x3014]) 5)
    (fun r => own_ptr r.2)
    (fun r => r.1 = HostP ([mkRedDataChunk 0 2 0x2014; mkRedDataChunk 7 3 0x3014] ≫=
                             chunk_bytes (gm := two_chunks)) 0) /\
  [mkRedDataChunk 0 2 0x2014; mkRedDataChunk 7 3 0x3014] ≫= chunk_bytes (gm := two_chunks)
    = [0x61; 0x62; 0x63; 0x64; 0x65].
Proof.
  split; [|vm_compute; reflexivity].
  apply (linearize_is_concat (gm := two_chunks) demo_slots 0 5
           (mkChunkList (mkRedDataChunk 0 2 0x2014) [mkRedDataChunk 7 3 0x3014])); [done|].
  assert (Hin : forall a n, 0x1000 <= a -> 0 <= n -> a + n <= 0x11000 -> guest_ok demo_slots 0 a n).
  { intros a n ? ? ?. exists 0. do 2 eexists. split_and!; [reflexivity|reflexivity|simpl; lia..]. }
  split; simpl.
  - split; simpl; [lia|apply Hin; lia].
  - constructor; [|done]. split; simpl; [lia|apply Hin; lia].
  - constructor; [simpl; lia|done].
  - reflexivity.
  - intros _. by vm_compute.
  - by vm_compute.
Defined.

(** ** Images *)

(** [red_get_image] on any guest memory, racing or not: it reads only
    inside the slots, leaks nothing when it rejects the image, and an accepted
    bitmap is consistent: known format, non-empty, a line of at least the bytes
    a row of pixels needs, a palette when the format needs one, and exactly
    [y * stride] bytes of pixel data ([MAX_DATA_CHUNK] at most), every piece of
    it inside the slots. *)
Theorem get_image_safe `{!AbiOk abi} {gm : GuestMem} `{!SpiceChunksOk api} slots gid addr flags is_mask :
  slots_wf slots -> - 2 ^ 31 <= gid < 2 ^ 31 ->
  parses slots gid may_abort_or_uninit (red_get_image slots gid addr flags is_mask)
    own_image (image_ok slots gid is_mask).
Proof. intros Hwf Hg. apply parses_spec, spec_get_image; auto. by right. Qed.

(** A 2x2 bitmap of 32-bit pixels, its data flat in memory. *)
Definition bitmap_at (p data : Z) : list (Z * Z * Z) :=
  [stores QXLImage_descriptor_type p 0; stores QXLImage_descriptor_width p 2;
   stores QXLImage_descriptor_height p 2; stores QXLImage_bitmap_format p 8;
   stores QXLImage_bitmap_flags p 1; stores QXLImage_bitmap_x p 2; stores QXLImage_bitmap_y p 2;
   stores QXLImage_bitmap_stride p 8; stores QXLImage_bitmap_data p data].

Definition bitmap_mem : GuestMem := still (bitmap_at 0x2000 0x3000).

Lemma get_image_safe_witness :
  parses (gm := bitmap_mem) demo_slots 0 may_abort_or_uninit
    (red_get_image (gm := bitmap_mem) demo_slots 0 0x2000 0 false)
    own_image (image_ok demo_slots 0 false) /\
  match red_get_image (gm := bitmap_mem) demo_slots 0 0x2000 0 false start with
  | Ok (Some im) s => im_type im = 0 /\ length (heap s) = 2%nat
  | _ => False
  end.
Proof.
  split; [apply get_image_safe; [exact demo_slots_wf|lia]|]. vm_compute. done.
Defined.

(** an image read and then released leaves the heap as it was: every block
    taken by [red_get_image] is given back by [red_put_image], once. *)
Theorem image_get_put `{!AbiOk abi} {gm : GuestMem} `{!SpiceChunksOk api} slots gid addr flags is_mask :
  slots_wf slots -> - 2 ^ 31 <= gid < 2 ^ 31 ->
  parses slots gid may_abort_or_uninit
    (im ← red_get_image slots gid addr flags is_mask; red_put_image im)
    (fun _ => []) (fun _ => True).
Proof.
  intros Hwf Hg. apply parses_spec. eapply spec_call; [apply spec_get_image; auto; by right|].
  intros im Him. rewrite app_nil_r. by eapply spec_put_image.
Qed.

Lemma image_get_put_witness :
  parses (gm := bitmap_mem) demo_slots 0 may_abort_or_uninit
    (im ← red_get_image (gm := bitmap_mem) demo_slots 0 0x2000 0 false; red_put_image im)
    (fun _ => []) (fun _ => True).
Proof. apply image_get_put; [exact demo_slots_wf|lia]. Defined.

(** A bitmap whose chunks are at an address of no slot. *)
Definition bad_chunks_mem : GuestMem := still
  (stores QXLImage_bitmap_flags 0x2000 0 :: stores QXLImage_bitmap_data 0x2000 0x100 ::
   bitmap_at 0x2000 0x100).


(** ** Clip rectangles, paths and strings *)

(** the rectangles of a clip are read safely even while the guest changes
    its memory: in-slot reads only, no write outside the host block, no leak. *)
Theorem clip_rects_safe `{!AbiOk abi} {gm : GuestMem} slots gid addr :
  slots_wf slots -> - 2 ^ 31 <= gid < 2 ^ 31 ->
  parses slots gid may_abort (red_get_clip_rects slots gid addr)
    (fun o => own_ptr (from_option cr_blk 0 o)) (fun _ => True).
Proof. intros Hwf Hg. by apply parses_spec, spec_get_clip_rects. Qed.

(** Two rectangles, in one chunk. *)
Definition rects_mem : GuestMem := still
  [stores QXLClipRects_num_rects 0x2000 2;
   stores QXLDataChunk_data_size (0x2000 + moff QXLClipRects_chunk) 32;
   (0x2000 + moff QXLClipRects_chunk + 20, 4, 5)].

Lemma clip_rects_safe_witness :
  parses (gm := rects_mem) demo_slots 0 may_abort
    (red_get_clip_rects (gm := rects_mem) demo_slots 0 0x2000)
    (fun o => own_ptr (from_option cr_blk 0 o)) (fun _ => True) /\
  match red_get_clip_rects (gm := rects_mem) demo_slots 0 0x2000 start with
  | Ok (Some r) s => r_top <$> cr_rects r = [5; 0]
  | _ => False
  end.
Proof.
  split; [apply clip_rects_safe; [exact demo_slots_wf|lia]|]. vm_compute. done.
Defined.

(** a path of a guest that does not change it meanwhile is copied within
    the block sized by the first pass, with in-slot reads only. *)
Theorem path_safe `{!AbiOk abi} {gm : GuestMem} slots gid addr :
  slots_wf slots -> - 2 ^ 31 <= gid < 2 ^ 31 -> race_free ->
  parses slots gid may_abort (red_get_path slots gid addr)
    (fun o => own_ptr (from_option pa_blk 0 o)) (from_option (fun p => pa_blk p <> 0) True).
Proof. intros Hwf Hg Hrf. by apply parses_spec, spec_get_path. Qed.

(** One chunk that holds one segment of [n] points; [data] is where it starts. *)
Definition path_at (p n : Z) : list (Z * Z * Z) :=
  let data := p + moff QXLPath_chunk + 20 in
  [stores QXLDataChunk_data_size (p + moff QXLPath_chunk) (8 + 8 * n);
   stores QXLPathSeg_flags data 1; stores QXLPathSeg_count data n].

Definition path_mem : GuestMem := still (path_at 0x2000 2).

Lemma path_safe_witness :
  parses (gm := path_mem) demo_slots 0 may_abort (red_get_path (gm := path_mem) demo_slots 0 0x2000)
    (fun o => own_ptr (from_option pa_blk 0 o)) (from_option (fun p => pa_blk p <> 0) True) /\
  match red_get_path (gm := path_mem) demo_slots 0 0x2000 start with
  | Ok (Some p) s => length ∘ ps_points <$> pa_segments p = [2%nat]
  | _ => False
  end.
Proof.
  split; [apply path_safe; [exact demo_slots_wf|lia|done]|]. vm_compute. done.
Defined.

(** a string of a guest that does not change it meanwhile is copied within
    the block sized by the first pass, with in-slot reads only. *)
Theorem string_safe `{!AbiOk abi} {gm : GuestMem} slots gid addr :
  slots_wf slots -> - 2 ^ 31 <= gid < 2 ^ 31 -> race_free ->
  parses slots gid may_abort (red_get_string slots gid addr)
    (fun o => own_ptr (from_option st_blk 0 o)) (from_option (fun p => st_blk p <> 0) True).
Proof. intros Hwf Hg Hrf. by apply parses_spec, spec_get_string. Qed.

(** Two glyphs of the given heights, one byte wide (8 bits per pixel). *)
Definition string_at (p h1 h2 : Z) : list (Z * Z * Z) :=
  let data := p + moff QXLString_chunk + 20 in
  let size := 40 + h1 + h2 in
  [stores QXLString_data_size p size; stores QXLString_length p 2; stores QXLString_flags p 4;
   stores QXLDataChunk_data_size (p + moff QXLString_chunk) size;
   stores QXLRasterGlyph_width data 1; stores QXLRasterGlyph_height data h1;
   stores QXLRasterGlyph_width (data + 20 + h1) 1; stores QXLRasterGlyph_height (data + 20 + h1) h2].

Definition string_mem : GuestMem := still (string_at 0x2000 4 4).

Lemma string_safe_witness :
  parses (gm := string_mem) demo_slots 0 may_abort
    (red_get_string (gm := string_mem) demo_slots 0 0x2000)
    (fun o => own_ptr (from_option st_blk 0 o)) (from_option (fun p => st_blk p <> 0) True) /\
  match red_get_string (gm := string_mem) demo_slots 0 0x2000 start with
  | Ok (Some p) s => length ∘ gl_data <$> st_glyphs p = [4%nat; 4%nat]
  | _ => False
  end.
Proof.
  split; [apply string_safe; [exact demo_slots_wf|lia|done]|]. vm_compute. done.
Defined.

(** A guest that replaces one memory by another at time [n]. *)
Definition switch (n : nat) (l l' : list (Z * Z * Z)) : GuestMem :=
  fun t a => mem_at (if (t <? n)%nat then l else l') a.


(** ** Commands *)


(** A copy of the 2x2 bitmap; [right] is the right edge of the source area. *)
Definition copy_at (right : Z) : GuestMem := still
  (let u := 0x4000 + moff QXLDrawable_u_copy in
   [stores QXLDrawable_type 0x4000 3; stores QXLCopy_src_bitmap u 0x2000;
    stores QXLRect_right (u + moff QXLCopy_src_area) right;
    stores QXLRect_bottom (u + moff QXLCopy_src_area) 2] ++ bitmap_at 0x2000 0x3000).




(** C22: surfaces.  [red_surface_cmd_new] never faults, and the pixel area of
    an accepted surface lies inside a slot: the row fits in the stride and the
    32-bit product [height * |stride|] used for the check is exact. *)
Theorem surface_cmd_safe `{!AbiOk abi} {gm : GuestMem} slots gid qxl addr :
  slots_wf slots -> - 2 ^ 31 <= gid < 2 ^ 31 ->
  constructs slots gid no_fault (red_surface_cmd_new qxl slots gid addr)
    (fun _ => []) (surface_ok slots gid).
Proof.
  intros Hwf Hg.
  apply (constructs_spec _ _ _ qxl addr _ sc_res (fun _ => mret tt) _
           (fun r => resource_of slots gid qxl addr r.1 (sc_res r.2) /\
                     (r.1 = true -> surface_ok slots gid r.2))).
  - by apply spec_get_surface_cmd.
  - intros a _. by apply spec_ret.
  - by intros r [? _].
  - intros a [_ H]. by apply H.
Qed.

(** A 4x4 surface of 32-bit pixels with a negative stride. *)
Definition surface_mem : GuestMem := still
  [stores QXLSurfaceCmd_surface_id 0x4000 5; stores QXLSurfaceCmd_u_surface_create_format 0x4000 32;
   stores QXLSurfaceCmd_u_surface_create_width 0x4000 4;
   stores QXLSurfaceCmd_u_surface_create_height 0x4000 4;
   stores QXLSurfaceCmd_u_surface_create_stride 0x4000 (2 ^ 32 - 16);
   stores QXLSurfaceCmd_u_surface_create_data 0x4000 0x5000].

Lemma surface_cmd_safe_witness :
  constructs (gm := surface_mem) demo_slots 0 no_fault
    (red_surface_cmd_new (gm := surface_mem) 1 demo_slots 0 0x4000)
    (fun _ => []) (surface_ok demo_slots 0) /\
  match red_surface_cmd_new (gm := surface_mem) 1 demo_slots 0 0x4000 start with
  | Ok (Some c) s => su_stride (sc_create c) = -16 /\ su_data (sc_create c) = 0x5000
  | _ => False
  end.
Proof.
  split; [apply surface_cmd_safe; [exact demo_slots_wf|lia]|]. vm_compute. done.
Defined.

(** C23: cursors.  [red_cursor_cmd_new] never faults, even with a racing guest,
    and the block of an accepted shape holds at least the [data_size] bytes that
    the cursor channel later sends. *)
Theorem cursor_cmd_safe `{!AbiOk abi} {gm : GuestMem} slots gid qxl addr :
  slots_wf slots -> - 2 ^ 31 <= gid < 2 ^ 31 ->
  constructs slots gid no_fault (red_cursor_cmd_new qxl slots gid addr)
    (fun c => own_cursor (cc_u c))
    (fun c => cursor_cmd_ok c /\ forall p vis sh, cc_u c = CurSet p vis sh -> cursor_ok sh).
Proof.
  intros Hwf Hg.
  apply (constructs_spec _ _ _ qxl addr _ cc_res destroy_RedCursorCmd (fun c => own_cursor (cc_u c))
           (fun r => resource_of slots gid qxl addr r.1 (cc_res r.2) /\ cursor_cmd_ok r.2 /\
              (r.1 = true -> forall p vis sh, cc_u r.2 = CurSet p vis sh -> cursor_ok sh))).
  - by apply spec_get_cursor_cmd.
  - intros a (_ & Hc & _). by apply spec_destroy_cursor_cmd.
  - by intros r [? _].
  - intros a (_ & Hc & H). split; [done|]. by apply H.
Qed.

(** A shape of two chunks, whose header promises more than they hold. *)
Definition cursor_mem : GuestMem := still
  [stores QXLCursorCmd_type 0x4000 0; stores QXLCursorCmd_u_set_shape 0x4000 0x2000;
   stores QXLCursor_data_size 0x2000 50;
   stores QXLDataChunk_data_size (0x2000 + moff QXLCursor_chunk) 2;
   stores QXLDataChunk_next_chunk (0x2000 + moff QXLCursor_chunk) 0x3000;
   (0x2000 + moff QXLCursor_chunk + 20, 2, 0x0201);
   stores QXLDataChunk_data_size 0x3000 1; (0x3014, 1, 3)].

Lemma cursor_cmd_safe_witness :
  constructs (gm := cursor_mem) demo_slots 0 no_fault
    (red_cursor_cmd_new (gm := cursor_mem) 1 demo_slots 0 0x4000)
    (fun c => own_cursor (cc_u c))
    (fun c => cursor_cmd_ok c /\ forall p vis sh, cc_u c = CurSet p vis sh -> cursor_ok sh) /\
  match red_cursor_cmd_new (gm := cursor_mem) 1 demo_slots 0 0x4000 start with
  | Ok (Some (mkRedCursorCmd _ _ (CurSet _ _ sh))) _ => cu_data_size sh = 3 /\ cu_bytes sh = [1; 2; 3]
  | _ => False
  end.
Proof.
  split; [apply cursor_cmd_safe; [exact demo_slots_wf|lia]|]. vm_compute. done.
Defined.

(** messages.  As long as the address of the text has a valid slot number,
    [red_message_new] never faults, reads only inside a slot, and an accepted
    message is a string that ends inside that slot, shorter than 100000. *)
Theorem message_safe `{!AbiOk abi} {gm : GuestMem} slots gid qxl addr :
  slots_wf slots -> - 2 ^ 31 <= gid < 2 ^ 31 ->
  slot_id_ok slots (memslot_get_id slots (u64 (addr + sizeof QXLMessage))) ->
  toff QXLMessage_data = sizeof QXLMessage ->
  constructs slots gid no_fault (red_message_new qxl slots gid addr) (fun _ => [])
    (fun m => 0 <= ms_len m < 100000 /\ guest_ok slots gid (ms_data m) (ms_len m + 1)).
Proof.
  intros Hwf Hg Hid Ht.
  apply (constructs_spec _ _ _ qxl addr _ ms_res (fun _ => mret tt) _
           (fun r => resource_of slots gid qxl addr r.1 (ms_res r.2) /\
              (r.1 = true -> 0 <= ms_len r.2 < 100000 /\
                             guest_ok slots gid (ms_data r.2) (ms_len r.2 + 1)))).
  - by apply spec_get_message.
  - intros a _. by apply spec_ret.
  - by intros r [? _].
  - intros a [_ H]. by apply H.
Qed.

Definition message_mem : GuestMem := still [(0x4008, 3, 0x6f6c6c)].

Lemma message_safe_witness :
  constructs (gm := message_mem) demo_slots 0 no_fault
    (red_message_new (gm := message_mem) 1 demo_slots 0 0x4000) (fun _ => [])
    (fun m => 0 <= ms_len m < 100000 /\ guest_ok demo_slots 0 (ms_data m) (ms_len m + 1)) /\
  match red_message_new (gm := message_mem) 1 demo_slots 0 0x4000 start with
  | Ok (Some m) _ => ms_len m = 3
  | _ => False
  end.
Proof.
  split; [apply message_safe; [exact demo_slots_wf|lia|vm_compute; done|done]|]. vm_compute. done.
Defined.

(** A slot at the end of the guest's address space: clean addresses up to
    [2^48 - 1], shifted down to host memory. *)
Definition high_slots : RedMemSlotInfo :=
  {| mem_slots := [[mkMemSlot 0 0x1000 0x2000 (u64 (0x2000 - 2 ^ 48))]];
     num_memslots_groups := 1; num_memslots := 1;
     mem_slot_bits := 8; generation_bits := 8; memslot_id_shift := 56; memslot_gen_shift := 48;
     internal_groupslot_id := 0; memslot_gen_mask := 255; memslot_clean_virt_mask := 2 ^ 48 - 1 |}.

