(* ===== verification/CharDevice.v ===== *)
(** * Character devices (char-device.cpp)

    [RedCharDevice] moves messages between a device of the VM and the clients,
    with flow control by tokens.  A client pays a token for every buffer it
    writes to the device and gets it back when the device has consumed the
    buffer; the server pays its own tokens; and a message read from the device
    is sent to a client only against a token of the client.

    The virtual methods of the class and the interface of the device
    ([sif->write]) are the parameter [CharDeviceImpl]: functions on an
    environment [W] that also say which public operations they call back while
    they run ([call]).  Running such a call is itself a parameter of the
    operations, [rc], tied to the operations at the end of the file by a bound
    on the depth of the nesting, so that re-entrance is part of the model.

    Write buffers are values with an identity; [held] are the ones that callers
    have taken and neither queued nor released, and [freed] the ones whose
    memory was given back.  Queues are listed from the oldest entry. *)

From stdpp Require Import base list numbers tactics option.
From Stdlib Require Import ZArith Lia.
From S2P Require Import Prelude.

Open Scope Z_scope.

Inductive WriteBufferOrigin :=
  | WRITE_BUFFER_ORIGIN_NONE | WRITE_BUFFER_ORIGIN_CLIENT
  | WRITE_BUFFER_ORIGIN_SERVER | WRITE_BUFFER_ORIGIN_SERVER_NO_TOKEN.

#[export] Instance WriteBufferOrigin_eq_dec : EqDecision WriteBufferOrigin.
Proof. solve_decision. Defined.

(** RedCharDeviceWriteBuffer and its private part; [wb_data] are the
    [buf_used] bytes in use. *)
Record wbuf := mkWbuf {
  wb_id : Z; wb_buf_size : Z; wb_data : list Z; wb_client : Z; wb_origin : WriteBufferOrigin;
  wb_token_price : Z; wb_refs : Z }.

(** RedCharDeviceClient; messages are numbers. *)
Record dclient := mkDClient {
  dc_client : Z; dc_flow : bool; dc_num_client_tokens : Z; dc_num_client_tokens_free : Z;
  dc_num_send_tokens : Z; dc_timer : bool; dc_wait_started : bool; dc_send_queue : list Z;
  dc_max_send_queue : Z }.

(** RedCharDevicePrivate, the buffers and the environment. *)
Record dev (W : Type) := mkDev {
  running : bool; active : bool; wait_for_migrate_data : bool;
  write_queue : list wbuf; cur_write_buf : option wbuf; cur_write_buf_pos : Z;
  write_timer : option bool; (** the timer, and whether it is armed *)
  num_self_tokens : Z; clients : list dclient; client_tokens_interval : Z; sin : bool;
  during_read : Z; during_write : Z;
  held : list wbuf; freed : list Z; next_id : Z; env : W }.
Arguments mkDev {W}.
Arguments running {W}.
Arguments active {W}.
Arguments wait_for_migrate_data {W}.
Arguments write_queue {W}.
Arguments cur_write_buf {W}.
Arguments cur_write_buf_pos {W}.
Arguments write_timer {W}.
Arguments num_self_tokens {W}.
Arguments clients {W}.
Arguments client_tokens_interval {W}.
Arguments sin {W}.
Arguments during_read {W}.
Arguments during_write {W}.
Arguments held {W}.
Arguments freed {W}.
Arguments next_id {W}.
Arguments env {W}.

(** Setters. *)
Definition set_dc_num_client_tokens (v : Z) (s : dclient) : dclient :=
  mkDClient (dc_client s) (dc_flow s) v (dc_num_client_tokens_free s) (dc_num_send_tokens s)
    (dc_timer s) (dc_wait_started s) (dc_send_queue s) (dc_max_send_queue s).
Definition set_dc_num_client_tokens_free (v : Z) (s : dclient) : dclient :=
  mkDClient (dc_client s) (dc_flow s) (dc_num_client_tokens s) v (dc_num_send_tokens s) (dc_timer
    s) (dc_wait_started s) (dc_send_queue s) (dc_max_send_queue s).
Definition set_dc_num_send_tokens (v : Z) (s : dclient) : dclient :=
  mkDClient (dc_client s) (dc_flow s) (dc_num_client_tokens s) (dc_num_client_tokens_free s) v
    (dc_timer s) (dc_wait_started s) (dc_send_queue s) (dc_max_send_queue s).
Definition set_dc_timer (v : bool) (s : dclient) : dclient :=
  mkDClient (dc_client s) (dc_flow s) (dc_num_client_tokens s) (dc_num_client_tokens_free s)
    (dc_num_send_tokens s) v (dc_wait_started s) (dc_send_queue s) (dc_max_send_queue s).
Definition set_dc_wait_started (v : bool) (s : dclient) : dclient :=
  mkDClient (dc_client s) (dc_flow s) (dc_num_client_tokens s) (dc_num_client_tokens_free s)
    (dc_num_send_tokens s) (dc_timer s) v (dc_send_queue s) (dc_max_send_queue s).
Definition set_dc_send_queue (v : list Z) (s : dclient) : dclient :=
  mkDClient (dc_client s) (dc_flow s) (dc_num_client_tokens s) (dc_num_client_tokens_free s)
    (dc_num_send_tokens s) (dc_timer s) (dc_wait_started s) v (dc_max_send_queue s).


Definition set_running {W} (v : bool) (s : dev W) : dev W :=
  mkDev v (active s) (wait_for_migrate_data s) (write_queue s) (cur_write_buf s)
    (cur_write_buf_pos s) (write_timer s) (num_self_tokens s) (clients s) (client_tokens_interval
    s) (sin s) (during_read s) (during_write s) (held s) (freed s) (next_id s) (env s).
Definition set_active {W} (v : bool) (s : dev W) : dev W :=
  mkDev (running s) v (wait_for_migrate_data s) (write_queue s) (cur_write_buf s)
    (cur_write_buf_pos s) (write_timer s) (num_self_tokens s) (clients s) (client_tokens_interval
    s) (sin s) (during_read s) (during_write s) (held s) (freed s) (next_id s) (env s).
Definition set_wait_for_migrate_data {W} (v : bool) (s : dev W) : dev W :=
  mkDev (running s) (active s) v (write_queue s) (cur_write_buf s) (cur_write_buf_pos s)
    (write_timer s) (num_self_tokens s) (clients s) (client_tokens_interval s) (sin s)
    (during_read s) (during_write s) (held s) (freed s) (next_id s) (env s).
Definition set_write_queue {W} (v : list wbuf) (s : dev W) : dev W :=
  mkDev (running s) (active s) (wait_for_migrate_data s) v (cur_write_buf s) (cur_write_buf_pos s)
    (write_timer s) (num_self_tokens s) (clients s) (client_tokens_interval s) (sin s)
    (during_read s) (during_write s) (held s) (freed s) (next_id s) (env s).
Definition set_cur_write_buf {W} (v : option wbuf) (s : dev W) : dev W :=
  mkDev (running s) (active s) (wait_for_migrate_data s) (write_queue s) v (cur_write_buf_pos s)
    (write_timer s) (num_self_tokens s) (clients s) (client_tokens_interval s) (sin s)
    (during_read s) (during_write s) (held s) (freed s) (next_id s) (env s).
Definition set_cur_write_buf_pos {W} (v : Z) (s : dev W) : dev W :=
  mkDev (running s) (active s) (wait_for_migrate_data s) (write_queue s) (cur_write_buf s) v
    (write_timer s) (num_self_tokens s) (clients s) (client_tokens_interval s) (sin s)
    (during_read s) (during_write s) (held s) (freed s) (next_id s) (env s).
Definition set_write_timer {W} (v : option bool) (s : dev W) : dev W :=
  mkDev (running s) (active s) (wait_for_migrate_data s) (write_queue s) (cur_write_buf s)
    (cur_write_buf_pos s) v (num_self_tokens s) (clients s) (client_tokens_interval s) (sin s)
    (during_read s) (during_write s) (held s) (freed s) (next_id s) (env s).
Definition set_num_self_tokens {W} (v : Z) (s : dev W) : dev W :=
  mkDev (running s) (active s) (wait_for_migrate_data s) (write_queue s) (cur_write_buf s)
    (cur_write_buf_pos s) (write_timer s) v (clients s) (client_tokens_interval s) (sin s)
    (during_read s) (during_write s) (held s) (freed s) (next_id s) (env s).
Definition set_clients {W} (v : list dclient) (s : dev W) : dev W :=
  mkDev (running s) (active s) (wait_for_migrate_data s) (write_queue s) (cur_write_buf s)
    (cur_write_buf_pos s) (write_timer s) (num_self_tokens s) v (client_tokens_interval s) (sin s)
    (during_read s) (during_write s) (held s) (freed s) (next_id s) (env s).
Definition set_sin {W} (v : bool) (s : dev W) : dev W :=
  mkDev (running s) (active s) (wait_for_migrate_data s) (write_queue s) (cur_write_buf s)
    (cur_write_buf_pos s) (write_timer s) (num_self_tokens s) (clients s) (client_tokens_interval
    s) v (during_read s) (during_write s) (held s) (freed s) (next_id s) (env s).
Definition set_during_read {W} (v : Z) (s : dev W) : dev W :=
  mkDev (running s) (active s) (wait_for_migrate_data s) (write_queue s) (cur_write_buf s)
    (cur_write_buf_pos s) (write_timer s) (num_self_tokens s) (clients s) (client_tokens_interval
    s) (sin s) v (during_write s) (held s) (freed s) (next_id s) (env s).
Definition set_during_write {W} (v : Z) (s : dev W) : dev W :=
  mkDev (running s) (active s) (wait_for_migrate_data s) (write_queue s) (cur_write_buf s)
    (cur_write_buf_pos s) (write_timer s) (num_self_tokens s) (clients s) (client_tokens_interval
    s) (sin s) (during_read s) v (held s) (freed s) (next_id s) (env s).
Definition set_held {W} (v : list wbuf) (s : dev W) : dev W :=
  mkDev (running s) (active s) (wait_for_migrate_data s) (write_queue s) (cur_write_buf s)
    (cur_write_buf_pos s) (write_timer s) (num_self_tokens s) (clients s) (client_tokens_interval
    s) (sin s) (during_read s) (during_write s) v (freed s) (next_id s) (env s).
Definition set_freed {W} (v : list Z) (s : dev W) : dev W :=
  mkDev (running s) (active s) (wait_for_migrate_data s) (write_queue s) (cur_write_buf s)
    (cur_write_buf_pos s) (write_timer s) (num_self_tokens s) (clients s) (client_tokens_interval
    s) (sin s) (during_read s) (during_write s) (held s) v (next_id s) (env s).
Definition set_next_id {W} (v : Z) (s : dev W) : dev W :=
  mkDev (running s) (active s) (wait_for_migrate_data s) (write_queue s) (cur_write_buf s)
    (cur_write_buf_pos s) (write_timer s) (num_self_tokens s) (clients s) (client_tokens_interval
    s) (sin s) (during_read s) (during_write s) (held s) (freed s) v (env s).
Definition set_env {W} (v : W) (s : dev W) : dev W :=
  mkDev (running s) (active s) (wait_for_migrate_data s) (write_queue s) (cur_write_buf s)
    (cur_write_buf_pos s) (write_timer s) (num_self_tokens s) (clients s) (client_tokens_interval
    s) (sin s) (during_read s) (during_write s) (held s) (freed s) (next_id s) v.


Definition set_wb_data (v : list Z) (b : wbuf) : wbuf :=
  mkWbuf (wb_id b) (wb_buf_size b) v (wb_client b) (wb_origin b) (wb_token_price b) (wb_refs b).
(** [origin = NONE; client = nullptr] *)
Definition set_wb_orphan (b : wbuf) : wbuf :=
  mkWbuf (wb_id b) (wb_buf_size b) (wb_data b) 0 WRITE_BUFFER_ORIGIN_NONE (wb_token_price b) (wb_refs b).
Definition set_wb_refs (v : Z) (b : wbuf) : wbuf :=
  mkWbuf (wb_id b) (wb_buf_size b) (wb_data b) (wb_client b) (wb_origin b) (wb_token_price b) v.

(** ** The interface of a concrete device *)

(** Public operations that a callback may call before it returns. *)
Inductive call :=
  | CWakeup
  | CStop
  | CTokens (client tokens : Z) (reset : bool).

Class CharDeviceImpl (W : Type) := {
  (** [sif->write]: the bytes offered, the number accepted *)
  sif_write : list Z -> W -> Z * list call * W;
  read_one_msg_from_device : W -> option Z * list call * W;
  send_msg_to_client : Z -> Z -> W -> unit * list call * W;
  send_tokens_to_client : Z -> Z -> W -> unit * list call * W;
  on_free_self_token : W -> unit * list call * W;
  remove_client : Z -> W -> unit * list call * W }.

(** What [spice/spice-char.h] documents of the device: a write takes no more
    than it is given, and the methods return to the caller without another
    public call ([quiet]). *)
Class CharDeviceQuiet {W} (impl : CharDeviceImpl W) : Prop := {
  quiet_write bs w : (sif_write bs w).1.2 = [];
  quiet_read w : (read_one_msg_from_device w).1.2 = [];
  quiet_send m c w : (send_msg_to_client m c w).1.2 = [];
  quiet_tokens c n w : (send_tokens_to_client c n w).1.2 = [];
  quiet_self w : (on_free_self_token w).1.2 = [];
  quiet_remove c w : (remove_client c w).1.2 = [] }.

Section chardev.
Context {W : Type} {impl : CharDeviceImpl W}.
Abbreviation Dev := (M (dev W)).

Definition find_dc (c : Z) (l : list dclient) : option dclient :=
  snd <$> list_find (fun d => dc_client d = c) l.

Definition red_char_device_client_find (s : dev W) (client : Z) : option dclient :=
  find_dc client (clients s).

(** [dev_client->... = ...] through the client's pointer. *)
Definition upd_dc (c : Z) (f : dclient -> dclient) (l : list dclient) : list dclient :=
  (fun d => if dc_client d =? c then f d else d) <$> l.
Definition upd_client (c : Z) (f : dclient -> dclient) : Dev unit :=
  modS (fun s => set_clients (upd_dc c f (clients s)) s).

Definition red_char_device_can_send_to_client (d : dclient) : bool :=
  negb (dc_flow d) || negb (dc_num_send_tokens d =? 0).

Fixpoint max_send_tokens_from (l : list dclient) (max : Z) : Z :=
  match l with
  | [] => max
  | d :: l' =>
      if negb (dc_flow d) then u64 (-1)
      else max_send_tokens_from l' (if max <? dc_num_send_tokens d then dc_num_send_tokens d else max)
  end.
Definition red_char_device_max_send_tokens (s : dev W) : Z := max_send_tokens_from (clients s) 0.

Definition red_char_device_write_buffer_free (b : wbuf) : Dev unit :=
  modS (fun s => set_freed (wb_id b :: freed s) s).

Definition red_char_device_write_buffer_unref (b : wbuf) : Dev unit :=
  if u32 (wb_refs b - 1) =? 0 then red_char_device_write_buffer_free b else mret tt.

(** A caller gives up a buffer it holds. *)
Definition drop_held (id : Z) : Dev unit :=
  modS (fun s => set_held (filter (fun b => wb_id b <> id) (held s)) s).

Section ops.
(** How the calls made by callbacks are run, and the bound on the loops. *)
Context (rc : call -> Dev unit) (fuel : nat).

Definition callback {A} (f : W -> A * list call * W) : Dev A :=
  s ← getS;
  let '(a, cs, w) := f (env s) in
  modS (set_env w);;
  iterM rc cs;;
  mret a.

(** ** Reading from the device *)

Definition red_char_device_handle_client_overflow (client : Z) : Dev unit :=
  callback (remove_client client).

Definition device_client_wait_for_tokens_timeout (client : Z) : Dev unit :=
  red_char_device_handle_client_overflow client.

Definition red_char_device_add_msg_to_client_queue (d : dclient) (msg : Z) : Dev unit :=
  if dc_max_send_queue d <=? Z.of_nat (length (dc_send_queue d))
  then red_char_device_handle_client_overflow (dc_client d)
  else
    upd_client (dc_client d) (fun d => set_dc_send_queue (dc_send_queue d ++ [msg]) d);;
    if negb (dc_wait_started d)
    then upd_client (dc_client d) (fun d => set_dc_wait_started true (set_dc_timer true d))
    else mret tt.

Definition send_msg_to_one (msg client : Z) : Dev unit :=
  s ← getS;
  match red_char_device_client_find s client with
  | None => undef UbNull
  | Some d =>
      if red_char_device_can_send_to_client d
      then
        upd_client client (fun d => set_dc_num_send_tokens (u64 (dc_num_send_tokens d - 1)) d);;
        spice_assert (bool_decide (dc_send_queue d = []));;
        callback (send_msg_to_client msg client)
      else red_char_device_add_msg_to_client_queue d msg
  end.

Definition red_char_device_send_msg_to_clients (msg : Z) : Dev unit :=
  s ← getS;
  iterM (send_msg_to_one msg) (dc_client <$> clients s).

(** The loop of [red_char_device_read_from_device]; the result is [did_read]. *)
Fixpoint read_loop (n : nat) (max_send_tokens : Z) (did_read : bool) : Dev bool :=
  match n with
  | O => undef UbFuel
  | S n' =>
      s ← getS;
      if negb ((negb (max_send_tokens =? 0) || bool_decide (clients s = [])) && running s)
      then mret did_read
      else
        msg ← callback read_one_msg_from_device;
        match msg with
        | None =>
            s ← getS;
            if 1 <? during_read s
            then modS (set_during_read 1);; read_loop n' max_send_tokens did_read
            else mret did_read
        | Some msg =>
            red_char_device_send_msg_to_clients msg;;
            read_loop n' (u64 (max_send_tokens - 1)) true
        end
  end.

Definition red_char_device_read_from_device : Dev bool :=
  s ← getS;
  if negb (running s) || wait_for_migrate_data s || negb (sin s) then mret false
  else
    modS (fun s => set_during_read (during_read s + 1) s);;
    if 0 <? during_read s then mret false
    else
      did_read ← read_loop fuel (red_char_device_max_send_tokens s) false;
      modS (set_during_read 0);;
      s ← getS;
      (if running s then modS (set_active (active s || did_read)) else mret tt);;
      mret did_read.

Fixpoint red_char_device_client_send_queue_push (n : nat) (client : Z) : Dev unit :=
  match n with
  | O => undef UbFuel
  | S n' =>
      s ← getS;
      match red_char_device_client_find s client with
      | None => undef UbNull
      | Some d =>
          match dc_send_queue d with
          | [] => mret tt
          | msg :: q =>
              if negb (red_char_device_can_send_to_client d) then mret tt
              else
                upd_client client (fun d =>
                  set_dc_num_send_tokens (u64 (dc_num_send_tokens d - 1)) (set_dc_send_queue q d));;
                callback (send_msg_to_client msg client);;
                red_char_device_client_send_queue_push n' client
          end
      end
  end.

Definition red_char_device_send_to_client_tokens_absorb (client tokens : Z) (reset : bool) : Dev unit :=
  s ← getS;
  match red_char_device_client_find s client with
  | None => abort   (** [spice_error] *)
  | Some d =>
      let old := if reset then 0 else dc_num_send_tokens d in
      let num := u64 (old + tokens) in
      upd_client client (set_dc_num_send_tokens num);;
      (if bool_decide (dc_send_queue d = []) then mret tt
       else
         spice_assert (num =? tokens);;
         red_char_device_client_send_queue_push fuel client);;
      s ← getS;
      match red_char_device_client_find s client with
      | None => undef UbNull
      | Some d =>
          if red_char_device_can_send_to_client d
          then
            upd_client client (fun d => set_dc_wait_started false (set_dc_timer false d));;
            red_char_device_read_from_device;;
            mret tt
          else if bool_decide (dc_send_queue d = []) then mret tt
          else upd_client client (fun d => set_dc_wait_started true (set_dc_timer true d))
      end
  end.

Definition send_to_client_tokens_add (client tokens : Z) : Dev unit :=
  red_char_device_send_to_client_tokens_absorb client tokens false.
Definition send_to_client_tokens_set (client tokens : Z) : Dev unit :=
  red_char_device_send_to_client_tokens_absorb client tokens true.

(** ** Writing to the device *)

Definition red_char_device_client_tokens_add (d : dclient) (num_tokens : Z) : Dev unit :=
  if negb (dc_flow d) then mret tt
  else
    s ← getS;
    let free := u64 (dc_num_client_tokens_free d + num_tokens) in
    if client_tokens_interval s <=? free
    then
      upd_client (dc_client d) (fun d =>
        set_dc_num_client_tokens (u64 (dc_num_client_tokens d + free))
          (set_dc_num_client_tokens_free 0 d));;
      callback (send_tokens_to_client (dc_client d) (u32 free))
    else upd_client (dc_client d) (set_dc_num_client_tokens_free free).

(** [write_buffer_release(this, &buf)], the caller's pointer having been
    cleared. *)
Definition write_buffer_release (write_buf : option wbuf) : Dev unit :=
  match write_buf with
  | None => mret tt
  | Some b =>
      s ← getS;
      spice_assert (negb (bool_decide (wb_id <$> cur_write_buf s = Some (wb_id b))));;
      red_char_device_write_buffer_unref b;;
      match wb_origin b with
      | WRITE_BUFFER_ORIGIN_CLIENT =>
          spice_assert (negb (wb_client b =? 0));;
          match red_char_device_client_find s (wb_client b) with
          | None => abort
          | Some d => red_char_device_client_tokens_add d (wb_token_price b)
          end
      | WRITE_BUFFER_ORIGIN_SERVER =>
          modS (fun s => set_num_self_tokens (u64 (num_self_tokens s + 1)) s);;
          callback on_free_self_token
      | _ => mret tt
      end
  end.

(** [write_buffer_release(&priv->cur_write_buf)] *)
Definition release_cur : Dev unit :=
  s ← getS;
  modS (set_cur_write_buf None);;
  write_buffer_release (cur_write_buf s).

(** The buffer to write: the current one, or the oldest of the queue. *)
Definition next_write_buf : Dev (option wbuf) :=
  s ← getS;
  match cur_write_buf s with
  | Some b => mret (Some b)
  | None =>
      match write_queue s with
      | [] => mret None
      | b :: q =>
          modS (fun s => set_cur_write_buf_pos 0 (set_cur_write_buf (Some b) (set_write_queue q s)));;
          mret (Some b)
      end
  end.

(** The loop of [write_to_device]; the result is [total]. *)
Fixpoint write_loop (n : nat) (total : Z) : Dev Z :=
  match n with
  | O => undef UbFuel
  | S n' =>
      s ← getS;
      if negb (running s) then mret total
      else
        b ← next_write_buf;
        match b with
        | None => mret total
        | Some b =>
            pos ← getsS cur_write_buf_pos;
            let write_len := u32 (Z.of_nat (length (wb_data b)) - pos) in
            k ← callback (sif_write (take (Z.to_nat write_len) (drop (Z.to_nat pos) (wb_data b))));
            if k <=? 0
            then
              s ← getS;
              if 1 <? during_write s
              then modS (set_during_write 1);; write_loop n' total
              else mret total
            else if u32 (write_len - k) =? 0
            then release_cur;; write_loop n' (total + k)
            else
              modS (fun s => set_cur_write_buf_pos (cur_write_buf_pos s + k) s);;
              write_loop n' (total + k)
        end
  end.

Definition cancel_write_timer : Dev unit :=
  modS (fun s => set_write_timer ((fun _ => false) <$> write_timer s) s).

Definition write_to_device : Dev Z :=
  s ← getS;
  if negb (running s) || wait_for_migrate_data s || negb (sin s) then mret 0
  else
    modS (fun s => set_during_write (during_write s + 1) s);;
    if 0 <? during_write s then mret 0
    else
      cancel_write_timer;;
      total ← write_loop fuel 0;
      s ← getS;
      (if running s
       then
         (if bool_decide (is_Some (cur_write_buf s))
          then modS (fun s => set_write_timer ((fun _ => true) <$> write_timer s) s)
          else spice_assert (bool_decide (write_queue s = [])));;
         modS (fun s => set_active (active s || negb (total =? 0)) s)
       else mret tt);;
      modS (set_during_write 0);;
      mret total.

Definition write_retry : Dev unit :=
  cancel_write_timer;; write_to_device;; mret tt.

(** [g_malloc(sizeof + size)]: a negative size gives a block smaller than the
    header that is then cleared. *)
Definition red_char_device_write_buffer_get (client size : Z) (origin : WriteBufferOrigin)
    (migrated_data_tokens : Z) : Dev (option wbuf) :=
  s ← getS;
  if bool_decide (origin = WRITE_BUFFER_ORIGIN_SERVER) && (num_self_tokens s =? 0) then mret None
  else if s32 size <? 0 then undef UbHostOob
  else
    let id := next_id s in
    let price := if migrated_data_tokens =? 0 then 1 else u32 migrated_data_tokens in
    let ret c := mkWbuf id (s32 size) [] c origin price 1 in
    modS (set_next_id (id + 1));;
    match origin with
    | WRITE_BUFFER_ORIGIN_CLIENT =>
        spice_assert (negb (client =? 0));;
        match red_char_device_client_find s client with
        | None => red_char_device_write_buffer_free (ret client);; mret None
        | Some d =>
            if (migrated_data_tokens =? 0) && dc_flow d && (dc_num_client_tokens d =? 0)
            then
              red_char_device_handle_client_overflow client;;
              red_char_device_write_buffer_free (ret client);;
              mret None
            else
              (if (migrated_data_tokens =? 0) && dc_flow d
               then upd_client client (fun d =>
                      set_dc_num_client_tokens (u64 (dc_num_client_tokens d - 1)) d)
               else mret tt);;
              mret (Some (ret client))
        end
    | WRITE_BUFFER_ORIGIN_SERVER =>
        modS (fun s => set_num_self_tokens (u64 (num_self_tokens s - 1)) s);;
        mret (Some (ret 0))
    | _ => mret (Some (ret 0))
    end.

(** The buffer is in the caller's hands. *)
Definition hold (b : option wbuf) : Dev (option wbuf) :=
  match b with
  | Some wb => modS (fun s => set_held (wb :: held s) s);; mret b
  | None => mret b
  end.

Definition write_buffer_get_client (client size : Z) : Dev (option wbuf) :=
  spice_assert (negb (client =? 0));;
  b ← red_char_device_write_buffer_get client size WRITE_BUFFER_ORIGIN_CLIENT 0;
  hold b.

Definition write_buffer_get_server (size : Z) (use_token : bool) : Dev (option wbuf) :=
  let origin := if use_token then WRITE_BUFFER_ORIGIN_SERVER
                else WRITE_BUFFER_ORIGIN_SERVER_NO_TOKEN in
  b ← red_char_device_write_buffer_get 0 size origin 0;
  hold b.

(** The caller has filled the buffer. *)
Definition write_buffer_add (b : wbuf) : Dev unit :=
  drop_held (wb_id b);;
  s ← getS;
  if bool_decide (wb_origin b = WRITE_BUFFER_ORIGIN_CLIENT) &&
     bool_decide (red_char_device_client_find s (wb_client b) = None)
  then red_char_device_write_buffer_unref b
  else
    modS (fun s => set_write_queue (write_queue s ++ [b]) s);;
    write_to_device;;
    mret tt.

(** [write_buffer_release] of a buffer the caller holds. *)
Definition write_buffer_release_held (b : wbuf) : Dev unit :=
  drop_held (wb_id b);; write_buffer_release (Some b).

(** ** State management *)

Definition client_matches (client : Z) (b : wbuf) : bool :=
  bool_decide (wb_origin b = WRITE_BUFFER_ORIGIN_CLIENT) && (wb_client b =? client).

(** [l] is the client's entry, found by the caller. *)
Definition red_char_device_client_free (client : Z) : Dev unit :=
  s ← getS;
  iterM red_char_device_write_buffer_unref (filter (fun b => client_matches client b) (write_queue s));;
  modS (fun s => set_write_queue (filter (fun b => negb (client_matches client b)) (write_queue s)) s);;
  modS (fun s => match cur_write_buf s with
                 | Some b => if client_matches client b
                             then set_cur_write_buf (Some (set_wb_orphan b)) s else s
                 | None => s
                 end);;
  modS (fun s => set_clients (filter (fun d => dc_client d <> client) (clients s)) s).

Definition init_device_instance (notify_writable : bool) : Dev unit :=
  modS (fun s => set_write_timer (if sin s then (if notify_writable then None else Some false)
                                  else None) s).

(** [reset_dev_instance(sin)]; [notify_writable] is the capability of the
    interface that makes the retry timer unnecessary. *)
Definition reset_dev_instance (s_in notify_writable : bool) : Dev unit :=
  modS (set_sin s_in);; init_device_instance notify_writable.

Definition new_RedCharDeviceClient (client : Z) (do_flow_control : bool)
    (max_send_queue_size num_client_tokens num_send_tokens : Z) : dclient :=
  if do_flow_control
  then mkDClient client true num_client_tokens 0 num_send_tokens false false [] max_send_queue_size
  else mkDClient client false (u64 (-1)) 0 (u64 (-1)) false false [] max_send_queue_size.

Definition wakeup : Dev unit :=
  write_to_device;; red_char_device_read_from_device;; mret tt.

Definition client_add (client : Z) (do_flow_control : bool)
    (max_send_queue_size num_client_tokens num_send_tokens : Z) (wait_mig : bool) : Dev bool :=
  spice_assert (negb (client =? 0));;
  s ← getS;
  if wait_mig && (negb (bool_decide (clients s = [])) || active s) then mret false
  else
    modS (set_wait_for_migrate_data wait_mig);;
    modS (fun s => set_clients (new_RedCharDeviceClient client do_flow_control max_send_queue_size
                                  num_client_tokens num_send_tokens :: clients s) s);;
    wakeup;;
    mret true.

Definition client_remove (client : Z) : Dev unit :=
  s ← getS;
  match red_char_device_client_find s client with
  | None => abort  (** [spice_error] *)
  | Some _ =>
      red_char_device_client_free client;;
      s ← getS;
      if wait_for_migrate_data s
      then
        spice_assert (bool_decide (clients s = []));;
        modS (set_wait_for_migrate_data false);;
        red_char_device_read_from_device;;
        mret tt
      else mret tt
  end.

Definition client_exists (s : dev W) (client : Z) : bool :=
  bool_decide (is_Some (red_char_device_client_find s client)).

(** [while (write_to_device() || read_from_device());] *)
Fixpoint start_loop (n : nat) : Dev unit :=
  match n with
  | O => undef UbFuel
  | S n' =>
      total ← write_to_device;
      if negb (total =? 0) then start_loop n'
      else
        did_read ← red_char_device_read_from_device;
        if (did_read : bool) then start_loop n' else mret tt
  end.

Definition start : Dev unit := modS (set_running true);; start_loop fuel.

Definition stop : Dev unit :=
  modS (set_running false);; modS (set_active false);; cancel_write_timer.

(** [while ((buf = g_queue_pop_tail(...))) write_buffer_release(&buf);] *)
Fixpoint reset_queue (n : nat) : Dev unit :=
  match n with
  | O => undef UbFuel
  | S n' =>
      s ← getS;
      match write_queue s with
      | [] => mret tt
      | b :: q => modS (set_write_queue q);; write_buffer_release (Some b);; reset_queue n'
      end
  end.

Definition reset_dc (d : dclient) : dclient :=
  let d := set_dc_num_send_tokens
             (u64 (dc_num_send_tokens d + Z.of_nat (length (dc_send_queue d)))) d in
  let d := set_dc_send_queue [] d in
  set_dc_num_client_tokens_free 0
    (set_dc_num_client_tokens (u64 (dc_num_client_tokens d + dc_num_client_tokens_free d)) d).

Definition reset : Dev unit :=
  modS (set_wait_for_migrate_data false);;
  reset_queue fuel;;
  release_cur;;
  modS (fun s => set_clients (reset_dc <$> clients s) s).
End ops.

(** The state of a device at its end: everything freed. *)
Fixpoint free_clients (n : nat) : Dev unit :=
  match n with
  | O => mret tt
  | S n' =>
      s ← getS;
      match clients s with
      | [] => mret tt
      | d :: _ => red_char_device_client_free (dc_client d);; free_clients n'
      end
  end.

(** RedCharDevice::~RedCharDevice.  One round per client. *)
Definition delete_RedCharDevice : Dev unit :=
  modS (set_write_timer None);;
  s ← getS;
  iterM red_char_device_write_buffer_free (reverse (write_queue s));;
  modS (set_write_queue []);;
  (match cur_write_buf s with
   | Some b => red_char_device_write_buffer_free b
   | None => mret tt
   end);;
  modS (set_cur_write_buf None);;
  free_clients (length (clients s));;
  modS (set_running false).

(** RedCharDevice::RedCharDevice *)
Definition new_RedCharDevice (w : W) (s_in notify_writable : bool)
    (client_tokens_interval num_self_tokens : Z) : dev W :=
  mkDev false false false [] None 0
    (if s_in then (if notify_writable then None else Some false) else None)
    num_self_tokens [] client_tokens_interval s_in 0 0 [] [] 1 w.

(** ** Migration *)

Definition SPICE_MIGRATE_DATA_CHAR_DEVICE_VERSION : Z := 1.

(** SpiceMigrateDataCharDevice, with the bytes [write_data_ptr] points to. *)
Record mig_data := mkMigData {
  mg_version : Z; mg_connected : bool; mg_num_client_tokens : Z; mg_num_send_tokens : Z;
  mg_write_size : Z; mg_write_num_client_tokens : Z; mg_write_data : list Z }.

Definition migrate_data_marshall_empty : mig_data :=
  mkMigData SPICE_MIGRATE_DATA_CHAR_DEVICE_VERSION false 0 0 0 0 [].

(** A reference of the marshaller on a queued buffer. *)
Definition red_char_device_write_buffer_ref (b : wbuf) : wbuf := set_wb_refs (u32 (wb_refs b + 1)) b.

(** One buffer: the size and the tokens so far, and the bytes. *)
Definition marshall_buf (client : Z) (b : wbuf) (rest : list Z) (acc : Z * Z * list Z)
    : Dev (Z * Z * list Z) :=
  let '(size, tokens, bytes) := acc in
  let size := u32 (size + Z.of_nat (length rest)) in
  if bool_decide (wb_origin b = WRITE_BUFFER_ORIGIN_CLIENT)
  then
    spice_assert (wb_client b =? client);;
    mret (size, u32 (tokens + wb_token_price b), bytes ++ rest)
  else mret (size, tokens, bytes ++ rest).

Fixpoint marshall_bufs (client : Z) (l : list wbuf) (acc : Z * Z * list Z) : Dev (Z * Z * list Z) :=
  match l with
  | [] => mret acc
  | b :: l' => acc ← marshall_buf client b (wb_data b) acc; marshall_bufs client l' acc
  end.

Definition migrate_data_marshall : Dev mig_data :=
  s ← getS;
  match clients s with
  | [d] =>
      spice_assert (bool_decide (dc_send_queue d = []));;
      acc ← (match cur_write_buf s with
             | Some b => marshall_buf (dc_client d) b
                           (drop (Z.to_nat (cur_write_buf_pos s)) (wb_data b)) (0, 0, [])
             | None => mret (0, 0, [])
             end);
      '(size, tokens, bytes) ← marshall_bufs (dc_client d) (write_queue s) acc;
      modS (fun s => set_write_queue (red_char_device_write_buffer_ref <$> write_queue s)
                       (set_cur_write_buf (red_char_device_write_buffer_ref <$> cur_write_buf s) s));;
      mret (mkMigData SPICE_MIGRATE_DATA_CHAR_DEVICE_VERSION true
              (u32 (dc_num_client_tokens d)) (u32 (dc_num_send_tokens d)) size tokens bytes)
  | _ => abort
  end.

Section restore.
Context (rc : call -> Dev unit) (fuel : nat).

Definition restore (m : mig_data) : Dev bool :=
  s ← getS;
  match clients s with
  | [d] =>
      spice_assert (wait_for_migrate_data s);;
      if SPICE_MIGRATE_DATA_CHAR_DEVICE_VERSION <? mg_version m then abort  (** [spice_error] *)
      else
        spice_assert (bool_decide (cur_write_buf s = None) && bool_decide (write_queue s = []));;
        spice_assert (mg_connected m);;
        let client_tokens_window := u32 (dc_num_client_tokens d) in
        upd_client (dc_client d) (fun d =>
          set_dc_num_send_tokens (mg_num_send_tokens m)
            (set_dc_num_client_tokens_free
               (u32 (client_tokens_window - mg_num_client_tokens m - mg_write_num_client_tokens m))
               (set_dc_num_client_tokens (mg_num_client_tokens m) d)));;
        (if 0 <? mg_write_size m
         then
           b ← (if negb (mg_write_num_client_tokens m =? 0)
                then red_char_device_write_buffer_get rc (dc_client d) (mg_write_size m)
                       WRITE_BUFFER_ORIGIN_CLIENT (mg_write_num_client_tokens m)
                else red_char_device_write_buffer_get rc 0 (mg_write_size m)
                       WRITE_BUFFER_ORIGIN_SERVER 0);
           match b with
           | None => undef UbNull
           | Some b =>
               if Z.of_nat (length (mg_write_data m)) <? mg_write_size m then undef UbHostOob
               else
                 let b := set_wb_data (take (Z.to_nat (mg_write_size m)) (mg_write_data m)) b in
                 modS (fun s => set_cur_write_buf_pos 0 (set_cur_write_buf (Some b) s))
           end
         else mret tt);;
        modS (set_wait_for_migrate_data false);;
        write_to_device rc fuel;;
        red_char_device_read_from_device rc fuel;;
        mret true
  | _ => abort
  end.
End restore.

(** ** Re-entrance *)

Definition run_call_body (rc : call -> Dev unit) (fuel : nat) (c : call) : Dev unit :=
  match c with
  | CWakeup => wakeup rc fuel
  | CStop => stop
  | CTokens client tokens reset =>
      red_char_device_send_to_client_tokens_absorb rc fuel client tokens reset
  end.

(** Calls nested at most [depth] deep. *)
Fixpoint run_call (depth fuel : nat) (c : call) : Dev unit :=
  match depth with
  | O => undef UbFuel
  | S depth' => run_call_body (run_call depth' fuel) fuel c
  end.
End chardev.
