(* ===== verification/CharDeviceThms.v ===== *)
(** * Flow control of character devices: what it guarantees

    Conservation of tokens holds for every implementation of the device's
    methods, re-entrant calls included.  The statements about the bytes written
    and about the assertions of the code are for methods that do not call back
    ([CharDeviceQuiet]). *)

From Stdlib Require Import ZArith Lia.
From stdpp Require Import base sets list list_tactics numbers tactics option.
From S2P Require Import Prelude CharDevice.

Open Scope Z_scope.

(** ** Tokens *)

(** What client [c] has in the buffers [l], and the server's own buffers. *)
Definition price (c : Z) (l : list wbuf) : Z :=
  foldr (fun b n => (if client_matches c b then wb_token_price b else 0) + n) 0 l.
Definition servers (l : list wbuf) : Z :=
  foldr (fun b n => (if bool_decide (wb_origin b = WRITE_BUFFER_ORIGIN_SERVER) then 1 else 0) + n) 0 l.

(** All the buffers: in the hands of callers, being written, queued. *)
Definition outstanding {W} (s : dev W) : list wbuf :=
  held s ++ option_list (cur_write_buf s) ++ write_queue s.

(** The account of a client: its tokens, the ones waiting to be returned, and
    the ones its buffers are worth, add up to its window. *)
Definition account_ok (win : Z -> Z) (out : list wbuf) (d : dclient) : Prop :=
  dc_flow d = true ->
  0 <= dc_num_client_tokens d /\ 0 <= dc_num_client_tokens_free d /\
  dc_num_client_tokens d + dc_num_client_tokens_free d + price (dc_client d) out
    = win (dc_client d).

Record accounts (win : Z -> Z) (selfw : Z) (cs : list dclient) (out : list wbuf) (next self : Z)
    : Prop := {
  ac_clients : NoDup (dc_client <$> cs);
  ac_ids : NoDup (wb_id <$> out);
  ac_fresh : Forall (fun b => wb_id b < next) out;
  ac_price : Forall (fun b => 0 < wb_token_price b < 2 ^ 32) out;
  ac_tokens : Forall (account_ok win out) cs;
  ac_self : 0 <= self /\ self + servers out = selfw }.

Definition tokens_ok {W} (win : Z -> Z) (selfw : Z) (s : dev W) : Prop :=
  accounts win selfw (clients s) (outstanding s) (next_id s) (num_self_tokens s).

Lemma price_app c l l' : price c (l ++ l') = price c l + price c l'.
Proof. induction l; simpl; lia. Qed.
Lemma servers_app l l' : servers (l ++ l') = servers l + servers l'.
Proof. induction l; simpl; lia. Qed.
#[global] Instance price_perm c : Proper ((≡ₚ) ==> (=)) (price c).
Proof. induction 1; simpl; lia. Qed.
#[global] Instance servers_perm : Proper ((≡ₚ) ==> (=)) servers.
Proof. induction 1; simpl; lia. Qed.

Lemma price_nonneg c l : Forall (fun b => 0 < wb_token_price b < 2 ^ 32) l -> 0 <= price c l.
Proof. induction 1; simpl; [lia|]. case_match; lia. Qed.
Lemma servers_nonneg l : 0 <= servers l.
Proof. induction l; simpl; [lia|]. case_match; lia. Qed.

Lemma accounts_perm win selfw cs out out' next self :
  out ≡ₚ out' -> accounts win selfw cs out next self -> accounts win selfw cs out' next self.
Proof.
  intros HP [H1 H2 H3 H4 H5 H6]. split; try done; try (by rewrite <- HP).
  eapply Forall_impl; [|exact H5]. intros d Hd Hf. rewrite <- HP. by apply Hd.
Qed.

(** An update of one client. *)
Lemma upd_dc_ids c f cs :
  (forall d, dc_client (f d) = dc_client d) -> dc_client <$> upd_dc c f cs = dc_client <$> cs.
Proof.
  intros Hf. unfold upd_dc. rewrite <- list_fmap_compose. apply list_fmap_ext. intros i d _. simpl.
  by case_match.
Qed.

Lemma accounts_upd win selfw cs out out' next next' self self' c f :
  accounts win selfw cs out next self ->
  (forall d, dc_client (f d) = dc_client d) ->
  NoDup (wb_id <$> out') -> Forall (fun b => wb_id b < next') out' ->
  Forall (fun b => 0 < wb_token_price b < 2 ^ 32) out' ->
  0 <= self' -> self' + servers out' = selfw ->
  (forall d, d ∈ cs -> dc_client d <> c -> price (dc_client d) out' = price (dc_client d) out) ->
  (forall d, d ∈ cs -> dc_client d = c -> account_ok win out d -> account_ok win out' (f d)) ->
  accounts win selfw (upd_dc c f cs) out' next' self'.
Proof.
  intros [H1 H2 H3 H4 H5 H6] Hid Hi Hn Hp Hs1 Hs2 Hother Hc. split; try done.
  - by rewrite upd_dc_ids.
  - unfold upd_dc. apply Forall_fmap, Forall_lookup. intros i d Hd.
    pose proof (Forall_lookup_1 _ _ _ _ H5 Hd) as Ha. apply list_elem_of_lookup_2 in Hd.
    simpl. destruct (Z.eqb_spec (dc_client d) c); [by apply Hc|].
    intros Hf. rewrite Hother by done. by apply Ha.
Qed.

(** An update that does not touch the account. *)
Definition same_account (f : dclient -> dclient) : Prop :=
  forall d, dc_client (f d) = dc_client d /\ dc_flow (f d) = dc_flow d /\
    dc_num_client_tokens (f d) = dc_num_client_tokens d /\
    dc_num_client_tokens_free (f d) = dc_num_client_tokens_free d.

Lemma accounts_upd_same win selfw cs out next self c f :
  accounts win selfw cs out next self -> same_account f ->
  accounts win selfw (upd_dc c f cs) out next self.
Proof.
  intros Ha Hf. pose proof Ha as [H1 H2 H3 H4 H5 [H6 H7]].
  eapply accounts_upd; eauto; [intros d; by destruct (Hf d)|].
  intros d _ _ Hd. unfold account_ok. destruct (Hf d) as (-> & -> & -> & ->). done.
Qed.

Lemma find_dc_some c cs d : find_dc c cs = Some d -> d ∈ cs /\ dc_client d = c.
Proof.
  unfold find_dc. intros H. apply fmap_Some in H as ([i x] & Hx & ->).
  apply list_find_Some in Hx as (Hl & ? & _). split; [by eapply list_elem_of_lookup_2|done].
Qed.

Lemma NoDup_client cs d d' :
  NoDup (dc_client <$> cs) -> d ∈ cs -> d' ∈ cs -> dc_client d = dc_client d' -> d = d'.
Proof.
  intros Hn Hd Hd' He. apply list_elem_of_lookup in Hd as [i Hi]. apply list_elem_of_lookup in Hd' as [j Hj].
  assert (i = j) as ->; [|congruence]. eapply NoDup_lookup; [exact Hn| |];
    rewrite list_lookup_fmap; [by rewrite Hi|by rewrite Hj, He].
Qed.

Lemma find_dc_none c cs : find_dc c cs = None -> c ∉ dc_client <$> cs.
Proof.
  unfold find_dc. intros H. apply fmap_None in H. rewrite list_find_None in H.
  intros Hin. apply list_elem_of_fmap in Hin as (d & -> & Hd).
  apply list_elem_of_lookup in Hd as [i Hi]. by apply (Forall_lookup_1 _ _ _ _ H Hi).
Qed.

Lemma filter_id {A} (P : A -> Prop) `{!forall x, Decision (P x)} (l : list A) :
  (forall x, x ∈ l -> P x) -> filter P l = l.
Proof.
  induction l as [|x l IH]; intros Hl; [done|]. rewrite filter_cons_True by (apply Hl; set_solver).
  f_equal. apply IH. set_solver.
Qed.

Lemma filter_Forall {A} (P Q : A -> Prop) `{!forall x, Decision (Q x)} (l : list A) :
  Forall P l -> Forall P (filter Q l).
Proof. induction 1 as [|x l ? ? IH]; [done|]. rewrite filter_cons. case_decide; auto. Qed.

(** The ways an operation may stop: a failed assertion, or a device that keeps
    the loops of the model busy beyond their bound. *)
Definition stops (k : option ub_kind) : Prop := k = None \/ k = Some UbFuel.

Section tokens.
Context {W : Type} {impl : CharDeviceImpl W}.
Context (win : Z -> Z) (selfw : Z) (Hwin : forall c, win c < 2 ^ 64) (Hselfw : selfw < 2 ^ 64).
Context (ids : list Z).

(** The accounts balance, and the clients are those of [ids]. *)
Definition balanced (s : dev W) : Prop :=
  tokens_ok win selfw s /\ dc_client <$> clients s = ids.
#[local] Abbreviation keeps := (keeps balanced stops).
#[local] Abbreviation wpI m s := (wp m (fun _ s' => balanced s') (fun k _ => stops k) s).

(** Buffer [b] has just been taken out of the queues. *)
Definition balanced_with (b : wbuf) (s : dev W) : Prop :=
  accounts win selfw (clients s) (b :: outstanding s) (next_id s) (num_self_tokens s) /\
  dc_client <$> clients s = ids.

Lemma keeps_fuel {A} : keeps (undef (A := A) UbFuel).
Proof. apply keeps_undef. by right. Qed.
Lemma keeps_stop {A} : keeps (abort (A := A)).
Proof. apply keeps_abort. by left. Qed.
Lemma keeps_check b : keeps (spice_assert b).
Proof. apply keeps_assert. by left. Qed.

Lemma balanced_upd_same s c f :
  balanced s -> same_account f -> balanced (set_clients (upd_dc c f (clients s)) s).
Proof.
  intros [Ht Hi] Hf. split.
  - by apply accounts_upd_same.
  - simpl. rewrite upd_dc_ids; [done|]. intros d. by destruct (Hf d).
Qed.

Lemma keeps_upd_same c f : same_account f -> keeps (upd_client c f).
Proof. intros Hf. apply keeps_mod. intros s Hs. by apply balanced_upd_same. Qed.

Section with_rc.
Context (rc : call -> M (dev W) unit) (Hrc : forall c, keeps (rc c)) (fuel : nat).

Lemma keeps_callback {A} (f : W -> A * list call * W) : keeps (callback rc f).
Proof.
  intros s Hs. unfold callback. apply wp_getS. destruct (f (env s)) as [[a cs] w]. apply wp_modS.
  apply wp_keeps_bind; [by apply keeps_iter|done|]. intros _. apply keeps_ret.
Qed.

Lemma keeps_add_msg d msg : keeps (red_char_device_add_msg_to_client_queue rc d msg).
Proof.
  unfold red_char_device_add_msg_to_client_queue. case_if; [apply keeps_callback|].
  apply keeps_bind; [by apply keeps_upd_same|]. intros _.
  case_if; [by apply keeps_upd_same|apply keeps_ret].
Qed.

Lemma keeps_send_one msg c : c ∈ ids -> keeps (send_msg_to_one rc msg c).
Proof.
  intros Hc s Hs. unfold send_msg_to_one. apply wp_getS.
  destruct (red_char_device_client_find s c) as [d|] eqn:Hf.
  2: { exfalso. apply find_dc_none in Hf. by rewrite (proj2 Hs) in Hf. }
  case_if; [|by apply keeps_add_msg].
  apply wp_keeps_bind; [by apply keeps_upd_same|done|]. intros _.
  apply keeps_bind; [apply keeps_check|]. intros _. apply keeps_callback.
Qed.

Lemma keeps_send_msg msg : keeps (red_char_device_send_msg_to_clients rc msg).
Proof.
  intros s Hs. unfold red_char_device_send_msg_to_clients. apply wp_getS. rewrite (proj2 Hs).
  assert (forall l, (forall c, c ∈ l -> c ∈ ids) -> keeps (iterM (send_msg_to_one rc msg) l)) as Hl.
  { induction l as [|c l IH]; intros Hin; [apply keeps_ret|].
    apply keeps_bind; [apply keeps_send_one; set_solver|]. intros _. apply IH. set_solver. }
  by apply Hl.
Qed.

Lemma keeps_read_loop n max did : keeps (read_loop rc n max did).
Proof.
  revert max did. induction n as [|n IH]; intros max did; [apply keeps_fuel|].
  intros s Hs. cbn [read_loop]. apply wp_getS. case_if; [done|].
  apply wp_keeps_bind; [apply keeps_callback|done|]. intros [msg|].
  - apply keeps_bind; [apply keeps_send_msg|]. intros _. apply IH.
  - intros s' Hs'. apply wp_getS. case_if; [|done]. apply wp_modS. by apply IH.
Qed.

Lemma keeps_read : keeps (red_char_device_read_from_device rc fuel).
Proof.
  intros s Hs. unfold red_char_device_read_from_device. apply wp_getS. case_if; [done|].
  apply wp_modS. case_if; [done|]. apply wp_keeps_bind; [apply keeps_read_loop|done|]. intros did.
  intros s' Hs'. apply wp_modS, wp_getS. apply wp_keeps_bind; [|done|intros; apply keeps_ret].
  case_if; [by apply keeps_mod|apply keeps_ret].
Qed.

Lemma keeps_queue_push n c : c ∈ ids -> keeps (red_char_device_client_send_queue_push rc n c).
Proof.
  intros Hc. induction n as [|n IH]; [apply keeps_fuel|]. intros s Hs.
  cbn [red_char_device_client_send_queue_push]. apply wp_getS.
  destruct (red_char_device_client_find s c) as [d|] eqn:Hf.
  2: { exfalso. apply find_dc_none in Hf. by rewrite (proj2 Hs) in Hf. }
  destruct (dc_send_queue d); [done|]. case_if; [done|].
  apply wp_keeps_bind; [by apply keeps_upd_same|done|]. intros _.
  apply keeps_bind; [apply keeps_callback|]. intros _. apply IH.
Qed.

Lemma keeps_absorb c t r : keeps (red_char_device_send_to_client_tokens_absorb rc fuel c t r).
Proof.
  intros s Hs. unfold red_char_device_send_to_client_tokens_absorb. apply wp_getS.
  destruct (red_char_device_client_find s c) as [d|] eqn:Hf; [|by left].
  assert (c ∈ ids) as Hc.
  { apply find_dc_some in Hf as [Hin <-]. rewrite <- (proj2 Hs). by apply list_elem_of_fmap_2. }
  apply wp_keeps_bind; [by apply keeps_upd_same|done|]. intros _.
  apply keeps_bind.
  { case_if; [apply keeps_ret|]. apply keeps_bind; [apply keeps_check|]. intros _. by apply keeps_queue_push. }
  intros ? s' Hs'. cbn beta in Hs'. apply wp_getS.
  destruct (red_char_device_client_find s' c) as [d'|] eqn:Hf'.
  2: { exfalso. apply find_dc_none in Hf'. by rewrite (proj2 Hs') in Hf'. }
  case_if.
  - apply wp_keeps_bind; [by apply keeps_upd_same|done|]. intros _.
    apply keeps_bind; [apply keeps_read|]. intros _. apply keeps_ret.
  - case_if; [done|]. by apply keeps_upd_same.
Qed.

(** *** Giving a buffer back *)

Lemma accounts_tail cs b out next self :
  accounts win selfw cs (b :: out) next self ->
  NoDup (wb_id <$> out) /\ Forall (fun b => wb_id b < next) out /\
  Forall (fun b => 0 < wb_token_price b < 2 ^ 32) out.
Proof.
  intros [H1 H2 H3 H4 H5 H6]. apply NoDup_cons_1_2 in H2.
  apply Forall_cons_1 in H3 as [_ H3]. by apply Forall_cons_1 in H4 as [_ H4].
Qed.

(** A buffer worth nothing to anybody may go. *)
Lemma balanced_drop b s :
  balanced_with b s -> wb_origin b <> WRITE_BUFFER_ORIGIN_SERVER ->
  (forall d, d ∈ clients s -> dc_flow d = true -> client_matches (dc_client d) b = false) ->
  balanced s.
Proof.
  intros [Ha Hi] Ho Hc. split; [|done]. pose proof (accounts_tail _ _ _ _ _ Ha) as (T1 & T2 & T3).
  destruct Ha as [H1 H2 H3 H4 H5 H6]. split; try done.
  - apply Forall_lookup. intros i d Hd. pose proof (Forall_lookup_1 _ _ _ _ H5 Hd) as Hacc.
    apply list_elem_of_lookup_2 in Hd. intros Hf. destruct (Hacc Hf) as (? & ? & Hsum).
    simpl in Hsum. rewrite (Hc d Hd Hf) in Hsum. lia.
  - simpl in H6. rewrite bool_decide_eq_false_2 in H6 by done. lia.
Qed.

(** The tokens of a client's buffer are credited to it. *)
Lemma balanced_credit b s d f :
  balanced_with b s -> wb_origin b = WRITE_BUFFER_ORIGIN_CLIENT ->
  find_dc (wb_client b) (clients s) = Some d -> dc_flow d = true ->
  (forall d, dc_client (f d) = dc_client d /\ dc_flow (f d) = dc_flow d) ->
  (0 <= dc_num_client_tokens (f d) /\ 0 <= dc_num_client_tokens_free (f d) /\
   dc_num_client_tokens (f d) + dc_num_client_tokens_free (f d) =
   dc_num_client_tokens d + dc_num_client_tokens_free d + wb_token_price b) ->
  balanced (set_clients (upd_dc (wb_client b) f (clients s)) s).
Proof.
  intros [Ha Hi] Ho Hf Hflow Hid Hsum. apply find_dc_some in Hf as [Hd Hdc].
  pose proof (accounts_tail _ _ _ _ _ Ha) as (T1 & T2 & T3). pose proof Ha as [H1 H2 H3 H4 H5 H6].
  simpl in H6. rewrite Ho in H6. rewrite bool_decide_eq_false_2 in H6 by done.
  split; [|simpl; rewrite upd_dc_ids; [done|]; intros d'; by destruct (Hid d')].
  change (accounts win selfw (upd_dc (wb_client b) f (clients s)) (outstanding s) (next_id s)
            (num_self_tokens s)).
  eapply accounts_upd; [exact Ha|..|exact T1|exact T2|exact T3| | | |]; [|lia|lia|..].
  - intros d'. by destruct (Hid d').
  - intros d' _ Hne. simpl. unfold client_matches. destruct (Z.eqb_spec (wb_client b) (dc_client d')); [congruence|].
    by rewrite andb_false_r.
  - intros d' Hd' He Hacc _. assert (d' = d) as -> by (eapply NoDup_client; eauto; congruence).
    destruct (Hid d) as [Hid1 Hid2]. destruct (Hacc Hflow) as (? & ? & Hs). rewrite Hid1.
    simpl in Hs. unfold client_matches in Hs. rewrite Ho, <- Hdc, Z.eqb_refl in Hs. simpl in Hs.
    split_and!; lia.
Qed.

Lemma wp_release_some b s : balanced_with b s -> wpI (write_buffer_release rc (Some b)) s.
Proof.
  intros Hb. unfold write_buffer_release. apply wp_getS, wp_bind, wp_assert; [intros _|by left].
  apply wp_bind. unfold red_char_device_write_buffer_unref.
  assert (forall s', clients s' = clients s -> balanced_with b s' ->
    wp (match wb_origin b with
        | WRITE_BUFFER_ORIGIN_CLIENT =>
            spice_assert (negb (wb_client b =? 0));;
            match red_char_device_client_find s (wb_client b) with
            | None => abort
            | Some d => red_char_device_client_tokens_add rc d (wb_token_price b)
            end
        | WRITE_BUFFER_ORIGIN_SERVER =>
            modS (fun s => set_num_self_tokens (u64 (num_self_tokens s + 1)) s);;
            callback rc on_free_self_token
        | _ => mret tt
        end) (fun _ s' => balanced s') (fun k _ => stops k) s') as Hgo.
  2: { case_if; [|by apply Hgo]. by apply (Hgo (set_freed (wb_id b :: freed s) s)). }
  intros s' Hcl Hb'. destruct (wb_origin b) eqn:Ho.
  - apply (balanced_drop b); [done|congruence|]. intros d _ _. unfold client_matches. by rewrite Ho.
  - apply wp_bind, wp_assert; [intros _|by left].
    destruct (red_char_device_client_find s (wb_client b)) as [d|] eqn:Hf; [|by left].
    unfold red_char_device_client_find in Hf. rewrite <- Hcl in Hf.
    unfold red_char_device_client_tokens_add. case_if; zbool.
    { apply (balanced_drop b); [done|congruence|]. intros d' Hd' Hfl. unfold client_matches.
      destruct (Z.eqb_spec (wb_client b) (dc_client d')) as [He|]; [|by rewrite andb_false_r].
      apply find_dc_some in Hf as [Hd Hdc]. exfalso.
      assert (d' = d) as -> by (eapply NoDup_client; [apply Hb'|done|done|congruence]). congruence. }
    pose proof (find_dc_some _ _ _ Hf) as [Hd Hdc]. destruct Hb' as [Ha Hi].
    apply list_elem_of_lookup in Hd as [i Hl].
    destruct (Forall_lookup_1 _ _ _ _ (ac_tokens _ _ _ _ _ _ Ha) Hl Eb) as (? & ? & Hsum).
    pose proof (price_nonneg (dc_client d) _ (ac_price _ _ _ _ _ _ Ha)) as Hp0.
    pose proof (Forall_cons_1 _ _ _ (ac_price _ _ _ _ _ _ Ha)) as [Hpb Hpt].
    pose proof (price_nonneg (dc_client d) _ Hpt) as Hp1. simpl in Hsum.
    unfold client_matches in Hsum. rewrite Ho, <- Hdc, Z.eqb_refl in Hsum. simpl in Hsum.
    pose proof (Hwin (dc_client d)). rewrite (u64_id (dc_num_client_tokens_free d + _)) by lia.
    apply wp_getS. case_if.
    + rewrite Hdc. apply wp_modS. apply keeps_callback.
      apply (balanced_credit b s' d); auto; [by split|]. simpl. rewrite u64_id by lia. lia.
    + rewrite Hdc. apply (balanced_credit b s' d); auto; [by split|]. simpl. lia.
  - apply wp_modS, keeps_callback. destruct Hb' as [Ha Hi]. split; [|done].
    pose proof (accounts_tail _ _ _ _ _ Ha) as (T1 & T2 & T3).
    destruct Ha as [H1 H2 H3 H4 H5 [H6 H7]]. simpl in H7. rewrite Ho in H7.
    rewrite bool_decide_eq_true_2 in H7 by done. pose proof (servers_nonneg (outstanding s')).
    split; try done.
    + apply Forall_lookup. intros i d Hd. pose proof (Forall_lookup_1 _ _ _ _ H5 Hd) as Hacc.
      intros Hf. destruct (Hacc Hf) as (? & ? & Hsum). simpl in Hsum. unfold client_matches in Hsum.
      rewrite Ho in Hsum. simpl in Hsum. split_and!; [lia..|]. exact Hsum.
    + simpl. rewrite u64_id by lia. change (outstanding (set_num_self_tokens _ s')) with (outstanding s'). lia.
  - apply (balanced_drop b); [done|congruence|]. intros d _ _. unfold client_matches. by rewrite Ho.
Qed.

Lemma keeps_release_cur : keeps (release_cur rc).
Proof.
  intros s [Ha Hi]. unfold release_cur. apply wp_getS, wp_modS.
  destruct (cur_write_buf s) as [b|] eqn:Hcur; [|split; [|done]].
  - apply wp_release_some. split; [|done]. simpl.
    eapply accounts_perm; [|exact Ha]. unfold outstanding. rewrite Hcur. simpl. solve_Permutation.
  - eapply accounts_perm; [|exact Ha]. unfold outstanding. rewrite Hcur. done.
Qed.

Lemma keeps_next_buf : keeps next_write_buf.
Proof.
  intros s [Ha Hi]. unfold next_write_buf. apply wp_getS.
  destruct (cur_write_buf s) eqn:Hcur; [by split|]. destruct (write_queue s) as [|b q] eqn:Hq; [by split|].
  apply wp_modS. split; [|done]. eapply accounts_perm; [|exact Ha].
  unfold outstanding. by rewrite Hcur, Hq.
Qed.

Lemma keeps_write_loop n total : keeps (write_loop rc n total).
Proof.
  revert total. induction n as [|n IH]; intros total; [apply keeps_fuel|].
  intros s Hs. cbn [write_loop]. apply wp_getS. case_if; [done|].
  apply wp_keeps_bind; [apply keeps_next_buf|done|]. intros [b|]; [|apply keeps_ret].
  intros s' Hs'. apply wp_getsS. apply wp_keeps_bind; [apply keeps_callback|done|]. intros k.
  case_if.
  - intros s2 Hs2. apply wp_getS. case_if; [|done]. apply wp_modS. by apply IH.
  - case_if; (apply keeps_bind; [|intros _; apply IH]); [apply keeps_release_cur|by apply keeps_mod].
Qed.

Lemma keeps_write : keeps (write_to_device rc fuel).
Proof.
  intros s Hs. unfold write_to_device. apply wp_getS. case_if; [done|]. apply wp_modS.
  case_if; [done|]. apply wp_modS. apply wp_keeps_bind; [apply keeps_write_loop|done|].
  intros total s' Hs'. apply wp_getS. apply wp_keeps_bind; [|done|].
  - case_if; [|apply keeps_ret]. apply keeps_bind; [|intros; by apply keeps_mod].
    case_if; [by apply keeps_mod|apply keeps_check].
  - intros _. apply keeps_bind; [by apply keeps_mod|]. intros _. apply keeps_ret.
Qed.

Lemma keeps_wakeup : keeps (wakeup rc fuel).
Proof.
  apply keeps_bind; [apply keeps_write|]. intros _. apply keeps_bind; [apply keeps_read|].
  intros _. apply keeps_ret.
Qed.

Lemma keeps_start_loop n : keeps (start_loop rc fuel n).
Proof.
  induction n as [|n IH]; [apply keeps_fuel|]. cbn [start_loop].
  apply keeps_bind; [apply keeps_write|]. intros total. case_if; [done|].
  apply keeps_bind; [apply keeps_read|]. intros [|]; [done|apply keeps_ret].
Qed.

Lemma keeps_reset_queue n : keeps (reset_queue rc n).
Proof.
  induction n as [|n IH]; [apply keeps_fuel|]. intros s [Ha Hi]. cbn [reset_queue]. apply wp_getS.
  destruct (write_queue s) as [|b q] eqn:Hq; [by split|]. apply wp_modS, wp_bind.
  eapply wp_conseq; [apply wp_release_some|intros; by apply IH].
  split; [|done]. eapply accounts_perm; [|exact Ha]. unfold outstanding. rewrite Hq. simpl.
  solve_Permutation.
Qed.

Lemma keeps_reset : keeps (reset rc fuel).
Proof.
  apply keeps_bind; [by apply keeps_mod|]. intros _. apply keeps_bind; [apply keeps_reset_queue|].
  intros _. apply keeps_bind; [apply keeps_release_cur|]. intros _. apply keeps_mod.
  intros s [[H1 H2 H3 H4 H5 H6] Hi].
  assert (dc_client <$> (reset_dc <$> clients s) = dc_client <$> clients s) as He.
  { rewrite <- list_fmap_compose. by apply list_fmap_ext. }
  split; [split; try done|]; simpl; [by rewrite He| |by rewrite He].
  apply Forall_fmap, Forall_lookup. intros i d Hd Hf. change (dc_flow d = true) in Hf.
  destruct (Forall_lookup_1 _ _ _ _ H5 Hd Hf) as (? & ? & Hsum). simpl.
  pose proof (price_nonneg (dc_client d) _ H4). pose proof (Hwin (dc_client d)).
  rewrite u64_id by lia. change (outstanding (set_clients _ s)) with (outstanding s). lia.
Qed.

(** *** Taking a buffer *)

Lemma accounts_fresh cs out next self b :
  accounts win selfw cs out next self -> wb_id b = next -> 0 < wb_token_price b < 2 ^ 32 ->
  NoDup (wb_id <$> b :: out) /\ Forall (fun b => wb_id b < next + 1) (b :: out) /\
  Forall (fun b => 0 < wb_token_price b < 2 ^ 32) (b :: out).
Proof.
  intros [H1 H2 H3 H4 H5 H6] Hid Hp. split_and!.
  - simpl. apply NoDup_cons_2; [|done]. intros Hin. apply list_elem_of_fmap in Hin as (b' & Hb' & Hin).
    apply list_elem_of_lookup in Hin as [i Hi]. pose proof (Forall_lookup_1 _ _ _ _ H3 Hi) as Hlt.
    simpl in Hlt. lia.
  - constructor; [lia|]. eapply Forall_impl; [|exact H3]. intros; simpl in *; lia.
  - by constructor.
Qed.

Lemma accounts_take cs out next self b :
  accounts win selfw cs out next self -> wb_id b = next -> 0 < wb_token_price b < 2 ^ 32 ->
  wb_origin b <> WRITE_BUFFER_ORIGIN_SERVER ->
  (forall d, d ∈ cs -> dc_flow d = true -> client_matches (dc_client d) b = false) ->
  accounts win selfw cs (b :: out) (next + 1) self.
Proof.
  intros Hacc Hid Hp Ho Hc. destruct (accounts_fresh _ _ _ _ _ Hacc Hid Hp) as (T1 & T2 & T3).
  destruct Hacc as [H1 H2 H3 H4 H5 H6]. split; try done.
  - apply Forall_lookup. intros i d Hd. pose proof (Forall_lookup_1 _ _ _ _ H5 Hd) as Ha.
    apply list_elem_of_lookup_2 in Hd. intros Hf. simpl. rewrite (Hc d Hd Hf). apply (Ha Hf).
  - simpl. rewrite bool_decide_eq_false_2 by done. lia.
Qed.

(** What [write_buffer_get] leaves: the buffer is accounted for, or nothing
    changed. *)
Definition got (r : option wbuf) (s : dev W) : Prop :=
  match r with Some b => balanced_with b s | None => balanced s end.

Lemma wp_get_client s client size :
  balanced s -> 0 <= size < 2 ^ 31 ->
  wp (red_char_device_write_buffer_get rc client size WRITE_BUFFER_ORIGIN_CLIENT 0)
    got (fun k _ => stops k) s.
Proof.
  intros Hs Hsz. unfold red_char_device_write_buffer_get. apply wp_getS. simpl.
  rewrite s32_id by lia. destruct (Z.ltb_spec size 0); [lia|]. apply wp_modS.
  assert (balanced (set_next_id (next_id s + 1) s)) as Hs1.
  { destruct Hs as [[H1 H2 H3 H4 H5 H6] Hi]. split; [|done]. split; try done.
    eapply Forall_impl; [|exact H3]. intros; simpl in *; lia. }
  apply wp_bind, wp_assert; [intros _|by left].
  destruct (red_char_device_client_find s client) as [d|] eqn:Hf; [|done].
  case_if.
  { apply wp_bind. eapply wp_conseq; [by apply keeps_callback|]. intros ? s' Hs'. exact Hs'. }
  set (b := mkWbuf (next_id s) size [] client WRITE_BUFFER_ORIGIN_CLIENT 1 1).
  destruct Hs as [Ha Hi]. pose proof Ha as [H1 H2 H3 H4 H5 H6].
  pose proof (find_dc_some _ _ _ Hf) as [Hd Hdc].
  destruct (accounts_fresh _ _ _ _ b Ha) as (T1 & T2 & T3); [done..|].
  destruct (dc_flow d) eqn:Hflow; simpl in Eb |- *; zbool.
  - apply wp_modS. split; [|simpl; by rewrite upd_dc_ids].
    change (accounts win selfw
      (upd_dc client (fun d => set_dc_num_client_tokens (u64 (dc_num_client_tokens d - 1)) d) (clients s))
      (b :: outstanding s) (next_id s + 1) (num_self_tokens s)).
    destruct H6 as [H6 H7].
    eapply accounts_upd; [exact Ha|done|exact T1|exact T2|exact T3|done|done|..].
    + intros d' _ Hne. simpl. unfold client_matches; simpl.
      by destruct (Z.eqb_spec client (dc_client d')); [congruence|].
    + intros d' Hd' He Hacc _. assert (d' = d) as -> by (eapply NoDup_client; eauto; congruence).
      destruct (Hacc Hflow) as (? & ? & Hsum). simpl. unfold client_matches; simpl.
      rewrite <- He, Z.eqb_refl. simpl. pose proof (price_nonneg (dc_client d) _ H4).
      pose proof (Hwin (dc_client d)). rewrite u64_id by lia. lia.
  - apply wp_ret. split; [|done].
    apply accounts_take; [exact Ha|done|done|done|]. intros d' Hd' Hf'. unfold client_matches. simpl.
    destruct (Z.eqb_spec client (dc_client d')); [|done]. exfalso.
    assert (d' = d) as -> by (eapply NoDup_client; eauto; congruence). congruence.
Qed.

Lemma wp_get_server s size (use_token : bool) :
  balanced s -> 0 <= size < 2 ^ 31 ->
  wp (red_char_device_write_buffer_get rc 0 size
        (if use_token then WRITE_BUFFER_ORIGIN_SERVER else WRITE_BUFFER_ORIGIN_SERVER_NO_TOKEN) 0)
    got (fun k _ => stops k) s.
Proof.
  intros [Ha Hi] Hsz. pose proof Ha as [H1 H2 H3 H4 H5 [H6 H7]].
  unfold red_char_device_write_buffer_get. apply wp_getS.
  rewrite s32_id by lia. destruct (Z.ltb_spec size 0); [lia|]. destruct use_token; simpl.
  - case_if; [by split|]. zbool. apply wp_modS, wp_modS, wp_ret. split; [|done].
    set (b := mkWbuf _ _ _ _ _ _ _).
    destruct (accounts_fresh _ _ _ _ b Ha) as (T1 & T2 & T3); [done..|].
    pose proof (servers_nonneg (outstanding s)).
    change (accounts win selfw (clients s) (b :: outstanding s) (next_id s + 1)
              (u64 (num_self_tokens s - 1))).
    split; try done. rewrite u64_id by lia. simpl. lia.
  - apply wp_modS, wp_ret. split; [|done].
    apply accounts_take; [exact Ha|done|done|done|]. intros d' Hd' Hf'. done.
Qed.

Lemma wp_hold r s : got r s -> wpI (hold r) s.
Proof. destruct r as [b|]; [|done]. intros [Ha Hi]. by split. Qed.

Lemma keeps_get_client client size : 0 <= size < 2 ^ 31 -> keeps (write_buffer_get_client rc client size).
Proof.
  intros Hsz. apply keeps_bind; [apply keeps_check|]. intros _ s Hs. apply wp_bind.
  eapply wp_conseq; [by apply wp_get_client|]. intros r s'. apply wp_hold.
Qed.

Lemma keeps_get_server size u : 0 <= size < 2 ^ 31 -> keeps (write_buffer_get_server rc size u).
Proof.
  intros Hsz s Hs. apply wp_bind. eapply wp_conseq; [by apply wp_get_server|]. intros r s'. apply wp_hold.
Qed.

(** *** Buffers held by a caller *)

(** [b] is the buffer of that identity in the caller's hands, filled. *)
Definition is_held (b : wbuf) (s : dev W) : Prop :=
  exists b0, b0 ∈ held s /\ b = set_wb_data (wb_data b) b0.

Lemma drop_held_ok b s :
  balanced s -> is_held b s ->
  balanced_with b (set_held (filter (fun b' => wb_id b' <> wb_id b) (held s)) s).
Proof.
  intros [Ha Hi] (b0 & Hin & Hb). split; [|done]. simpl.
  assert (Hperm : outstanding s ≡ₚ b0 :: outstanding (set_held (filter (fun b' => wb_id b' <> wb_id b) (held s)) s)).
  { unfold outstanding. simpl. pose proof (ac_ids _ _ _ _ _ _ Ha) as Hnd. unfold outstanding in Hnd.
    rewrite fmap_app in Hnd. apply list.NoDup_app in Hnd as (Hnd & _ & _).
    assert (wb_id b = wb_id b0) as Hid by (by rewrite Hb). rewrite Hid. clear -Hin Hnd.
    rewrite (app_comm_cons _ _ b0). f_equiv.
    induction (held s) as [|x l IH]; [by apply elem_of_nil in Hin|].
    apply NoDup_cons_1_1 in Hnd as Hx. apply NoDup_cons_1_2 in Hnd.
    apply elem_of_cons in Hin as [->|Hin].
    - rewrite filter_cons_False by auto. rewrite filter_id; [done|].
      intros y Hy He. apply Hx. rewrite <- He. by apply list_elem_of_fmap_2.
    - rewrite filter_cons_True by (intros He; apply Hx; rewrite He; by apply list_elem_of_fmap_2).
      rewrite Permutation_swap. f_equiv. by apply IH. }
  pose proof (accounts_perm _ _ _ _ _ _ _ Hperm Ha) as [H1 H2 H3 H4 H5 H6]. clear Hperm Ha.
  set (X := outstanding _) in *. clearbody X.
  assert (wb_id b = wb_id b0 /\ wb_token_price b = wb_token_price b0 /\ wb_origin b = wb_origin b0 /\
          forall c, client_matches c b = client_matches c b0) as (E1 & E2 & E3 & E4) by (by rewrite Hb).
  split; try done; simpl; [by rewrite E1|..].
  - apply Forall_cons_1 in H3 as [? ?]. by constructor; [rewrite E1|].
  - apply Forall_cons_1 in H4 as [? ?]. by constructor; [rewrite E2|].
  - eapply Forall_impl; [|exact H5]. intros d Hd Hf. simpl. rewrite E4, E2. by apply Hd.
  - simpl in H6. by rewrite E3.
Qed.

Lemma wp_release_held b s : balanced s -> is_held b s -> wpI (write_buffer_release_held rc b) s.
Proof. intros Hs Hh. apply wp_modS, wp_release_some. by apply drop_held_ok. Qed.

Lemma wp_add b s : balanced s -> is_held b s -> wpI (write_buffer_add rc fuel b) s.
Proof.
  intros Hs Hh. unfold write_buffer_add. apply wp_modS, wp_getS.
  pose proof (drop_held_ok b s Hs Hh) as Hw. case_if.
  - zbool. apply bool_decide_eq_true in H. apply bool_decide_eq_true in H0.
    assert (balanced (set_held (filter (fun b' => wb_id b' <> wb_id b) (held s)) s)) as Hd.
    { apply (balanced_drop b); [done|congruence|]. intros d Hd _. unfold client_matches.
      destruct (Z.eqb_spec (wb_client b) (dc_client d)) as [He|]; [|by rewrite andb_false_r].
      apply find_dc_none in H0. exfalso. apply H0. rewrite He. by apply list_elem_of_fmap_2. }
    unfold red_char_device_write_buffer_unref. by case_if.
  - apply wp_modS. apply wp_keeps_bind; [apply keeps_write| |intros; apply keeps_ret].
    destruct Hw as [Ha Hi]. split; [|done]. eapply accounts_perm; [|exact Ha].
    unfold outstanding. simpl. solve_Permutation.
Qed.
End with_rc.

(** *** Nested calls *)
Lemma keeps_run_call depth fuel c : keeps (run_call depth fuel c).
Proof.
  revert c. induction depth as [|depth IH]; intros c; [apply keeps_fuel|].
  destruct c; cbn [run_call run_call_body].
  - by apply keeps_wakeup.
  - apply keeps_bind; [by apply keeps_mod|]. intros _.
    apply keeps_bind; [by apply keeps_mod|]. intros _. by apply keeps_mod.
  - by apply keeps_absorb.
Qed.
End tokens.

(** ** Histories *)

(** The operations clients, the server and the device perform on the object.
    Buffers are named by their identity; a buffer is added or released by the
    caller that holds it, and a client is added when it is not there and left
    no buffer behind in the hands of a caller. *)
Inductive op :=
  | OpGetClient (client size : Z)
  | OpGetServer (size : Z) (use_token : bool)
  | OpAdd (id : Z) (bytes : list Z)
  | OpRelease (id : Z)
  | OpClientAdd (client : Z) (flow : bool) (max_queue num_client num_send : Z) (wait_mig : bool)
  | OpClientRemove (client : Z)
  | OpTokens (client tokens : Z) (reset : bool)
  | OpTimeout (client : Z)
  | OpWakeup | OpWriteRetry | OpStart | OpStop | OpReset.

Definition held_buf {W} (id : Z) (s : dev W) : option wbuf :=
  snd <$> list_find (fun b => wb_id b = id) (held s).

Section history.
Context {W : Type} {impl : CharDeviceImpl W} (depth fuel : nat).

Definition run_op (o : op) : M (dev W) unit :=
  let rc := run_call depth fuel in
  match o with
  | OpGetClient c size => write_buffer_get_client rc c size;; mret tt
  | OpGetServer size u => write_buffer_get_server rc size u;; mret tt
  | OpAdd id bytes =>
      s ← getS;
      match held_buf id s with
      | Some b => write_buffer_add rc fuel (set_wb_data bytes b)
      | None => mret tt
      end
  | OpRelease id =>
      s ← getS;
      match held_buf id s with
      | Some b => write_buffer_release_held rc b
      | None => mret tt
      end
  | OpClientAdd c flow mq nc ns wm =>
      s ← getS;
      if client_exists s c || existsb (client_matches c) (outstanding s) then mret tt
      else client_add rc fuel c flow mq nc ns wm;; mret tt
  | OpClientRemove c => client_remove rc fuel c
  | OpTokens c t r => red_char_device_send_to_client_tokens_absorb rc fuel c t r
  | OpTimeout c => device_client_wait_for_tokens_timeout rc c
  | OpWakeup => wakeup rc fuel
  | OpWriteRetry => write_retry rc fuel
  | OpStart => start rc fuel
  | OpStop => stop
  | OpReset => reset rc fuel
  end.

(** Sizes are C [int]s, and a flow-controlled client starts with its window. *)
Definition op_ok (win : Z -> Z) (o : op) : Prop :=
  match o with
  | OpGetClient _ size | OpGetServer size _ => 0 <= size < 2 ^ 31
  | OpClientAdd c flow _ nc _ _ => 0 <= nc /\ (flow = true -> win c = nc)
  | _ => True
  end.
End history.

Section history_tokens.
Context {W : Type} {impl : CharDeviceImpl W} (depth fuel : nat).
Context (win : Z -> Z) (selfw : Z) (Hwin : forall c, win c < 2 ^ 64) (Hselfw : selfw < 2 ^ 64).
#[local] Abbreviation balanced := (balanced (W := W) win selfw).
#[local] Abbreviation tokens_ok := (tokens_ok (W := W) win selfw).

Lemma keeps_tokens {A} (m : M (dev W) A) s :
  (forall ids, keeps (balanced ids) stops m) -> tokens_ok s ->
  wp m (fun _ s' => tokens_ok s') (fun k _ => stops k) s.
Proof.
  intros Hm Hs. eapply wp_conseq; [by apply (Hm (dc_client <$> clients s))|]. by intros ? s' [? _].
Qed.

Lemma keeps_frees (l : list wbuf) s (Q : dev W -> Prop) :
  (forall f, Q (set_freed f s)) ->
  wp (iterM red_char_device_write_buffer_unref l) (fun _ s' => Q s') (fun k _ => stops k) s.
Proof.
  revert s. induction l as [|b l IH]; intros s HQ;
    [pose proof (HQ (freed s)); by destruct s|].
  cbn [iterM]. apply wp_bind. unfold red_char_device_write_buffer_unref.
  case_if; [|by apply IH]. apply IH. intros f. apply (HQ f).
Qed.

Lemma price_filter c c' l :
  c <> c' -> price c (filter (fun b => negb (client_matches c' b)) l) = price c l.
Proof.
  intros Hc. induction l as [|b l IH]; [done|]. rewrite filter_cons. case_decide as Hd; simpl; rewrite IH; [done|].
  assert (client_matches c b = false) as ->; [|lia].
  assert (client_matches c' b = true) as Hm by (destruct (client_matches c' b); naive_solver).
  unfold client_matches in *. zbool. destruct (Z.eqb_spec (wb_client b) c); [lia|]. by rewrite andb_false_r.
Qed.

Lemma servers_filter c' l :
  servers (filter (fun b => negb (client_matches c' b)) l) = servers l.
Proof.
  induction l as [|b l IH]; [done|]. rewrite filter_cons. case_decide as Hd; simpl; rewrite IH; [done|].
  assert (client_matches c' b = true) as Hm by (destruct (client_matches c' b); naive_solver).
  unfold client_matches in Hm. zbool. apply bool_decide_eq_true in H. by rewrite H.
Qed.

(** Removing a client takes its queued buffers and orphans the one being
    written; the accounts of the others do not change. *)
Lemma wp_client_free c s :
  tokens_ok s ->
  wp (red_char_device_client_free c) (fun _ s' => tokens_ok s') (fun k _ => stops k) s.
Proof.
  intros Ha. unfold red_char_device_client_free. apply wp_getS, wp_bind, keeps_frees. intros fr.
  apply wp_modS, wp_modS. unfold wp, modS.
  set (q' := filter (fun b => negb (client_matches c b)) (write_queue s)).
  set (cur' := (fun b => if client_matches c b then set_wb_orphan b else b) <$> cur_write_buf s).
  set (s1 := set_write_queue q' (set_freed fr s)).
  match goal with |- tokens_ok (set_clients _ ?t) =>
    assert (t = set_cur_write_buf cur' s1) as -> end.
  { unfold cur', s1. destruct s as [? ? ? ? [b|] ? ? ? ? ? ? ? ? ? ? ? ?]; simpl; [|done].
    by destruct (client_matches c b). }
  change (accounts win selfw (filter (fun d => dc_client d <> c) (clients s))
            (held s ++ option_list cur' ++ q') (next_id s) (num_self_tokens s)).
  destruct Ha as [H1 H2 H3 H4 H5 H6]. unfold outstanding in *.
  assert (sub : forall (P : wbuf -> Prop), (forall b, P b -> P (set_wb_orphan b)) ->
            Forall P (held s ++ option_list (cur_write_buf s) ++ write_queue s) ->
            Forall P (held s ++ option_list cur' ++ q')).
  { intros P Ho HP. rewrite !Forall_app in HP |- *. destruct HP as (? & HP & HQ). split_and!; [done| |].
    - unfold cur'. destruct (cur_write_buf s) as [b|]; simpl in *; [|done]. apply Forall_cons_1 in HP as [? _].
      constructor; [|done]. case_match; auto.
    - by apply filter_Forall. }
  split.
  - eapply sublist_NoDup; [exact H1|]. apply fmap_sublist, sublist_filter.
  - rewrite !fmap_app in H2 |- *. eapply sublist_NoDup; [exact H2|].
    apply sublist_app; [done|]. apply sublist_app; [|apply fmap_sublist, sublist_filter].
    unfold cur'. destruct (cur_write_buf s) as [b|]; simpl; [|done]. by case_match.
  - by apply sub.
  - by apply sub.
  - apply Forall_lookup. intros i d Hd Hf. apply list_elem_of_lookup_2, list_elem_of_filter in Hd as [Hne Hd].
    apply list_elem_of_lookup in Hd as [j Hj].
    destruct (Forall_lookup_1 _ _ _ _ H5 Hj Hf) as (? & ? & Hsum). split_and!; [done..|].
    rewrite <- Hsum, !price_app. f_equal. f_equal. f_equal; [|by apply price_filter].
    unfold cur'. destruct (cur_write_buf s) as [b|]; simpl; [|done].
    destruct (client_matches c b) eqn:Hm; [|done]. unfold client_matches in Hm |- *. simpl. zbool.
    rewrite H8. destruct (Z.eqb_spec c (dc_client d)); [by subst c|]. by rewrite andb_false_r.
  - rewrite !servers_app in H6 |- *. unfold q'. rewrite servers_filter. destruct H6 as [? <-].
    split; [done|]. f_equal. f_equal. f_equal. unfold cur'.
    destruct (cur_write_buf s) as [b|]; simpl; [|done].
    destruct (client_matches c b) eqn:Hm; [|done]. unfold client_matches in Hm. zbool.
    apply bool_decide_eq_true in H0. by rewrite H0.
Qed.

Lemma wp_client_add c flow mq nc ns wm s :
  tokens_ok s -> client_exists s c = false -> existsb (client_matches c) (outstanding s) = false ->
  0 <= nc -> (flow = true -> win c = nc) ->
  wp (client_add (run_call depth fuel) fuel c flow mq nc ns wm)
    (fun _ s' => tokens_ok s') (fun k _ => stops k) s.
Proof.
  intros Ha Hex Hb Hnc Hw. unfold client_add. apply wp_bind, wp_assert; [intros _|by left].
  apply wp_getS. case_if; [done|]. apply wp_modS, wp_modS. apply keeps_tokens.
  { intros ids. apply keeps_bind; [by apply keeps_wakeup, keeps_run_call|]. intros _. apply keeps_ret. }
  destruct Ha as [H1 H2 H3 H4 H5 H6]. split; try done; simpl.
  - apply NoDup_cons_2; [|done]. unfold client_exists in Hex. apply bool_decide_eq_false in Hex.
    rewrite <- eq_None_not_Some in Hex. apply find_dc_none in Hex. by destruct flow.
  - constructor; [|done]. unfold account_ok.
    replace (dc_client (new_RedCharDeviceClient c flow mq nc ns)) with c by (by destruct flow).
    change (outstanding (set_clients _ _)) with (outstanding s).
    assert (price c (outstanding s) = 0) as ->.
    { clear -Hb. induction (outstanding s) as [|b l IH]; [done|]. simpl in Hb |- *.
      apply orb_false_iff in Hb as [-> Hb]. rewrite IH; [lia|done]. }
    destruct flow; [|done]. intros _. simpl. rewrite Hw by done. lia.
Qed.

Lemma wp_client_remove c s :
  tokens_ok s ->
  wp (client_remove (run_call depth fuel) fuel c) (fun _ s' => tokens_ok s') (fun k _ => stops k) s.
Proof.
  intros Ha. unfold client_remove. apply wp_getS.
  destruct (red_char_device_client_find s c); [|by left].
  apply wp_bind. eapply wp_conseq; [by apply wp_client_free|]. intros ? s' Hs'. cbn beta in Hs'. apply wp_getS.
  case_if; [|done]. apply wp_bind, wp_assert; [intros _|by left]. apply wp_modS, keeps_tokens; [|done].
  intros ids. apply keeps_bind; [by apply keeps_read, keeps_run_call|]. intros _. apply keeps_ret.
Qed.

Lemma held_buf_some id (s : dev W) b : held_buf id s = Some b -> b ∈ held s.
Proof.
  unfold held_buf. intros H. apply fmap_Some in H as ([i x] & Hx & ->).
  apply list_find_Some in Hx as (Hl & _). by eapply list_elem_of_lookup_2.
Qed.

Lemma wp_run_op o s :
  tokens_ok s -> op_ok win o ->
  wp (run_op depth fuel o) (fun _ s' => tokens_ok s') (fun k _ => stops k) s.
Proof.
  intros Hs Ho. assert (Hb : balanced (dc_client <$> clients s) s) by done.
  pose proof (fun ids => keeps_run_call win selfw Hwin Hselfw ids depth fuel) as Hrc.
  destruct o; cbn [run_op]; simpl in Ho.
  - apply keeps_tokens; [|done]. intros ids. apply keeps_bind; [by apply keeps_get_client|].
    intros _. apply keeps_ret.
  - apply keeps_tokens; [|done]. intros ids. apply keeps_bind; [by apply keeps_get_server|].
    intros _. apply keeps_ret.
  - apply wp_getS. destruct (held_buf id s) as [b|] eqn:Hh; [|done]. apply held_buf_some in Hh.
    eapply wp_conseq; [eapply wp_add; try done; by exists b|]. by intros ? s' [? _].
  - apply wp_getS. destruct (held_buf id s) as [b|] eqn:Hh; [|done]. apply held_buf_some in Hh.
    eapply wp_conseq; [eapply wp_release_held; try done; exists b; by destruct b|]. by intros ? s' [? _].
  - apply wp_getS. case_if; [done|]. apply orb_false_iff in Eb as [? ?]. destruct Ho.
    apply wp_bind. eapply wp_conseq; [by apply wp_client_add|]. by intros.
  - by apply wp_client_remove.
  - apply keeps_tokens; [|done]. intros ids. by apply keeps_absorb.
  - apply keeps_tokens; [|done]. intros ids. by apply keeps_callback.
  - apply keeps_tokens; [|done]. intros ids. by apply keeps_wakeup.
  - apply keeps_tokens; [|done]. intros ids. apply keeps_bind; [by apply keeps_mod|]. intros _.
    apply keeps_bind; [by apply keeps_write|]. intros _. apply keeps_ret.
  - apply keeps_tokens; [|done]. intros ids. apply keeps_bind; [by apply keeps_mod|]. intros _.
    by apply keeps_start_loop.
  - done.
  - apply keeps_tokens; [|done]. intros ids. by apply keeps_reset.
Qed.
End history_tokens.


(** A device that takes three bytes at a time, has two messages to read and
    logs what it is told; a token message makes it wake the server. *)
Record demo_env := mkDemo { de_out : list Z; de_in : list Z; de_sent : list (Z * Z) }.
#[export] Instance demo_impl : CharDeviceImpl demo_env := {|
  sif_write := fun bs w => (Z.min 3 (Z.of_nat (length bs)), [],
                            mkDemo (de_out w ++ take 3 bs) (de_in w) (de_sent w));
  read_one_msg_from_device := fun w =>
    match de_in w with
    | [] => (None, [], w)
    | m :: l => (Some m, [], mkDemo (de_out w) l (de_sent w))
    end;
  send_msg_to_client := fun m c w => (tt, [], mkDemo (de_out w) (de_in w) (de_sent w ++ [(c, m)]));
  send_tokens_to_client := fun c n w => (tt, [CWakeup], w);
  on_free_self_token := fun w => (tt, [], w);
  remove_client := fun c w => (tt, [], w) |}.

Definition demo_dev : dev demo_env := new_RedCharDevice (mkDemo [] [7; 8] []) true false 2 4.
Definition demo_ops : list op :=
  [OpClientAdd 9 true 5 10 1 false; OpStart; OpGetClient 9 8; OpGetClient 9 8; OpGetServer 4 true;
   OpAdd 1 [1; 2; 3; 4; 5]; OpAdd 3 [6]; OpRelease 2; OpGetClient 9 8].


(** ** Bytes *)

(** The contract of the device: a write accepts a prefix of what it is given,
    and only a write adds to what was [accepted]. *)
Class CharDeviceWrites {W} (impl : CharDeviceImpl W) (accepted : W -> list Z) : Prop := {
  write_prefix bs w :
    (sif_write bs w).1.1 <= Z.of_nat (length bs) /\
    accepted (sif_write bs w).2 = accepted w ++ take (Z.to_nat (sif_write bs w).1.1) bs;
  tokens_accepted c n w : accepted (send_tokens_to_client c n w).2 = accepted w;
  self_accepted w : accepted (on_free_self_token w).2 = accepted w }.

(** What is still to be written. *)
Definition pending {W} (s : dev W) : list Z :=
  from_option (fun b => drop (Z.to_nat (cur_write_buf_pos s)) (wb_data b)) [] (cur_write_buf s) ++
  (write_queue s ≫= wb_data).

(** Client buffers belong to clients of the device, and the position is inside
    the current buffer. *)
Definition buf_ok {W} (s : dev W) (b : wbuf) : Prop :=
  (wb_origin b = WRITE_BUFFER_ORIGIN_CLIENT -> wb_client b <> 0 /\ wb_client b ∈ dc_client <$> clients s) /\
  Z.of_nat (length (wb_data b)) < 2 ^ 32.
Record io_ok {W} (s : dev W) : Prop := {
  io_cur : from_option (fun b => buf_ok s b /\ 0 <= cur_write_buf_pos s <= Z.of_nat (length (wb_data b)))
             True (cur_write_buf s);
  io_queue : Forall (buf_ok s) (write_queue s) }.

Section bytes.
Context {W : Type} {impl : CharDeviceImpl W} `{!CharDeviceQuiet impl}.
Context (accepted : W -> list Z) `{!CharDeviceWrites impl accepted}.
Context (rc : call -> M (dev W) unit).

(** The part of the state that bookkeeping does not touch. *)
Definition same_io (s s' : dev W) : Prop :=
  running s' = running s /\ write_queue s' = write_queue s /\ cur_write_buf s' = cur_write_buf s /\
  cur_write_buf_pos s' = cur_write_buf_pos s /\ during_write s' = during_write s /\
  dc_client <$> clients s' = dc_client <$> clients s /\ accepted (env s') = accepted (env s).

Lemma callback_quiet {A} (f : W -> A * list call * W) s :
  (f (env s)).1.2 = [] -> callback rc f s = Ok (f (env s)).1.1 (set_env (f (env s)).2 s).
Proof.
  intros Hq. unfold callback, bindM, getS. destruct (f (env s)) as [[a cs] w]. simpl in *. by rewrite Hq.
Qed.

Lemma wp_release_io b s :
  buf_ok s b -> wb_id <$> cur_write_buf s <> Some (wb_id b) ->
  wp (write_buffer_release rc (Some b)) (fun _ s' => same_io s s') (fun _ _ => False) s.
Proof.
  intros [Hb _] Hne. unfold write_buffer_release. apply wp_getS, wp_bind, wp_assert;
    [intros _|by rewrite bool_decide_eq_false_2].
  apply wp_bind.
  assert (exists s1, red_char_device_write_buffer_unref b s = Ok tt s1 /\ same_io s s1 /\ clients s1 = clients s)
    as (s1 & Hun & Hs1 & Hcl).
  { unfold red_char_device_write_buffer_unref. case_if; eexists; split; try done. }
  unfold wp at 1. rewrite Hun.
  assert (Htr : forall s', same_io s1 s' -> same_io s s').
  { destruct Hs1 as (? & ? & ? & ? & ? & ? & ?). intros s' (? & ? & ? & ? & ? & ? & ?).
    split_and!; congruence. }
  destruct (wb_origin b); [by apply Htr| | |by apply Htr].
  - destruct Hb as [Hb0 Hin]; [done|]. apply wp_bind, wp_assert; [intros _|intros Hz; by zbool].
    destruct (red_char_device_client_find s (wb_client b)) as [d|] eqn:Hf.
    2: { by apply find_dc_none in Hf. }
    unfold red_char_device_client_tokens_add. case_if; [by apply Htr|]. apply wp_getS.
    assert (forall f g, (forall d, dc_client (g d) = dc_client d) ->
      same_io s1 (set_clients (upd_dc f g (clients s1)) s1)) as Hupd.
    { intros f g Hg. split_and!; try done. simpl. by rewrite upd_dc_ids. }
    case_if; [|by apply Htr, Hupd]. apply wp_modS. unfold wp. rewrite callback_quiet by apply quiet_tokens.
    apply Htr. destruct (Hupd (dc_client d) (fun d0 => set_dc_num_client_tokens
        (u64 (dc_num_client_tokens d0 + u64 (dc_num_client_tokens_free d + wb_token_price b)))
        (set_dc_num_client_tokens_free 0 d0))) as (? & ? & ? & ? & ? & ? & ?); [done|].
    split_and!; try done. simpl. by rewrite tokens_accepted.
  - apply wp_modS. unfold wp. rewrite callback_quiet by apply quiet_self. apply Htr.
    split_and!; try done. simpl. by rewrite self_accepted.
Qed.

Lemma wp_next_buf (s : dev W) :
  io_ok s ->
  wp next_write_buf
    (fun r s' => io_ok s' /\ pending s' = pending s /\ env s' = env s /\ running s' = running s /\
       during_write s' = during_write s /\
       match r with
       | Some b => cur_write_buf s' = Some b
       | None => cur_write_buf s' = None /\ write_queue s' = []
       end) (fun _ _ => False) s.
Proof.
  intros Hio. unfold next_write_buf. apply wp_getS. destruct (cur_write_buf s) as [b|] eqn:Hc; [done|].
  destruct (write_queue s) as [|b q] eqn:Hq; [done|]. apply wp_modS, wp_ret.
  destruct Hio as [_ Hqok]. rewrite Hq in Hqok. apply Forall_cons_1 in Hqok as [Hb Hqok].
  split_and!; try done.
  - split; simpl; [|done]. split; [done|lia].
  - unfold pending. simpl. rewrite Hc, Hq. simpl. by rewrite drop_0.
Qed.

Lemma same_io_ok s s' : same_io s s' -> io_ok s -> io_ok s'.
Proof.
  intros (_ & Hq & Hc & Hp & _ & Hcl & _) [H1 H2].
  assert (forall b, buf_ok s b -> buf_ok s' b) as Hb by (unfold buf_ok; by rewrite Hcl).
  split; rewrite ?Hq, ?Hc, ?Hp.
  - destruct (cur_write_buf s); simpl in *; [|done]. destruct H1. auto.
  - eapply Forall_impl; [|exact H2]. auto.
Qed.

(** [cur_write_buf] has been written to its end. *)
Lemma wp_release_cur_io (s : dev W) b :
  io_ok s -> cur_write_buf s = Some b ->
  wp (release_cur rc)
    (fun _ s' => io_ok s' /\ accepted (env s') = accepted (env s) /\ pending s' = (write_queue s ≫= wb_data) /\
       running s' = running s /\ during_write s' = during_write s) (fun _ _ => False) s.
Proof.
  intros [Hcur Hq] Hc. rewrite Hc in Hcur. destruct Hcur as [Hb Hp]. unfold release_cur.
  apply wp_getS, wp_modS. rewrite Hc. eapply wp_conseq; [by apply wp_release_io|].
  intros ? s' Hs'. cbn beta in Hs'. split; [eapply same_io_ok; [exact Hs'|by split]|].
  destruct Hs' as (Hr & Hq' & Hc' & _ & Hd & _ & Ha). split_and!; try done.
  unfold pending. rewrite Hc', Hq'. done.
Qed.

(** The loop writes the pending bytes in order; every round but the last one
    makes progress. *)
Lemma wp_write_loop n s total :
  io_ok s -> running s = true -> during_write s = 1 -> (length (pending s) < n)%nat ->
  wp (write_loop rc n total)
    (fun r s' => io_ok s' /\ accepted (env s') ++ pending s' = accepted (env s) ++ pending s /\
       r = total + Z.of_nat (length (accepted (env s'))) - Z.of_nat (length (accepted (env s))) /\
       running s' = true /\ (cur_write_buf s' = None -> write_queue s' = []))
    (fun _ _ => False) s.
Proof.
  revert s total. induction n as [|n IH]; intros s total Hio Hrun Hdw Hn; [lia|].
  cbn [write_loop]. apply wp_getS. rewrite Hrun. cbn [negb]. apply wp_bind.
  eapply wp_conseq; [by apply wp_next_buf|].
  intros [b|] s1 (Hio1 & Hp1 & He1 & Hr1 & Hd1 & Hc1);
    [|destruct Hc1; split_and!; try done; [by rewrite He1, Hp1|rewrite He1; lia|congruence]].
  pose proof (io_cur _ Hio1) as Hcur. rewrite Hc1 in Hcur. destruct Hcur as [[Hbc Hlen] Hpos].
  apply wp_getsS. set (pos := cur_write_buf_pos s1) in *. cbv zeta. set (rest := drop (Z.to_nat pos) (wb_data b)).
  assert (Z.of_nat (length rest) = Z.of_nat (length (wb_data b)) - pos) as Hrest
    by (unfold rest; rewrite length_drop; lia).
  rewrite <- Hrest, u32_id, Nat2Z.id, firstn_all by lia.
  assert (pending s1 = rest ++ (write_queue s1 ≫= wb_data)) as Hpd
    by (unfold pending; rewrite Hc1; done).
  apply wp_bind. unfold wp at 1. rewrite callback_quiet by apply quiet_write. cbn beta.
  destruct (write_prefix rest (env s1)) as [Hk Hacc].
  set (k := (sif_write rest (env s1)).1.1) in *. set (s2 := set_env _ s1).
  assert (io_ok s2) as Hio2 by (by destruct Hio1).
  assert (accepted (env s2) = accepted (env s) ++ take (Z.to_nat k) rest) as Hacc2
    by (by rewrite <- He1).
  case_if; zbool.
  - apply wp_getS. change (during_write s2) with (during_write s1). rewrite Hd1, Hdw. simpl.
    replace (Z.to_nat k) with 0%nat in Hacc2 by lia. rewrite take_0, app_nil_r in Hacc2.
    split_and!; try done; [|rewrite Hacc2; lia|change (running s1 = true); congruence|].
    + rewrite Hacc2. by rewrite <- Hp1.
    + intros Hn0. change (cur_write_buf s1 = None) in Hn0. congruence.
  - assert (length (take (Z.to_nat k) rest) = Z.to_nat k) as Htk by (rewrite length_take; lia).
    case_if; zbool.
    + rewrite u32_id in Eb0 by lia. apply wp_bind.
      eapply wp_conseq; [by eapply wp_release_cur_io|]. intros [] s3 (Hio3 & Ha3 & Hp3 & Hr3 & Hd3).
      change (write_queue s2) with (write_queue s1) in Hp3.
      rewrite take_ge in Hacc2 by lia.
      eapply wp_conseq; [apply IH; [done|rewrite Hr3; simpl; congruence|rewrite Hd3; simpl; congruence|]|].
      { rewrite Hp3. rewrite <- Hp1, Hpd, length_app in Hn. lia. }
      intros r s4 (? & Ha4 & Hr4 & ? & ?). split_and!; try done.
      * by rewrite Ha4, Hp3, Ha3, Hacc2, <- Hp1, Hpd, (assoc_L (++)).
      * rewrite Hr4, Ha3, Hacc2, length_app. lia.
    + rewrite u32_id in Eb0 by lia. apply wp_modS. set (s3 := set_cur_write_buf_pos _ s2).
      assert (pending s3 = drop (Z.to_nat k) rest ++ (write_queue s1 ≫= wb_data)) as Hp3.
      { unfold pending. change (cur_write_buf s3) with (cur_write_buf s1). rewrite Hc1. simpl. f_equal.
        unfold rest. rewrite drop_drop. f_equal. change (cur_write_buf_pos s1) with pos. lia. }
      eapply wp_conseq; [apply IH; simpl; [|congruence|congruence|]|].
      { split; simpl; [rewrite Hc1; simpl; split; [by split|change (cur_write_buf_pos s1) with pos; lia]|apply Hio1]. }
      { rewrite Hp3, length_app, length_drop. rewrite <- Hp1, Hpd, length_app in Hn. lia. }
      intros r s4 (? & Ha4 & Hr4 & ? & ?). change (env s3) with (env s2) in *. split_and!; try done.
      * rewrite Ha4, Hp3, Hacc2, <- Hp1, Hpd, <- (assoc_L (++)). f_equal.
        by rewrite (assoc_L (++)), take_drop.
      * rewrite Hr4, Hacc2, length_app. lia.
Qed.
End bytes.


(** A device that does not call back; it takes three bytes at a time, five in
    all. *)
#[export] Instance slow_impl : CharDeviceImpl (list Z) := {|
  sif_write := fun bs w =>
    let k := Z.min (Z.min 3 (Z.of_nat (length bs))) (5 - Z.of_nat (length w)) in
    (k, [], w ++ take (Z.to_nat k) bs);
  read_one_msg_from_device := fun w => (None, [], w);
  send_msg_to_client := fun m c w => (tt, [], w);
  send_tokens_to_client := fun c n w => (tt, [], w);
  on_free_self_token := fun w => (tt, [], w);
  remove_client := fun c w => (tt, [], w) |}.
#[export] Instance slow_quiet : CharDeviceQuiet slow_impl.
Proof. by split. Qed.
#[export] Instance slow_writes : CharDeviceWrites slow_impl id.
Proof. split; [|done..]. intros bs w. simpl. split; [lia|done]. Qed.

Definition server_buf (id : Z) (bytes : list Z) : wbuf :=
  mkWbuf id 10 bytes 0 WRITE_BUFFER_ORIGIN_SERVER 1 1.
Definition slow_dev : dev (list Z) :=
  set_running true (set_write_queue [server_buf 1 [1; 2; 3; 4]; server_buf 2 [5; 6; 7]]
    (new_RedCharDevice [] true false 1 5)).


(** ** Migration *)

Lemma marshall_bufs_ok {W} client l size tokens bytes (s : dev W) :
  Forall (fun b => wb_origin b = WRITE_BUFFER_ORIGIN_CLIENT -> wb_client b = client) l ->
  Forall (fun b => 0 < wb_token_price b < 2 ^ 32) l ->
  0 <= size -> size + Z.of_nat (length (l ≫= wb_data)) < 2 ^ 32 ->
  0 <= tokens -> tokens + price client l < 2 ^ 32 ->
  marshall_bufs client l (size, tokens, bytes) s =
  Ok (size + Z.of_nat (length (l ≫= wb_data)), tokens + price client l, bytes ++ (l ≫= wb_data)) s.
Proof.
  intros Hc Hp. revert size tokens bytes.
  induction Hc as [|b l Hb Hc IH]; intros size tokens bytes Hs Hsz Ht Htk; cbn [marshall_bufs].
  { simpl. by rewrite !Z.add_0_r, app_nil_r. }
  apply Forall_cons_1 in Hp as [Hpb Hp]. specialize (IH Hp). pose proof (price_nonneg client _ Hp).
  change ((b :: l) ≫= wb_data) with (wb_data b ++ (l ≫= wb_data)) in *.
  change (price client (b :: l)) with
    ((if client_matches client b then wb_token_price b else 0) + price client l) in *.
  rewrite length_app, Nat2Z.inj_add in *. unfold bindM at 1, marshall_buf.
  destruct (decide (wb_origin b = WRITE_BUFFER_ORIGIN_CLIENT)) as [Ho|Ho].
  - assert (client_matches client b = true) as Hm
      by (unfold client_matches; by rewrite Ho, (Hb Ho), Z.eqb_refl).
    rewrite Hm in *. rewrite (bool_decide_eq_true_2 _ Ho), (Hb Ho), Z.eqb_refl. cbn.
    rewrite !u32_id by lia. rewrite IH by lia.
    by rewrite (assoc_L (++)), <- !Z.add_assoc.
  - assert (client_matches client b = false) as Hm
      by (unfold client_matches; by rewrite (bool_decide_eq_false_2 _ Ho)).
    rewrite Hm in *. rewrite (bool_decide_eq_false_2 _ Ho). cbn.
    rewrite !u32_id by lia. rewrite IH by lia.
    by rewrite (assoc_L (++)), <- !Z.add_assoc.
Qed.

Definition queued {W} (s : dev W) : list wbuf := option_list (cur_write_buf s) ++ write_queue s.

Lemma marshall_ok {W} (s : dev W) d :
  clients s = [d] -> dc_send_queue d = [] ->
  (forall b, b ∈ queued s ->
     (wb_origin b = WRITE_BUFFER_ORIGIN_CLIENT -> wb_client b = dc_client d) /\
     0 < wb_token_price b < 2 ^ 32) ->
  Z.of_nat (length (pending s)) < 2 ^ 31 -> price (dc_client d) (queued s) < 2 ^ 32 ->
  exists s', migrate_data_marshall s =
    Ok (mkMigData 1 true (u32 (dc_num_client_tokens d)) (u32 (dc_num_send_tokens d))
          (Z.of_nat (length (pending s))) (price (dc_client d) (queued s)) (pending s)) s'.
Proof.
  intros Hc Hsq Hb Hlen Hp.
  assert (Forall (fun b => wb_origin b = WRITE_BUFFER_ORIGIN_CLIENT -> wb_client b = dc_client d) (queued s) /\
          Forall (fun b => 0 < wb_token_price b < 2 ^ 32) (queued s)) as [HF1 HF2].
  { split; apply Forall_lookup; intros i b Hi; apply list_elem_of_lookup_2 in Hi; by apply Hb. }
  unfold migrate_data_marshall, bindM, getS. rewrite Hc, Hsq. simpl.
  unfold pending, queued in *. destruct (cur_write_buf s) as [b|]; simpl in *.
  - set (rest := drop (Z.to_nat (cur_write_buf_pos s)) (wb_data b)) in *. rewrite length_app in *.
    apply Forall_cons_1 in HF1 as [Hb1 HF1]. apply Forall_cons_1 in HF2 as [Hb2 HF2].
    pose proof (price_nonneg (dc_client d) _ HF2). unfold marshall_buf.
    destruct (decide (wb_origin b = WRITE_BUFFER_ORIGIN_CLIENT)) as [Ho|Ho].
    + assert (client_matches (dc_client d) b = true) as Hm
        by (unfold client_matches; by rewrite Ho, (Hb1 Ho), Z.eqb_refl).
      rewrite Hm in *. rewrite (bool_decide_eq_true_2 _ Ho), (Hb1 Ho), Z.eqb_refl. cbn.
      rewrite !u32_id by lia. rewrite marshall_bufs_ok by (auto; lia). eexists. do 2 f_equal; lia.
    + assert (client_matches (dc_client d) b = false) as Hm
        by (unfold client_matches; by rewrite (bool_decide_eq_false_2 _ Ho)).
      rewrite Hm in *. rewrite (bool_decide_eq_false_2 _ Ho). cbn.
      rewrite !u32_id by lia. rewrite marshall_bufs_ok by (auto; lia). eexists. do 2 f_equal; lia.
  - cbn. rewrite marshall_bufs_ok by (auto; lia). eexists. done.
Qed.

(** The buffer that holds the migrated bytes. *)
Lemma wp_get_migrated {W} {impl : CharDeviceImpl W} rc (t : dev W) d size pr :
  clients t = [d] -> dc_client d <> 0 -> 0 <= size < 2 ^ 31 -> 0 <= pr < 2 ^ 32 ->
  (pr <> 0 \/ num_self_tokens t <> 0) ->
  wp (if negb (pr =? 0)
      then red_char_device_write_buffer_get rc (dc_client d) size WRITE_BUFFER_ORIGIN_CLIENT pr
      else red_char_device_write_buffer_get rc 0 size WRITE_BUFFER_ORIGIN_SERVER 0)
    (fun r t' => exists b, r = Some b /\ price (dc_client d) [b] = pr /\ clients t' = clients t /\
       write_queue t' = write_queue t /\ running t' = running t)
    (fun _ _ => False) t.
Proof.
  intros Hc Hne Hsz Hpr Hself. case_if; zbool.
  - unfold red_char_device_write_buffer_get. apply wp_getS. simpl. rewrite s32_id by lia.
    destruct (Z.ltb_spec size 0); [lia|]. apply wp_modS, wp_bind, wp_assert; [intros _|intros Hz; by zbool].
    unfold red_char_device_client_find, find_dc. rewrite Hc. simpl. rewrite decide_True by done. simpl.
    destruct (Z.eqb_spec pr 0); [lia|]. simpl. eexists. split_and!; try done.
    unfold client_matches. simpl. rewrite Z.eqb_refl. simpl. rewrite u32_id by lia. lia.
  - subst pr. destruct Hself as [?|Hself]; [done|]. unfold red_char_device_write_buffer_get.
    apply wp_getS. destruct (Z.eqb_spec (num_self_tokens t) 0); [lia|]. simpl. rewrite s32_id by lia.
    destruct (Z.ltb_spec size 0); [lia|]. eexists. split_and!; done.
Qed.

(** A device that does not run neither writes nor reads. *)
Lemma idle_write {W} {impl : CharDeviceImpl W} rc fuel (s : dev W) :
  running s = false -> write_to_device rc fuel s = Ok 0 s.
Proof. intros H. unfold write_to_device, bindM, getS. by rewrite H. Qed.
Lemma idle_read {W} {impl : CharDeviceImpl W} rc fuel (s : dev W) :
  running s = false -> red_char_device_read_from_device rc fuel s = Ok false s.
Proof. intros H. unfold red_char_device_read_from_device, bindM, getS. by rewrite H. Qed.


(** A device in the middle of a buffer, and the one that takes over. *)
Definition mig_client (tokens : Z) : dclient := mkDClient 9 true tokens 0 3 false false [] 5.
Definition mig_source : dev (list Z) :=
  set_clients [mig_client 7] (set_cur_write_buf_pos 2
    (set_cur_write_buf (Some (mkWbuf 1 10 [1; 2; 3; 4] 9 WRITE_BUFFER_ORIGIN_CLIENT 1 1))
       (set_write_queue [server_buf 2 [5; 6]] (new_RedCharDevice [] true false 1 5)))).
Definition mig_target : dev (list Z) :=
  set_clients [mig_client 10] (set_wait_for_migrate_data true (new_RedCharDevice [] true false 1 5)).



