(* ===== verification/CharDeviceSend.v ===== *)
(** * Messages from a character device to its clients

    Messages that a client cannot take wait in its queue; the assertions of
    the code say that a message never overtakes one that waits.  They hold for
    methods that do not call back ([CharDeviceQuiet]); an implementation whose
    [send_msg_to_client] wakes the device up again can make one fail. *)

From Stdlib Require Import ZArith Lia.
From stdpp Require Import base sets list list_tactics numbers tactics option.
From S2P Require Import Prelude CharDevice CharDeviceThms.

Open Scope Z_scope.

(** ** Messages to the clients *)

(** Messages wait for a client only when it has no token. *)
Definition waits_ok (d : dclient) : Prop :=
  dc_send_queue d <> [] -> dc_flow d = true /\ dc_num_send_tokens d = 0.
Definition send_ok {W} (s : dev W) : Prop :=
  NoDup (dc_client <$> clients s) /\ Forall waits_ok (clients s).

Lemma find_dc_cons c x l : find_dc c (x :: l) = if decide (dc_client x = c) then Some x else find_dc c l.
Proof.
  unfold find_dc. simpl. case_decide; [done|]. by destruct (list_find _ l) as [[]|].
Qed.

Lemma find_dc_upd c f l d :
  (forall d, dc_client (f d) = dc_client d) -> find_dc c l = Some d -> find_dc c (upd_dc c f l) = Some (f d).
Proof.
  intros Hf. induction l as [|x l IH]; [done|]. unfold upd_dc in *. rewrite fmap_cons, !find_dc_cons.
  destruct (Z.eqb_spec (dc_client x) c) as [He|He].
  - rewrite Hf, !decide_True by done. by intros [= ->].
  - rewrite !decide_False by done. apply IH.
Qed.

Definition only_fuel (k : option ub_kind) : Prop := k = Some UbFuel.

(** An update that changes neither the queue nor the tokens. *)
Definition same_send (f : dclient -> dclient) : Prop :=
  forall d, dc_client (f d) = dc_client d /\ dc_send_queue (f d) = dc_send_queue d /\
    dc_flow (f d) = dc_flow d /\ dc_num_send_tokens (f d) = dc_num_send_tokens d.

Section sends.
Context {W : Type} {impl : CharDeviceImpl W} `{!CharDeviceQuiet impl}.
Context (rc : call -> M (dev W) unit) (fuel : nat) (ids : list Z).

(** [send_ok] with the clients known and [c] exempt. *)
Definition send_but (c : option Z) (s : dev W) : Prop :=
  dc_client <$> clients s = ids /\ NoDup ids /\
  Forall (fun d => c <> Some (dc_client d) -> waits_ok d) (clients s).
#[local] Abbreviation wpS c m s := (wp m (fun _ s' => send_but c s') (fun k _ => only_fuel k) s).

Lemma send_but_upd c c' f s :
  send_but c s -> (forall d, dc_client (f d) = dc_client d) ->
  (forall d, d ∈ clients s -> dc_client d = c' -> (c <> Some c' -> waits_ok d) ->
     c <> Some c' -> waits_ok (f d)) ->
  send_but c (set_clients (upd_dc c' f (clients s)) s).
Proof.
  intros (Hi & Hn & HF) Hf Hw. split_and!; [simpl; by rewrite upd_dc_ids|done|]. simpl. unfold upd_dc.
  apply Forall_fmap, Forall_lookup. intros i d Hd. pose proof (Forall_lookup_1 _ _ _ _ HF Hd) as Hwd.
  apply list_elem_of_lookup_2 in Hd. simpl. destruct (Z.eqb_spec (dc_client d) c') as [<-|]; [|done].
  rewrite Hf. by apply Hw.
Qed.

Lemma wp_callback_quiet {A B} (f : W -> A * list call * W) (k : A -> M (dev W) B) Q E s :
  (forall w, (f w).1.2 = []) ->
  (forall a w, wp (k a) Q E (set_env w s)) -> wp (bindM (callback rc f) k) Q E s.
Proof.
  intros Hq Hk. apply wp_bind. unfold wp at 1. rewrite callback_quiet by apply Hq. apply Hk.
Qed.

Lemma find_unique c s d d' :
  send_but None s -> find_dc c (clients s) = Some d -> d' ∈ clients s -> dc_client d' = c -> d' = d.
Proof.
  intros (Hi & Hn & _) Hf Hd' Hc. apply find_dc_some in Hf as [Hd ?].
  eapply NoDup_client; [by rewrite Hi|done|done|congruence].
Qed.

Lemma wp_send_one msg c s : c ∈ ids -> send_but None s -> wpS None (send_msg_to_one rc msg c) s.
Proof.
  intros Hc Hs. unfold send_msg_to_one. apply wp_getS.
  destruct (red_char_device_client_find s c) as [d|] eqn:Hf.
  2: { apply find_dc_none in Hf. by rewrite (proj1 Hs) in Hf. }
  pose proof (find_dc_some _ _ _ Hf) as [Hd Hdc].
  assert (waits_ok d) as Hw.
  { destruct Hs as (_ & _ & HF). apply list_elem_of_lookup in Hd as [i Hi].
    by apply (Forall_lookup_1 _ _ _ _ HF Hi). }
  unfold red_char_device_can_send_to_client. case_if.
  - assert (dc_send_queue d = []) as Hq.
    { destruct (dc_send_queue d) eqn:Eq; [done|]. destruct Hw as [Hfl Hz]; [by rewrite Eq|].
      rewrite Hfl, Hz in Eb. done. }
    apply wp_modS. rewrite Hq. apply wp_bind, wp_assert; [intros _|done].
    unfold wp. rewrite callback_quiet by apply quiet_send.
    apply (send_but_upd None c (fun d => set_dc_num_send_tokens (u64 (dc_num_send_tokens d - 1)) d) s); [done|done|].
    intros d' Hd' He _ _ Hne. simpl in Hne. by rewrite (find_unique _ _ _ _ Hs Hf Hd' He), Hq in Hne.
  - apply orb_false_iff in Eb as [Eb1 Eb2]. zbool. subst c.
    unfold red_char_device_add_msg_to_client_queue. case_if.
    { unfold red_char_device_handle_client_overflow, wp. rewrite callback_quiet by apply quiet_remove. done. }
    assert (forall s', send_but None s' -> wpS None
      (if negb (dc_wait_started d)
       then upd_client (dc_client d) (fun d => set_dc_wait_started true (set_dc_timer true d))
       else mret tt) s') as Hstart.
    { intros s' Hs'. case_if; [|done]. apply (send_but_upd None); [done|done|]. intros; by auto. }
    apply wp_modS, Hstart. apply (send_but_upd None); [done|done|]. intros d' Hd' He _ _ _.
    rewrite (find_unique _ _ _ _ Hs Hf Hd' He). done.
Qed.

Lemma wp_send_msg msg s : send_but None s -> wpS None (red_char_device_send_msg_to_clients rc msg) s.
Proof.
  intros Hs. unfold red_char_device_send_msg_to_clients. apply wp_getS. rewrite (proj1 Hs).
  assert (forall l, (forall c, c ∈ l -> c ∈ ids) -> forall s, send_but None s ->
            wpS None (iterM (send_msg_to_one rc msg) l) s) as Hl; [|by apply Hl].
  clear Hs s. induction l as [|c l IH]; intros Hin s Hs; [done|]. apply wp_bind.
  eapply wp_conseq; [apply wp_send_one; [set_solver|done]|]. intros ? s' Hs'. apply IH; [set_solver|done].
Qed.

Lemma wp_read_loop n max did s : send_but None s -> wpS None (read_loop rc n max did) s.
Proof.
  revert max did s. induction n as [|n IH]; intros max did s Hs; [done|].
  cbn [read_loop]. apply wp_getS. case_if; [done|].
  apply wp_callback_quiet; [apply quiet_read|]. intros [msg|] w.
  - apply wp_bind. eapply wp_conseq; [by apply wp_send_msg|]. intros ? s' Hs'. by apply IH.
  - apply wp_getS. case_if; [|done]. apply wp_modS. by apply IH.
Qed.

Lemma wp_read s : send_but None s -> wpS None (red_char_device_read_from_device rc fuel) s.
Proof.
  intros Hs. unfold red_char_device_read_from_device. apply wp_getS. case_if; [done|].
  apply wp_modS. case_if; [done|]. apply wp_bind. eapply wp_conseq; [by apply wp_read_loop|].
  intros did s' Hs'. apply wp_modS, wp_getS, wp_bind. by case_if.
Qed.

(** The loop ends with an empty queue or without tokens. *)
Lemma wp_queue_push n c s :
  c ∈ ids -> send_but (Some c) s ->
  Forall (fun d => dc_client d = c -> dc_send_queue d <> [] -> dc_flow d = true) (clients s) ->
  wpS None (red_char_device_client_send_queue_push rc n c) s.
Proof.
  intros Hc. revert s. induction n as [|n IH]; intros s Hs Hfl; [done|].
  cbn [red_char_device_client_send_queue_push]. apply wp_getS.
  destruct (red_char_device_client_find s c) as [d|] eqn:Hf.
  2: { apply find_dc_none in Hf. by rewrite (proj1 Hs) in Hf. }
  pose proof (find_dc_some _ _ _ Hf) as [Hd Hdc]. destruct Hs as (Hi & Hn & HF).
  assert (Huniq : forall d', d' ∈ clients s -> dc_client d' = c -> d' = d).
  { intros d' Hd' He. eapply NoDup_client; [by rewrite Hi|done|done|congruence]. }
  assert (Hall : waits_ok d -> send_but None s).
  { intros Hw. split_and!; [done|done|]. apply Forall_lookup. intros i d' Hd' _.
    destruct (decide (dc_client d' = c)) as [He|He].
    - rewrite (Huniq d'); [done|by eapply list_elem_of_lookup_2|done].
    - apply (Forall_lookup_1 _ _ _ _ HF Hd'). congruence. }
  destruct (dc_send_queue d) as [|msg q] eqn:Hq; [apply Hall; intros Hne; by rewrite Hq in Hne|].
  unfold red_char_device_can_send_to_client. case_if.
  { zbool. apply Hall. intros _. done. }
  apply wp_modS. apply wp_callback_quiet; [apply quiet_send|]. intros _ w.
  set (f := fun d => set_dc_num_send_tokens (u64 (dc_num_send_tokens d - 1)) (set_dc_send_queue q d)).
  apply (IH (set_env w (set_clients (upd_dc c f (clients s)) s))).
  - apply (send_but_upd (Some c)); [by split_and!|done|]. intros. congruence.
  - simpl. unfold upd_dc. apply Forall_fmap, Forall_lookup. intros i d' Hd'. simpl.
    pose proof (Forall_lookup_1 _ _ _ _ Hfl Hd') as Hfd. apply list_elem_of_lookup_2 in Hd'. simpl in Hfd.
    destruct (Z.eqb_spec (dc_client d') c) as [He|He]; [|intros; congruence].
    intros _ _. simpl. apply Hfd; [done|]. rewrite (Huniq d' Hd' He), Hq. done.
Qed.
(** *** The loops end

    One message is read per token of the client that has the most, and one
    message is sent per queue entry. *)

Definition no_fuel (k : option ub_kind) : Prop := k <> Some UbFuel.
Definition reading (s : dev W) : Prop := dc_client <$> clients s = ids /\ during_read s <= 1.
#[local] Abbreviation wpN m s := (wp m (fun _ s' => reading s') (fun k _ => no_fuel k) s).

Lemma reading_upd c f s :
  (forall d, dc_client (f d) = dc_client d) -> reading s ->
  reading (set_clients (upd_dc c f (clients s)) s).
Proof. intros Hf [Hi Hd]. split; [|done]. simpl. by rewrite upd_dc_ids. Qed.

Lemma wp_callback_reading {A} (f : W -> A * list call * W) s :
  (forall w, (f w).1.2 = []) -> reading s -> wpN (callback rc f) s.
Proof. intros Hq Hs. unfold wp. by rewrite callback_quiet. Qed.

Lemma wpN_send_one msg c s : reading s -> wpN (send_msg_to_one rc msg c) s.
Proof.
  intros Hs. unfold send_msg_to_one. apply wp_getS. destruct (red_char_device_client_find s c) as [d|]; [|done].
  case_if.
  - apply wp_modS, wp_bind, wp_assert; [intros _|done].
    apply wp_callback_reading; [apply quiet_send|by apply reading_upd].
  - unfold red_char_device_add_msg_to_client_queue. case_if.
    { apply wp_callback_reading; [apply quiet_remove|done]. }
    apply wp_modS. case_if; by repeat apply reading_upd.
Qed.

Lemma wpN_read_loop n max did s :
  ids <> [] -> reading s -> 0 <= max < Z.of_nat n -> max < 2 ^ 64 -> wpN (read_loop rc n max did) s.
Proof.
  intros Hne. revert max did s. induction n as [|n IH]; intros max did s Hs Hm Hb; [lia|].
  cbn [read_loop]. apply wp_getS.
  assert (clients s <> []) as Hcl. { destruct Hs as [Hi _]. intros E. rewrite E in Hi. by subst. }
  rewrite (bool_decide_eq_false_2 (clients s = [])), orb_false_r by done. case_if; [done|]. zbool.
  apply wp_callback_quiet; [apply quiet_read|]. intros [msg|] w.
  - apply wp_bind. unfold red_char_device_send_msg_to_clients. apply wp_getS.
    eapply wp_conseq.
    { apply (keeps_iter reading no_fuel (send_msg_to_one rc msg)); [|done]. intros c s'. apply wpN_send_one. }
    intros ? s' Hs'. cbn beta in Hs'. rewrite u64_id by lia. apply IH; [done|lia|lia].
  - apply wp_getS. case_if; [|done]. zbool. destruct Hs as [_ Hd]. simpl in *. lia.
Qed.

Definition few_tokens (B : Z) (s : dev W) : Prop :=
  Forall (fun d => dc_flow d = true /\ 0 <= dc_num_send_tokens d <= B) (clients s).

Lemma max_send_tokens_le B s :
  few_tokens B s -> 0 <= B -> 0 <= red_char_device_max_send_tokens s <= B.
Proof.
  unfold few_tokens, red_char_device_max_send_tokens. intros Hl HB.
  assert (forall m, 0 <= m <= B -> 0 <= max_send_tokens_from (clients s) m <= B) as H; [|apply H; lia].
  induction Hl as [|d l [Hf Hd] Hl IH]; intros m Hm; [done|].
  cbn [max_send_tokens_from]. rewrite Hf. apply IH. case_if; lia.
Qed.

Lemma wpN_read B s :
  ids <> [] -> dc_client <$> clients s = ids -> few_tokens B s -> 0 <= B < Z.of_nat fuel -> B < 2 ^ 64 ->
  wp (red_char_device_read_from_device rc fuel) (fun _ _ => True) (fun k _ => no_fuel k) s.
Proof.
  intros Hne Hi Hf HB HB64. unfold red_char_device_read_from_device. apply wp_getS. case_if; [done|].
  pose proof (max_send_tokens_le B s Hf ltac:(lia)) as Hmax. apply wp_modS. case_if; [done|]. zbool.
  apply wp_bind. eapply wp_conseq; [apply wpN_read_loop; [done| |lia|lia]|].
  - split; [done|simpl; lia].
  - intros did s' _. apply wp_modS, wp_getS, wp_bind. by case_if.
Qed.

Lemma few_tokens_upd B c f s :
  few_tokens B s ->
  (forall d, d ∈ clients s -> dc_client d = c -> dc_flow (f d) = true /\ 0 <= dc_num_send_tokens (f d) <= B) ->
  few_tokens B (set_clients (upd_dc c f (clients s)) s).
Proof.
  intros HF Hf. unfold few_tokens, upd_dc. simpl. apply Forall_fmap, Forall_lookup. intros i d Hd.
  pose proof (Forall_lookup_1 _ _ _ _ HF Hd) as HFd. apply list_elem_of_lookup_2 in Hd. simpl.
  destruct (Z.eqb_spec (dc_client d) c); [by apply Hf|done].
Qed.
Lemma wpN_queue_push B n c s d :
  NoDup ids -> dc_client <$> clients s = ids -> few_tokens B s -> B < 2 ^ 64 ->
  red_char_device_client_find s c = Some d -> (length (dc_send_queue d) < n)%nat ->
  wp (red_char_device_client_send_queue_push rc n c)
    (fun _ s' => dc_client <$> clients s' = ids /\ few_tokens B s') (fun k _ => no_fuel k) s.
Proof.
  intros Hnd. revert s d. induction n as [|n IH]; intros s d Hi Hfew HB Hf Hn; [lia|].
  cbn [red_char_device_client_send_queue_push]. apply wp_getS. rewrite Hf.
  pose proof (find_dc_some _ _ _ Hf) as [Hd Hdc].
  pose proof (proj1 (list.Forall_forall _ _) Hfew d Hd) as [Hflow Htok].
  destruct (dc_send_queue d) as [|msg q] eqn:Hq; [by split|].
  unfold red_char_device_can_send_to_client. rewrite Hflow. simpl negb at 2. case_if; [by split|]. zbool.
  apply wp_modS. apply wp_callback_quiet; [apply quiet_send|]. intros _ w.
  set (f := fun d => set_dc_num_send_tokens (u64 (dc_num_send_tokens d - 1)) (set_dc_send_queue q d)).
  assert (forall d', d' ∈ clients s -> dc_client d' = c -> d' = d) as Huniq.
  { intros d' Hd' He. eapply NoDup_client; [by rewrite Hi|done|done|congruence]. }
  apply (IH (set_env w (set_clients (upd_dc c f (clients s)) s)) (f d)).
  - simpl. by rewrite upd_dc_ids.
  - apply (few_tokens_upd B c f s Hfew). intros d' Hd' He. rewrite (Huniq d' Hd' He). simpl.
    rewrite u64_id by lia. split; [done|lia].
  - done.
  - unfold red_char_device_client_find. simpl. by apply find_dc_upd.
  - simpl in *. lia.
Qed.

Lemma send_but_none s : send_but None s -> send_ok s.
Proof.
  intros (Hi & Hn & HF). split; [by rewrite Hi|]. eapply Forall_impl; [|exact HF]. intros d Hd. by apply Hd.
Qed.

Lemma wp_absorb c tokens reset s d :
  send_but None s -> red_char_device_client_find s c = Some d -> 0 <= tokens < 2 ^ 32 ->
  wpS None (red_char_device_send_to_client_tokens_absorb rc fuel c tokens reset) s.
Proof.
  intros Hs Hf Ht. pose proof (find_dc_some _ _ _ Hf) as [Hd Hdc].
  assert (c ∈ ids) as Hc. { rewrite <- (proj1 Hs), <- Hdc. by apply list_elem_of_fmap_2. }
  assert (waits_ok d) as Hw.
  { destruct Hs as (_ & _ & HF). by apply (proj1 (list.Forall_forall _ _) HF). }
  unfold red_char_device_send_to_client_tokens_absorb. apply wp_getS. rewrite Hf. cbv zeta.
  set (num := u64 _). apply wp_modS. set (s1 := set_clients _ s). apply wp_bind.
  apply (wp_conseq _ (fun _ s' => send_but None s')).
  - case_bool_decide as Hq.
    + apply (send_but_upd None); [done|done|]. intros d' Hd' He _ _ Hne.
      rewrite (find_unique _ _ _ _ Hs Hf Hd' He) in Hne. by rewrite <- Hq in Hne.
    + destruct (Hw Hq) as [Hfl Hz].
      assert (num = tokens) as Hnum by (subst num; rewrite Hz, u64_id; destruct reset; lia).
      apply wp_bind, wp_assert; [intros _|intros E; zbool; lia].
      apply wp_queue_push; [done| |].
      * apply (send_but_upd (Some c)); [|done|by intros].
        destruct Hs as (Hi & Hn & HF). split_and!; [done|done|]. eapply Forall_impl; [|exact HF]. intros d' Hd' _.
        by apply Hd'.
      * simpl. unfold upd_dc. apply Forall_fmap, Forall_lookup. intros i d' Hd'. apply list_elem_of_lookup_2 in Hd'.
        simpl. destruct (Z.eqb_spec (dc_client d') c) as [He|He]; [|by intros].
        intros _ _. simpl. by rewrite (find_unique _ _ _ _ Hs Hf Hd' He).
  - intros ? s' Hs'. cbn beta in Hs'. apply wp_getS.
    destruct (red_char_device_client_find s' c) as [d'|] eqn:Hf'.
    2: { apply find_dc_none in Hf'. by rewrite (proj1 Hs') in Hf'. }
    assert (forall f, same_send f -> send_but None (set_clients (upd_dc c f (clients s')) s')) as Hsame.
    { intros f Hsf. apply (send_but_upd None); [done|intros x; apply Hsf|]. intros x _ _ Hx _.
      destruct (Hsf x) as (_ & E1 & E2 & E3). unfold waits_ok. rewrite E1, E2, E3. by apply Hx. }
    case_if.
    + apply wp_modS, wp_bind. eapply wp_conseq; [apply wp_read, Hsame; by intros []|by intros].
    + case_bool_decide; [done|]. apply Hsame. by intros [].
Qed.

Lemma wpN_absorb B c tokens reset s d :
  ids <> [] -> NoDup ids -> dc_client <$> clients s = ids -> few_tokens B s ->
  red_char_device_client_find s c = Some d -> 0 <= tokens <= B ->
  2 * B < Z.of_nat fuel -> 2 * B < 2 ^ 64 -> (length (dc_send_queue d) < fuel)%nat ->
  wp (red_char_device_send_to_client_tokens_absorb rc fuel c tokens reset)
    (fun _ _ => True) (fun k _ => no_fuel k) s.
Proof.
  intros Hne Hnd Hi Hfew Hf Ht HB HB64 Hlen. pose proof (find_dc_some _ _ _ Hf) as [Hd Hdc].
  pose proof (proj1 (list.Forall_forall _ _) Hfew d Hd) as [Hflow Htok].
  unfold red_char_device_send_to_client_tokens_absorb. apply wp_getS. rewrite Hf. cbv zeta.
  rewrite u64_id by (destruct reset; lia). set (num := (if reset then 0 else dc_num_send_tokens d) + tokens).
  assert (0 <= num <= 2 * B) as Hnum by (subst num; destruct reset; lia).
  apply wp_modS. set (s1 := set_clients _ s). apply wp_bind.
  assert (few_tokens (2 * B) s1) as Hfew1.
  { apply few_tokens_upd; [eapply Forall_impl; [|exact Hfew]; intros ? [? ?]; split; [done|lia]|].
    intros d' Hd' He. simpl. split; [|done]. by apply (proj1 (list.Forall_forall _ _) Hfew). }
  assert (dc_client <$> clients s1 = ids) as Hi1 by (simpl; by rewrite upd_dc_ids).
  apply (wp_conseq _ (fun _ s' => dc_client <$> clients s' = ids /\ few_tokens (2 * B) s')).
  - case_if; [done|]. apply wp_bind, wp_assert; [intros _|done].
    eapply wpN_queue_push; [done|done|done|done| |].
    + unfold red_char_device_client_find. simpl. by apply find_dc_upd.
    + done.
  - intros ? s' [Hi' Hfew']. apply wp_getS. destruct (red_char_device_client_find s' c) as [d'|] eqn:Hf'; [|done].
    case_if.
    + apply wp_modS, wp_bind. eapply wp_conseq; [apply (wpN_read (2 * B)); [done| | |lia|done]|done].
      * simpl. by rewrite upd_dc_ids.
      * apply few_tokens_upd; [done|]. intros x Hx _.
        exact (proj1 (list.Forall_forall _ _) Hfew' x Hx).
    + by case_if.
Qed.
End sends.


(** Two clients; the first has two messages waiting. *)
Definition waiting_dev {W} (w : W) : dev W :=
  set_running true (set_clients
    [mkDClient 1 true 5 0 0 true true [10; 11] 5; mkDClient 2 true 5 0 1 false false [] 5]
    (new_RedCharDevice w true false 1 5)).


(** A device whose [send_msg_to_client] wakes it up, with a message to read. *)
#[export] Instance waking_impl : CharDeviceImpl bool := {|
  sif_write := fun bs w => (0, [], w);
  read_one_msg_from_device := fun w : bool => (if w then Some 12 else None, [], false);
  send_msg_to_client := fun m c w => (tt, [CWakeup], w);
  send_tokens_to_client := fun c n w => (tt, [], w);
  on_free_self_token := fun w => (tt, [], w);
  remove_client := fun c w => (tt, [], w) |}.

