(* ===== verification/StreamDevice.v ===== *)
(** * The streaming device (red-stream-device.cpp)

    A guest agent writes messages to a port; [StreamDevice] reads them through
    [sif->read], which returns any number of bytes, and turns them into calls
    of the stream channel, of the cursor channel and of the server.  The state
    machine keeps a partly read header or message between calls.

    The layout of the protocol ([spice/stream-device.h], not part of the
    sources) is the parameter [StreamProto]; the port, the clock and the
    channels are the parameter [StreamEnv].  What the device does to the rest
    of the server is recorded in the trace [out].  A channel may report its
    queue ([stream_queue_stat]) from within a call. *)

From Stdlib Require Import ZArith Lia Ascii String.
From stdpp Require Import base list numbers tactics option strings.
From S2P Require Import Prelude.

Open Scope Z_scope.

(** ** The protocol *)

Record cursor_header := mkCursorHeader {
  cu_type : Z; cu_width : Z; cu_height : Z; cu_hot_spot_x : Z; cu_hot_spot_y : Z }.
Record StreamMsgFormat := mkFormat { fmt_width : Z; fmt_height : Z; fmt_codec : Z }.
Record display_info := mkDisplayInfo {
  di_stream_id : Z; di_device_address_len : Z; di_device_display_id : Z }.

Class StreamProto := {
  STREAM_DEVICE_PROTOCOL : Z;
  STREAM_TYPE_CAPABILITIES : Z; STREAM_TYPE_NOTIFY_ERROR : Z; STREAM_TYPE_START_STOP : Z;
  STREAM_TYPE_FORMAT : Z; STREAM_TYPE_DATA : Z; STREAM_TYPE_CURSOR_SET : Z;
  STREAM_TYPE_CURSOR_MOVE : Z; STREAM_TYPE_DEVICE_DISPLAY_INFO : Z;
  STREAM_CAP_END : Z; STREAM_MSG_CAPABILITIES_MAX_BYTES : Z;
  STREAM_MSG_CURSOR_SET_MAX_WIDTH : Z; STREAM_MSG_CURSOR_SET_MAX_HEIGHT : Z;
  sizeof_StreamDevHeader : Z; sizeof_StreamMsgFormat : Z; sizeof_StreamMsgCursorSet : Z;
  sizeof_StreamMsgCursorMove : Z; sizeof_StreamMsgDeviceDisplayInfo : Z;
  sizeof_StreamMsgNotifyError : Z; sizeof_AllMessages : Z;
  offsetof_device_address : Z; offsetof_cursor_data : Z;
  SPICE_CURSOR_TYPE_ALPHA : Z; SPICE_CURSOR_TYPE_COLOR24 : Z; SPICE_CURSOR_TYPE_COLOR32 : Z;
  SPICE_PORT_EVENT_OPENED : Z; SPICE_PORT_EVENT_CLOSED : Z;
  (** the fields of the structures, from their bytes *)
  dec_hdr : list Z -> Z * Z;       (** type, size *)
  dec_format : list Z -> StreamMsgFormat;
  dec_cursor_set : list Z -> cursor_header;
  dec_cursor_move : list Z -> Z * Z;
  dec_display_info : list Z -> display_info;
  (** version, padding, type, size *)
  enc_hdr : Z -> Z -> Z -> Z -> list Z;
  enc_error_code : Z -> list Z }.

(** What the header file fixes: widths of the fields, and sizes. *)
Class StreamProtoOk (P : StreamProto) : Prop := {
  hdr_size_ok : 0 < sizeof_StreamDevHeader < 256;
  dec_hdr_range bs : 0 <= (dec_hdr bs).2 < 2 ^ 32;
  format_size_ok : 0 < sizeof_StreamMsgFormat <= sizeof_AllMessages;
  cursor_set_size_ok : 0 < sizeof_StreamMsgCursorSet <= sizeof_AllMessages;
  cursor_move_size_ok : 0 < sizeof_StreamMsgCursorMove <= sizeof_AllMessages;
  info_size_ok : 0 < sizeof_StreamMsgDeviceDisplayInfo <= sizeof_AllMessages;
  caps_size_ok : 0 < STREAM_MSG_CAPABILITIES_MAX_BYTES <= sizeof_AllMessages;
  all_messages_ok : sizeof_AllMessages < 2 ^ 31;
  address_offset_ok : 0 <= offsetof_device_address <= sizeof_StreamMsgDeviceDisplayInfo;
  cursor_offset_ok : 0 <= offsetof_cursor_data <= sizeof_StreamMsgCursorSet;
  info_limit_ok : sizeof_StreamMsgDeviceDisplayInfo < 2 ^ 16;
  cursor_limits_ok : 0 <= STREAM_MSG_CURSOR_SET_MAX_WIDTH <= 1024 /\
                     0 <= STREAM_MSG_CURSOR_SET_MAX_HEIGHT <= 1024 /\
                     sizeof_StreamMsgCursorSet < 2 ^ 16;
  dec_cursor_range bs : 0 <= cu_width (dec_cursor_set bs) < 2 ^ 16 /\
                        0 <= cu_height (dec_cursor_set bs) < 2 ^ 16;
  dec_info_range bs : 0 <= di_device_address_len (dec_display_info bs) < 2 ^ 32;
  cap_end_ok : 0 <= STREAM_CAP_END < 2 ^ 16;
  (** a switch needs distinct labels *)
  types_distinct : NoDup [STREAM_TYPE_FORMAT; STREAM_TYPE_DEVICE_DISPLAY_INFO; STREAM_TYPE_DATA;
                          STREAM_TYPE_CURSOR_SET; STREAM_TYPE_CURSOR_MOVE; STREAM_TYPE_CAPABILITIES] }.

Definition MAX_DEVICE_ADDRESS_LEN : Z := 256.
Definition MAX_GUEST_CAPABILITIES_BYTES `{StreamProto} : Z := (STREAM_CAP_END + 7) / 8.

(** StreamDeviceDisplayInfo *)
Record StreamDeviceDisplayInfo := mkSDDI {
  stream_id : Z; device_address : list Z; device_display_id : Z }.

Inductive cursor_cmd :=
  | CURSOR_SET (x y visible unique : Z) (header : cursor_header) (data : list Z)
  | CURSOR_MOVE (x y : Z).

(** Calls of the rest of the server. *)
Inductive sevent :=
  | EvFormat (f : StreamMsgFormat)              (** stream_channel->change_format *)
  | EvData (bytes : list Z) (mm_time : Z)       (** stream_channel->send_data *)
  | EvCursor (cmd : cursor_cmd)                 (** cursor_channel->process_cmd *)
  | EvDisplayInfo (i : StreamDeviceDisplayInfo) (** reds_send_device_display_info *)
  | EvWrite (bytes : list Z)                    (** a server buffer is queued for the guest *)
  | EvSetState (state : Z)                      (** sif->state *)
  | EvWakeup | EvReset | EvChannelReset | EvChannelNew (id : Z) | EvChannelDestroy.

(** The port ([sif->read]: the number returned and the bytes stored), the
    server's clock and ids, and the queue statistics that a channel reports
    while it handles a call. *)
Class StreamEnv (V : Type) := {
  sif_read : Z -> V -> Z * list Z * V;
  mm_time : V -> Z;
  free_channel_id : V -> Z;
  channel_call : sevent -> V -> list Z * V;
  (** what a block from the allocator holds *)
  heap_junk : nat -> Z }.

Record sdev (V : Type) := mkSDev {
  hdr_raw : list Z; hdr_type : Z; hdr_size : Z; hdr_pos : Z;
  msg : list Z;            (** the block; its length is [msg_len] *)
  msg_pos : Z; has_error : bool; opened : bool; flow_stopped : bool;
  guest_capabilities : list Z; stream_channel : option Z; cursor_channel : option Z;
  close_timer : option bool; frame_mmtime : Z; device_display_info : StreamDeviceDisplayInfo;
  sd_active : bool; sd_sin : bool; out : list sevent; venv : V }.
Arguments mkSDev {V}.
Arguments hdr_raw {V}.
Arguments hdr_type {V}.
Arguments hdr_size {V}.
Arguments hdr_pos {V}.
Arguments msg {V}.
Arguments msg_pos {V}.
Arguments has_error {V}.
Arguments opened {V}.
Arguments flow_stopped {V}.
Arguments guest_capabilities {V}.
Arguments stream_channel {V}.
Arguments cursor_channel {V}.
Arguments close_timer {V}.
Arguments frame_mmtime {V}.
Arguments device_display_info {V}.
Arguments sd_active {V}.
Arguments sd_sin {V}.
Arguments out {V}.
Arguments venv {V}.

Definition set_hdr_raw {V} (v : list Z) (s : sdev V) : sdev V :=
  mkSDev v (hdr_type s) (hdr_size s) (hdr_pos s) (msg s) (msg_pos s) (has_error s) (opened s)
    (flow_stopped s) (guest_capabilities s) (stream_channel s) (cursor_channel s) (close_timer
    s) (frame_mmtime s) (device_display_info s) (sd_active s) (sd_sin s) (out s) (venv s).
Definition set_hdr_type {V} (v : Z) (s : sdev V) : sdev V :=
  mkSDev (hdr_raw s) v (hdr_size s) (hdr_pos s) (msg s) (msg_pos s) (has_error s) (opened s)
    (flow_stopped s) (guest_capabilities s) (stream_channel s) (cursor_channel s) (close_timer
    s) (frame_mmtime s) (device_display_info s) (sd_active s) (sd_sin s) (out s) (venv s).
Definition set_hdr_size {V} (v : Z) (s : sdev V) : sdev V :=
  mkSDev (hdr_raw s) (hdr_type s) v (hdr_pos s) (msg s) (msg_pos s) (has_error s) (opened s)
    (flow_stopped s) (guest_capabilities s) (stream_channel s) (cursor_channel s) (close_timer
    s) (frame_mmtime s) (device_display_info s) (sd_active s) (sd_sin s) (out s) (venv s).
Definition set_hdr_pos {V} (v : Z) (s : sdev V) : sdev V :=
  mkSDev (hdr_raw s) (hdr_type s) (hdr_size s) v (msg s) (msg_pos s) (has_error s) (opened s)
    (flow_stopped s) (guest_capabilities s) (stream_channel s) (cursor_channel s) (close_timer
    s) (frame_mmtime s) (device_display_info s) (sd_active s) (sd_sin s) (out s) (venv s).
Definition set_msg {V} (v : list Z) (s : sdev V) : sdev V :=
  mkSDev (hdr_raw s) (hdr_type s) (hdr_size s) (hdr_pos s) v (msg_pos s) (has_error s) (opened
    s) (flow_stopped s) (guest_capabilities s) (stream_channel s) (cursor_channel s)
    (close_timer s) (frame_mmtime s) (device_display_info s) (sd_active s) (sd_sin s) (out s)
    (venv s).
Definition set_msg_pos {V} (v : Z) (s : sdev V) : sdev V :=
  mkSDev (hdr_raw s) (hdr_type s) (hdr_size s) (hdr_pos s) (msg s) v (has_error s) (opened s)
    (flow_stopped s) (guest_capabilities s) (stream_channel s) (cursor_channel s) (close_timer
    s) (frame_mmtime s) (device_display_info s) (sd_active s) (sd_sin s) (out s) (venv s).
Definition set_has_error {V} (v : bool) (s : sdev V) : sdev V :=
  mkSDev (hdr_raw s) (hdr_type s) (hdr_size s) (hdr_pos s) (msg s) (msg_pos s) v (opened s)
    (flow_stopped s) (guest_capabilities s) (stream_channel s) (cursor_channel s) (close_timer
    s) (frame_mmtime s) (device_display_info s) (sd_active s) (sd_sin s) (out s) (venv s).
Definition set_opened {V} (v : bool) (s : sdev V) : sdev V :=
  mkSDev (hdr_raw s) (hdr_type s) (hdr_size s) (hdr_pos s) (msg s) (msg_pos s) (has_error s) v
    (flow_stopped s) (guest_capabilities s) (stream_channel s) (cursor_channel s) (close_timer
    s) (frame_mmtime s) (device_display_info s) (sd_active s) (sd_sin s) (out s) (venv s).
Definition set_flow_stopped {V} (v : bool) (s : sdev V) : sdev V :=
  mkSDev (hdr_raw s) (hdr_type s) (hdr_size s) (hdr_pos s) (msg s) (msg_pos s) (has_error s)
    (opened s) v (guest_capabilities s) (stream_channel s) (cursor_channel s) (close_timer s)
    (frame_mmtime s) (device_display_info s) (sd_active s) (sd_sin s) (out s) (venv s).
Definition set_guest_capabilities {V} (v : list Z) (s : sdev V) : sdev V :=
  mkSDev (hdr_raw s) (hdr_type s) (hdr_size s) (hdr_pos s) (msg s) (msg_pos s) (has_error s)
    (opened s) (flow_stopped s) v (stream_channel s) (cursor_channel s) (close_timer s)
    (frame_mmtime s) (device_display_info s) (sd_active s) (sd_sin s) (out s) (venv s).
Definition set_stream_channel {V} (v : option Z) (s : sdev V) : sdev V :=
  mkSDev (hdr_raw s) (hdr_type s) (hdr_size s) (hdr_pos s) (msg s) (msg_pos s) (has_error s)
    (opened s) (flow_stopped s) (guest_capabilities s) v (cursor_channel s) (close_timer s)
    (frame_mmtime s) (device_display_info s) (sd_active s) (sd_sin s) (out s) (venv s).
Definition set_cursor_channel {V} (v : option Z) (s : sdev V) : sdev V :=
  mkSDev (hdr_raw s) (hdr_type s) (hdr_size s) (hdr_pos s) (msg s) (msg_pos s) (has_error s)
    (opened s) (flow_stopped s) (guest_capabilities s) (stream_channel s) v (close_timer s)
    (frame_mmtime s) (device_display_info s) (sd_active s) (sd_sin s) (out s) (venv s).
Definition set_close_timer {V} (v : option bool) (s : sdev V) : sdev V :=
  mkSDev (hdr_raw s) (hdr_type s) (hdr_size s) (hdr_pos s) (msg s) (msg_pos s) (has_error s)
    (opened s) (flow_stopped s) (guest_capabilities s) (stream_channel s) (cursor_channel s) v
    (frame_mmtime s) (device_display_info s) (sd_active s) (sd_sin s) (out s) (venv s).
Definition set_frame_mmtime {V} (v : Z) (s : sdev V) : sdev V :=
  mkSDev (hdr_raw s) (hdr_type s) (hdr_size s) (hdr_pos s) (msg s) (msg_pos s) (has_error s)
    (opened s) (flow_stopped s) (guest_capabilities s) (stream_channel s) (cursor_channel s)
    (close_timer s) v (device_display_info s) (sd_active s) (sd_sin s) (out s) (venv s).
Definition set_device_display_info {V} (v : StreamDeviceDisplayInfo) (s : sdev V) : sdev V :=
  mkSDev (hdr_raw s) (hdr_type s) (hdr_size s) (hdr_pos s) (msg s) (msg_pos s) (has_error s)
    (opened s) (flow_stopped s) (guest_capabilities s) (stream_channel s) (cursor_channel s)
    (close_timer s) (frame_mmtime s) v (sd_active s) (sd_sin s) (out s) (venv s).
Definition set_sd_active {V} (v : bool) (s : sdev V) : sdev V :=
  mkSDev (hdr_raw s) (hdr_type s) (hdr_size s) (hdr_pos s) (msg s) (msg_pos s) (has_error s)
    (opened s) (flow_stopped s) (guest_capabilities s) (stream_channel s) (cursor_channel s)
    (close_timer s) (frame_mmtime s) (device_display_info s) v (sd_sin s) (out s) (venv s).
Definition set_out {V} (v : list sevent) (s : sdev V) : sdev V :=
  mkSDev (hdr_raw s) (hdr_type s) (hdr_size s) (hdr_pos s) (msg s) (msg_pos s) (has_error s)
    (opened s) (flow_stopped s) (guest_capabilities s) (stream_channel s) (cursor_channel s)
    (close_timer s) (frame_mmtime s) (device_display_info s) (sd_active s) (sd_sin s) v (venv s).
Definition set_venv {V} (v : V) (s : sdev V) : sdev V :=
  mkSDev (hdr_raw s) (hdr_type s) (hdr_size s) (hdr_pos s) (msg s) (msg_pos s) (has_error s)
    (opened s) (flow_stopped s) (guest_capabilities s) (stream_channel s) (cursor_channel s)
    (close_timer s) (frame_mmtime s) (device_display_info s) (sd_active s) (sd_sin s) (out s) v.

Section stream.
Context {P : StreamProto} {V : Type} {E : StreamEnv V}.
Abbreviation SD := (M (sdev V)).

Definition emit (e : sevent) : SD unit := modS (fun s => set_out (out s ++ [e]) s).

(** [wakeup] of the base class; a read in progress notes it and goes on. *)
Definition stream_queue_stat (num_items : Z) : SD unit :=
  s ← getS;
  if negb (opened s) then mret tt
  else if negb (num_items =? 0) then modS (set_flow_stopped true)
  else if flow_stopped s then modS (set_flow_stopped false);; emit EvWakeup
  else mret tt.

(** A call of a channel, during which it may report its queue. *)
Definition call_channel (e : sevent) : SD unit :=
  emit e;;
  s ← getS;
  let '(stats, v) := channel_call e (venv s) in
  modS (set_venv v);;
  iterM stream_queue_stat stats.

Definition fill_dev_hdr (msg_type msg_size : Z) : list Z :=
  enc_hdr STREAM_DEVICE_PROTOCOL 0 msg_type msg_size.

(** A server buffer without token of [total_size] bytes, filled and queued. *)
Definition send_to_guest (msg_type : Z) (payload : list Z) : SD unit :=
  emit (EvWrite (fill_dev_hdr msg_type (Z.of_nat (length payload)) ++ payload)).

Definition char_device_set_state (state : Z) : SD unit :=
  s ← getS;
  spice_assert (sd_sin s);;
  emit (EvSetState state).

Definition close_timer_func : SD unit :=
  s ← getS;
  if opened s && has_error s then char_device_set_state 0 else mret tt.

(** RedCharDevice::read *)
Definition dev_read (len : Z) : SD (Z * list Z) :=
  s ← getS;
  let '(n, bs, v) := sif_read (s32 len) (venv s) in
  modS (set_venv v);;
  (if 0 <? n then modS (set_sd_active true) else mret tt);;
  mret (n, bs).

(** Store [bs] at [pos]. *)
Definition splice (pos : Z) (bs buf : list Z) : list Z :=
  take (Z.to_nat pos) buf ++ bs ++ drop (Z.to_nat pos + length bs) buf.

(** [read(msg->buf + msg_pos, len)]: the callee may store [len] bytes there. *)
Definition read_msg (len : Z) : SD Z :=
  s ← getS;
  if (s32 len <? 0) || (Z.of_nat (length (msg s)) <? msg_pos s + s32 len) then undef UbHostOob
  else
    '(n, bs) ← dev_read len;
    modS (fun s => set_msg (splice (msg_pos s) bs (msg s)) s);;
    mret n.

Definition g_realloc (size : Z) (old : list Z) : list Z :=
  take (Z.to_nat size) old ++ (heap_junk <$> seq (length old) (Z.to_nat size - length old)).

Definition msg_len (s : sdev V) : Z := Z.of_nat (length (msg s)).

Definition string_bytes (t : string) : list Z :=
  (fun a => Z.of_nat (nat_of_ascii a)) <$> list_ascii_of_string t.

(** [StreamMsgNotifyError]: the code and the text with its terminator. *)
Definition handle_msg_invalid (error_msg : option string) : SD bool :=
  let text := default "Protocol error"%string error_msg in
  send_to_guest STREAM_TYPE_NOTIFY_ERROR (enc_error_code 0 ++ string_bytes text ++ [0]);;
  modS (set_has_error true);;
  mret false.

Definition handle_msg_format : SD bool :=
  s ← getS;
  n ← read_msg (u32 (sizeof_StreamMsgFormat - msg_pos s));
  if n <? 0 then handle_msg_invalid None
  else
    modS (fun s => set_msg_pos (u32 (msg_pos s + n)) s);;
    s ← getS;
    if msg_pos s <? sizeof_StreamMsgFormat then mret false
    else
      call_channel (EvFormat (dec_format (take (Z.to_nat sizeof_StreamMsgFormat) (msg s))));;
      mret true.

(** The bytes [device_address .. + len] of the message. *)
Definition address_bytes (len : Z) (s : sdev V) : list Z :=
  take (Z.to_nat len) (drop (Z.to_nat offsetof_device_address) (msg s)).

(** [memcpy] into the array of 256 characters, and the terminator. *)
Definition store_address (bytes : list Z) (len : Z) (old : list Z) : list Z :=
  <[Z.to_nat (len - 1) := 0]> (bytes ++ drop (length bytes) old).

Definition take_display_info (i : display_info) (len : Z) : SD unit :=
  s ← getS;
  if (Z.of_nat (length (device_address (device_display_info s))) <? len) ||
     (msg_len s <? offsetof_device_address + len)
  then undef UbHostOob
  else
    let info := mkSDDI (di_stream_id i)
      (store_address (address_bytes len s) len (device_address (device_display_info s)))
      (di_device_display_id i) in
    modS (set_device_display_info info);;
    emit (EvDisplayInfo info).

Definition handle_msg_device_display_info : SD bool :=
  modS (fun s => if msg_len s <? hdr_size s then set_msg (g_realloc (hdr_size s) (msg s)) s else s);;
  s ← getS;
  n ← read_msg (u32 (hdr_size s - msg_pos s));
  if n <=? 0 then s ← getS; mret (msg_pos s =? hdr_size s)
  else
    modS (fun s => set_msg_pos (u32 (msg_pos s + n)) s);;
    s ← getS;
    if negb (msg_pos s =? hdr_size s) then mret false
    else
      let i := dec_display_info (take (Z.to_nat offsetof_device_address) (msg s)) in
      let len := if MAX_DEVICE_ADDRESS_LEN <? di_device_address_len i
                 then Z.of_nat (length (device_address (device_display_info s)))
                 else di_device_address_len i in
      if len =? 0 then mret true
      else if hdr_size s <? offsetof_device_address + len then mret true
      else take_display_info i len;; mret true.

(** [memset] and [memcpy] of the capabilities that fit. *)
Definition copy_capabilities (size : Z) (buf : list Z) : list Z :=
  let n := Z.to_nat (Z.min MAX_GUEST_CAPABILITIES_BYTES size) in
  take n buf ++ replicate (Z.to_nat MAX_GUEST_CAPABILITIES_BYTES - n) 0.

Definition handle_msg_capabilities : SD bool :=
  s ← getS;
  if STREAM_MSG_CAPABILITIES_MAX_BYTES <? hdr_size s
  then handle_msg_invalid (Some "Wrong size for StreamMsgCapabilities"%string)
  else
    n ← read_msg (u32 (hdr_size s - msg_pos s));
    if n <? 0 then handle_msg_invalid None
    else
      modS (fun s => set_msg_pos (u32 (msg_pos s + n)) s);;
      s ← getS;
      if msg_pos s <? hdr_size s then mret false
      else
        modS (set_guest_capabilities (copy_capabilities (hdr_size s) (msg s)));;
        mret true.

Definition handle_msg_data : SD bool :=
  modS (fun s =>
    if msg_pos s =? 0
    then
      let s := set_frame_mmtime (mm_time (venv s)) s in
      if msg_len s <? hdr_size s then set_msg (g_realloc (hdr_size s) []) s else s
    else s);;
  s ← getS;
  n ← read_msg (u32 (hdr_size s - msg_pos s));
  if n <=? 0 then s ← getS; mret (msg_pos s =? hdr_size s)
  else
    modS (fun s => set_msg_pos (u32 (msg_pos s + n)) s);;
    s ← getS;
    if negb (msg_pos s =? hdr_size s) then mret false
    else
      call_channel (EvData (take (Z.to_nat (hdr_size s)) (msg s)) (frame_mmtime s));;
      mret true.

Definition get_cursor_type_bits (cursor_type : Z) : Z :=
  if cursor_type =? SPICE_CURSOR_TYPE_ALPHA then 32
  else if cursor_type =? SPICE_CURSOR_TYPE_COLOR24 then 24 + 1
  else if cursor_type =? SPICE_CURSOR_TYPE_COLOR32 then 32 + 1
  else 0.

(** [SPICE_ALIGN(width * height * bits, 8) / 8] as a [size_t] *)
Definition cursor_size_required (width height bits : Z) : Z :=
  Z.land (u64 (u64 (s32 (width * height)) * bits + 7)) (u64 (Z.lnot 7)) / 8.

(** [None] is the empty pointer. *)
Definition stream_msg_cursor_set_to_cursor_cmd (buf : list Z) (msg_size : Z) : SD (option cursor_cmd) :=
  let h := dec_cursor_set (take (Z.to_nat sizeof_StreamMsgCursorSet) buf) in
  if (STREAM_MSG_CURSOR_SET_MAX_WIDTH <? cu_width h) ||
     (STREAM_MSG_CURSOR_SET_MAX_HEIGHT <? cu_height h) then mret None
  else
    let bits := get_cursor_type_bits (cu_type h) in
    if bits =? 0 then mret None
    else
      let size_required := cursor_size_required (cu_width h) (cu_height h) bits in
      if msg_size <? u64 (sizeof_StreamMsgCursorSet + size_required) then mret None
      else if Z.of_nat (length buf) <? offsetof_cursor_data + size_required then undef UbHostOob
      else mret (Some (CURSOR_SET 0 0 1 0 h
                  (take (Z.to_nat size_required) (drop (Z.to_nat offsetof_cursor_data) buf)))).

Definition max_cursor_set_size : Z :=
  u32 (sizeof_StreamMsgCursorSet +
       (STREAM_MSG_CURSOR_SET_MAX_WIDTH * 4 + (STREAM_MSG_CURSOR_SET_MAX_WIDTH + 7) / 8)
       * STREAM_MSG_CURSOR_SET_MAX_HEIGHT).

Definition handle_msg_cursor_set : SD bool :=
  s ← getS;
  if (hdr_size s <? sizeof_StreamMsgCursorSet) || (max_cursor_set_size <? hdr_size s)
  then handle_msg_invalid (Some "Cursor size is invalid"%string)
  else
    modS (fun s => if msg_len s <? hdr_size s then set_msg (g_realloc (hdr_size s) (msg s)) s else s);;
    n ← read_msg (u32 (hdr_size s - msg_pos s));
    if n <=? 0 then mret false
    else
      modS (fun s => set_msg_pos (u32 (msg_pos s + n)) s);;
      s ← getS;
      if negb (msg_pos s =? hdr_size s) then mret false
      else
        cmd ← stream_msg_cursor_set_to_cursor_cmd (msg s) (msg_pos s);
        match cmd with
        | None => handle_msg_invalid None
        | Some c => call_channel (EvCursor c);; mret true
        end.

Definition handle_msg_cursor_move : SD bool :=
  s ← getS;
  n ← read_msg (u32 (hdr_size s - msg_pos s));
  if n <=? 0 then mret false
  else
    modS (fun s => set_msg_pos (u32 (msg_pos s + n)) s);;
    s ← getS;
    if negb (msg_pos s =? hdr_size s) then mret false
    else
      let '(x, y) := dec_cursor_move (take (Z.to_nat sizeof_StreamMsgCursorMove) (msg s)) in
      call_channel (EvCursor (CURSOR_MOVE x y));;
      mret true.

(** [while (read(buf, sizeof(buf)) > 0) continue;] *)
Fixpoint discard (n : nat) : SD unit :=
  match n with
  | O => undef UbFuel
  | S n' => '(k, _) ← dev_read (16 * 1024); if 0 <? k then discard n' else mret tt
  end.

(** The header loop; [false] when the port has no more bytes. *)
Fixpoint read_header (n : nat) : SD bool :=
  match n with
  | O => undef UbFuel
  | S n' =>
      s ← getS;
      if negb (hdr_pos s <? sizeof_StreamDevHeader) then mret true
      else
        '(k, bs) ← dev_read (sizeof_StreamDevHeader - hdr_pos s);
        modS (fun s => set_hdr_raw (splice (hdr_pos s) bs (hdr_raw s)) s);;
        if k <=? 0 then mret false
        else
          modS (fun s => set_hdr_pos (u8 (hdr_pos s + k)) s);;
          modS (fun s =>
            if sizeof_StreamDevHeader <=? hdr_pos s
            then set_msg_pos 0 (set_hdr_size (dec_hdr (hdr_raw s)).2
                                  (set_hdr_type (dec_hdr (hdr_raw s)).1 s))
            else s);;
          read_header n'
  end.

Definition handle_msg : SD bool :=
  s ← getS;
  let t := hdr_type s in
  if t =? STREAM_TYPE_FORMAT then
    (if negb (hdr_size s =? sizeof_StreamMsgFormat)
     then handle_msg_invalid (Some "Wrong size for StreamMsgFormat"%string) else handle_msg_format)
  else if t =? STREAM_TYPE_DEVICE_DISPLAY_INFO then
    (if sizeof_StreamMsgDeviceDisplayInfo + MAX_DEVICE_ADDRESS_LEN <? hdr_size s
     then handle_msg_invalid (Some "StreamMsgDeviceDisplayInfo too large"%string)
     else handle_msg_device_display_info)
  else if t =? STREAM_TYPE_DATA then
    (if 32 * 1024 * 1024 <? hdr_size s
     then handle_msg_invalid (Some "STREAM_DATA too large"%string) else handle_msg_data)
  else if t =? STREAM_TYPE_CURSOR_SET then handle_msg_cursor_set
  else if t =? STREAM_TYPE_CURSOR_MOVE then
    (if negb (hdr_size s =? sizeof_StreamMsgCursorMove)
     then handle_msg_invalid (Some "Wrong size for StreamMsgCursorMove"%string)
     else handle_msg_cursor_move)
  else if t =? STREAM_TYPE_CAPABILITIES then handle_msg_capabilities
  else handle_msg_invalid (Some "Invalid message type"%string).

Definition partial_read (fuel : nat) : SD bool :=
  s ← getS;
  if has_error s then
    discard fuel;;
    modS (set_close_timer (Some true));;
    mret false
  else if flow_stopped s || bool_decide (stream_channel s = None) then mret false
  else
    have_header ← read_header fuel;
    if negb have_header then mret false
    else
      handled ← handle_msg;
      (if (handled : bool)
       then modS (fun s =>
              let s := set_hdr_pos 0 s in
              if sizeof_AllMessages <? msg_len s
              then set_msg (g_realloc sizeof_AllMessages (msg s)) s else s)
       else mret tt);;
      s ← getS;
      mret (handled || has_error s).

(** [while (partial_read()) continue;]; the pipe item is always null. *)
Fixpoint read_one_msg (fuel n : nat) : SD unit :=
  match n with
  | O => undef UbFuel
  | S n' => again ← partial_read fuel; if (again : bool) then read_one_msg fuel n' else mret tt
  end.

(** [start]: StreamMsgStartStop and its codecs, as bytes. *)
Definition stream_start (start : list Z) : SD unit :=
  s ← getS;
  if negb (opened s) then mret tt else send_to_guest STREAM_TYPE_START_STOP start.

Definition create_channel : SD unit :=
  s ← getS;
  if bool_decide (is_Some (stream_channel s)) then mret tt
  else
    let id := free_channel_id (venv s) in
    if id <? 0 then mret tt
    else
      modS (fun s => set_cursor_channel (Some id) (set_stream_channel (Some id) s));;
      emit (EvChannelNew id).

Definition reset_channels : SD unit :=
  s ← getS;
  if bool_decide (is_Some (stream_channel s)) then call_channel EvChannelReset else mret tt.

Definition send_capabilities : SD unit :=
  send_to_guest STREAM_TYPE_CAPABILITIES (replicate (Z.to_nat MAX_GUEST_CAPABILITIES_BYTES) 0).

Definition port_event (event : Z) : SD unit :=
  if negb (event =? SPICE_PORT_EVENT_OPENED) && negb (event =? SPICE_PORT_EVENT_CLOSED) then mret tt
  else
    modS (set_opened (event =? SPICE_PORT_EVENT_OPENED));;
    (if event =? SPICE_PORT_EVENT_OPENED then create_channel;; send_capabilities else mret tt);;
    modS (fun s => set_flow_stopped false (set_has_error false (set_msg_pos 0 (set_hdr_pos 0 s))));;
    emit EvReset;;
    reset_channels;;
    char_device_set_state 1.

(** StreamDevice::StreamDevice; the object is zeroed when it is allocated. *)
Definition new_StreamDevice (v : V) (s_in : bool) : sdev V :=
  mkSDev (replicate (Z.to_nat sizeof_StreamDevHeader) 0) 0 0 0 (g_realloc sizeof_AllMessages [])
    0 false false false (replicate (Z.to_nat MAX_GUEST_CAPABILITIES_BYTES) 0) None None None 0
    (mkSDDI 0 (replicate (Z.to_nat MAX_DEVICE_ADDRESS_LEN) 0) 0) false s_in [] v.

Definition stream_device_connect (v : V) : sdev V :=
  let s := new_StreamDevice v true in set_out [EvSetState 1] s.

(** StreamDevice::~StreamDevice *)
Definition delete_StreamDevice : SD unit :=
  modS (set_close_timer None);;
  s ← getS;
  (if bool_decide (is_Some (stream_channel s)) then emit EvChannelDestroy else mret tt);;
  (if bool_decide (is_Some (cursor_channel s)) then emit EvChannelDestroy else mret tt);;
  modS (set_msg []).

Definition get_stream_channel_id (s : sdev V) : Z := default (-1) (stream_channel s).
End stream.
