(* ===== verification/StreamDeviceThms.v ===== *)
(** * The streaming device: what a guest's bytes do

    A reference parser says what a sequence of bytes means; the state machine
    implements it however the port cuts the sequence into pieces. *)

From Stdlib Require Import ZArith Lia Ascii String.
From stdpp Require Import base list numbers tactics option strings.
From S2P Require Import Prelude StreamDevice.

Open Scope Z_scope.

(** The port: [avail] are the bytes that the guest has written and the device
    has not read.  A read stores at most what was asked for; a channel that
    handles a call does not touch the port. *)
Class StreamEnvOk {V} (E : StreamEnv V) (avail : V -> list Z) : Prop := {
  sif_read_ok len v :
    0 <= len ->
    let '(n, bs, v') := sif_read len v in
    n = Z.of_nat (length bs) /\ n <= len /\ avail v = bs ++ avail v';
  channel_call_ok e v : avail (channel_call e v).2 = avail v }.

(** ** The reference parser *)

(** The characters of an array up to its terminator. *)
Fixpoint c_string (l : list Z) : list Z :=
  match l with
  | [] => []
  | c :: l' => if c =? 0 then [] else c :: c_string l'
  end.

Inductive effect :=
  | FxFormat (f : StreamMsgFormat)
  | FxData (bytes : list Z)
  | FxCursor (cmd : cursor_cmd)
  | FxInfo (id : Z) (address : list Z) (display : Z).

Definition effect_of (e : sevent) : option effect :=
  match e with
  | EvFormat f => Some (FxFormat f)
  | EvData bytes _ => Some (FxData bytes)
  | EvCursor cmd => Some (FxCursor cmd)
  | EvDisplayInfo i =>
      Some (FxInfo (stream_id i) (c_string (device_address i)) (device_display_id i))
  | _ => None
  end.
Definition effects (l : list sevent) : list effect := omap effect_of l.

Lemma effects_app l l' : effects (l ++ l') = effects l ++ effects l'.
Proof. apply omap_app. Qed.
Lemma effects_cons e l :
  effects (e :: l) = match effect_of e with Some x => x :: effects l | None => effects l end.
Proof. done. Qed.

Lemma c_string_cut a b : c_string (a ++ 0 :: b) = c_string a.
Proof. induction a as [|c a IH]; [done|]. simpl. by rewrite IH. Qed.

(** Slices of the payload at the start of the block. *)
Lemma take_prefix {A} n (l q : list A) : take (length q) l = q -> (n <= length q)%nat -> take n l = take n q.
Proof. intros Hq Hn. rewrite <- Hq at 1. rewrite take_take. f_equal. lia. Qed.

Lemma slice_prefix {A} off n (l q : list A) :
  take (length q) l = q -> (off + n <= length q)%nat -> take n (drop off l) = take n (drop off q).
Proof. intros Hq Hn. rewrite !take_drop_commute. by rewrite (take_prefix (off + n) l q). Qed.

Section spec.
Context {P : StreamProto}.

(** The messages whose payload is read: the sizes the device accepts. *)
Definition size_ok (t size : Z) : bool :=
  if t =? STREAM_TYPE_FORMAT then size =? sizeof_StreamMsgFormat
  else if t =? STREAM_TYPE_DEVICE_DISPLAY_INFO
  then size <=? sizeof_StreamMsgDeviceDisplayInfo + MAX_DEVICE_ADDRESS_LEN
  else if t =? STREAM_TYPE_DATA then size <=? 32 * 1024 * 1024
  else if t =? STREAM_TYPE_CURSOR_SET
  then (sizeof_StreamMsgCursorSet <=? size) && (size <=? max_cursor_set_size)
  else if t =? STREAM_TYPE_CURSOR_MOVE then size =? sizeof_StreamMsgCursorMove
  else if t =? STREAM_TYPE_CAPABILITIES then size <=? STREAM_MSG_CAPABILITIES_MAX_BYTES
  else false.

(** A cursor: its size in bytes is [width * height * bits / 8], rounded up. *)
Definition spec_cursor (payload : list Z) : option cursor_cmd :=
  let h := dec_cursor_set (take (Z.to_nat sizeof_StreamMsgCursorSet) payload) in
  let bits := get_cursor_type_bits (cu_type h) in
  let size := (cu_width h * cu_height h * bits + 7) / 8 in
  if (cu_width h <=? STREAM_MSG_CURSOR_SET_MAX_WIDTH) &&
     (cu_height h <=? STREAM_MSG_CURSOR_SET_MAX_HEIGHT) && negb (bits =? 0) &&
     (sizeof_StreamMsgCursorSet + size <=? Z.of_nat (length payload))
  then Some (CURSOR_SET 0 0 1 0 h
               (take (Z.to_nat size) (drop (Z.to_nat offsetof_cursor_data) payload)))
  else None.

(** A display's address is cut at 256 characters, the last one a terminator;
    a message that announces no address or more than it has is ignored. *)
Definition spec_info (payload : list Z) : list effect :=
  let i := dec_display_info (take (Z.to_nat offsetof_device_address) payload) in
  let len := Z.min (di_device_address_len i) MAX_DEVICE_ADDRESS_LEN in
  if (Z.of_nat (length payload) <? offsetof_device_address + len) || (len =? 0)
  then []
  else [FxInfo (di_stream_id i)
          (c_string (take (Z.to_nat (len - 1)) (drop (Z.to_nat offsetof_device_address) payload)))
          (di_device_display_id i)].

(** [None]: the message is refused. *)
Definition message_effects (t : Z) (payload : list Z) : option (list effect) :=
  if t =? STREAM_TYPE_FORMAT then Some [FxFormat (dec_format payload)]
  else if t =? STREAM_TYPE_DEVICE_DISPLAY_INFO then Some (spec_info payload)
  else if t =? STREAM_TYPE_DATA then Some (if bool_decide (payload = []) then [] else [FxData payload])
  else if t =? STREAM_TYPE_CURSOR_SET
  then (fun c => [FxCursor c]) <$> spec_cursor payload
  else if t =? STREAM_TYPE_CURSOR_MOVE
  then Some [FxCursor (let '(x, y) := dec_cursor_move payload in CURSOR_MOVE x y)]
  else Some [].

Definition incomplete (rest : list Z) : Prop :=
  Z.of_nat (length rest) < sizeof_StreamDevHeader \/
  exists h q, rest = h ++ q /\ Z.of_nat (length h) = sizeof_StreamDevHeader /\
    size_ok (dec_hdr h).1 (dec_hdr h).2 = true /\ Z.of_nat (length q) < (dec_hdr h).2.

(** [parses bytes effects error rest] *)
Inductive parses : list Z -> list effect -> bool -> list Z -> Prop :=
  | parses_incomplete rest : incomplete rest -> parses rest [] false rest
  | parses_bad_header h p :
      Z.of_nat (length h) = sizeof_StreamDevHeader ->
      size_ok (dec_hdr h).1 (dec_hdr h).2 = false -> parses (h ++ p) [] true []
  | parses_refused h q p :
      Z.of_nat (length h) = sizeof_StreamDevHeader ->
      size_ok (dec_hdr h).1 (dec_hdr h).2 = true -> Z.of_nat (length q) = (dec_hdr h).2 ->
      message_effects (dec_hdr h).1 q = None -> parses (h ++ q ++ p) [] true []
  | parses_message h q p fx fx' e rest :
      Z.of_nat (length h) = sizeof_StreamDevHeader ->
      size_ok (dec_hdr h).1 (dec_hdr h).2 = true -> Z.of_nat (length q) = (dec_hdr h).2 ->
      message_effects (dec_hdr h).1 q = Some fx -> parses p fx' e rest ->
      parses (h ++ q ++ p) (fx ++ fx') e rest.

Lemma parses_app p fx rest q fx' e rest' :
  parses p fx false rest -> parses (rest ++ q) fx' e rest' -> parses (p ++ q) (fx ++ fx') e rest'.
Proof.
  intros Hp Hq. remember false as e0 eqn:He. induction Hp; simplify_eq; [done|].
  rewrite <- !(assoc_L (++)). econstructor; eauto.
Qed.

Lemma parses_error_app p fx rest q : parses p fx true rest -> parses (p ++ q) fx true [].
Proof.
  intros Hp. remember true as e0 eqn:He. induction Hp; simplify_eq; rewrite <- !(assoc_L (++)).
  - by apply parses_bad_header.
  - by apply parses_refused.
  - by apply parses_message; auto.
Qed.

Lemma parses_rest p fx rest : parses p fx false rest -> incomplete rest.
Proof. intros Hp. remember false as e0 eqn:He. induction Hp; simplify_eq; auto. Qed.

(** The reference parser is a function. *)
Lemma app_same_length {A} (a b c d : list A) : a ++ b = c ++ d -> length a = length c -> a = c /\ b = d.
Proof. intros H Hl. by apply app_inj_1 in H. Qed.

Lemma incomplete_header h p :
  Z.of_nat (length h) = sizeof_StreamDevHeader -> incomplete (h ++ p) ->
  size_ok (dec_hdr h).1 (dec_hdr h).2 = true /\ Z.of_nat (length p) < (dec_hdr h).2.
Proof.
  intros Hh [Hl|(h' & q & He & Hh' & Hs & Hl)]; [rewrite length_app in Hl; lia|].
  apply app_same_length in He as [-> ->]; [done|lia].
Qed.

Lemma parses_deterministic p fx e rest fx' e' rest' :
  parses p fx e rest -> parses p fx' e' rest' -> fx = fx' /\ e = e' /\ rest = rest'.
Proof.
  intros Hp. revert fx' e' rest'. induction Hp as [r Hr|h p Hh Hs|h q p Hh Hs Hq Hm|h q p fx fx1 e rest Hh Hs Hq Hm Hp IH].
  - intros fx' e' rest' Hp'. inversion Hp'; subst; [done|..]; apply incomplete_header in Hr; try done;
      destruct Hr as [? Hr]; try congruence; rewrite length_app in Hr; lia.
  - intros fx' e' rest' Hp'. inversion Hp' as [? Hi|h' p' Hh' Hs' He|h' q' p' Hh' Hs' Hq' Hm' He|h' q' p' ???? Hh' Hs' Hq' Hm' Hp1 He]; subst.
    + apply incomplete_header in Hi; [|done]. destruct Hi; congruence.
    + done.
    + apply app_same_length in He as [-> _]; [congruence|lia].
    + apply app_same_length in He as [-> _]; [congruence|lia].
  - intros fx' e' rest' Hp'. inversion Hp' as [? Hi|h' p' Hh' Hs' He|h' q' p' Hh' Hs' Hq' Hm' He|h' q' p' ???? Hh' Hs' Hq' Hm' Hp1 He]; subst.
    + apply incomplete_header in Hi; [|done]. rewrite length_app in Hi. destruct Hi; lia.
    + apply app_same_length in He as [-> _]; [congruence|lia].
    + done.
    + apply app_same_length in He as [-> He]; [|lia]. apply app_same_length in He as [-> _]; [congruence|lia].
  - intros fx' e' rest' Hp'. inversion Hp' as [? Hi|h' p' Hh' Hs' He|h' q' p' Hh' Hs' Hq' Hm' He|h' q' p' ???? Hh' Hs' Hq' Hm' Hp1 He]; subst.
    + apply incomplete_header in Hi; [|done]. rewrite length_app in Hi. destruct Hi; lia.
    + apply app_same_length in He as [-> _]; [congruence|lia].
    + apply app_same_length in He as [-> He]; [|lia]. apply app_same_length in He as [-> _]; [congruence|lia].
    + apply app_same_length in He as [-> He]; [|lia]. apply app_same_length in He as [-> ->]; [|lia].
      rewrite Hm in Hm'. simplify_eq. destruct (IH _ _ _ Hp1) as (-> & -> & ->). done.
Qed.
End spec.

(** ** The state machine *)

Section machine.
Context {P : StreamProto} {POK : StreamProtoOk P}.
Context {V : Type} {E : StreamEnv V} {avail : V -> list Z} {EOK : StreamEnvOk E avail}.
#[local] Abbreviation never := (fun (_ : option ub_kind) (_ : sdev V) => False).

(** The parts of the state that reading does not change, and the parts that a
    call of a channel does not change. *)
Definition sizes_ok (s : sdev V) : Prop :=
  Z.of_nat (length (hdr_raw s)) = sizeof_StreamDevHeader /\
  0 <= hdr_pos s <= sizeof_StreamDevHeader /\
  sizeof_AllMessages <= msg_len s /\
  Z.of_nat (length (device_address (device_display_info s))) = MAX_DEVICE_ADDRESS_LEN /\
  sd_sin s = true.

(** The bytes of an unfinished message are in the buffers. *)
Definition partial (rest : list Z) (s : sdev V) : Prop :=
  (Z.of_nat (length rest) < sizeof_StreamDevHeader /\
   hdr_pos s = Z.of_nat (length rest) /\ take (length rest) (hdr_raw s) = rest) \/
  (exists q, rest = hdr_raw s ++ q /\ hdr_pos s = sizeof_StreamDevHeader /\
     (hdr_type s, hdr_size s) = dec_hdr (hdr_raw s) /\
     msg_pos s = Z.of_nat (length q) /\ take (length q) (msg s) = q /\
     (msg_pos s = 0 \/ hdr_size s <= msg_len s)).

(** A call of a channel only changes the flow control and adds to the trace. *)
Lemma wp_queue_stats stats (Q : unit -> sdev V -> Prop) s :
  (forall b evs, effects evs = [] ->
     Q tt (set_out (out s ++ evs) (set_flow_stopped b s))) ->
  wp (iterM stream_queue_stat stats) Q never s.
Proof.
  revert s. induction stats as [|n stats IH]; intros s HQ.
  - specialize (HQ (flow_stopped s) [] eq_refl). rewrite app_nil_r in HQ. by destruct s.
  - cbn [iterM]. apply wp_bind. unfold stream_queue_stat. apply wp_getS.
    assert (wp (iterM stream_queue_stat stats) Q never s) as Hs by (apply IH; intros; by apply HQ).
    case_if; [done|]. case_if.
    { apply (IH (set_flow_stopped true s)). intros b evs Hevs. by apply (HQ b evs). }
    case_if; [|done]. apply wp_modS. unfold emit.
    apply (IH (set_out (out s ++ [EvWakeup]) (set_flow_stopped false s))). intros b evs Hevs.
    specialize (HQ b (EvWakeup :: evs)). simpl in HQ |- *. rewrite <- (assoc_L (++)). apply HQ.
    done.
Qed.

Lemma wp_call_channel e (Q : unit -> sdev V -> Prop) s :
  (forall v b evs, avail v = avail (venv s) -> effects evs = [] ->
     Q tt (set_venv v (set_out (out s ++ e :: evs) (set_flow_stopped b s)))) ->
  wp (call_channel e) Q never s.
Proof.
  intros HQ. unfold call_channel, emit. apply wp_modS, wp_getS. simpl venv.
  pose proof (channel_call_ok e (venv s)) as Hv. destruct (channel_call e (venv s)) as [stats v].
  apply wp_modS. apply wp_queue_stats. intros b evs Hevs. specialize (HQ v b evs Hv Hevs).
  simpl in HQ |- *. rewrite <- (assoc_L (++)). exact HQ.
Qed.

Lemma wp_dev_read len (Q : Z * list Z -> sdev V -> Prop) s :
  0 <= len < 2 ^ 31 ->
  (forall bs v a, Z.of_nat (length bs) <= len -> avail (venv s) = bs ++ avail v ->
     Q (Z.of_nat (length bs), bs) (set_sd_active a (set_venv v s))) ->
  wp (dev_read len) Q never s.
Proof.
  intros Hl HQ. unfold dev_read. apply wp_getS. rewrite s32_id by lia.
  pose proof (sif_read_ok len (venv s) ltac:(lia)) as Hr. destruct (sif_read len (venv s)) as [[n bs] v].
  destruct Hr as (-> & Hn & Hv). apply wp_modS, wp_bind. case_if.
  - by apply (HQ bs v true).
  - specialize (HQ bs v (sd_active s) Hn Hv). by destruct s.
Qed.

Lemma length_splice pos bs buf :
  0 <= pos -> pos + Z.of_nat (length bs) <= Z.of_nat (length buf) -> length (splice pos bs buf) = length buf.
Proof. intros Hp Hl. unfold splice. rewrite !length_app, length_take, length_drop. lia. Qed.

Lemma take_splice pos bs buf q :
  pos = Z.of_nat (length q) -> take (length q) buf = q ->
  take (length (q ++ bs)) (splice pos bs buf) = q ++ bs.
Proof.
  intros -> Hq. unfold splice. rewrite Nat2Z.id, Hq, (assoc_L (++)). by rewrite take_app_length.
Qed.

Lemma wp_read_msg len (Q : Z -> sdev V -> Prop) s :
  0 <= len < 2 ^ 31 -> 0 <= msg_pos s -> msg_pos s + len <= msg_len s ->
  (forall bs v a, Z.of_nat (length bs) <= len -> avail (venv s) = bs ++ avail v ->
     Q (Z.of_nat (length bs)) (set_msg (splice (msg_pos s) bs (msg s)) (set_sd_active a (set_venv v s)))) ->
  wp (read_msg len) Q never s.
Proof.
  intros Hl Hp Hb HQ. unfold read_msg. apply wp_getS. rewrite s32_id by lia. unfold msg_len in Hb.
  destruct (Z.ltb_spec len 0); [lia|]. destruct (Z.ltb_spec (Z.of_nat (length (msg s))) (msg_pos s + len)); [lia|].
  apply wp_bind, wp_dev_read; [done|]. intros bs v a Hbs Hv. apply wp_modS. by apply HQ.
Qed.

(** Reading the header keeps this part of the state. *)
Definition kept (s : sdev V) :=
  (msg s, has_error s, opened s, flow_stopped s, stream_channel s, cursor_channel s,
   device_display_info s, sd_sin s, out s).

Lemma kept_sizes s s' :
  kept s' = kept s -> sizes_ok s -> Z.of_nat (length (hdr_raw s')) = sizeof_StreamDevHeader ->
  0 <= hdr_pos s' <= sizeof_StreamDevHeader -> sizes_ok s'.
Proof.
  intros Hk (? & ? & Hm & Hd & Hsin) Hl Hp. injection Hk as E1 E2 E3 E4 E5 E6 E7 E8 E9.
  unfold sizes_ok, msg_len in *. rewrite E1, E7, E8. auto.
Qed.

Definition have_header (rest : list Z) (s : sdev V) : Prop :=
  exists q, rest = hdr_raw s ++ q /\ hdr_pos s = sizeof_StreamDevHeader /\
    (hdr_type s, hdr_size s) = dec_hdr (hdr_raw s) /\
    msg_pos s = Z.of_nat (length q) /\ take (length q) (msg s) = q /\
    (msg_pos s = 0 \/ hdr_size s <= msg_len s).

Lemma wp_read_header n rest s :
  sizes_ok s -> partial rest s -> sizeof_StreamDevHeader - hdr_pos s < Z.of_nat n ->
  wp (read_header n) (fun b s' =>
    exists bs, avail (venv s) = bs ++ avail (venv s') /\ kept s' = kept s /\ sizes_ok s' /\
      if (b : bool)
      then have_header (rest ++ bs) s' /\
        (bs = [] /\ hdr_pos s = sizeof_StreamDevHeader \/ rest ++ bs = hdr_raw s')
      else Z.of_nat (length (rest ++ bs)) < sizeof_StreamDevHeader /\ partial (rest ++ bs) s') never s.
Proof.
  pose proof hdr_size_ok as HH.
  revert rest s. induction n as [|n IH]; intros rest s Hs Hp Hn; [destruct Hs as (_ & ? & _); lia|].
  cbn [read_header]. apply wp_getS. pose proof Hs as (Hraw & Hpos & _).
  case_if; zbool.
  { exists []. split; [done|]. split; [done|]. split; [done|]. rewrite app_nil_r. destruct Hp as [(? & ? & _)|Hq]; [lia|]. split; [done|].
    left. split; [done|lia]. }
  destruct Hp as [(Hl & Hpe & Ht)|(q & _ & ? & _)]; [|lia].
  apply wp_bind, wp_dev_read; [lia|]. intros bs v a Hbs Hv. apply wp_modS. simpl hdr_pos. simpl hdr_raw.
  assert (length (splice (hdr_pos s) bs (hdr_raw s)) = length (hdr_raw s)) as Hlen by (apply length_splice; lia).
  assert (take (length (rest ++ bs)) (splice (hdr_pos s) bs (hdr_raw s)) = rest ++ bs) as Htake
    by (by apply take_splice).
  case_if; zbool.
  { assert (bs = []) as -> by (destruct bs; simpl in *; [done|lia]). exists []. split_and!; [done| | | |].
    - done.
    - eapply (kept_sizes s); [done|done|simpl; lia|simpl; lia].
    - rewrite app_nil_r. done.
    - left. rewrite app_nil_r in Htake |- *. split_and!; [done|done|simpl; exact Htake]. }
  apply wp_modS. simpl hdr_pos. rewrite u8_id by lia. apply wp_modS. simpl hdr_pos.
  case_if; zbool.
  - assert (rest ++ bs = splice (hdr_pos s) bs (hdr_raw s)) as Heq.
    { rewrite <- Htake. apply take_ge. rewrite Hlen, length_app. lia. }
    apply (wp_conseq _ (fun b s' => b = true /\
      s' = (let r := splice (hdr_pos s) bs (hdr_raw s) in
        set_msg_pos 0 (set_hdr_size (dec_hdr r).2 (set_hdr_type (dec_hdr r).1
          (set_hdr_pos (hdr_pos s + Z.of_nat (length bs)) (set_hdr_raw r (set_sd_active a (set_venv v s))))))))).
    + destruct n; [simpl in *; lia|]. cbn [read_header]. apply wp_getS. simpl hdr_pos.
      destruct (Z.ltb_spec (hdr_pos s + Z.of_nat (length bs)) sizeof_StreamDevHeader); [lia|]. done.
    + intros b s' (-> & ->). cbv zeta. exists bs. simpl venv. split; [done|]. split; [done|]. split.
      * eapply (kept_sizes s); [done|done|simpl; lia|simpl; lia].
      * split; [|by right]. exists []. simpl. rewrite app_nil_r.
        split_and!; [done|lia|by destruct (dec_hdr _)|done|done|by left].
  - eapply wp_conseq; [apply (IH (rest ++ bs))|].
    + eapply (kept_sizes s); [done|done|simpl; lia|simpl; lia].
    + left. simpl. rewrite length_app. split_and!; [lia|lia|]. by rewrite <- length_app.
    + simpl. lia.
    + intros b s' (bs' & Hv' & Hst & Hsz & Hb). exists (bs ++ bs'). simpl in Hv'.
      split; [by rewrite Hv, Hv', (assoc_L (++))|]. split; [exact Hst|]. split; [done|]. rewrite (assoc_L (++)).
      destruct b; [|done]. destruct Hb as [? [[_ Hfull]|?]]; [simpl in Hfull; lia|by auto].
Qed.

(** *** Handlers *)

(** What reading into the message keeps. *)
Definition skept (s : sdev V) :=
  (hdr_raw s, hdr_type s, hdr_size s, hdr_pos s, has_error s, device_display_info s, sd_sin s, out s).

(** [q] is the part of the message read before. *)
Definition handler_post (q : list Z) (s : sdev V) (b : bool) (s' : sdev V) : Prop :=
  exists bs, avail (venv s) = bs ++ avail (venv s') /\ sizes_ok s' /\ hdr_raw s' = hdr_raw s /\
    let t := (dec_hdr (hdr_raw s)).1 in let size := (dec_hdr (hdr_raw s)).2 in
    if b
    then has_error s' = false /\ Z.of_nat (length (q ++ bs)) = size /\ size_ok t size = true /\
      exists fx, message_effects t (q ++ bs) = Some fx /\ effects (out s') = effects (out s) ++ fx
    else effects (out s') = effects (out s) /\
      (if has_error s'
       then size_ok t size = false \/
         size_ok t size = true /\ Z.of_nat (length (q ++ bs)) = size /\ message_effects t (q ++ bs) = None
       else have_header (hdr_raw s ++ q ++ bs) s' /\ size_ok t size = true /\
         Z.of_nat (length (q ++ bs)) < size).

(** The state in which a handler starts. *)
Definition handler_pre (q : list Z) (s : sdev V) : Prop :=
  sizes_ok s /\ have_header (hdr_raw s ++ q) s /\ has_error s = false /\
  (q = [] \/ size_ok (hdr_type s) (hdr_size s) = true /\ Z.of_nat (length q) < hdr_size s).

Lemma handler_pre_dec q s :
  handler_pre q s -> (dec_hdr (hdr_raw s)).1 = hdr_type s /\ (dec_hdr (hdr_raw s)).2 = hdr_size s.
Proof. intros (_ & (? & _ & _ & He & _) & _). by rewrite <- He. Qed.

Lemma handler_pre_q q s :
  handler_pre q s -> msg_pos s = Z.of_nat (length q) /\ take (length q) (msg s) = q /\
    hdr_pos s = sizeof_StreamDevHeader /\ (q = [] \/ hdr_size s <= msg_len s) /\
    0 <= hdr_size s < 2 ^ 32 /\ Z.of_nat (length q) <= hdr_size s.
Proof.
  intros (_ & (q' & He & Hp & Hd & Hm & Ht & Hl) & _ & Hq). apply app_inv_head in He as <-.
  pose proof (dec_hdr_range (hdr_raw s)) as Hr. rewrite <- Hd in Hr. simpl in Hr.
  split_and!; [done|done|done| |lia|lia|].
  - destruct Hl as [Hl|Hl]; [left; destruct q; [done|simpl in *; lia]|by right].
  - destruct Hq as [->|[_ ?]]; simpl; lia.
Qed.

Lemma skept_sizes s s' : skept s' = skept s -> msg_len s <= msg_len s' -> sizes_ok s -> sizes_ok s'.
Proof.
  intros Hk Hl (? & ? & Hm & Hd & Hsin). injection Hk as E1 E2 E3 E4 E5 E6 E7 E8.
  unfold sizes_ok. rewrite E1, E4, E6, E7. split_and!; try done; lia.
Qed.

(** Read more of the message into a block that is large enough. *)
Lemma wp_read_more {A} size q (k : Z -> M (sdev V) A) Q s :
  msg_pos s = Z.of_nat (length q) -> take (length q) (msg s) = q ->
  Z.of_nat (length q) <= size -> size <= msg_len s -> size < 2 ^ 31 ->
  (forall bs s', Z.of_nat (length (q ++ bs)) <= size -> avail (venv s) = bs ++ avail (venv s') ->
     skept s' = skept s -> msg_pos s' = Z.of_nat (length q) ->
     take (length (q ++ bs)) (msg s') = q ++ bs -> msg_len s' = msg_len s ->
     frame_mmtime s' = frame_mmtime s -> wp (k (Z.of_nat (length bs))) Q never s') ->
  wp (bindM (read_msg (u32 (size - msg_pos s))) k) Q never s.
Proof.
  intros Hp Ht Hq Hsz H31 Hk. rewrite u32_id by lia.
  apply wp_bind, wp_read_msg; [lia|lia|lia|]. intros bs v a Hbs Hv.
  apply (Hk bs); try done.
  - rewrite length_app. lia.
  - simpl. by apply take_splice.
  - unfold msg_len in *. simpl. rewrite length_splice; lia.
Qed.

(** The outcomes of a handler. *)
Lemma post_more q bs s s' :
  handler_pre q s -> avail (venv s) = bs ++ avail (venv s') -> skept s' = skept s ->
  msg_pos s' = Z.of_nat (length (q ++ bs)) -> take (length (q ++ bs)) (msg s') = q ++ bs ->
  msg_len s <= msg_len s' -> hdr_size s <= msg_len s' -> size_ok (hdr_type s) (hdr_size s) = true ->
  Z.of_nat (length (q ++ bs)) < hdr_size s -> handler_post q s false s'.
Proof.
  intros Hpre Hv Hk Hp Ht Hl1 Hl2 Hok Hlt. pose proof (handler_pre_dec _ _ Hpre) as [D1 D2].
  pose proof (handler_pre_q _ _ Hpre) as (_ & _ & Hpos & _). destruct Hpre as (Hs & (q' & _ & _ & Hd & _) & He & _).
  exists bs. pose proof Hk as Hk'. injection Hk as E1 E2 E3 E4 E5 E6 E7 E8. cbv zeta. rewrite D1, D2, E5, He, E8.
  split_and!; [done|by eapply skept_sizes|done|done| |done|done].
  exists (q ++ bs). rewrite E1, E2, E3, E4. split_and!; [done|done|done|done|done|by right].
Qed.

Lemma wp_post_invalid q bs s s' e :
  handler_pre q s -> avail (venv s) = bs ++ avail (venv s') -> skept s' = skept s -> msg_len s <= msg_len s' ->
  (size_ok (hdr_type s) (hdr_size s) = false \/
   size_ok (hdr_type s) (hdr_size s) = true /\ Z.of_nat (length (q ++ bs)) = hdr_size s /\
     message_effects (hdr_type s) (q ++ bs) = None) ->
  wp (handle_msg_invalid e) (handler_post q s) never s'.
Proof.
  intros Hpre Hv Hk Hl Hc. pose proof (handler_pre_dec _ _ Hpre) as [D1 D2]. destruct Hpre as (Hs & _).
  pose proof (skept_sizes _ _ Hk Hl Hs) as Hs'. injection Hk as E1 E2 E3 E4 E5 E6 E7 E8.
  unfold handle_msg_invalid, send_to_guest, emit. do 2 apply wp_modS. exists bs.
  cbv zeta. rewrite D1, D2. split_and!; [done|exact Hs'|done| |exact Hc].
  simpl. by rewrite effects_app, effects_cons, app_nil_r, E8.
Qed.

Lemma post_done q bs s s' fx :
  handler_pre q s -> avail (venv s) = bs ++ avail (venv s') -> sizes_ok s' -> hdr_raw s' = hdr_raw s ->
  has_error s' = false -> size_ok (hdr_type s) (hdr_size s) = true ->
  Z.of_nat (length (q ++ bs)) = hdr_size s -> message_effects (hdr_type s) (q ++ bs) = Some fx ->
  effects (out s') = effects (out s) ++ fx -> handler_post q s true s'.
Proof.
  intros Hpre Hv Hs Hraw He Hok Hlen Hm Hfx. pose proof (handler_pre_dec _ _ Hpre) as [D1 D2].
  exists bs. cbv zeta. rewrite D1, D2. split_and!; try done. by exists fx.
Qed.

(** A call of a channel is the last thing a handler does. *)
Lemma wp_post_call q bs s s' e fx :
  handler_pre q s -> avail (venv s) = bs ++ avail (venv s') -> skept s' = skept s -> msg_len s <= msg_len s' ->
  size_ok (hdr_type s) (hdr_size s) = true ->
  Z.of_nat (length (q ++ bs)) = hdr_size s -> message_effects (hdr_type s) (q ++ bs) = Some [fx] ->
  effect_of e = Some fx ->
  wp (call_channel e;; mret true) (handler_post q s) never s'.
Proof.
  intros Hpre Hv Hk Hl Hok Hlen Hm He. apply wp_bind, wp_call_channel. intros v b evs Hav Hevs.
  pose proof (skept_sizes _ _ Hk Hl (proj1 Hpre)) as Hs'. pose proof Hpre as (_ & _ & Herr & _).
  injection Hk as E1 E2 E3 E4 E5 E6 E7 E8. apply (post_done q bs s _ [fx]); try done; simpl.
  - by rewrite Hav.
  - by rewrite E5.
  - by rewrite effects_app, effects_cons, He, Hevs, E8.
Qed.

Lemma pos_more (q bs : list Z) : Z.of_nat (length q) + Z.of_nat (length bs) = Z.of_nat (length (q ++ bs)).
Proof. rewrite length_app. lia. Qed.

(** [u32] of a position inside a message. *)
Lemma u32_pos (q bs : list Z) (size : Z) :
  Z.of_nat (length (q ++ bs)) <= size -> size < 2 ^ 31 ->
  u32 (Z.of_nat (length q) + Z.of_nat (length bs)) = Z.of_nat (length (q ++ bs)).
Proof. intros. rewrite pos_more. apply u32_id. lia. Qed.

Lemma take_payload {A} (l q : list A) (size : Z) :
  take (length q) l = q -> Z.of_nat (length q) = size -> take (Z.to_nat size) l = q.
Proof. intros Ht <-. by rewrite Nat2Z.id. Qed.

(** Arithmetic on the size of the block. *)
Ltac mlen := unfold msg_len in *; simpl; lia.

Lemma wp_handle_format q s :
  handler_pre q s -> hdr_size s = sizeof_StreamMsgFormat -> size_ok (hdr_type s) (hdr_size s) = true ->
  (forall q, message_effects (hdr_type s) q = Some [FxFormat (dec_format q)]) ->
  wp handle_msg_format (handler_post q s) never s.
Proof.
  intros Hpre Hsz Hok Hm. pose proof format_size_ok as HF. pose proof all_messages_ok as HA.
  pose proof (handler_pre_q _ _ Hpre) as (Hp & Ht & _ & _ & _ & Hq). pose proof Hpre as ((_ & _ & Hml & _) & _).
  unfold handle_msg_format. apply wp_getS. apply (wp_read_more _ q); [done|done|lia|lia|lia|].
  intros bs s1 Hle Hv Hk Hp1 Ht1 Hl1 _. destruct (Z.ltb_spec (Z.of_nat (length bs)) 0); [lia|].
  apply wp_modS, wp_getS. simpl msg_pos. rewrite Hp1, (u32_pos q bs sizeof_StreamMsgFormat) by lia.
  case_if; zbool.
  - apply (post_more q bs); simpl; try done; mlen.
  - apply (wp_post_call q bs s _ _ (FxFormat (dec_format (q ++ bs)))); try done; try mlen.
    simpl. by rewrite (take_payload _ _ _ Ht1) by lia.
Qed.

Lemma wp_handle_move q s :
  handler_pre q s -> hdr_size s = sizeof_StreamMsgCursorMove -> size_ok (hdr_type s) (hdr_size s) = true ->
  (forall q, message_effects (hdr_type s) q =
     Some [FxCursor (let '(x, y) := dec_cursor_move q in CURSOR_MOVE x y)]) ->
  wp handle_msg_cursor_move (handler_post q s) never s.
Proof.
  intros Hpre Hsz Hok Hm. pose proof cursor_move_size_ok as HF. pose proof all_messages_ok as HA.
  pose proof (handler_pre_q _ _ Hpre) as (Hp & Ht & _ & _ & _ & Hq). pose proof Hpre as ((_ & _ & Hml & _) & _ & _ & Hinc).
  unfold handle_msg_cursor_move. apply wp_getS. apply (wp_read_more _ q); [done|done|lia|lia|lia|].
  intros bs s1 Hle Hv Hk Hp1 Ht1 Hl1 _. pose proof Hk as Hk'. injection Hk as E1 E2 E3 E4 E5 E6 E7 E8.
  assert (Z.of_nat (length q) < hdr_size s) as Hlt by (destruct Hinc as [->|[_ ?]]; simpl; lia).
  destruct (Z.leb_spec (Z.of_nat (length bs)) 0).
  { assert (bs = []) as -> by (destruct bs; simpl in *; [done|lia]).
    apply (post_more q []); rewrite ?app_nil_r in *; try done; lia. }
  apply wp_modS, wp_getS. simpl msg_pos. simpl hdr_size. rewrite Hp1, (u32_pos q bs (hdr_size s)), E3 by lia.
  case_if; zbool.
  - apply (post_more q bs); simpl; try done; mlen.
  - simpl msg. rewrite (take_payload _ _ _ Ht1) by lia.
    assert (forall x y, dec_cursor_move (q ++ bs) = (x, y) ->
      wp (call_channel (EvCursor (CURSOR_MOVE x y));; mret true) (handler_post q s) never
         (set_msg_pos (Z.of_nat (length (q ++ bs))) s1)) as Hgo; [|by destruct (dec_cursor_move (q ++ bs)); apply Hgo].
    intros x y Hxy. apply (wp_post_call q bs s _ _ (FxCursor (CURSOR_MOVE x y))); try done; try mlen.
    by rewrite Hm, Hxy.
Qed.

Lemma wp_handle_caps q s :
  handler_pre q s -> hdr_size s <= STREAM_MSG_CAPABILITIES_MAX_BYTES ->
  size_ok (hdr_type s) (hdr_size s) = true ->
  (forall q, message_effects (hdr_type s) q = Some []) ->
  wp handle_msg_capabilities (handler_post q s) never s.
Proof.
  intros Hpre Hsz Hok Hm. pose proof caps_size_ok as HF. pose proof all_messages_ok as HA.
  pose proof (handler_pre_q _ _ Hpre) as (Hp & Ht & _ & _ & Hr & Hq). pose proof Hpre as (Hs & _ & He & _).
  pose proof Hs as (_ & _ & Hml & _).
  unfold handle_msg_capabilities. apply wp_getS. case_if; zbool; [lia|].
  apply (wp_read_more _ q); [done|done|lia|lia|lia|].
  intros bs s1 Hle Hv Hk Hp1 Ht1 Hl1 _. destruct (Z.ltb_spec (Z.of_nat (length bs)) 0); [lia|].
  pose proof Hk as Hk'. injection Hk as E1 E2 E3 E4 E5 E6 E7 E8.
  apply wp_modS, wp_getS. simpl msg_pos. simpl hdr_size. rewrite Hp1, (u32_pos q bs (hdr_size s)), E3 by lia.
  case_if; zbool.
  - apply (post_more q bs); simpl; try done; mlen.
  - apply wp_modS. apply (post_done q bs s _ []); simpl; try done; try lia.
    + apply (skept_sizes s); [done|mlen|done].
    + congruence.
    + by rewrite app_nil_r, E8.
Qed.

Lemma length_g_realloc n old : 0 <= n -> Z.of_nat (length (g_realloc n old)) = n.
Proof. intros Hn. unfold g_realloc. rewrite length_app, length_take, length_fmap, length_seq. lia. Qed.

Lemma take_g_realloc n old (q : list Z) :
  take (length q) old = q -> Z.of_nat (length q) <= n -> take (length q) (g_realloc n old) = q.
Proof.
  intros Hq Hn. unfold g_realloc. rewrite <- Hq at 2.
  assert (length q <= length old)%nat by (rewrite <- Hq, length_take; lia).
  rewrite take_app_le by (rewrite length_take; lia). rewrite take_take. f_equal. lia.
Qed.

(** The state after the block has been made large enough. *)
Definition grown (q : list Z) (s s' : sdev V) : Prop :=
  venv s' = venv s /\ skept s' = skept s /\ msg_pos s' = msg_pos s /\ take (length q) (msg s') = q /\
  msg_len s <= msg_len s' /\ hdr_size s <= msg_len s'.

Lemma grown_realloc q s :
  handler_pre q s ->
  grown q s (if msg_len s <? hdr_size s then set_msg (g_realloc (hdr_size s) (msg s)) s else s).
Proof.
  intros Hpre. pose proof (handler_pre_q _ _ Hpre) as (Hp & Ht & _ & _ & Hr & Hq). unfold grown. case_if; zbool.
  - unfold msg_len in *. simpl. rewrite length_g_realloc by lia. split_and!; try done; try lia.
    apply take_g_realloc; [done|lia].
  - split_and!; try done; lia.
Qed.

Lemma wp_handle_data q s :
  handler_pre q s -> hdr_size s <= 32 * 1024 * 1024 -> size_ok (hdr_type s) (hdr_size s) = true ->
  (forall q, message_effects (hdr_type s) q = Some (if bool_decide (q = []) then [] else [FxData q])) ->
  wp handle_msg_data (handler_post q s) never s.
Proof.
  intros Hpre Hsz Hok Hm.
  pose proof (handler_pre_q _ _ Hpre) as (Hp & Ht & _ & Hblk & Hr & Hq). pose proof Hpre as (Hs & _ & He & Hinc).
  unfold handle_msg_data. apply wp_modS, wp_getS. set (s0 := if msg_pos s =? 0 then _ else s).
  assert (grown q s s0) as (Gv & Gk & Gp & Gt & Gl & Gs).
  { unfold s0, grown. destruct (Z.eqb_spec (msg_pos s) 0) as [H0|H0].
    - assert (q = []) as -> by (destruct q; simpl in *; [done|lia]). cbv zeta.
      change (msg_len (set_frame_mmtime (mm_time (venv s)) s)) with (msg_len s). simpl hdr_size.
      case_if; zbool; unfold msg_len in *; simpl; [rewrite length_g_realloc by lia|]; split_and!; try done; lia.
    - split_and!; try done; try lia. destruct Hblk as [->|]; [simpl in *; lia|done]. }
  clearbody s0. assert (hdr_size s0 = hdr_size s) as Gh by (by injection Gk). rewrite Gh.
  apply (wp_read_more _ q); [congruence|done|lia|lia|lia|].
  intros bs s1 Hle Hv Hk Hp1 Ht1 Hl1 _. rewrite Gv in Hv. rewrite Gk in Hk.
  assert (hdr_size s1 = hdr_size s) as E3 by (by injection Hk).
  destruct (Z.leb_spec (Z.of_nat (length bs)) 0).
  { assert (bs = []) as -> by (destruct bs; simpl in *; [done|lia]). rewrite app_nil_r in *.
    apply wp_getS. rewrite Hp1, E3. destruct (Z.eqb_spec (Z.of_nat (length q)) (hdr_size s)) as [Heq|Hne].
    - assert (q = []) as -> by (destruct Hinc as [?|[_ ?]]; [done|lia]).
      apply (post_done [] [] s s1 []); [done|done| | | |done|done| |].
      + apply (skept_sizes s); [done|lia|done].
      + by injection Hk.
      + injection Hk as _ _ _ _ -> _ _ _. done.
      + by rewrite Hm.
      + injection Hk as _ _ _ _ _ _ _ ->. by rewrite app_nil_r.
    - apply (post_more q []); rewrite ?app_nil_r; try done; try lia. }
  apply wp_modS, wp_getS. simpl msg_pos. simpl hdr_size. rewrite Hp1, (u32_pos q bs (hdr_size s)), E3 by lia.
  case_if; zbool.
  - apply (post_more q bs); simpl; try done; mlen.
  - apply (wp_post_call q bs s _ _ (FxData (q ++ bs))); try done; try mlen.
    + rewrite Hm, bool_decide_eq_false_2; [done|]. destruct q, bs; simpl in *; done || lia.
    + simpl. by rewrite (take_payload _ _ _ Ht1) by lia.
Qed.

Lemma store_address_string bytes len old :
  0 < len -> Z.of_nat (length bytes) = len ->
  c_string (store_address bytes len old) = c_string (take (Z.to_nat (len - 1)) bytes).
Proof.
  intros Hl Hb. unfold store_address. rewrite insert_take_drop by (rewrite length_app; lia).
  rewrite c_string_cut, take_app_le by lia. done.
Qed.

Lemma length_store_address bytes len old :
  (length bytes <= length old)%nat -> length (store_address bytes len old) = length old.
Proof. intros Hl. unfold store_address. rewrite length_insert, length_app, length_drop. lia. Qed.

Lemma wp_take_info q bs s s' i len :
  handler_pre q s -> avail (venv s) = bs ++ avail (venv s') -> skept s' = skept s -> msg_len s <= msg_len s' ->
  size_ok (hdr_type s) (hdr_size s) = true -> Z.of_nat (length (q ++ bs)) = hdr_size s ->
  take (length (q ++ bs)) (msg s') = q ++ bs -> hdr_size s <= msg_len s' ->
  0 < len <= MAX_DEVICE_ADDRESS_LEN -> offsetof_device_address + len <= hdr_size s ->
  message_effects (hdr_type s) (q ++ bs) = Some [FxInfo (di_stream_id i)
    (c_string (take (Z.to_nat (len - 1)) (drop (Z.to_nat offsetof_device_address) (q ++ bs))))
    (di_device_display_id i)] ->
  wp (take_display_info i len;; mret true) (handler_post q s) never s'.
Proof.
  intros Hpre Hv Hk Hl Hok Hlen Ht Hsz Hr Hoff Hm. pose proof address_offset_ok as HO.
  pose proof (skept_sizes _ _ Hk Hl (proj1 Hpre)) as Hs'. pose proof Hs' as (S1 & S2 & S3 & S4 & S5).
  injection Hk as E1 E2 E3 E4 E5 E6 E7 E8. pose proof Hpre as (_ & _ & Herr & _).
  apply wp_bind. unfold take_display_info. apply wp_getS.
  destruct (Z.ltb_spec (Z.of_nat (length (device_address (device_display_info s')))) len); [lia|].
  destruct (Z.ltb_spec (msg_len s') (offsetof_device_address + len)); [lia|]. cbv zeta.
  assert (address_bytes len s' = take (Z.to_nat len) (drop (Z.to_nat offsetof_device_address) (q ++ bs))) as Hab.
  { apply slice_prefix; [done|lia]. }
  assert (Z.of_nat (length (address_bytes len s')) = len) as Hal.
  { rewrite Hab, length_take, length_drop. lia. }
  unfold emit. apply wp_modS. eapply post_done; try done; simpl.
  - unfold sizes_ok. simpl. rewrite length_store_address by lia. split_and!; try done; lia.
  - congruence.
  - rewrite effects_app, effects_cons, E8. simpl. rewrite store_address_string by lia.
    rewrite Hab, take_take. do 5 f_equal. lia.
Qed.

Lemma wp_handle_info q s :
  handler_pre q s -> hdr_size s <= sizeof_StreamMsgDeviceDisplayInfo + MAX_DEVICE_ADDRESS_LEN ->
  size_ok (hdr_type s) (hdr_size s) = true ->
  (forall q, message_effects (hdr_type s) q = Some (spec_info q)) ->
  wp handle_msg_device_display_info (handler_post q s) never s.
Proof.
  intros Hpre Hsz Hok Hm. pose proof info_size_ok as HI. pose proof info_limit_ok as HL. pose proof address_offset_ok as HO.
  unfold MAX_DEVICE_ADDRESS_LEN in Hsz.
  pose proof (handler_pre_q _ _ Hpre) as (Hp & Ht & _ & Hblk & Hr & Hq). pose proof Hpre as (Hs & _ & He & Hinc).
  unfold handle_msg_device_display_info. apply wp_modS, wp_getS.
  pose proof (grown_realloc q s Hpre) as (Gv & Gk & Gp & Gt & Gl & Gs). revert Gv Gk Gp Gt Gl Gs.
  generalize (if msg_len s <? hdr_size s then set_msg (g_realloc (hdr_size s) (msg s)) s else s) as s0.
  intros s0 Gv Gk Gp Gt Gl Gs. assert (hdr_size s0 = hdr_size s) as Gh by (by injection Gk). rewrite Gh.
  apply (wp_read_more _ q); [congruence|done|lia|lia|lia|].
  intros bs s1 Hle Hv Hk Hp1 Ht1 Hl1 _. rewrite Gv in Hv. rewrite Gk in Hk.
  assert (hdr_size s1 = hdr_size s) as E3 by (by injection Hk).
  assert (out s1 = out s) as E8 by (by injection Hk). assert (hdr_raw s1 = hdr_raw s) as E1 by (by injection Hk).
  assert (has_error s1 = false) as E5 by (by injection Hk as _ _ _ _ -> _ _ _).
  pose proof (skept_sizes s s1 Hk ltac:(lia) Hs) as Hs1.
  assert (forall s2, skept s2 = skept s1 -> msg s2 = msg s1 -> venv s2 = venv s1 ->
    Z.of_nat (length (q ++ bs)) = hdr_size s -> spec_info (q ++ bs) = [] -> handler_post q s true s2) as Hignore.
  { intros s2 K2 M2 V2 Hlen Hnil. apply (post_done q bs s s2 []); try done.
    - by rewrite V2.
    - apply (skept_sizes s1); [done|unfold msg_len; rewrite M2; lia|done].
    - by injection K2 as -> _ _ _ _ _ _ _.
    - by injection K2 as _ _ _ _ -> _ _ _.
    - by rewrite Hm, Hnil.
    - injection K2 as _ _ _ _ _ _ _ ->. by rewrite E8, app_nil_r. }
  destruct (Z.leb_spec (Z.of_nat (length bs)) 0).
  { assert (bs = []) as -> by (destruct bs; simpl in *; [done|lia]). rewrite app_nil_r in *.
    apply wp_getS. rewrite Hp1, E3. destruct (Z.eqb_spec (Z.of_nat (length q)) (hdr_size s)) as [Heq|Hne].
    - assert (q = []) as -> by (destruct Hinc as [?|[_ ?]]; [done|lia]).
      apply Hignore; try done. unfold spec_info. cbv zeta. simpl length.
      pose proof (dec_info_range (take (Z.to_nat offsetof_device_address) [])). unfold MAX_DEVICE_ADDRESS_LEN.
      case_if; [done|]. zbool. simpl in *. lia.
    - apply (post_more q []); rewrite ?app_nil_r; try done; lia. }
  apply wp_modS, wp_getS. simpl msg_pos. simpl hdr_size. rewrite Hp1, (u32_pos q bs (hdr_size s)), E3 by lia.
  case_if; zbool; [apply (post_more q bs); simpl; try done; mlen|]. cbv zeta. simpl msg. simpl device_display_info.
  pose proof Hs1 as (_ & _ & _ & -> & _).
  set (i := dec_display_info (take _ (msg s1))). pose proof (dec_info_range (take (Z.to_nat offsetof_device_address) (msg s1))) as Hir.
  fold i in Hir.
  set (len := if MAX_DEVICE_ADDRESS_LEN <? di_device_address_len i then _ else _).
  assert (len = Z.min (di_device_address_len i) MAX_DEVICE_ADDRESS_LEN) as Hlen by (unfold len, MAX_DEVICE_ADDRESS_LEN; case_if; zbool; lia).
  clearbody len.
  destruct (Z.lt_ge_cases (hdr_size s) offsetof_device_address) as [Hshort|Hlong].
  { assert (spec_info (q ++ bs) = []) as Hnil.
    { unfold spec_info. cbv zeta. case_if; [done|]. zbool.
      pose proof (dec_info_range (take (Z.to_nat offsetof_device_address) (q ++ bs))). unfold MAX_DEVICE_ADDRESS_LEN in *. lia. }
    case_if; [by apply Hignore|]. case_if; [by apply Hignore|]. zbool. unfold MAX_DEVICE_ADDRESS_LEN in *. lia. }
  assert (i = dec_display_info (take (Z.to_nat offsetof_device_address) (q ++ bs))) as Hi.
  { unfold i. f_equal. apply take_prefix; [done|lia]. }
  unfold spec_info in Hignore, Hm. cbv zeta in Hignore. rewrite <- Hi, <- Hlen in Hignore.
  case_if; zbool. { apply Hignore; try done. rewrite Eb0, orb_true_r. done. }
  case_if; zbool. { apply Hignore; try done. destruct (Z.ltb_spec (Z.of_nat (length (q ++ bs))) (offsetof_device_address + len)); [done|lia]. }
  apply (wp_take_info q bs); try done; try mlen.
  - unfold MAX_DEVICE_ADDRESS_LEN in *. lia.
  - rewrite Hm, <- Hi. cbv zeta. rewrite <- Hlen.
    destruct (Z.ltb_spec (Z.of_nat (length (q ++ bs))) (offsetof_device_address + len)); [lia|].
    destruct (Z.eqb_spec len 0); [lia|]. done.
Qed.

Lemma align8_div x : 0 <= x < 2 ^ 64 -> Z.land x (u64 (Z.lnot 7)) / 8 = x / 8.
Proof.
  intros Hx. change 8 with (2 ^ 3) at 1 2. rewrite <- !Z.shiftr_div_pow2, Z.shiftr_land by lia.
  change (Z.shiftr (u64 (Z.lnot 7)) 3) with (Z.ones 61). rewrite Z.land_ones, Z.shiftr_div_pow2 by lia.
  apply Z.mod_small. split; [apply Z.div_pos; lia|]. apply Z.div_lt_upper_bound; lia.
Qed.

(** "These computations can't overflow due to sizes checks above." *)
Lemma cursor_size_exact w h bits :
  0 <= w <= 1024 -> 0 <= h <= 1024 -> 0 <= bits <= 33 ->
  cursor_size_required w h bits = (w * h * bits + 7) / 8 /\ 0 <= (w * h * bits + 7) / 8 <= 4325376.
Proof.
  intros Hw Hh Hb. assert (0 <= w * h <= 1048576) by nia. assert (0 <= w * h * bits <= 34603008) by nia.
  unfold cursor_size_required. rewrite s32_id by lia. rewrite (u64_id (w * h)) by lia. rewrite u64_id by lia.
  rewrite align8_div by lia. split; [done|]. split; [apply Z.div_pos; lia|].
  apply Z.lt_succ_r. apply Z.div_lt_upper_bound; lia.
Qed.

Lemma cursor_bits_range t : 0 <= get_cursor_type_bits t <= 33.
Proof. unfold get_cursor_type_bits. repeat case_if; lia. Qed.

Lemma max_cursor_range : 0 <= max_cursor_set_size < 2 ^ 31.
Proof.
  pose proof cursor_limits_ok as (HW & HH & HS). pose proof cursor_set_size_ok. unfold max_cursor_set_size.
  set (w := STREAM_MSG_CURSOR_SET_MAX_WIDTH) in *. set (h := STREAM_MSG_CURSOR_SET_MAX_HEIGHT) in *.
  assert (0 <= (w + 7) / 8 <= 128) by (split; [apply Z.div_pos; lia|apply Z.lt_succ_r, Z.div_lt_upper_bound; lia]).
  assert (0 <= (w * 4 + (w + 7) / 8) * h <= 4325376) by nia. rewrite u32_id by lia. lia.
Qed.

Lemma wp_to_cursor_cmd (buf pl : list Z) (Q : option cursor_cmd -> sdev V -> Prop) s :
  take (length pl) buf = pl -> sizeof_StreamMsgCursorSet <= Z.of_nat (length pl) < 2 ^ 31 ->
  Q (spec_cursor pl) s ->
  wp (stream_msg_cursor_set_to_cursor_cmd buf (Z.of_nat (length pl))) Q never s.
Proof.
  intros Ht Hl HQ. pose proof cursor_limits_ok as (HW & HH & HS). pose proof cursor_set_size_ok. pose proof cursor_offset_ok.
  assert (length pl <= length buf)%nat as Hbl by (rewrite <- Ht, length_take; lia).
  unfold stream_msg_cursor_set_to_cursor_cmd. rewrite (take_prefix _ _ _ Ht) by lia.
  unfold spec_cursor in HQ. cbv zeta in *. set (h := dec_cursor_set _) in *.
  pose proof (dec_cursor_range (take (Z.to_nat sizeof_StreamMsgCursorSet) pl)) as [Rw Rh]. fold h in Rw, Rh.
  pose proof (cursor_bits_range (cu_type h)) as Hb.
  destruct (Z.ltb_spec STREAM_MSG_CURSOR_SET_MAX_WIDTH (cu_width h));
    [destruct (Z.leb_spec (cu_width h) STREAM_MSG_CURSOR_SET_MAX_WIDTH); [lia|exact HQ]|].
  destruct (Z.ltb_spec STREAM_MSG_CURSOR_SET_MAX_HEIGHT (cu_height h));
    [destruct (Z.leb_spec (cu_height h) STREAM_MSG_CURSOR_SET_MAX_HEIGHT); [lia|rewrite andb_false_r in HQ; exact HQ]|].
  destruct (Z.leb_spec (cu_width h) STREAM_MSG_CURSOR_SET_MAX_WIDTH); [|lia].
  destruct (Z.leb_spec (cu_height h) STREAM_MSG_CURSOR_SET_MAX_HEIGHT); [|lia]. cbn [orb andb] in *.
  destruct (get_cursor_type_bits (cu_type h) =? 0); [exact HQ|]. cbn [negb andb] in HQ.
  destruct (cursor_size_exact (cu_width h) (cu_height h) (get_cursor_type_bits (cu_type h))) as [-> Hsz]; [lia|lia|lia|].
  set (size := (_ + 7) / 8) in *. clearbody size. rewrite u64_id by lia.
  destruct (Z.ltb_spec (Z.of_nat (length pl)) (sizeof_StreamMsgCursorSet + size)).
  { destruct (Z.leb_spec (sizeof_StreamMsgCursorSet + size) (Z.of_nat (length pl))); [lia|exact HQ]. }
  destruct (Z.leb_spec (sizeof_StreamMsgCursorSet + size) (Z.of_nat (length pl))); [|lia].
  destruct (Z.ltb_spec (Z.of_nat (length buf)) (offsetof_cursor_data + size)); [lia|].
  rewrite (slice_prefix _ _ buf pl Ht) by lia. exact HQ.
Qed.

Lemma wp_handle_cursor_set q s :
  handler_pre q s ->
  sizeof_StreamMsgCursorSet <= hdr_size s <= max_cursor_set_size ->
  size_ok (hdr_type s) (hdr_size s) = true ->
  (forall q, message_effects (hdr_type s) q = (fun c => [FxCursor c]) <$> spec_cursor q) ->
  wp handle_msg_cursor_set (handler_post q s) never s.
Proof.
  intros Hpre Hsz Hok Hm. pose proof cursor_set_size_ok as HI. pose proof max_cursor_range as HX.
  pose proof (handler_pre_q _ _ Hpre) as (Hp & Ht & _ & Hblk & Hr & Hq). pose proof Hpre as (Hs & _ & He & Hinc).
  unfold handle_msg_cursor_set. apply wp_getS. case_if; [apply orb_true_iff in Eb as [?|?]; zbool; lia|]. clear Eb.
  apply wp_modS.
  pose proof (grown_realloc q s Hpre) as (Gv & Gk & Gp & Gt & Gl & Gs). revert Gv Gk Gp Gt Gl Gs.
  generalize (if msg_len s <? hdr_size s then set_msg (g_realloc (hdr_size s) (msg s)) s else s) as s0.
  intros s0 Gv Gk Gp Gt Gl Gs. rewrite <- Gp. apply (wp_read_more _ q); [congruence|done|lia|lia|lia|].
  intros bs s1 Hle Hv Hk Hp1 Ht1 Hl1 _. rewrite Gv in Hv. rewrite Gk in Hk.
  assert (hdr_size s1 = hdr_size s) as E3 by (by injection Hk).
  assert (Z.of_nat (length q) < hdr_size s) as Hlt by (destruct Hinc as [->|[_ ?]]; simpl; lia).
  destruct (Z.leb_spec (Z.of_nat (length bs)) 0).
  { assert (bs = []) as -> by (destruct bs; simpl in *; [done|lia]).
    apply (post_more q []); rewrite ?app_nil_r in *; try done; lia. }
  apply wp_modS, wp_getS. simpl msg_pos. simpl hdr_size. rewrite Hp1, (u32_pos q bs (hdr_size s)), E3 by lia.
  case_if; zbool; [apply (post_more q bs); simpl; try done; mlen|]. simpl msg.
  apply wp_bind, wp_to_cursor_cmd; [done|lia|]. specialize (Hm (q ++ bs)). destruct (spec_cursor (q ++ bs)) as [c|].
  - apply (wp_post_call q bs s _ _ (FxCursor c)); try done; mlen.
  - apply (wp_post_invalid q bs); try done; [mlen|]. right. done.
Qed.

(** The tests of [handle_msg] in the order of the switch. *)
Lemma wp_handle_msg q s : handler_pre q s -> wp handle_msg (handler_post q s) never s.
Proof.
  intros Hpre. unfold handle_msg. apply wp_getS. cbv zeta.
  assert (forall e, size_ok (hdr_type s) (hdr_size s) = false -> wp (handle_msg_invalid e) (handler_post q s) never s) as Hbad.
  { intros e Hk. apply (wp_post_invalid q []); try done. by left. }
  pose proof (eq_refl (size_ok (hdr_type s) (hdr_size s))) as Hso. unfold size_ok in Hso at 2.
  pose proof (fun q => eq_refl (message_effects (hdr_type s) q)) as Hme. unfold message_effects in Hme at 2.
  destruct (hdr_type s =? STREAM_TYPE_FORMAT).
  { case_if; zbool; [apply Hbad; rewrite Hso; by apply Z.eqb_neq|].
    apply wp_handle_format; [done|done| |done]. rewrite Hso. by apply Z.eqb_eq. }
  destruct (hdr_type s =? STREAM_TYPE_DEVICE_DISPLAY_INFO).
  { case_if; zbool; [apply Hbad; rewrite Hso; by apply Z.leb_gt|].
    apply wp_handle_info; [done|done| |done]. rewrite Hso. by apply Z.leb_le. }
  destruct (hdr_type s =? STREAM_TYPE_DATA).
  { case_if; zbool; [apply Hbad; rewrite Hso; by apply Z.leb_gt|].
    apply wp_handle_data; [done|done| |done]. rewrite Hso. by apply Z.leb_le. }
  destruct (hdr_type s =? STREAM_TYPE_CURSOR_SET).
  { destruct ((sizeof_StreamMsgCursorSet <=? hdr_size s) && (hdr_size s <=? max_cursor_set_size)) eqn:Hsz.
    - zbool. by apply wp_handle_cursor_set.
    - unfold handle_msg_cursor_set. apply wp_getS. apply andb_false_iff in Hsz.
      assert ((hdr_size s <? sizeof_StreamMsgCursorSet) || (max_cursor_set_size <? hdr_size s) = true) as ->.
      { apply orb_true_iff. rewrite !Z.ltb_lt. destruct Hsz as [?|?]; zbool; lia. }
      by apply Hbad. }
  destruct (hdr_type s =? STREAM_TYPE_CURSOR_MOVE).
  { case_if; zbool; [apply Hbad; rewrite Hso; by apply Z.eqb_neq|].
    apply wp_handle_move; [done|done| |done]. rewrite Hso. by apply Z.eqb_eq. }
  destruct (hdr_type s =? STREAM_TYPE_CAPABILITIES); [|by apply Hbad].
  destruct (Z.leb_spec (hdr_size s) STREAM_MSG_CAPABILITIES_MAX_BYTES); [by apply wp_handle_caps|].
  unfold handle_msg_capabilities. apply wp_getS. case_if; zbool; [by apply Hbad|lia].
Qed.

(** *** The whole machine *)

(** [p] are the bytes read since the device was opened, [base] the effects
    before. *)
Definition rep (base : list effect) (p : list Z) (s : sdev V) : Prop :=
  sizes_ok s /\ exists fx e rest, parses p fx e rest /\ effects (out s) = base ++ fx /\ has_error s = e /\
    (e = false -> partial rest s).

Lemma wp_discard n (Q : unit -> sdev V -> Prop) s :
  Z.of_nat (length (avail (venv s))) < Z.of_nat n ->
  (forall bs v a, avail (venv s) = bs ++ avail v -> Q tt (set_sd_active a (set_venv v s))) ->
  wp (discard n) Q never s.
Proof.
  revert s. induction n as [|n IH]; intros s Hn HQ; [lia|]. cbn [discard].
  apply wp_bind, wp_dev_read; [lia|]. intros bs v a Hbs Hv. case_if; zbool; [|by apply (HQ bs)].
  apply IH; [simpl; rewrite Hv, length_app in Hn; lia|]. intros bs' v' a' Hv'. simpl in Hv'.
  apply (HQ (bs ++ bs') v' a'). by rewrite Hv, Hv', (assoc_L (++)).
Qed.

Definition step_post (base : list effect) (p : list Z) (s : sdev V) (b : bool) (s' : sdev V) : Prop :=
  exists bs, avail (venv s) = bs ++ avail (venv s') /\ rep base (p ++ bs) s' /\
    (b = true -> has_error s = false /\ (bs <> [] \/ has_error s' = true)).

Lemma step_idle base p s : rep base p s -> step_post base p s false s.
Proof. intros Hr. exists []. by rewrite app_nil_r. Qed.

(** The message is finished: the header is empty and the block is cut. *)
Lemma sizes_finish s :
  sizes_ok s ->
  let s1 := set_hdr_pos 0 s in
  sizes_ok (if sizeof_AllMessages <? msg_len s1 then set_msg (g_realloc sizeof_AllMessages (msg s1)) s1 else s1).
Proof.
  intros (? & ? & ? & ? & ?) s1. pose proof format_size_ok.
  case_if; unfold sizes_ok, msg_len in *; simpl; rewrite ?length_g_realloc by lia; split_and!; try done; lia.
Qed.

Lemma parses_nil : parses [] [] false [].
Proof. pose proof hdr_size_ok. apply parses_incomplete. left. simpl. lia. Qed.

Lemma wp_handle_step base p fx rest bs0 s s1 :
  parses p fx false rest -> effects (out s) = base ++ fx -> has_error s = false ->
  avail (venv s) = bs0 ++ avail (venv s1) -> kept s1 = kept s -> sizes_ok s1 -> have_header (rest ++ bs0) s1 ->
  (bs0 = [] \/ rest ++ bs0 = hdr_raw s1) ->
  wp (handled ← handle_msg;
      (if (handled : bool)
       then modS (fun s =>
              let s := set_hdr_pos 0 s in
              if sizeof_AllMessages <? msg_len s
              then set_msg (g_realloc sizeof_AllMessages (msg s)) s else s)
       else mret tt);;
      s ← getS;
      mret (handled || has_error s)) (step_post base p s) never s1.
Proof.
  intros Hp Hfx He Hv Hk Hs1 Hh Hor. injection Hk as _ E2 _ _ _ _ _ _ E9.
  destruct Hh as (q & Hq & Hh). pose proof (parses_rest _ _ _ Hp) as Hinc.
  pose proof Hs1 as (Hraw & _). pose proof Hh as (_ & Hd & _).
  assert (bs0 = [] -> size_ok (hdr_type s1) (hdr_size s1) = true /\ Z.of_nat (length q) < hdr_size s1) as Hbs0.
  { intros ->. rewrite app_nil_r in Hq. subst rest. apply incomplete_header in Hinc; [|done].
    by rewrite <- Hd in Hinc. }
  assert (handler_pre q s1) as Hpre.
  { split_and!; [done|by exists q|congruence|]. destruct Hor as [Hor|Hor]; [right; by apply Hbs0|]. left.
    rewrite Hor in Hq. by apply (app_inv_head (hdr_raw s1)); rewrite app_nil_r. }
  apply wp_bind. eapply wp_conseq; [by apply (wp_handle_msg q)|].
  intros b s2 (bs1 & Hv1 & Hs2 & Hraw2 & Hpost). cbv zeta in Hpost. rewrite <- Hd in Hpost. cbn [fst snd] in Hpost.
  assert (avail (venv s) = (bs0 ++ bs1) ++ avail (venv s2)) as Hv2 by (by rewrite Hv, Hv1, (assoc_L (++))).
  assert (rest ++ bs0 ++ bs1 = hdr_raw s1 ++ q ++ bs1) as Hall by (by rewrite (assoc_L (++)), Hq, (assoc_L (++))).
  destruct b.
  - destruct Hpost as (He2 & Hlen & Hok & fx' & Hm & Hfx2). apply wp_modS, wp_getS. cbv zeta.
    exists (bs0 ++ bs1). split; [|split].
    + case_if; exact Hv2.
    + split; [by apply sizes_finish|]. exists (fx ++ fx'), false, []. split_and!.
      * eapply parses_app; [exact Hp|]. rewrite Hall. rewrite <- (app_nil_r (q ++ bs1)), <- (app_nil_r fx').
        apply parses_message; rewrite <- ?Hd; try done. apply parses_nil.
      * case_if; simpl; by rewrite Hfx2, E9, Hfx, (assoc_L (++)).
      * by case_if.
      * intros _. pose proof hdr_size_ok. left. case_if; simpl; split_and!; done || lia.
    + intros _. split; [done|]. left. intros Hnil. apply app_nil in Hnil as [-> ->].
      rewrite app_nil_r in Hlen. destruct (Hbs0 eq_refl). lia.
  - destruct Hpost as (Hfx2 & Hcase). apply wp_bind, wp_ret, wp_getS. cbn [orb].
    exists (bs0 ++ bs1). destruct (has_error s2) eqn:He2.
    + split; [done|]. split; [|by auto]. split; [done|]. exists fx, true, []. split_and!.
      * rewrite <- (app_nil_r fx). eapply parses_app; [exact Hp|]. rewrite Hall.
        destruct Hcase as [Hbad|(Hok & Hlen & Hnone)].
        -- by apply parses_bad_header; rewrite <- ?Hd.
        -- rewrite <- (app_nil_r (q ++ bs1)). by apply parses_refused; rewrite <- ?Hd.
      * by rewrite Hfx2, E9.
      * done.
      * done.
    + destruct Hcase as (Hh2 & Hok & Hlt). split; [done|]. split; [|by intros].
      split; [done|]. exists fx, false, (hdr_raw s1 ++ q ++ bs1). split_and!.
      * rewrite <- (app_nil_r fx). eapply parses_app; [exact Hp|]. rewrite Hall. apply parses_incomplete. right.
        exists (hdr_raw s1), (q ++ bs1). rewrite <- Hd. done.
      * by rewrite Hfx2, E9.
      * done.
      * intros _. right. exact Hh2.
Qed.

Lemma wp_partial_read fuel base p s :
  rep base p s -> sizeof_StreamDevHeader < Z.of_nat fuel ->
  Z.of_nat (length (avail (venv s))) < Z.of_nat fuel ->
  wp (partial_read fuel) (step_post base p s) never s.
Proof.
  intros Hr HH Hf. pose proof Hr as (Hs & fx & e & rest & Hp & Hfx & He & Hpart).
  unfold partial_read. apply wp_getS. rewrite He. destruct e.
  { apply wp_bind, wp_discard; [done|]. intros bs v a Hv. apply wp_modS. exists bs. split; [done|]. split; [|done].
    split; [done|]. exists fx, true, []. split_and!; [by eapply parses_error_app|done|done|done]. }
  case_if; [by apply step_idle|]. apply wp_bind.
  pose proof Hs as (_ & Hpos & _).
  eapply wp_conseq; [apply (wp_read_header fuel rest); [done|by apply Hpart|lia]|].
  intros b s1 (bs & Hv & Hk & Hs1 & Hb). destruct b; cbn [negb].
  - destruct Hb as [Hh Hor]. eapply wp_handle_step; eauto. destruct Hor as [[? _]|?]; auto.
  - destruct Hb as [Hl Hpart1]. injection Hk as _ E2 _ _ _ _ _ _ E9. exists bs. split; [done|]. split; [|done].
    split; [done|]. exists fx, false, (rest ++ bs). split_and!; [|congruence|congruence|done].
    rewrite <- (app_nil_r fx). eapply parses_app; [exact Hp|]. apply parses_incomplete. by left.
Qed.

Lemma wp_read_one_msg fuel n base p s :
  rep base p s -> sizeof_StreamDevHeader < Z.of_nat fuel ->
  Z.of_nat (length (avail (venv s))) < Z.of_nat fuel ->
  (if has_error s then 0 else Z.of_nat (length (avail (venv s))) + 1) < Z.of_nat n ->
  wp (read_one_msg fuel n) (fun _ s' => exists bs, avail (venv s) = bs ++ avail (venv s') /\ rep base (p ++ bs) s') never s.
Proof.
  revert p s. induction n as [|n IH]; intros p s Hr HH Hf Hn; [destruct (has_error s); lia|].
  cbn [read_one_msg]. apply wp_bind. eapply wp_conseq; [by apply (wp_partial_read fuel base p)|].
  intros b s1 (bs & Hv & Hr1 & Hprog). destruct b; [|by exists bs].
  destruct (Hprog eq_refl) as [He Hor]. rewrite He in Hn. rewrite Hv, length_app in Hn, Hf.
  eapply wp_conseq; [apply (IH (p ++ bs) s1 Hr1)|].
  - done.
  - lia.
  - destruct Hor as [Hne|He1]; [|rewrite He1; lia]. destruct bs; [done|]. simpl in Hn. case_if; lia.
  - intros ? s2 (bs' & Hv' & Hr'). exists (bs ++ bs'). rewrite <- (assoc_L (++)) in Hr'.
    by rewrite Hv, Hv', (assoc_L (++)).
Qed.

(** *** Sessions *)

(** What can happen between the opening of the port and its next event. *)
Inductive sop := ORead | OStat (num_items : Z) | OStart (bytes : list Z) | OTimer.
Definition run_sop (fuel : nat) (op : sop) : M (sdev V) unit :=
  match op with
  | ORead => read_one_msg fuel fuel
  | OStat n => stream_queue_stat n
  | OStart bytes => stream_start bytes
  | OTimer => close_timer_func
  end.

(** A step that only touches the flow control and adds other calls. *)
Lemma rep_silent base p b evs s :
  rep base p s -> effects evs = [] -> rep base p (set_out (out s ++ evs) (set_flow_stopped b s)).
Proof.
  intros (Hs & fx & e & rest & Hp & Hfx & He & Hpart) Hevs. split; [done|]. exists fx, e, rest.
  split_and!; [done| |done|done]. simpl. by rewrite effects_app, Hevs, app_nil_r.
Qed.

Lemma wp_silent base p b evs s :
  rep base p s -> effects evs = [] ->
  exists bs, avail (venv s) = bs ++ avail (venv (set_out (out s ++ evs) (set_flow_stopped b s))) /\
    rep base (p ++ bs) (set_out (out s ++ evs) (set_flow_stopped b s)).
Proof. intros Hr He. exists []. split; [done|]. rewrite app_nil_r. by apply rep_silent. Qed.

Lemma wp_run_sop fuel op base p s :
  rep base p s -> sizeof_StreamDevHeader < Z.of_nat fuel ->
  Z.of_nat (length (avail (venv s))) + 1 < Z.of_nat fuel ->
  wp (run_sop fuel op) (fun _ s' => exists bs, avail (venv s) = bs ++ avail (venv s') /\ rep base (p ++ bs) s') never s.
Proof.
  intros Hr HH Hf.
  assert (exists bs, avail (venv s) = bs ++ avail (venv s) /\ rep base (p ++ bs) s) as Hidle
    by (exists []; by rewrite app_nil_r).
  destruct op as [|n|bytes|]; cbn [run_sop].
  - apply wp_read_one_msg; [done|done|lia|]. destruct (has_error s); lia.
  - pose proof (fun Q H => wp_queue_stats [n] Q s H) as Hq. cbn [iterM] in Hq.
    specialize (Hq (fun _ s' => exists bs, avail (venv s) = bs ++ avail (venv s') /\ rep base (p ++ bs) s')).
    unfold wp, bindM in Hq |- *. destruct (stream_queue_stat n s); apply Hq; intros b evs Hevs; by apply wp_silent.
  - unfold stream_start. apply wp_getS. case_if; [done|].
    pose proof (wp_silent base p (flow_stopped s)
      [EvWrite (fill_dev_hdr STREAM_TYPE_START_STOP (Z.of_nat (length bytes)) ++ bytes)] s Hr eq_refl) as Hw.
    by destruct s.
  - unfold close_timer_func. apply wp_getS. case_if; [|done]. unfold char_device_set_state. apply wp_getS.
    apply wp_bind, wp_assert; [intros _|by destruct Hr as ((_ & _ & _ & _ & ->) & _)].
    pose proof (wp_silent base p (flow_stopped s) [EvSetState 0] s Hr eq_refl) as Hw. by destruct s.
Qed.

Lemma wp_run_sops fuel ops base p s :
  rep base p s -> sizeof_StreamDevHeader < Z.of_nat fuel ->
  Z.of_nat (length (avail (venv s))) + 1 < Z.of_nat fuel ->
  wp (iterM (run_sop fuel) ops)
    (fun _ s' => exists bs, avail (venv s) = bs ++ avail (venv s') /\ rep base (p ++ bs) s') never s.
Proof.
  revert p s. induction ops as [|op ops IH]; intros p s Hr HH Hf.
  { exists []. by rewrite app_nil_r. }
  cbn [iterM]. apply wp_bind. eapply wp_conseq; [by apply wp_run_sop|].
  intros ? s1 (bs & Hv & Hr1). rewrite Hv, length_app in Hf.
  eapply wp_conseq; [apply (IH (p ++ bs)); [done|done|lia]|].
  intros ? s2 (bs' & Hv' & Hr2). exists (bs ++ bs'). rewrite <- (assoc_L (++)) in Hr2. by rewrite Hv, Hv', (assoc_L (++)).
Qed.

(** Opening the port brings the machine to its start, whatever was before. *)
Lemma wp_port_opened s :
  sizes_ok s ->
  wp (port_event SPICE_PORT_EVENT_OPENED)
    (fun _ s' => avail (venv s') = avail (venv s) /\ rep (effects (out s)) [] s') never s.
Proof.
  intros Hs. unfold port_event. rewrite Z.eqb_refl. cbn [negb andb]. apply wp_modS.
  assert (forall s1, sizes_ok s1 -> avail (venv s1) = avail (venv s) -> effects (out s1) = effects (out s) ->
    wp (modS (fun s => set_flow_stopped false (set_has_error false (set_msg_pos 0 (set_hdr_pos 0 s))));;
        emit EvReset;; reset_channels;; char_device_set_state 1)
      (fun _ s' => avail (venv s') = avail (venv s) /\ rep (effects (out s)) [] s') never s1) as Hrest.
  { intros s1 Hs1 Hv1 Hfx1. apply wp_modS. unfold emit at 1. apply wp_modS.
    set (s2 := set_out _ _).
    assert (rep (effects (out s)) [] s2) as Hr2.
    { pose proof hdr_size_ok. destruct Hs1 as (A & B & C & D & F). split.
      - unfold sizes_ok, msg_len in *. simpl. split_and!; done || lia.
      - exists [], false, []. split_and!; [apply parses_nil| |done|].
        + simpl. by rewrite effects_app, effects_cons, Hfx1.
        + intros _. left. simpl. split_and!; done || lia. }
    assert (avail (venv s2) = avail (venv s)) as Hv2 by done. clearbody s2.
    assert (forall s3, avail (venv s3) = avail (venv s) -> rep (effects (out s)) [] s3 ->
      wp (char_device_set_state 1) (fun _ s' => avail (venv s') = avail (venv s) /\ rep (effects (out s)) [] s') never s3) as Hlast.
    { intros s3 Hv3 Hr3. unfold char_device_set_state. apply wp_getS.
      apply wp_bind, wp_assert; [intros _|by destruct Hr3 as ((_ & _ & _ & _ & ->) & _)]. split; [done|].
      pose proof (rep_silent _ _ (flow_stopped s3) [EvSetState 1] _ Hr3 eq_refl) as Hw. by destruct s3. }
    apply wp_bind. unfold reset_channels. apply wp_getS. case_if; [|by apply Hlast].
    apply wp_call_channel. intros v b evs Hav Hevs. apply Hlast; [simpl; congruence|].
    exact (rep_silent _ _ b (EvChannelReset :: evs) _ Hr2 Hevs). }
  apply wp_bind. unfold create_channel. apply wp_bind, wp_getS.
  assert (forall s1, sizes_ok s1 -> avail (venv s1) = avail (venv s) -> effects (out s1) = effects (out s) ->
    wp send_capabilities (fun _ s' => wp (modS (fun s => set_flow_stopped false (set_has_error false (set_msg_pos 0 (set_hdr_pos 0 s))));;
        emit EvReset;; reset_channels;; char_device_set_state 1)
      (fun _ s' => avail (venv s') = avail (venv s) /\ rep (effects (out s)) [] s') never s') never s1) as Hcaps.
  { intros s1 Hs1 Hv1 Hfx1. apply Hrest; [done|done|]. simpl. by rewrite effects_app, effects_cons, app_nil_r. }
  case_if; [by apply Hcaps|]. cbv zeta. case_if; [by apply Hcaps|]. apply wp_modS. apply Hcaps; [done|done|].
  simpl. by rewrite effects_app, effects_cons, app_nil_r.
Qed.
End machine.

(** ** Properties *)

(** A device that was just connected is in shape. *)
Lemma connect_sizes {P : StreamProto} {POK : StreamProtoOk P} {V} {E : StreamEnv V} (v : V) :
  sizes_ok (stream_device_connect v).
Proof.
  pose proof hdr_size_ok. pose proof format_size_ok. unfold sizes_ok, msg_len. simpl.
  rewrite length_replicate, length_g_realloc by lia. split_and!; try done; lia.
Qed.

(** A session from the opening of the port. *)
Lemma session_ok {P : StreamProto} {POK : StreamProtoOk P} {V} {E : StreamEnv V} avail
    {EOK : StreamEnvOk E avail} fuel ops (s : sdev V) :
  sizes_ok s -> sizeof_StreamDevHeader < Z.of_nat fuel ->
  Z.of_nat (length (avail (venv s))) + 1 < Z.of_nat fuel ->
  exists u s', (port_event SPICE_PORT_EVENT_OPENED;; iterM (run_sop fuel) ops) s = Ok u s' /\
    exists bytes, avail (venv s) = bytes ++ avail (venv s') /\ rep (effects (out s)) bytes s'.
Proof.
  intros Hs HH Hf.
  assert (wp (port_event SPICE_PORT_EVENT_OPENED;; iterM (run_sop fuel) ops)
    (fun _ s' => exists bytes, avail (venv s) = bytes ++ avail (venv s') /\ rep (effects (out s)) bytes s')
    (fun _ _ => False) s) as Hwp.
  { apply wp_bind. eapply wp_conseq; [by apply wp_port_opened|]. intros ? s1 [Hv1 Hr1].
    eapply wp_conseq; [apply (wp_run_sops fuel ops _ [] s1 Hr1 HH); by rewrite Hv1|].
    intros ? s2 (bs & Hv2 & Hr2). exists bs. by rewrite <- Hv1. }
  unfold wp in Hwp. destruct (bindM _ _ s) as [u s'| |]; [by exists u, s'|done..].
Qed.


(** how the port cuts the bytes does not matter.  Two sessions on ports
    with the same content that have read the same number of bytes have passed
    on the same formats, frames, cursors and infos and agree on the error. *)
Theorem stream_chunking_irrelevant {P : StreamProto} {POK : StreamProtoOk P}
    {V} {E : StreamEnv V} avail {EOK : StreamEnvOk E avail}
    {V'} {E' : StreamEnv V'} avail' {EOK' : StreamEnvOk E' avail'} fuel fuel' ops ops' v v' :
  sizeof_StreamDevHeader < Z.of_nat fuel -> Z.of_nat (length (avail v)) + 1 < Z.of_nat fuel ->
  sizeof_StreamDevHeader < Z.of_nat fuel' -> Z.of_nat (length (avail' v')) + 1 < Z.of_nat fuel' ->
  avail v = avail' v' ->
  match (port_event SPICE_PORT_EVENT_OPENED;; iterM (run_sop fuel) ops) (stream_device_connect v),
        (port_event SPICE_PORT_EVENT_OPENED;; iterM (run_sop fuel') ops') (stream_device_connect v') with
  | Ok _ s1, Ok _ s2 =>
      length (avail (venv s1)) = length (avail' (venv s2)) ->
      effects (out s1) = effects (out s2) /\ has_error s1 = has_error s2
  | _, _ => False
  end.
Proof.
  intros HH Hf HH' Hf' Heq.
  destruct (session_ok avail fuel ops (stream_device_connect v) (connect_sizes v) HH Hf)
    as (u & s1 & -> & b1 & Hv1 & _ & fx1 & e1 & r1 & Hp1 & Hx1 & He1 & _).
  destruct (session_ok avail' fuel' ops' (stream_device_connect v') (connect_sizes v') HH' Hf')
    as (u' & s2 & -> & b2 & Hv2 & _ & fx2 & e2 & r2 & Hp2 & Hx2 & He2 & _).
  intros Hlen. simpl in Hv1, Hv2. rewrite Hv1, Hv2 in Heq. apply app_inj_2 in Heq as [-> _]; [|done].
  destruct (parses_deterministic _ _ _ _ _ _ _ Hp1 Hp2) as (<- & He & _). by rewrite Hx1, Hx2, He1, He2.
Qed.

(** C31: the limit on cursor messages is exact enough.  Every cursor within the
    limits on width and height, of any type, fits a message of
    [max_cursor_set_size] bytes, and its size is computed without overflow. *)
Theorem cursor_limit_enough {P : StreamProto} {POK : StreamProtoOk P} w h t :
  0 <= w <= STREAM_MSG_CURSOR_SET_MAX_WIDTH -> 0 <= h <= STREAM_MSG_CURSOR_SET_MAX_HEIGHT ->
  let size := cursor_size_required w h (get_cursor_type_bits t) in
  size = (w * h * get_cursor_type_bits t + 7) / 8 /\
  sizeof_StreamMsgCursorSet + size <= max_cursor_set_size.
Proof.
  intros Hw Hh. cbv zeta. pose proof cursor_limits_ok as (HW & HH & HS). pose proof cursor_set_size_ok.
  pose proof (cursor_bits_range t) as Hb.
  destruct (cursor_size_exact w h (get_cursor_type_bits t)) as [-> Hr]; [lia|lia|lia|]. split; [done|].
  set (W := STREAM_MSG_CURSOR_SET_MAX_WIDTH) in *. set (H' := STREAM_MSG_CURSOR_SET_MAX_HEIGHT) in *.
  set (bits := get_cursor_type_bits t) in *. clearbody bits.
  assert (W <= 8 * ((W + 7) / 8) <= W + 7) as Hdiv.
  { pose proof (Z.mod_pos_bound (W + 7) 8 ltac:(lia)). pose proof (Z.div_mod (W + 7) 8 ltac:(lia)). lia. }
  unfold max_cursor_set_size. fold W H'. set (d := (W + 7) / 8) in *. clearbody d.
  assert (w * h * bits <= 8 * ((W * 4 + d) * H')) as Hle.
  { transitivity (W * H' * 33); [|nia]. apply Z.mul_le_mono_nonneg; [nia|nia|lia|lia]. }
  assert ((W * 4 + d) * H' <= 4325376) by nia. rewrite u32_id by nia.
  apply Z.add_le_mono_l. apply Z.lt_succ_r. apply Z.div_lt_upper_bound; lia.
Qed.

(** ** A guest *)

(** The sizes of the protocol, and headers of eight bytes. *)
#[export] Instance demo_proto : StreamProto := {|
  STREAM_DEVICE_PROTOCOL := 1;
  STREAM_TYPE_CAPABILITIES := 1; STREAM_TYPE_NOTIFY_ERROR := 2; STREAM_TYPE_START_STOP := 3;
  STREAM_TYPE_FORMAT := 4; STREAM_TYPE_DATA := 5; STREAM_TYPE_CURSOR_SET := 6;
  STREAM_TYPE_CURSOR_MOVE := 7; STREAM_TYPE_DEVICE_DISPLAY_INFO := 8;
  STREAM_CAP_END := 0; STREAM_MSG_CAPABILITIES_MAX_BYTES := 1024;
  STREAM_MSG_CURSOR_SET_MAX_WIDTH := 1024; STREAM_MSG_CURSOR_SET_MAX_HEIGHT := 1024;
  sizeof_StreamDevHeader := 8; sizeof_StreamMsgFormat := 9; sizeof_StreamMsgCursorSet := 12;
  sizeof_StreamMsgCursorMove := 8; sizeof_StreamMsgDeviceDisplayInfo := 12;
  sizeof_StreamMsgNotifyError := 4; sizeof_AllMessages := 1024;
  offsetof_device_address := 12; offsetof_cursor_data := 12;
  SPICE_CURSOR_TYPE_ALPHA := 0; SPICE_CURSOR_TYPE_COLOR24 := 5; SPICE_CURSOR_TYPE_COLOR32 := 6;
  SPICE_PORT_EVENT_OPENED := 0; SPICE_PORT_EVENT_CLOSED := 1;
  dec_hdr := fun bs => (u16 (le_decode (take 2 (drop 2 bs))), u32 (le_decode (drop 4 bs)));
  dec_format := fun bs => mkFormat (le_decode (take 4 bs)) (le_decode (take 4 (drop 4 bs))) (le_decode (drop 8 bs));
  dec_cursor_set := fun bs => mkCursorHeader (le_decode (take 1 (drop 8 bs)))
    (u16 (le_decode (take 2 bs))) (u16 (le_decode (take 2 (drop 2 bs))))
    (le_decode (take 2 (drop 4 bs))) (le_decode (take 2 (drop 6 bs)));
  dec_cursor_move := fun bs => (s32 (le_decode (take 4 bs)), s32 (le_decode (drop 4 bs)));
  dec_display_info := fun bs => mkDisplayInfo (le_decode (take 4 bs)) (u32 (le_decode (drop 8 bs)))
    (le_decode (take 4 (drop 4 bs)));
  enc_hdr := fun v p t z => le_encode 1 v ++ le_encode 1 p ++ le_encode 2 t ++ le_encode 4 z;
  enc_error_code := fun c => le_encode 4 c |}.

#[export] Instance demo_proto_ok : StreamProtoOk demo_proto.
Proof.
  split; simpl; intros; try lia; try apply u32_range.
  - split; apply u16_range.
  - apply (bool_decide_unpack (NoDup _)). reflexivity.
Qed.

(** A port that returns the bytes in the pieces of a list. *)
Fixpoint piece_read (len : nat) (v : list (list Z)) : list Z * list (list Z) :=
  match v with
  | [] => ([], [])
  | [] :: v' => piece_read len v'
  | c :: v' => (take len c, drop len c :: v')
  end.
#[export] Instance piece_env : StreamEnv (list (list Z)) := {|
  sif_read := fun len v =>
    let '(bs, v') := piece_read (Z.to_nat len) v in (Z.of_nat (length bs), bs, v');
  mm_time := fun _ => 77; free_channel_id := fun _ => 0;
  channel_call := fun _ v => ([], v); heap_junk := fun _ => 170 |}.

Lemma piece_read_ok len v :
  let '(bs, v') := piece_read len v in (length bs <= len)%nat /\ concat v = bs ++ concat v'.
Proof.
  induction v as [|c v IH]; simpl; [split; [lia|done]|]. destruct c as [|x c]; [exact IH|].
  rewrite length_take. split; [lia|]. cbn [concat]. by rewrite (assoc_L (++)), take_drop.
Qed.

#[export] Instance piece_env_ok : StreamEnvOk piece_env (@concat Z).
Proof.
  split; [|done]. intros len v Hl. simpl. pose proof (piece_read_ok (Z.to_nat len) v) as H.
  destruct (piece_read (Z.to_nat len) v) as [bs v']. destruct H as [H1 H2]. split_and!; [done|lia|done].
Qed.

(** A format and a frame of three bytes, in two different cuts. *)
Definition demo_bytes : list Z :=
  [1; 0; 4; 0; 9; 0; 0; 0;  64; 1; 0; 0; 200; 0; 0; 0; 1] ++ [1; 0; 5; 0; 3; 0; 0; 0;  11; 12; 13].
Definition cut_fine : list (list Z) := (fun b => [b]) <$> demo_bytes.


Lemma stream_chunking_irrelevant_witness :
  match (port_event SPICE_PORT_EVENT_OPENED;; iterM (run_sop 40) [ORead]) (stream_device_connect [demo_bytes]),
        (port_event SPICE_PORT_EVENT_OPENED;; iterM (run_sop 40) (replicate 28 ORead)) (stream_device_connect cut_fine) with
  | Ok _ s1, Ok _ s2 =>
      length (concat (venv s1)) = length (concat (venv s2)) ->
      effects (out s1) = effects (out s2) /\ has_error s1 = has_error s2
  | _, _ => False
  end /\
  match (port_event SPICE_PORT_EVENT_OPENED;; iterM (run_sop 40) (replicate 28 ORead)) (stream_device_connect cut_fine) with
  | Ok _ s2 => length (concat (venv s2)) = 0%nat /\
      effects (out s2) = [FxFormat (mkFormat 320 200 1); FxData [11; 12; 13]]
  | _ => False
  end.
Proof.
  split; [|vm_compute; done].
  apply (stream_chunking_irrelevant (@concat Z) (@concat Z) 40 40 [ORead] (replicate 28 ORead) [demo_bytes] cut_fine);
    simpl; lia || reflexivity.
Defined.

Lemma cursor_limit_enough_witness :
  let size := cursor_size_required 1024 1023 (get_cursor_type_bits 6) in
  size = (1024 * 1023 * get_cursor_type_bits 6 + 7) / 8 /\ sizeof_StreamMsgCursorSet + size <= max_cursor_set_size.
Proof. apply (cursor_limit_enough 1024 1023 6); simpl; lia. Defined.
