(* ===== verification/Dispatcher.v ===== *)
(** * The dispatcher (dispatcher.cpp)

    Threads send messages to the thread that owns a dispatcher through a
    socket pair: a header with the handler and the size, then the payload; a
    message with [ack] makes the sender wait for four bytes in the other
    direction.  A mutex is held from the first byte written to the end.

    The threads are interleaved at their system calls.  [dstate] has the table
    of messages and the buffer of [DispatcherPrivate], the two directions of
    the socket, the mutex, and for every thread where it is in [send_message]
    (or, for the owner, in [handle_single_read]).  [dstep] is one action of one
    thread; an action carries what the kernel answered to a system call, so a
    read or write may be partial, interrupted, or fail.  [sent] and [handled]
    are ghost state: the messages in the order in which their senders took the
    mutex, and the messages whose handlers were called. *)

From Stdlib Require Import ZArith Lia.
From stdpp Require Import base list numbers tactics option gmap.
From S2P Require Import Prelude.

Open Scope Z_scope.

Definition DISPATCHER_MESSAGE_TYPE_CUSTOM : Z := 0x7fffffff.
Definition ACK : Z := 0xffffffff.

(** A handler is a code address; 0 is null. *)
Record DispatcherMessage := mkDMsg { dm_handler : Z; dm_size : Z; dm_type : Z; dm_ack : bool }.

(** The image of the structure: the pointer, the size, and the bit fields
    [type:31] and [ack:1] in one word. *)
Definition sizeof_DispatcherMessage : Z := 16.
Definition msg_bytes (m : DispatcherMessage) : list Z :=
  le_encode 8 (dm_handler m) ++ le_encode 4 (dm_size m) ++
  le_encode 4 (dm_type m + 2 ^ 31 * (if dm_ack m then 1 else 0)).
Definition bytes_msg (bs : list Z) : DispatcherMessage :=
  let w := le_decode (take 4 (drop 12 bs)) in
  mkDMsg (le_decode (take 8 bs)) (le_decode (take 4 (drop 8 bs))) (w mod 2 ^ 31) (2 ^ 31 <=? w).
Definition ack_bytes : list Z := le_encode 4 ACK.

(** ** The table *)

(** DispatcherPrivate without the file descriptors: [messages] has
    [max_message_type] entries, [payload] has [payload_size] bytes. *)
Record disp := mkDisp { messages : list DispatcherMessage; payload : list Z; any_handler : bool }.

Definition no_message : DispatcherMessage := mkDMsg 0 0 0 false.

(** Dispatcher::Dispatcher *)
Definition new_Dispatcher (max_message_type : Z) : disp :=
  mkDisp (replicate (Z.to_nat max_message_type) no_message) [] false.

(** [g_realloc] when the message does not fit; the new bytes are arbitrary. *)
Definition fit_payload (junk : list Z) (size : Z) (p : list Z) : list Z :=
  if Z.of_nat (length p) <? size then take (Z.to_nat size) (p ++ junk ++ replicate (Z.to_nat size) 0) else p.

Definition register_handler (junk : list Z) (message_type handler size : Z) (ack : bool) : M disp unit :=
  d ← getS;
  spice_assert (message_type <? Z.of_nat (length (messages d)));;
  old ← index (messages d) message_type;
  spice_assert (dm_handler old =? 0);;
  let m := mkDMsg handler (u32 size) (message_type mod 2 ^ 31) ack in
  modS (fun d => mkDisp (<[Z.to_nat message_type := m]> (messages d)) (fit_payload junk (dm_size m) (payload d))
                   (any_handler d)).

Definition register_universal_handler (h : bool) : M disp unit :=
  modS (fun d => mkDisp (messages d) (payload d) h).

(** ** Threads *)

(** What the kernel answers: a number of bytes, EINTR, or another error. *)
Inductive sysret := SysOk (n : Z) | SysIntr | SysErr.

(** One turn of the loops of [read_safe] and [write_safe]. *)
Inductive turn := Again (n : Z) | Finished | Failed.

(** [done] of [size] bytes are transferred, and the next call returned [r]. *)
Definition safe_turn (size done : Z) (r : sysret) : turn :=
  match r with
  | SysOk n => if done + n <? size then Again (done + n) else Finished
  | SysIntr => Again done
  | SysErr => Failed
  end.

(** [read_safe] after a call; a read of 0 bytes is the end of the socket. *)
Definition read_safe_turn (size done : Z) (r : sysret) : turn :=
  match r with
  | SysOk 0 => Failed
  | r => safe_turn size done r
  end.
Definition write_safe_turn (size done : Z) (r : sysret) : turn := safe_turn size done r.

(** Where a sender is in [DispatcherPrivate::send_message]; for the writes and
    the read, the number of bytes done. *)
Inductive spc :=
  | SIdle
  | SLock (m : DispatcherMessage) (p : list Z)
  | SHeader (m : DispatcherMessage) (p : list Z) (done : Z)
  | SBody (m : DispatcherMessage) (p : list Z) (done : Z)
  | SAck (m : DispatcherMessage) (p got : list Z)
  | SUnlock (m : DispatcherMessage) (p : list Z).

(** Where the owner is in [handle_single_read]. *)
Inductive rpc :=
  | RPoll
  | RHeader (got : list Z)
  | RBody (m : DispatcherMessage) (done : Z)
  | RCall (m : DispatcherMessage)
  | RAck (m : DispatcherMessage) (done : Z).

Inductive dcall := CAny (type : Z) (p : list Z) | CHandler (h : Z) (p : list Z).

Record dstate := mkDState {
  dsp : disp; mutex : option Z; fwd : list Z; bwd : list Z;
  senders : gmap Z spc; owner : rpc; calls : list dcall;
  broken : bool;  (** some system call has failed *)
  sent : list (DispatcherMessage * list Z); handled : list (DispatcherMessage * list Z) }.

Definition sender (t : Z) (s : dstate) : spc := default SIdle (senders s !! t).

Definition set_dsp v s := mkDState v (mutex s) (fwd s) (bwd s) (senders s) (owner s) (calls s) (broken s) (sent s) (handled s).
Definition set_mutex v s := mkDState (dsp s) v (fwd s) (bwd s) (senders s) (owner s) (calls s) (broken s) (sent s) (handled s).
Definition set_fwd v s := mkDState (dsp s) (mutex s) v (bwd s) (senders s) (owner s) (calls s) (broken s) (sent s) (handled s).
Definition set_bwd v s := mkDState (dsp s) (mutex s) (fwd s) v (senders s) (owner s) (calls s) (broken s) (sent s) (handled s).
Definition set_sender t v s := mkDState (dsp s) (mutex s) (fwd s) (bwd s) (<[t := v]> (senders s)) (owner s) (calls s) (broken s) (sent s) (handled s).
Definition set_owner v s := mkDState (dsp s) (mutex s) (fwd s) (bwd s) (senders s) v (calls s) (broken s) (sent s) (handled s).
Definition set_broken v s := mkDState (dsp s) (mutex s) (fwd s) (bwd s) (senders s) (owner s) (calls s) v (sent s) (handled s).
Definition add_sent x s := mkDState (dsp s) (mutex s) (fwd s) (bwd s) (senders s) (owner s) (calls s) (broken s) (sent s ++ [x]) (handled s).
Definition add_handled x cs s := mkDState (dsp s) (mutex s) (fwd s) (bwd s) (senders s) (owner s) (calls s ++ cs) (broken s) (sent s) (handled s ++ [x]).

(** The message [send_message] sends for a type. *)
Definition send_message_msg (message_type : Z) : M disp DispatcherMessage :=
  d ← getS;
  spice_assert (message_type <? Z.of_nat (length (messages d)));;
  m ← index (messages d) message_type;
  spice_assert (negb (dm_handler m =? 0));;
  mret m.

(** The message [send_message_custom] sends. *)
Definition send_message_custom_msg (handler payload_size : Z) (ack : bool) : DispatcherMessage :=
  mkDMsg handler payload_size DISPATCHER_MESSAGE_TYPE_CUSTOM ack.

Section lts.
(** The room in each direction of the socket. *)
Context (cap : Z).

(** [socket_write(fd, buf + done, ...)] into [pipe]: the kernel takes at least
    a byte and no more than is left or has room.  [None]: no such answer. *)
Definition sys_write (buf : list Z) (done : Z) (r : sysret) (pipe : list Z) : option (list Z) :=
  match r with
  | SysOk n =>
      if (1 <=? n) && (n <=? Z.of_nat (length buf) - done) && (Z.of_nat (length pipe) + n <=? cap)
      then Some (pipe ++ take (Z.to_nat n) (drop (Z.to_nat done) buf)) else None
  | _ => Some pipe
  end.

(** [socket_read(fd, ..., left)]: at least a byte; the socket is never closed
    while the dispatcher lives. *)
Definition sys_read (left : Z) (r : sysret) (pipe : list Z) : option (list Z * list Z) :=
  match r with
  | SysOk n =>
      if (1 <=? n) && (n <=? left) && (n <=? Z.of_nat (length pipe))
      then Some (take (Z.to_nat n) pipe, drop (Z.to_nat n) pipe) else None
  | _ => Some ([], pipe)
  end.

(** After the header comes the payload; a size of 0 has nothing to write. *)
Definition after_header (m : DispatcherMessage) (p : list Z) : spc :=
  if dm_size m =? 0 then (if dm_ack m then SAck m p [] else SUnlock m p) else SBody m p 0.
Definition after_body (m : DispatcherMessage) (p : list Z) : spc :=
  if dm_ack m then SAck m p [] else SUnlock m p.

(** One action of sender [t] in [DispatcherPrivate::send_message]. *)
Definition send_step (t : Z) (r : sysret) (s : dstate) : option dstate :=
  match sender t s with
  | SIdle => None
  | SLock m p =>
      if bool_decide (mutex s = None)
      then Some (add_sent (m, p) (set_sender t (SHeader m p 0) (set_mutex (Some t) s)))
      else None
  | SHeader m p k =>
      fwd' ← sys_write (msg_bytes m) k r (fwd s);
      let s := set_fwd fwd' s in
      Some (match write_safe_turn sizeof_DispatcherMessage k r with
            | Again k => set_sender t (SHeader m p k) s
            | Finished => set_sender t (after_header m p) s
            | Failed => set_broken true (set_sender t (SUnlock m p) s)
            end)
  | SBody m p k =>
      fwd' ← sys_write p k r (fwd s);
      let s := set_fwd fwd' s in
      Some (match write_safe_turn (dm_size m) k r with
            | Again k => set_sender t (SBody m p k) s
            | Finished => set_sender t (after_body m p) s
            | Failed => set_broken true (set_sender t (SUnlock m p) s)
            end)
  | SAck m p got =>
      '(bs, bwd') ← sys_read (4 - Z.of_nat (length got)) r (bwd s);
      let s := set_bwd bwd' s in
      Some (match read_safe_turn 4 (Z.of_nat (length got)) r with
            | Again _ => set_sender t (SAck m p (got ++ bs)) s
            | Finished => set_sender t (SUnlock m p) s
            | Failed => set_broken true (set_sender t (SUnlock m p) s)
            end)
  | SUnlock m p => Some (set_sender t SIdle (set_mutex None s))
  end%stdpp.

(** The calls for a message: the universal handler unless it is a custom
    message, then its own. *)
Definition calls_of (any : bool) (m : DispatcherMessage) (p : list Z) : list dcall :=
  (if any && negb (dm_type m =? DISPATCHER_MESSAGE_TYPE_CUSTOM) then [CAny (dm_type m) p] else []) ++
  (if dm_handler m =? 0 then [] else [CHandler (dm_handler m) p]).

Definition after_header_read (junk : list Z) (m : DispatcherMessage) (s : dstate) : dstate :=
  let d := dsp s in
  set_owner (if dm_size m =? 0 then RCall m else RBody m 0)
    (set_dsp (mkDisp (messages d) (fit_payload junk (dm_size m) (payload d)) (any_handler d)) s).

(** Store bytes in the payload buffer. *)
Definition store_payload (pos : Z) (bs : list Z) (s : dstate) : dstate :=
  let d := dsp s in
  set_dsp (mkDisp (messages d)
    (take (Z.to_nat pos) (payload d) ++ bs ++ drop (Z.to_nat pos + length bs) (payload d)) (any_handler d)) s.

Definition call_step (m : DispatcherMessage) (s : dstate) : dstate :=
  let p := take (Z.to_nat (dm_size m)) (payload (dsp s)) in
  set_owner (if dm_ack m then RAck m 0 else RPoll)
    (add_handled (m, p) (calls_of (any_handler (dsp s)) m p) s).

(** One action of the owner in [handle_single_read]; [RPoll] with an empty
    socket is the end of the loop of [handle_event]. *)
Definition recv_step (junk : list Z) (r : sysret) (s : dstate) : option dstate :=
  match owner s with
  | RPoll => if bool_decide (fwd s = []) then None else Some (set_owner (RHeader []) s)
  | RHeader got =>
      '(bs, fwd') ← sys_read (sizeof_DispatcherMessage - Z.of_nat (length got)) r (fwd s);
      let s := set_fwd fwd' s in
      Some (match read_safe_turn sizeof_DispatcherMessage (Z.of_nat (length got)) r with
            | Again _ => set_owner (RHeader (got ++ bs)) s
            | Finished => after_header_read junk (bytes_msg (got ++ bs)) s
            | Failed => set_broken true (set_owner RPoll s)
            end)
  | RBody m k =>
      '(bs, fwd') ← sys_read (dm_size m - k) r (fwd s);
      let s := store_payload k bs (set_fwd fwd' s) in
      Some (match read_safe_turn (dm_size m) k r with
            | Again k => set_owner (RBody m k) s
            | Finished => set_owner (RCall m) s
            | Failed => set_broken true (set_owner RPoll s)
            end)
  | RCall m => Some (call_step m s)
  | RAck m k =>
      bwd' ← sys_write ack_bytes k r (bwd s);
      let s := set_bwd bwd' s in
      Some (match write_safe_turn 4 k r with
            | Again k => set_owner (RAck m k) s
            | Finished => set_owner RPoll s
            | Failed => set_broken true (set_owner RPoll s)
            end)
  end%stdpp.

(** A thread starts a call of [send_message]; the payload has the size of the
    message. *)
Definition start_send (t : Z) (m : DispatcherMessage) (p : list Z) (s : dstate) : option dstate :=
  match sender t s with
  | SIdle => if Z.of_nat (length p) =? dm_size m then Some (set_sender t (SLock m p) s) else None
  | _ => None
  end.

Inductive action :=
  | AStart (t : Z) (m : DispatcherMessage) (p : list Z)
  | ASend (t : Z) (r : sysret)
  | ARecv (junk : list Z) (r : sysret).

Definition dstep (a : action) (s : dstate) : option dstate :=
  match a with
  | AStart t m p => start_send t m p s
  | ASend t r => send_step t r s
  | ARecv junk r => recv_step junk r s
  end.

Definition init_state (d : disp) : dstate :=
  mkDState d None [] [] ∅ RPoll [] false [] [].

(** The fields fit the structure. *)
Definition msg_wf (m : DispatcherMessage) : Prop :=
  0 <= dm_handler m < 2 ^ 64 /\ 0 <= dm_size m < 2 ^ 32 /\ 0 <= dm_type m < 2 ^ 31.

Inductive reachable (d : disp) : dstate -> Prop :=
  | reach_init : reachable d (init_state d)
  | reach_step s a s' :
      reachable d s -> (forall t m p, a = AStart t m p -> msg_wf m) -> dstep a s = Some s' ->
      reachable d s'.

(** Run a list of actions. *)
Fixpoint run (l : list action) (s : dstate) : option dstate :=
  match l with
  | [] => Some s
  | a :: l' => match dstep a s with Some s' => run l' s' | None => None end
  end.
End lts.
