(* ===== verification/DispatcherThms.v ===== *)
(** * The dispatcher: order, synchronous messages, progress

    An invariant of all interleavings accounts for every byte between the
    senders and the owner.  It holds until a system call fails, after which
    the code does not resynchronise. *)

From Stdlib Require Import ZArith Lia.
From stdpp Require Import base list numbers tactics option gmap.
From S2P Require Import Prelude Dispatcher.

Open Scope Z_scope.

(** ** The header on the socket *)

Lemma le_roundtrip n z : 0 <= z < 256 ^ Z.of_nat n -> le_decode (le_encode n z) = z.
Proof. intros H. rewrite le_decode_encode. by apply Z.mod_small. Qed.

Lemma length_msg_bytes m : length (msg_bytes m) = 16%nat.
Proof. done. Qed.

Lemma bytes_msg_bytes m : msg_wf m -> bytes_msg (msg_bytes m) = m.
Proof.
  destruct m as [h z t a]. intros (Hh & Hz & Ht). cbn [dm_handler dm_size dm_type] in *.
  unfold bytes_msg. cbv zeta.
  set (w := t + 2 ^ 31 * (if a then 1 else 0)).
  change (take 8 (msg_bytes (mkDMsg h z t a))) with (le_encode 8 h).
  change (take 4 (drop 8 (msg_bytes (mkDMsg h z t a)))) with (le_encode 4 z).
  change (take 4 (drop 12 (msg_bytes (mkDMsg h z t a)))) with (le_encode 4 w).
  assert (0 <= w < 2 ^ 32) as Hw by (unfold w; destruct a; lia).
  rewrite (le_roundtrip 8), (le_roundtrip 4 z), (le_roundtrip 4 w) by (simpl; lia). f_equal.
  - unfold w. destruct a; [rewrite Z.mul_1_r, <- (Z.mul_1_l (2 ^ 31)), Z.mod_add by lia|rewrite Z.mul_0_r, Z.add_0_r];
      by apply Z.mod_small.
  - unfold w. destruct a; [apply Z.leb_le; lia|apply Z.leb_gt; lia].
Qed.

(** ** The invariant *)

Abbreviation packet := (DispatcherMessage * list Z)%type.

Definition packet_wf (x : packet) : Prop := msg_wf x.1 /\ Z.of_nat (length x.2) = dm_size x.1.
Definition packet_bytes (x : packet) : list Z := msg_bytes x.1 ++ x.2.
Definition stream (l : list packet) : list Z := concat (packet_bytes <$> l).

Lemma stream_app l l' : stream (l ++ l') = stream l ++ stream l'.
Proof. unfold stream. by rewrite fmap_app, concat_app. Qed.
Lemma stream_cons x l : stream (x :: l) = msg_bytes x.1 ++ x.2 ++ stream l.
Proof. unfold stream, packet_bytes. rewrite fmap_cons. cbn [concat]. by rewrite (assoc_L (++)). Qed.

(** The sender that has the mutex. *)
Definition holder (s : dstate) : spc :=
  match mutex s with Some t => sender t s | None => SIdle end.

(** The bytes it has not written yet, and its message until it is done. *)
Definition to_write (p : spc) : list Z :=
  match p with
  | SHeader m p k => drop (Z.to_nat k) (msg_bytes m) ++ p
  | SBody m p k => drop (Z.to_nat k) p
  | _ => []
  end.
Definition current (p : spc) : list packet :=
  match p with
  | SHeader m p _ => [(m, p)]
  | SBody m p _ => [(m, p)]
  | SAck m p _ => [(m, p)]
  | _ => []
  end.
Definition ack_got (p : spc) : list Z := match p with SAck _ _ got => got | _ => [] end.

(** What the owner has of the message it is reading, and the acknowledgement
    it still has to write. *)
Definition taken (s : dstate) : list Z :=
  match owner s with
  | RHeader got => got
  | RBody m k => msg_bytes m ++ take (Z.to_nat k) (payload (dsp s))
  | RCall m => msg_bytes m ++ take (Z.to_nat (dm_size m)) (payload (dsp s))
  | _ => []
  end.
Definition ack_left (o : rpc) : list Z :=
  match o with RAck _ k => drop (Z.to_nat k) ack_bytes | _ => [] end.
Definition acks (s : dstate) : list Z := ack_got (holder s) ++ bwd s ++ ack_left (owner s).

Definition critical (p : spc) : bool := match p with SIdle | SLock _ _ => false | _ => true end.

Definition pc_ok (p : spc) : Prop :=
  match p with
  | SIdle => True
  | SLock m p => packet_wf (m, p)
  | SHeader m p k => packet_wf (m, p) /\ 0 <= k < 16
  | SBody m p k => packet_wf (m, p) /\ 0 <= k < dm_size m
  | SAck m p got => packet_wf (m, p) /\ dm_ack m = true /\ (length got < 4)%nat
  | SUnlock m p => packet_wf (m, p)
  end.
Definition owner_ok (s : dstate) : Prop :=
  match owner s with
  | RPoll => True
  | RHeader got => (length got < 16)%nat
  | RBody m k => msg_wf m /\ 0 <= k < dm_size m /\ dm_size m <= Z.of_nat (length (payload (dsp s)))
  | RCall m => msg_wf m /\ dm_size m <= Z.of_nat (length (payload (dsp s)))
  | RAck m k => 0 <= k < 4
  end.

(** The messages not handled yet: [pre] need no acknowledgement; then comes
    the message of the sender in the critical section, or that sender's
    message is handled and its acknowledgement is on its way. *)
Definition unhandled (s : dstate) (rest : list packet) : Prop :=
  (exists pre, rest = pre ++ current (holder s) /\ Forall (fun x => dm_ack x.1 = false) pre /\ acks s = []) \/
  (rest = [] /\ acks s = ack_bytes /\
   exists m p got h, holder s = SAck m p got /\ handled s = h ++ [(m, p)]).

Record dinv (any : bool) (s : dstate) : Prop := {
  di_mutex t : mutex s = Some t <-> critical (sender t s) = true;
  di_pcs t : pc_ok (sender t s);
  di_owner : owner_ok s;
  di_any : any_handler (dsp s) = any;
  di_calls : calls s = concat ((fun x => calls_of any x.1 x.2) <$> handled s);
  di_bytes : exists rest, sent s = handled s ++ rest /\ Forall packet_wf rest /\
    stream rest = taken s ++ fwd s ++ to_write (holder s) /\ unhandled s rest;
  (** a synchronous message is handled when its sender is done *)
  di_done m p : holder s = SUnlock m p -> dm_ack m = true ->
    exists h, handled s = h ++ [(m, p)] /\ sent s = handled s }.

(** ** Steps of senders *)

Lemma sender_set t t' v s :
  sender t' (set_sender t v s) = if decide (t = t') then v else sender t' s.
Proof.
  unfold sender. simpl. case_decide; [subst; by rewrite lookup_insert_eq|by rewrite lookup_insert_ne].
Qed.

Lemma holder_set t v s : mutex s = Some t -> holder (set_sender t v s) = v.
Proof.
  intros Hm. unfold holder. change (mutex (set_sender t v s)) with (mutex s). rewrite Hm, sender_set.
  by rewrite decide_True.
Qed.

(** The sender in the critical section moves on. *)
Lemma dinv_holder any s t pc' f b :
  dinv any s -> mutex s = Some t -> critical pc' = true -> pc_ok pc' ->
  f ++ to_write pc' = fwd s ++ to_write (holder s) ->
  (forall rest, sent s = handled s ++ rest -> unhandled s rest ->
     unhandled (set_sender t pc' (set_bwd b (set_fwd f s))) rest) ->
  (forall m p, pc' = SUnlock m p -> dm_ack m = true ->
     exists h, handled s = h ++ [(m, p)] /\ sent s = handled s) ->
  dinv any (set_sender t pc' (set_bwd b (set_fwd f s))).
Proof.
  intros HI Hm Hc Hok Hb Hu Hd. destruct HI as [I1 I2 I3 I4 I5 (rest & R1 & R2 & R3 & R4) I7].
  assert (holder (set_sender t pc' (set_bwd b (set_fwd f s))) = pc') as Hh by (by apply holder_set).
  split; try done.
  - intros t'. rewrite sender_set. change (mutex (set_sender _ _ _)) with (mutex s). case_decide as Ht.
    + subst t'. by rewrite Hm.
    + change (sender t' (set_bwd b (set_fwd f s))) with (sender t' s). apply I1.
  - intros t'. rewrite sender_set. case_decide; [done|apply I2].
  - exists rest. split_and!; [done|done| |by apply Hu]. rewrite Hh.
    change (taken (set_sender t pc' (set_bwd b (set_fwd f s)))) with (taken s).
    change (fwd (set_sender t pc' (set_bwd b (set_fwd f s)))) with f. by rewrite R3, Hb.
  - rewrite Hh. intros m p Hp Ha. by apply Hd.
Qed.

(** Before the acknowledgement, nothing is on its way back. *)
Lemma unhandled_move s t pc' f rest :
  mutex s = Some t -> ack_got (holder s) = [] -> ack_got pc' = [] ->
  (forall m p got, holder s <> SAck m p got) ->
  (current pc' = current (holder s) \/
   current pc' = [] /\ Forall (fun x => dm_ack x.1 = false) (current (holder s))) ->
  unhandled s rest -> unhandled (set_sender t pc' (set_bwd (bwd s) (set_fwd f s))) rest.
Proof.
  intros Hm Hg Hg' Hna Hc [(pre & R1 & R2 & R3)|(_ & _ & m & p & got & h & Hh & _)]; [|by destruct (Hna m p got)].
  left. unfold acks in *. rewrite holder_set by done. rewrite Hg in R3. rewrite Hg'.
  destruct Hc as [Hc|[Hc Hf]]; rewrite Hc.
  - by exists pre.
  - exists (pre ++ current (holder s)). rewrite app_nil_r. split_and!; [done|by apply Forall_app|done].
Qed.

Lemma sys_write_inv cap buf k r pipe pipe' :
  sys_write cap buf k r pipe = Some pipe' ->
  match r with
  | SysOk n => 1 <= n <= Z.of_nat (length buf) - k /\
               pipe' = pipe ++ take (Z.to_nat n) (drop (Z.to_nat k) buf)
  | _ => pipe' = pipe
  end.
Proof.
  unfold sys_write. destruct r as [n| |]; [|by intros [= <-]..]. case_if; [|done]. zbool. intros [= <-]. split; [lia|done].
Qed.

Lemma sys_read_inv left r pipe bs pipe' :
  sys_read left r pipe = Some (bs, pipe') ->
  pipe = bs ++ pipe' /\
  match r with SysOk n => 1 <= n <= left /\ Z.of_nat (length bs) = n | _ => bs = [] end.
Proof.
  unfold sys_read. destruct r as [n| |]; [|by intros [= <- <-]..]. case_if; [|done]. zbool. intros [= <- <-].
  rewrite take_drop, length_take. split; [done|]. split; lia.
Qed.

(** Bytes written move from the sender to the socket. *)
Lemma write_moves (buf tail pipe : list Z) k n :
  0 <= k -> 0 <= n ->
  (pipe ++ take (Z.to_nat n) (drop (Z.to_nat k) buf)) ++ drop (Z.to_nat (k + n)) buf ++ tail
  = pipe ++ drop (Z.to_nat k) buf ++ tail.
Proof.
  intros Hk Hn. rewrite <- (assoc_L (++)). f_equal. rewrite (assoc_L (++)). f_equal.
  rewrite Z2Nat.inj_add by lia. rewrite <- drop_drop. apply take_drop.
Qed.

Section steps.
Context (cap : Z) (any : bool).

Lemma step_lock s t m p :
  dinv any s -> sender t s = SLock m p -> mutex s = None ->
  dinv any (add_sent (m, p) (set_sender t (SHeader m p 0) (set_mutex (Some t) s))).
Proof.
  intros HI Hs Hm. destruct HI as [I1 I2 I3 I4 I5 (rest & R1 & R2 & R3 & R4) I7].
  pose proof (I2 t) as Hwf. rewrite Hs in Hwf. cbn in Hwf.
  assert (holder s = SIdle) as Hidle by (unfold holder; by rewrite Hm).
  set (s' := add_sent _ _).
  assert (forall t', sender t' s' = if decide (t = t') then SHeader m p 0 else sender t' s) as Hs'.
  { intros t'. apply (sender_set t t' _ (set_mutex (Some t) s)). }
  assert (holder s' = SHeader m p 0) as Hh'.
  { unfold holder. change (mutex s') with (Some t). cbn iota. rewrite Hs'. by rewrite decide_True. }
  split; try done.
  - intros t'. rewrite Hs'. change (mutex s') with (Some t). case_decide as Ht; [by subst|].
    split; [by intros [= ->]|]. intros Hc. apply I1 in Hc. congruence.
  - intros t'. rewrite Hs'. case_decide; [split; [done|lia]|apply I2].
  - exists (rest ++ [(m, p)]). rewrite Hh', Hidle in *. split_and!.
    + change (sent s') with (sent s ++ [(m, p)]). rewrite R1. by rewrite <- (assoc_L (++)).
    + apply Forall_app. split; [done|]. by apply Forall_cons_2.
    + change (taken s') with (taken s). change (fwd s') with (fwd s). rewrite stream_app, R3, stream_cons.
      change (stream []) with (@nil Z). cbn [to_write fst snd]. rewrite !app_nil_r. by rewrite <- !(assoc_L (++)).
    + destruct R4 as [(pre & -> & Hpre & Hacks)|(_ & _ & m' & p' & got & h & Hh & _)]; [|rewrite Hidle in Hh; done].
      left. unfold acks in *. rewrite Hh', Hidle in *. exists pre. cbn [current ack_got] in *. by rewrite app_nil_r.
  - rewrite Hh'. done.
Qed.

(** The sender writes: its message stays the current one until it is written,
    and then still is if it is synchronous. *)
Lemma dinv_writer s t m p f pc' :
  dinv any s -> mutex s = Some t -> current (holder s) = [(m, p)] -> ack_got (holder s) = [] ->
  (forall m p got, holder s <> SAck m p got) ->
  critical pc' = true -> pc_ok pc' -> ack_got pc' = [] ->
  (current pc' = [(m, p)] \/ current pc' = [] /\ dm_ack m = false) ->
  f ++ to_write pc' = fwd s ++ to_write (holder s) ->
  (forall m p, pc' = SUnlock m p -> dm_ack m = false) -> dinv any (set_sender t pc' (set_fwd f s)).
Proof.
  intros HI Hm Hh Hgot Hna Hc Hok' Hg Hcur Hb Hu. apply (dinv_holder any s t pc' f (bwd s)); try done.
  - intros rest _. apply unhandled_move; try done. rewrite Hh. destruct Hcur as [->|[-> Ha]]; [by left|right].
    split; [done|]. by apply Forall_cons_2.
  - intros m' p' E Ha. rewrite (Hu _ _ E) in Ha. done.
Qed.

Lemma step_header s t m p k r f :
  dinv any s -> sender t s = SHeader m p k -> sys_write cap (msg_bytes m) k r (fwd s) = Some f ->
  let s1 := set_fwd f s in
  match write_safe_turn sizeof_DispatcherMessage k r with
  | Again k => dinv any (set_sender t (SHeader m p k) s1)
  | Finished => dinv any (set_sender t (after_header m p) s1)
  | Failed => True
  end.
Proof.
  intros HI Hs Hw s1. pose proof HI as [I1 I2 _ _ _ _ _].
  assert (mutex s = Some t) as Hm by (apply I1; by rewrite Hs).
  assert (holder s = SHeader m p k) as Hh by (unfold holder; by rewrite Hm).
  pose proof (I2 t) as Hok. rewrite Hs in Hok. destruct Hok as [Hwf Hk].
  apply sys_write_inv in Hw. rewrite length_msg_bytes in Hw. unfold write_safe_turn, safe_turn, sizeof_DispatcherMessage.
  pose proof (fun pc' => dinv_writer s t m p f pc' HI Hm) as Hgo. rewrite Hh in Hgo.
  specialize (fun pc' => Hgo pc' eq_refl eq_refl ltac:(done)).
  destruct r as [n| |]; [|subst f; by apply Hgo; auto|done]. destruct Hw as [Hn ->].
  assert (drop (Z.to_nat (k + n)) (msg_bytes m) = [] \/ k + n < 16) as Hend.
  { destruct (Z.lt_ge_cases (k + n) 16); [by right|left]. apply drop_ge. rewrite length_msg_bytes. lia. }
  pose proof (write_moves (msg_bytes m) p (fwd s) k n ltac:(lia) ltac:(lia)) as Hmv.
  case_if; zbool.
  - apply Hgo; auto; cbn [pc_ok]; [split; [done|lia]|done..].
  - destruct Hend as [Hend|]; [|lia]. rewrite Hend in Hmv. destruct Hwf as [Hwf Hlen]. cbn [fst snd] in *.
    unfold after_header. destruct (Z.eqb_spec (dm_size m) 0) as [H0|H0].
    + assert (p = []) as -> by (destruct p; simpl in *; [done|lia]).
      destruct (dm_ack m) eqn:Ha; apply Hgo; auto; cbn; try done.
      * split_and!; [done|done|lia].
      * intros ? ? [= <- <-]. done.
    + apply Hgo; auto; cbn; try done. split; [done|]. simpl. destruct Hwf as (_ & ? & _). lia.
Qed.

Lemma step_body s t m p k r f :
  dinv any s -> sender t s = SBody m p k -> sys_write cap p k r (fwd s) = Some f ->
  let s1 := set_fwd f s in
  match write_safe_turn (dm_size m) k r with
  | Again k => dinv any (set_sender t (SBody m p k) s1)
  | Finished => dinv any (set_sender t (after_body m p) s1)
  | Failed => True
  end.
Proof.
  intros HI Hs Hw s1. pose proof HI as [I1 I2 _ _ _ _ _].
  assert (mutex s = Some t) as Hm by (apply I1; by rewrite Hs).
  assert (holder s = SBody m p k) as Hh by (unfold holder; by rewrite Hm).
  pose proof (I2 t) as Hok. rewrite Hs in Hok. destruct Hok as [Hwf Hk].
  apply sys_write_inv in Hw. unfold write_safe_turn, safe_turn.
  pose proof (fun pc' => dinv_writer s t m p f pc' HI Hm) as Hgo. rewrite Hh in Hgo.
  specialize (fun pc' => Hgo pc' eq_refl eq_refl ltac:(done)).
  destruct r as [n| |]; [|subst f; by apply Hgo; auto|done]. destruct Hw as [Hn ->].
  pose proof (write_moves p [] (fwd s) k n ltac:(lia) ltac:(lia)) as Hmv. rewrite !app_nil_r in Hmv.
  pose proof Hwf as [_ Hlen]. cbn [fst snd] in Hlen. case_if; zbool.
  - apply Hgo; auto; cbn [pc_ok]; [split; [done|lia]|done..].
  - rewrite (drop_ge p (Z.to_nat (k + n))), app_nil_r in Hmv by lia. unfold after_body.
    destruct (dm_ack m) eqn:Ha; apply Hgo; auto; cbn; try (by rewrite ?app_nil_r).
    + split_and!; [done|done|lia].
    + intros ? ? [= <- <-]. done.
Qed.

Lemma step_ack s t m p got r bs b :
  dinv any s -> sender t s = SAck m p got ->
  sys_read (4 - Z.of_nat (length got)) r (bwd s) = Some (bs, b) ->
  let s1 := set_bwd b s in
  match read_safe_turn 4 (Z.of_nat (length got)) r with
  | Again _ => dinv any (set_sender t (SAck m p (got ++ bs)) s1)
  | Finished => dinv any (set_sender t (SUnlock m p) s1)
  | Failed => True
  end.
Proof.
  intros HI Hs Hr s1. pose proof HI as [I1 I2 _ _ _ (rest & R1 & R2 & R3 & R4) _].
  assert (mutex s = Some t) as Hm by (apply I1; by rewrite Hs).
  assert (holder s = SAck m p got) as Hh by (unfold holder; by rewrite Hm).
  pose proof (I2 t) as Hok. rewrite Hs in Hok. destruct Hok as (Hwf & Hack & Hlen).
  apply sys_read_inv in Hr as [Hb Hr].
  assert ((length (got ++ bs) < 4)%nat -> dinv any (set_sender t (SAck m p (got ++ bs)) s1)) as Hagain.
  { intros Hl. apply (dinv_holder any s t _ (fwd s) b); try done; [by rewrite Hh|].
    assert (acks (set_sender t (SAck m p (got ++ bs)) (set_bwd b (set_fwd (fwd s) s))) = acks s) as Hacks.
    { unfold acks. rewrite holder_set, Hh by done. simpl. by rewrite Hb, <- !(assoc_L (++)). }
    intros rest' _ [(pre & -> & Hpre & Ha)|(-> & Ha & m' & p' & got' & h & Hh' & Hd)].
    - left. exists pre. rewrite holder_set, Hacks, Hh by done. done.
    - right. rewrite Hacks. split_and!; [done|done|]. rewrite Hh in Hh'. simplify_eq.
      exists m', p', (got' ++ bs), h. by rewrite holder_set. }
  unfold read_safe_turn, safe_turn. destruct r as [n| |]; [|subst bs; apply Hagain; by rewrite app_nil_r|done].
  destruct Hr as [Hn Hbs]. destruct n as [|n|n]; [lia| |lia]. case_if; zbool.
  { apply Hagain. rewrite length_app. lia. }
  assert (forall rest, unhandled s rest -> rest = [] /\ b = [] /\ ack_left (owner s) = [] /\ exists h, handled s = h ++ [(m, p)]) as Hu.
  { intros rest' [(pre & _ & _ & Ha)|(-> & Ha & m' & p' & got' & h & Hh' & Hd)]; unfold acks in Ha; rewrite Hh, Hb in Ha; cbn [ack_got] in Ha.
    - apply app_nil in Ha as [_ Ha]. apply app_nil in Ha as [Ha _]. apply app_nil in Ha as [-> _]. simpl in Hbs. lia.
    - rewrite Hh in Hh'. simplify_eq. split; [done|].
      assert (length (b ++ ack_left (owner s)) = 0%nat) as H0.
      { apply (f_equal length) in Ha. rewrite !length_app in Ha. change (length ack_bytes) with 4%nat in Ha.
        rewrite length_app. lia. }
      apply nil_length_inv, app_nil in H0 as [-> ->]. split_and!; [done|done|by exists h]. }
  apply (dinv_holder any s t _ (fwd s) b); try done; [by rewrite Hh| |].
  - intros rest' _ Hrest. destruct (Hu _ Hrest) as (-> & -> & Hl & _). left. exists []. unfold acks.
    rewrite holder_set by done. simpl. by rewrite Hl.
  - intros m' p' [= <- <-] _. destruct (Hu _ R4) as (-> & _ & _ & h & Hd). exists h. by rewrite R1, app_nil_r.
Qed.

Lemma step_unlock s t m p :
  dinv any s -> sender t s = SUnlock m p -> dinv any (set_sender t SIdle (set_mutex None s)).
Proof.
  intros HI Hs. destruct HI as [I1 I2 I3 I4 I5 (rest & R1 & R2 & R3 & R4) I7].
  assert (mutex s = Some t) as Hm by (apply I1; by rewrite Hs).
  assert (holder s = SUnlock m p) as Hh by (unfold holder; by rewrite Hm).
  set (s' := set_sender t SIdle _).
  assert (forall t', sender t' s' = if decide (t = t') then SIdle else sender t' s) as Hs'.
  { intros t'. apply (sender_set t t' _ (set_mutex None s)). }
  assert (holder s' = SIdle) as Hh' by done.
  split; try done.
  - intros t'. rewrite Hs'. split; [done|]. case_decide as Ht; [done|]. intros Hc. apply I1 in Hc. congruence.
  - intros t'. rewrite Hs'. case_decide; [done|apply I2].
  - exists rest. rewrite Hh' in *. rewrite Hh in *. split_and!; [done|done|done|].
    destruct R4 as [(pre & -> & Hpre & Ha)|(_ & _ & ? & ? & ? & ? & Hx & _)]; [|congruence].
    left. exists pre. unfold acks in *. rewrite Hh in *. by rewrite Hh'.
Qed.

Lemma step_start s t m p :
  dinv any s -> sender t s = SIdle -> packet_wf (m, p) -> dinv any (set_sender t (SLock m p) s).
Proof.
  intros HI Hs Hwf. destruct HI as [I1 I2 I3 I4 I5 (rest & R1 & R2 & R3 & R4) I7].
  assert (holder (set_sender t (SLock m p) s) = holder s) as Hh.
  { unfold holder. change (mutex (set_sender t (SLock m p) s)) with (mutex s). pose proof I1 as I1'.
    destruct (mutex s) as [t'|] eqn:Hm; [|done].
    rewrite sender_set. case_decide; [|done]. subst. pose proof (proj1 (I1' t') eq_refl) as Hc. by rewrite Hs in Hc. }
  split; try done.
  - intros t'. rewrite sender_set. change (mutex (set_sender t (SLock m p) s)) with (mutex s). rewrite I1.
    case_decide; [|done]. subst. by rewrite Hs.
  - intros t'. rewrite sender_set. case_decide; [done|apply I2].
  - exists rest. rewrite Hh. split_and!; [done|done|done|].
    unfold unhandled, acks in *. rewrite Hh. exact R4.
  - rewrite Hh. exact I7.
Qed.

(** *** The owner *)

Lemma dinv_recv s s' :
  dinv any s -> mutex s' = mutex s -> senders s' = senders s -> sent s' = sent s -> owner_ok s' ->
  any_handler (dsp s') = any ->
  calls s' = concat ((fun x => calls_of any x.1 x.2) <$> handled s') ->
  (exists rest, sent s = handled s' ++ rest /\ Forall packet_wf rest /\
     stream rest = taken s' ++ fwd s' ++ to_write (holder s) /\ unhandled s' rest) ->
  (forall m p, holder s = SUnlock m p -> dm_ack m = true ->
     exists h, handled s' = h ++ [(m, p)] /\ sent s = handled s') ->
  dinv any s'.
Proof.
  intros HI Hm Hs Hsent Ho Ha Hc Hb Hd. destruct HI as [I1 I2 I3 I4 I5 I6 I7].
  assert (holder s' = holder s) as Hh by (unfold holder, sender; by rewrite Hm, Hs).
  split; try done.
  - intros t. rewrite Hm, I1. unfold sender. by rewrite Hs.
  - intros t. unfold sender. rewrite Hs. apply I2.
  - rewrite Hsent, Hh. exact Hb.
  - rewrite Hsent, Hh. exact Hd.
Qed.

(** Bytes move from the socket to the owner, or none move. *)
Lemma dinv_recv_bytes s s' :
  dinv any s -> mutex s' = mutex s -> senders s' = senders s -> sent s' = sent s -> owner_ok s' ->
  any_handler (dsp s') = any_handler (dsp s) -> calls s' = calls s -> handled s' = handled s ->
  taken s' ++ fwd s' = taken s ++ fwd s -> bwd s' ++ ack_left (owner s') = bwd s ++ ack_left (owner s) ->
  dinv any s'.
Proof.
  intros HI Hm Hs Hsent Ho Ha Hc Hd Ht Hb. pose proof HI as [I1 I2 I3 I4 I5 (rest & R1 & R2 & R3 & R4) I7].
  assert (holder s' = holder s) as Hh by (unfold holder, sender; by rewrite Hm, Hs).
  apply (dinv_recv s); try done; try congruence.
  - rewrite Hd. exists rest. split_and!; [done|done| |].
    + rewrite (assoc_L (++)), Ht, <- (assoc_L (++)). exact R3.
    + unfold unhandled, acks in *. rewrite Hb, Hh, Hd. exact R4.
  - rewrite Hd. exact I7.
Qed.

Lemma length_fit junk size p :
  0 <= size -> size <= Z.of_nat (length (fit_payload junk size p)) /\ Z.of_nat (length p) <= Z.of_nat (length (fit_payload junk size p)).
Proof.
  intros Hs. unfold fit_payload. case_if; zbool; [|lia].
  rewrite length_take, !length_app, length_replicate. lia.
Qed.

(** The owner has a complete header: it is the next message's. *)
Lemma header_is_next got rest b tl :
  Forall packet_wf rest -> stream rest = got ++ b ++ tl -> length got = 16%nat ->
  exists x rest', rest = x :: rest' /\ bytes_msg got = x.1 /\ msg_bytes x.1 = got /\
    packet_wf x.
Proof.
  intros Hwf Hst Hl. destruct Hwf as [|x rest Hx Hwf].
  { apply (f_equal length) in Hst. rewrite length_app in Hst. change (length (stream [])) with 0%nat in Hst. lia. }
  rewrite stream_cons in Hst. apply app_inj_1 in Hst as [Hg _]; [|by rewrite Hl].
  exists x, rest. rewrite <- Hg, bytes_msg_bytes by apply Hx. done.
Qed.

Lemma step_recv_header s got r bs f junk :
  dinv any s -> owner s = RHeader got ->
  sys_read (sizeof_DispatcherMessage - Z.of_nat (length got)) r (fwd s) = Some (bs, f) ->
  let s1 := set_fwd f s in
  match read_safe_turn sizeof_DispatcherMessage (Z.of_nat (length got)) r with
  | Again _ => dinv any (set_owner (RHeader (got ++ bs)) s1)
  | Finished => dinv any (after_header_read junk (bytes_msg (got ++ bs)) s1)
  | Failed => True
  end.
Proof.
  intros HI Ho Hr s1. pose proof HI as [_ _ I3 _ _ (rest & R1 & R2 & R3 & R4) _].
  unfold owner_ok in I3. rewrite Ho in I3. apply sys_read_inv in Hr as [Hf Hr]. unfold sizeof_DispatcherMessage in *.
  assert ((length (got ++ bs) < 16)%nat -> dinv any (set_owner (RHeader (got ++ bs)) s1)) as Hagain.
  { intros Hl. apply (dinv_recv_bytes s); try done.
    - unfold taken. rewrite Ho. simpl. by rewrite Hf, <- (assoc_L (++)).
    - by rewrite Ho. }
  unfold read_safe_turn, safe_turn. destruct r as [n| |]; [|subst bs; apply Hagain; by rewrite app_nil_r|done].
  destruct Hr as [Hn Hbs]. destruct n as [|n|n]; [lia| |lia]. case_if; zbool; [apply Hagain; rewrite length_app; lia|].
  unfold taken in R3. rewrite Ho, Hf in R3.
  assert (stream rest = (got ++ bs) ++ f ++ to_write (holder s)) as Hst by (by rewrite R3, <- !(assoc_L (++))).
  destruct (header_is_next _ _ _ _ R2 Hst) as (x & rest' & -> & Hx & Hxb & Hwf & Hxl); [rewrite length_app; lia|].
  rewrite Hx. pose proof Hwf as (_ & Hsz & _). set (s' := after_header_read junk x.1 s1).
  pose proof (length_fit junk (dm_size x.1) (payload (dsp s)) ltac:(lia)) as [Hfit _].
  apply (dinv_recv_bytes s); try done.
  - unfold s', after_header_read, owner_ok. simpl. destruct (Z.eqb_spec (dm_size x.1) 0); [done|]. split_and!; [done|lia|lia|done].
  - assert (taken s' = msg_bytes x.1 ++ []) as ->.
    { unfold s', after_header_read, taken. cbn [owner set_owner set_dsp].
      destruct (Z.eqb_spec (dm_size x.1) 0) as [H0|]; [by rewrite H0|done]. }
    unfold taken. rewrite Ho, app_nil_r, Hxb, Hf. change (fwd s') with f. by rewrite <- (assoc_L (++)).
  - unfold s', after_header_read. rewrite Ho. simpl. by case_if.
Qed.

Lemma take_store (pos : Z) (bs p : list Z) :
  0 <= pos -> pos + Z.of_nat (length bs) <= Z.of_nat (length p) ->
  take (Z.to_nat (pos + Z.of_nat (length bs))) (take (Z.to_nat pos) p ++ bs ++ drop (Z.to_nat pos + length bs) p)
  = take (Z.to_nat pos) p ++ bs /\
  length (take (Z.to_nat pos) p ++ bs ++ drop (Z.to_nat pos + length bs) p) = length p.
Proof.
  intros Hp Hl. split.
  - rewrite (assoc_L (++)). apply take_app_length'. rewrite length_app, length_take. lia.
  - rewrite !length_app, length_take, length_drop. lia.
Qed.

Lemma step_recv_body s m k r bs f :
  dinv any s -> owner s = RBody m k -> sys_read (dm_size m - k) r (fwd s) = Some (bs, f) ->
  let s1 := store_payload k bs (set_fwd f s) in
  match read_safe_turn (dm_size m) k r with
  | Again k => dinv any (set_owner (RBody m k) s1)
  | Finished => dinv any (set_owner (RCall m) s1)
  | Failed => True
  end.
Proof.
  intros HI Ho Hr s1. pose proof HI as [_ _ I3 _ _ _ _]. unfold owner_ok in I3. rewrite Ho in I3.
  destruct I3 as (Hwf & Hk & Hp). apply sys_read_inv in Hr as [Hf Hr].
  assert (Z.of_nat (length bs) <= dm_size m - k) as Hbl by (destruct r; [lia|subst; simpl; lia..]).
  destruct (take_store k bs (payload (dsp s)) ltac:(lia) ltac:(lia)) as [Ht Hl].
  assert (forall o, (o = RBody m (k + Z.of_nat (length bs)) /\ k + Z.of_nat (length bs) < dm_size m) \/
                    (o = RCall m /\ k + Z.of_nat (length bs) = dm_size m) -> dinv any (set_owner o s1)) as Hgo.
  { intros o Hoo. apply (dinv_recv_bytes s); try done.
    - unfold owner_ok. destruct Hoo as [[-> ?]|[-> ?]]; cbn [owner set_owner]; change (payload (dsp (set_owner _ s1))) with
        (take (Z.to_nat k) (payload (dsp s)) ++ bs ++ drop (Z.to_nat k + length bs) (payload (dsp s))); rewrite Hl; split_and!; done || lia.
    - assert (taken (set_owner o s1) = msg_bytes m ++ take (Z.to_nat k) (payload (dsp s)) ++ bs) as ->.
      { rewrite <- Ht. unfold taken. destruct Hoo as [[-> _]|[-> He]]; cbn [owner set_owner]; [|rewrite <- He]; reflexivity. }
      unfold taken. rewrite Ho. simpl. by rewrite Hf, <- !(assoc_L (++)).
    - rewrite Ho. simpl. by destruct Hoo as [[-> _]|[-> _]]. }
  unfold read_safe_turn, safe_turn. destruct r as [n| |]; [|subst bs; simpl in *|done].
  - destruct Hr as [Hn Hbs]. destruct n as [|n|n]; [lia| |lia]. rewrite <- Hbs. case_if; zbool; apply Hgo; [left|right]; split; done || lia.
  - apply Hgo. left. split; [by rewrite Z.add_0_r|lia].
Qed.

(** The message the owner has read completely is the oldest unhandled one. *)
Lemma call_is_next s m rest b :
  Forall packet_wf rest -> msg_wf m -> dm_size m <= Z.of_nat (length (payload (dsp s))) ->
  stream rest = (msg_bytes m ++ take (Z.to_nat (dm_size m)) (payload (dsp s))) ++ b ->
  exists rest', rest = (m, take (Z.to_nat (dm_size m)) (payload (dsp s))) :: rest' /\ stream rest' = b.
Proof.
  intros Hwf Hm Hp Hst. pose proof Hm as (_ & Hsz & _). destruct Hwf as [|[m' p'] rest [Hm' Hl'] Hwf].
  { apply (f_equal length) in Hst. rewrite !length_app, length_msg_bytes in Hst.
    change (length (stream [])) with 0%nat in Hst. lia. }
  rewrite stream_cons, <- (assoc_L (++)) in Hst. cbn [fst snd] in *.
  apply app_inj_1 in Hst as [Hg Hst]; [|done].
  assert (m' = m) as -> by (rewrite <- (bytes_msg_bytes m' Hm'), Hg; by apply bytes_msg_bytes).
  apply app_inj_1 in Hst as [-> <-]; [|rewrite length_take; lia]. by exists rest.
Qed.

Lemma stream_nil_inv rest : stream rest = [] -> rest = [].
Proof.
  destruct rest as [|x rest]; [done|]. rewrite stream_cons. intros H. apply (f_equal length) in H.
  rewrite length_app, length_msg_bytes in H. simpl in H. lia.
Qed.

Lemma to_write_nil p m q : pc_ok p -> current p = [(m, q)] -> to_write p = [] -> exists got, p = SAck m q got.
Proof.
  destruct p as [|m' q'|m' q' k|m' q' k|m' q' got|m' q']; simpl; try done.
  - intros [_ Hk] _ H. apply app_nil in H as [H _]. apply (f_equal length) in H.
    rewrite length_drop, length_msg_bytes in H. simpl in H. lia.
  - intros [[_ Hl] Hk] _ H. simpl in Hl. apply (f_equal length) in H. rewrite length_drop in H. simpl in H. lia.
  - intros _ [= -> ->] _. by exists got.
Qed.

Lemma holder_ok s : (forall t, pc_ok (sender t s)) -> pc_ok (holder s).
Proof. intros H. unfold holder. by destruct (mutex s). Qed.

Lemma step_call s m : dinv any s -> owner s = RCall m -> dinv any (call_step m s).
Proof.
  intros HI Ho. pose proof HI as [_ I2 I3 I4 I5 (rest & R1 & R2 & R3 & R4) I7].
  unfold owner_ok in I3. rewrite Ho in I3. destruct I3 as [Hwf Hp].
  unfold taken in R3. rewrite Ho in R3.
  destruct (call_is_next s m _ _ R2 Hwf Hp R3) as (rest' & -> & Hst).
  set (p := take (Z.to_nat (dm_size m)) (payload (dsp s))) in *.
  set (s' := call_step m s). assert (holder s' = holder s) as Hh by done.
  destruct R4 as [(pre & Hpre & Hna & Hacks)|(? & _)]; [|done].
  unfold acks in Hacks. rewrite Ho in Hacks. cbn [ack_left] in Hacks. rewrite app_nil_r in Hacks.
  apply app_nil in Hacks as [Hgot Hbwd].
  apply (dinv_recv s); try done.
  - unfold owner_ok, s', call_step. cbn [owner set_owner]. destruct (dm_ack m); [lia|done].
  - unfold s', call_step. cbn [calls handled set_owner add_handled]. rewrite fmap_app, concat_app, <- I5, I4.
    cbn. by rewrite app_nil_r.
  - exists rest'. split_and!.
    + rewrite R1. change (handled s') with (handled s ++ [(m, p)]). by rewrite <- (assoc_L (++)).
    + by inversion R2.
    + rewrite Hst. change (fwd s') with (fwd s). unfold taken, s', call_step. cbn [owner set_owner].
      by destruct (dm_ack m).
    + destruct pre as [|x pre]; simpl in Hpre.
      * (** the current message *)
        destruct rest' as [|]; [|by destruct (holder s); simplify_eq/=].
        symmetry in Hst. apply app_nil in Hst as [_ Htw].
        destruct (to_write_nil (holder s) m p (holder_ok s I2) (eq_sym Hpre) Htw) as [got Hs].
        pose proof (holder_ok s I2) as Hok. rewrite Hs in Hok, Hgot. destruct Hok as (_ & Ha & _). simpl in Hgot. subst got.
        right. split; [done|]. split; [|exists m, p, [], (handled s); by rewrite Hh, Hs].
        unfold acks. rewrite Hh, Hs. change (bwd s') with (bwd s). rewrite Hbwd.
        unfold s', call_step. cbn [owner set_owner]. by rewrite Ha.
      * injection Hpre as <- ->. inversion Hna as [|? ? Hx Hna']; subst. cbn [fst] in Hx. left. exists pre.
        rewrite Hh. split_and!; [done|done|]. unfold acks. rewrite Hh, Hgot. change (bwd s') with (bwd s). rewrite Hbwd.
        unfold s', call_step. cbn [owner set_owner]. by rewrite Hx.
  - intros m' p' Hs Ha. destruct (I7 m' p' Hs Ha) as (h & _ & He). rewrite He in R1.
    apply (f_equal length) in R1. rewrite length_app in R1. simpl in R1. lia.
Qed.

Lemma step_recv_ack s m k r b :
  dinv any s -> owner s = RAck m k -> sys_write cap ack_bytes k r (bwd s) = Some b ->
  let s1 := set_bwd b s in
  match write_safe_turn 4 k r with
  | Again k => dinv any (set_owner (RAck m k) s1)
  | Finished => dinv any (set_owner RPoll s1)
  | Failed => True
  end.
Proof.
  intros HI Ho Hw s1. pose proof HI as [_ _ I3 _ _ _ _]. unfold owner_ok in I3. rewrite Ho in I3.
  apply sys_write_inv in Hw. change (length ack_bytes) with 4%nat in Hw.
  assert (forall o k', (o = RAck m k' /\ 0 <= k' < 4 \/ o = RPoll /\ k' = 4) ->
     b ++ drop (Z.to_nat k') ack_bytes = bwd s ++ drop (Z.to_nat k) ack_bytes -> dinv any (set_owner o s1)) as Hgo.
  { intros o k' Hoo Hb. apply (dinv_recv_bytes s); try done.
    - unfold owner_ok. by destruct Hoo as [[-> ?]|[-> _]].
    - unfold taken. rewrite Ho. by destruct Hoo as [[-> ?]|[-> _]].
    - rewrite Ho. cbn [ack_left]. rewrite <- Hb. by destruct Hoo as [[-> ?]|[-> ->]]. }
  unfold write_safe_turn, safe_turn. destruct r as [n| |]; [|subst b; apply (Hgo _ k); auto|done].
  destruct Hw as [Hn ->]. pose proof (write_moves ack_bytes [] (bwd s) k n ltac:(lia) ltac:(lia)) as Hmv.
  rewrite !app_nil_r in Hmv. case_if; zbool; apply (Hgo _ (k + n)); try done; [left|right]; split; done || lia.
Qed.

Lemma step_poll s : dinv any s -> owner s = RPoll -> dinv any (set_owner (RHeader []) s).
Proof.
  intros HI Ho. apply (dinv_recv_bytes s); try done.
  - unfold owner_ok. simpl. lia.
  - unfold taken. by rewrite Ho.
  - by rewrite Ho.
Qed.

(** *** All steps *)

Lemma dstep_dinv a s s' :
  dinv any s -> (forall t m p, a = AStart t m p -> msg_wf m) -> dstep cap a s = Some s' ->
  broken s' = false -> dinv any s'.
Proof.
  intros HI Hwf Hst Hb. destruct a as [t m p|t r|junk r]; cbn [dstep] in Hst.
  - unfold start_send in Hst. destruct (sender t s) eqn:Hs; try done.
    destruct (Z.eqb_spec (Z.of_nat (length p)) (dm_size m)); [|done].
    injection Hst as <-. apply step_start; [done|done|]. split; [by eapply Hwf|done].
  - unfold send_step in Hst. destruct (sender t s) as [|m p|m p k|m p k|m p got|m p] eqn:Hs; [done|..].
    + case_bool_decide; [|done]. injection Hst as <-. by apply step_lock.
    + destruct (sys_write cap (msg_bytes m) k r (fwd s)) as [f|] eqn:Hw; [|done]. injection Hst as <-.
      pose proof (step_header s t m p k r f HI Hs Hw) as H. cbn in H. by destruct (write_safe_turn _ _ _).
    + destruct (sys_write cap p k r (fwd s)) as [f|] eqn:Hw; [|done]. injection Hst as <-.
      pose proof (step_body s t m p k r f HI Hs Hw) as H. cbn in H. by destruct (write_safe_turn _ _ _).
    + destruct (sys_read _ r (bwd s)) as [[bs b]|] eqn:Hr; [|done]. injection Hst as <-.
      pose proof (step_ack s t m p got r bs b HI Hs Hr) as H. cbn in H. by destruct (read_safe_turn _ _ _).
    + injection Hst as <-. by eapply step_unlock.
  - unfold recv_step in Hst. destruct (owner s) as [|got|m k|m|m k] eqn:Ho.
    + case_bool_decide; [done|]. injection Hst as <-. by apply step_poll.
    + destruct (sys_read _ r (fwd s)) as [[bs f]|] eqn:Hr; [|done]. injection Hst as <-.
      pose proof (step_recv_header s got r bs f junk HI Ho Hr) as H. cbn in H. by destruct (read_safe_turn _ _ _).
    + destruct (sys_read _ r (fwd s)) as [[bs f]|] eqn:Hr; [|done]. injection Hst as <-.
      pose proof (step_recv_body s m k r bs f HI Ho Hr) as H. cbn in H. by destruct (read_safe_turn _ _ _).
    + injection Hst as <-. by apply step_call.
    + destruct (sys_write cap ack_bytes k r (bwd s)) as [b|] eqn:Hw; [|done]. injection Hst as <-.
      pose proof (step_recv_ack s m k r b HI Ho Hw) as H. cbn in H. by destruct (write_safe_turn _ _ _).
Qed.
End steps.

Section reach.
Context (cap : Z).

Lemma dinv_init d : dinv (any_handler d) (init_state d).
Proof.
  split; try done.
  exists []. split_and!; [done|done|done|]. left. by exists [].
Qed.

(** A failed call is not forgotten. *)
Lemma dstep_broken a s s' : dstep cap a s = Some s' -> broken s' = false -> broken s = false.
Proof.
  destruct a as [t m p|t r|junk r]; cbn [dstep].
  - unfold start_send. destruct (sender t s); try done. destruct (_ =? _); [|done]. by intros [= <-].
  - unfold send_step. destruct (sender t s) as [|m p|m p k|m p k|m p got|m p]; [done|..].
    + case_bool_decide; [|done]. by intros [= <-].
    + destruct (sys_write _ _ _ _ _); [|done]. intros [= <-]. by destruct (write_safe_turn _ _ _).
    + destruct (sys_write _ _ _ _ _); [|done]. intros [= <-]. by destruct (write_safe_turn _ _ _).
    + destruct (sys_read _ _ _) as [[]|]; [|done]. intros [= <-]. by destruct (read_safe_turn _ _ _).
    + by intros [= <-].
  - unfold recv_step. destruct (owner s) as [|got|m k|m|m k].
    + case_bool_decide; [done|]. by intros [= <-].
    + destruct (sys_read _ _ _) as [[]|]; [|done]. intros [= <-]. by destruct (read_safe_turn _ _ _).
    + destruct (sys_read _ _ _) as [[]|]; [|done]. intros [= <-]. by destruct (read_safe_turn _ _ _).
    + by intros [= <-].
    + destruct (sys_write _ _ _ _ _); [|done]. intros [= <-]. by destruct (write_safe_turn _ _ _).
Qed.

Lemma reachable_dinv d s : reachable cap d s -> broken s = false -> dinv (any_handler d) s.
Proof.
  induction 1 as [|s a s' Hr IH Hwf Hst]; intros Hb; [apply dinv_init|].
  eapply dstep_dinv; eauto using dstep_broken.
Qed.

(** Some of the socket is free, or it can be read. *)
Lemma sys_write_one buf k pipe :
  0 <= k < Z.of_nat (length buf) -> Z.of_nat (length pipe) < cap ->
  is_Some (sys_write cap buf k (SysOk 1) pipe).
Proof.
  intros Hk Hp. unfold sys_write. case_if; [by eexists|]. exfalso.
  rewrite !andb_false_iff, !Z.leb_gt in Eb. lia.
Qed.
Lemma sys_read_one left pipe : 1 <= left -> pipe <> [] -> is_Some (sys_read left (SysOk 1) pipe).
Proof.
  intros Hl Hp. unfold sys_read. assert (1 <= Z.of_nat (length pipe)) by (destruct pipe; [done|simpl; lia]).
  case_if; [by eexists|]. exfalso. rewrite !andb_false_iff, !Z.leb_gt in Eb. lia.
Qed.

Lemma owner_can_read any s :
  dinv any s -> fwd s <> [] -> (forall m k, owner s <> RAck m k) -> is_Some (recv_step cap [] (SysOk 1) s).
Proof.
  intros HI Hf Hna. destruct HI as [_ _ I3 _ _ _ _]. unfold owner_ok in I3. unfold recv_step.
  destruct (owner s) as [|got|m k|m|m k].
  - rewrite bool_decide_eq_false_2 by done. by eexists.
  - destruct (sys_read_one (sizeof_DispatcherMessage - Z.of_nat (length got)) (fwd s)) as [[bs f] ->];
      [unfold sizeof_DispatcherMessage; lia|done|]. by eexists.
  - destruct (sys_read_one (dm_size m - k) (fwd s)) as [[bs f] ->]; [lia|done|]. by eexists.
  - by eexists.
  - by destruct (Hna m k).
Qed.

(** A sender that waits for its acknowledgement is served. *)
Lemma wait_served any s m p got :
  0 < cap -> dinv any s -> holder s = SAck m p got -> bwd s = [] -> is_Some (recv_step cap [] (SysOk 1) s).
Proof.
  intros Hcap HI Hh Hb. pose proof HI as [_ I2 I3 _ _ (rest & _ & R2 & R3 & R4) _].
  destruct (owner s) as [| | | |m' k] eqn:Ho.
  5: { unfold recv_step, owner_ok in *. rewrite Ho in *.
       destruct (sys_write_one ack_bytes k (bwd s)) as [b ->]; [simpl; lia|rewrite Hb; simpl; lia|]. by eexists. }
  4: { unfold recv_step. rewrite Ho. by eexists. }
  all: apply (owner_can_read any s HI); [|by rewrite Ho]; intros Hf.
  all: pose proof (holder_ok s I2) as Hok; rewrite Hh in Hok; destruct Hok as (_ & _ & Hlen).
  all: destruct R4 as [(pre & -> & _ & _)|(_ & Ha & _)];
    [|unfold acks in Ha; rewrite Hh, Hb, Ho in Ha; simpl in Ha; rewrite app_nil_r in Ha; subst got; simpl in Hlen; lia].
  all: rewrite Hh, Hf in *; cbn [current to_write] in *; unfold taken, owner_ok in *; rewrite Ho in *; rewrite !app_nil_r in R3.
  - apply stream_nil_inv in R3. by apply app_nil in R3 as [_ ?].
  - apply (f_equal length) in R3. rewrite stream_app, stream_cons, !length_app, length_msg_bytes in R3. lia.
  - destruct I3 as (Hwf & Hk & Hp). destruct (pre ++ [(m, p)]) as [|[m' p'] l] eqn:He; [by apply app_nil in He as [_ ?]|].
    inversion R2 as [|? ? [Hwf' Hl'] ?]; subst. rewrite stream_cons in R3. cbn [fst snd] in *.
    apply app_inj_1 in R3 as [Hm Hp']; [|done].
    assert (m' = m0) as -> by (rewrite <- (bytes_msg_bytes m'), Hm by done; by apply bytes_msg_bytes).
    apply (f_equal length) in Hp'. rewrite length_app, length_take in Hp'. lia.
Qed.

Lemma dinv_progress any s t :
  0 < cap -> dinv any s -> sender t s <> SIdle ->
  exists a s', dstep cap a s = Some s' /\
    ((exists u, a = ASend u (SysOk 1)) \/ a = ARecv [] (SysOk 1)).
Proof.
  intros Hcap HI Hs. pose proof HI as [I1 I2 _ _ _ (rest & _ & _ & _ & R4) _].
  assert (is_Some (recv_step cap [] (SysOk 1) s) -> exists a s', dstep cap a s = Some s' /\
    ((exists u, a = ASend u (SysOk 1)) \/ a = ARecv [] (SysOk 1))) as Hrecv.
  { intros [s' Hs']. exists (ARecv [] (SysOk 1)), s'. auto. }
  assert (forall u, is_Some (send_step cap u (SysOk 1) s) -> exists a s', dstep cap a s = Some s' /\
    ((exists u, a = ASend u (SysOk 1)) \/ a = ARecv [] (SysOk 1))) as Hsend.
  { intros u [s' Hs']. exists (ASend u (SysOk 1)), s'. eauto. }
  destruct (mutex s) as [t0|] eqn:Hm.
  2: { apply (Hsend t). unfold send_step. assert (critical (sender t s) = false) as Hc.
       { destruct (critical (sender t s)) eqn:Hc; [|done]. apply I1 in Hc. congruence. }
       destruct (sender t s); try done. rewrite bool_decide_eq_true_2 by done. by eexists. }
  assert (critical (sender t0 s) = true) as Hc by (by apply I1).
  assert (holder s = sender t0 s) as Hh by (unfold holder; by rewrite Hm).
  pose proof (I2 t0) as Hok.
  assert (forall m k, owner s = RAck m k -> exists m p got, holder s = SAck m p got) as Hra.
  { intros m k Ho. destruct R4 as [(_ & _ & _ & Ha)|(_ & _ & m' & p' & got & _ & ? & _)]; [|by exists m', p', got].
    exfalso. pose proof (di_owner _ _ HI) as Hk. unfold owner_ok in Hk. rewrite Ho in Hk. unfold acks in Ha.
    apply app_nil in Ha as [_ Ha]. apply app_nil in Ha as [_ Ha]. rewrite Ho in Ha. cbn [ack_left] in Ha.
    apply (f_equal length) in Ha. rewrite length_drop in Ha. change (length ack_bytes) with 4%nat in Ha. simpl in Ha. lia. }
  assert ((forall m p got, holder s <> SAck m p got) -> cap <= Z.of_nat (length (fwd s)) ->
    is_Some (recv_step cap [] (SysOk 1) s)) as Hfull.
  { intros Hna Hl. apply (owner_can_read any s HI); [intros Hf; rewrite Hf in Hl; simpl in Hl; lia|].
    intros m k Ho. destruct (Hra m k Ho) as (m' & p' & got & Hx). by destruct (Hna m' p' got). }
  destruct (sender t0 s) as [|m p|m p k|m p k|m p got|m p] eqn:Hs0; try done.
  - destruct (Z.lt_ge_cases (Z.of_nat (length (fwd s))) cap) as [Hl|Hl]; [|apply Hrecv, Hfull; [by rewrite Hh|done]].
    apply (Hsend t0). unfold send_step. rewrite Hs0. destruct Hok as [_ Hk].
    destruct (sys_write_one (msg_bytes m) k (fwd s)) as [f ->]; [rewrite length_msg_bytes; lia|done|]. by eexists.
  - destruct (Z.lt_ge_cases (Z.of_nat (length (fwd s))) cap) as [Hl|Hl]; [|apply Hrecv, Hfull; [by rewrite Hh|done]].
    apply (Hsend t0). unfold send_step. rewrite Hs0. destruct Hok as [[_ Hpl] Hk]. cbn [fst snd] in Hpl.
    destruct (sys_write_one p k (fwd s)) as [f ->]; [lia|done|]. by eexists.
  - destruct (decide (bwd s = [])) as [Hb|Hb]; [by apply Hrecv, (wait_served any s m p got)|].
    apply (Hsend t0). unfold send_step. rewrite Hs0. destruct Hok as (_ & _ & Hl).
    destruct (sys_read_one (4 - Z.of_nat (length got)) (bwd s)) as [[bs b] ->]; [lia|done|]. by eexists.
  - apply (Hsend t0). unfold send_step. rewrite Hs0. by eexists.
Qed.
End reach.

(** ** Properties *)

(** C4: messages arrive whole and in order.  In every interleaving of senders
    and owner with partial and interrupted reads and writes, as long as no
    system call has failed, the messages whose handlers ran are a prefix of
    the messages in the order their senders took the mutex, with the same
    handler, type and payload; the handlers called are the universal one and
    the message's own, for each of them; and when every sender has returned
    and the owner has emptied the socket, all messages are handled. *)
Theorem dispatcher_fifo cap d s :
  reachable cap d s -> broken s = false ->
  (exists rest, sent s = handled s ++ rest /\
     ((forall t, sender t s = SIdle) -> owner s = RPoll -> fwd s = [] -> rest = [])) /\
  calls s = concat ((fun x => calls_of (any_handler d) x.1 x.2) <$> handled s).
Proof.
  intros Hr Hb. destruct (reachable_dinv cap d s Hr Hb) as [I1 _ _ _ I5 (rest & R1 & _ & R3 & _) _].
  split; [|done]. exists rest. split; [done|]. intros Hidle Ho Hf. apply stream_nil_inv. rewrite R3.
  unfold taken. rewrite Ho, Hf. unfold holder. destruct (mutex s); [by rewrite Hidle|done].
Qed.

(** C12: a message with acknowledgement is synchronous.  When the sender has
    read the acknowledgement and is about to release the mutex, the last
    message handled is its own, and none is in between. *)
Theorem dispatcher_sync cap d s t m p :
  reachable cap d s -> broken s = false -> sender t s = SUnlock m p -> dm_ack m = true ->
  exists h, handled s = h ++ [(m, p)] /\ sent s = handled s.
Proof.
  intros Hr Hb Hs Ha. destruct (reachable_dinv cap d s Hr Hb) as [I1 _ _ _ _ _ I7].
  assert (mutex s = Some t) as Hm by (apply I1; by rewrite Hs).
  apply I7; [|done]. unfold holder. by rewrite Hm.
Qed.

(** C32: the threads do not block each other for ever.  While a sender is in
    [send_message], some thread can move a byte, take or release the mutex or
    call a handler, however small the buffers of the socket are. *)
Theorem dispatcher_progress cap d s t :
  0 < cap -> reachable cap d s -> broken s = false -> sender t s <> SIdle ->
  exists a s', dstep cap a s = Some s' /\
    ((exists u, a = ASend u (SysOk 1)) \/ a = ARecv [] (SysOk 1)).
Proof. intros Hc Hr Hb Hs. eapply dinv_progress; eauto using reachable_dinv. Qed.

(** ** Two senders *)

Lemma run_reachable cap d l s s' :
  reachable cap d s -> Forall (fun a => match a with AStart _ m _ => msg_wf m | _ => True end) l ->
  run cap l s = Some s' -> reachable cap d s'.
Proof.
  intros Hr Hl. revert s Hr. induction Hl as [|a l Ha Hl IH]; intros s Hr Hrun; [by injection Hrun as <-|].
  cbn [run] in Hrun. destruct (dstep cap a s) as [s1|] eqn:Hst; [|done].
  eapply IH; [|exact Hrun]. eapply reach_step; [done| |done]. intros t m p ->. exact Ha.
Qed.

Definition demo_sync : DispatcherMessage := send_message_custom_msg 4096 2 true.
Definition demo_async : DispatcherMessage := mkDMsg 8192 0 3 false.

(** Thread 1 sends a synchronous message while thread 2 waits for the mutex;
    the bytes go in pieces of different sizes through a socket of 8 bytes. *)
Definition demo_actions : list action :=
  [AStart 1 demo_sync [7; 8]; AStart 2 demo_async []; ASend 1 (SysOk 0); ASend 1 (SysOk 5); ASend 1 SysIntr;
   ARecv [] (SysOk 0); ARecv [] (SysOk 3); ASend 1 (SysOk 6); ARecv [] (SysOk 8); ASend 1 (SysOk 5);
   ASend 1 (SysOk 2); ARecv [] (SysOk 5); ARecv [1; 2; 3] (SysOk 1); ARecv [] (SysOk 1); ARecv [] (SysOk 0);
   ARecv [] (SysOk 4); ASend 1 (SysOk 1); ASend 1 (SysOk 3)].
Definition demo_state : dstate := default (init_state (new_Dispatcher 4)) (run 8 demo_actions (init_state (new_Dispatcher 4))).

Lemma demo_reachable : reachable 8 (new_Dispatcher 4) demo_state.
Proof.
  eapply (run_reachable 8 _ demo_actions (init_state (new_Dispatcher 4))); [constructor| |].
  - unfold demo_actions. repeat (apply Forall_cons_2; [done || (unfold msg_wf; simpl; lia)|]). apply Forall_nil_2.
  - vm_compute. reflexivity.
Qed.

Lemma dispatcher_fifo_witness :
  ((exists rest, sent demo_state = handled demo_state ++ rest /\
     ((forall t, sender t demo_state = SIdle) -> owner demo_state = RPoll -> fwd demo_state = [] -> rest = [])) /\
   calls demo_state = concat ((fun x => calls_of (any_handler (new_Dispatcher 4)) x.1 x.2) <$> handled demo_state)) /\
  calls demo_state = [CHandler 4096 [7; 8]].
Proof.
  split; [|vm_compute; reflexivity].
  apply (dispatcher_fifo 8 (new_Dispatcher 4) demo_state demo_reachable). vm_compute. reflexivity.
Defined.

Lemma dispatcher_sync_witness : exists h, handled demo_state = h ++ [(demo_sync, [7; 8])] /\ sent demo_state = handled demo_state.
Proof.
  apply (dispatcher_sync 8 (new_Dispatcher 4) demo_state 1 demo_sync [7; 8] demo_reachable); vm_compute; reflexivity.
Defined.

Lemma dispatcher_progress_witness :
  exists a s', dstep 8 a demo_state = Some s' /\
    ((exists u, a = ASend u (SysOk 1)) \/ a = ARecv [] (SysOk 1)).
Proof.
  apply (dispatcher_progress 8 (new_Dispatcher 4) demo_state 2 ltac:(lia) demo_reachable).
  - vm_compute. reflexivity.
  - vm_compute. discriminate.
Defined.
