(* ===== verification/ChannelClient.v ===== *)
(** * Channel clients (red-channel-client.cpp)

    A [RedChannelClient] is one connection of a client: a pipe of items to
    send, a message being written to a socket that may take part of it, the
    acknowledgement window, the message being read, and two monitors, one for
    the latency (pings) and one for the connectivity.

    The socket, the clock and the parts of the server around the channel are
    the parameter [RccEnv]; so are the two virtual methods with logic of their
    own: [send_item], as the list of calls of the base class that a channel
    makes to send an item, and [handle_message] of a derived class, with the
    calls it makes before it returns.  The marshaller (of the spice-common
    library) is a header and the bytes after it.  [wire] are the bytes given to
    the socket, [log] what was passed to the rest of the server.  Two fields
    are ghost state: [frames], the images of the messages in the order in which
    [begin_send_message] started them, and [handled], the messages passed to
    [handle_message]. *)

From Stdlib Require Import ZArith Lia.
From stdpp Require Import base list numbers tactics option.
From S2P Require Import Prelude.

Open Scope Z_scope.

Definition CLIENT_ACK_WINDOW : Z := 20.
Definition MSEC_PER_SEC : Z := 1000.
Definition NSEC_PER_MILLISEC : Z := 1000000.
Definition PING_TEST_TIMEOUT_MS : Z := MSEC_PER_SEC * 15.
Definition PING_TEST_LONG_TIMEOUT_MS : Z := MSEC_PER_SEC * 60 * 5.
Definition PING_TEST_IDLE_NET_TIMEOUT_MS : Z := MSEC_PER_SEC / 10.
Definition SPICE_WATCH_EVENT_READ : Z := 1.
Definition SPICE_WATCH_EVENT_WRITE : Z := 2.

Inductive QosPingState :=
  | PING_STATE_NONE | PING_STATE_TIMER | PING_STATE_WARMUP | PING_STATE_LATENCY.
Inductive ConnectivityState :=
  | CONNECTIVITY_STATE_CONNECTED | CONNECTIVITY_STATE_BLOCKED
  | CONNECTIVITY_STATE_WAIT_PONG | CONNECTIVITY_STATE_DISCONNECTED.
#[export] Instance QosPingState_eq_dec : EqDecision QosPingState.
Proof. solve_decision. Defined.
#[export] Instance ConnectivityState_eq_dec : EqDecision ConnectivityState.
Proof. solve_decision. Defined.

(** A pipe item is an object with an identity. *)
Inductive item_kind :=
  | RED_PIPE_ITEM_TYPE_SET_ACK | RED_PIPE_ITEM_TYPE_MIGRATE | RED_PIPE_ITEM_TYPE_EMPTY_MSG (msg : Z)
  | RED_PIPE_ITEM_TYPE_PING | RED_PIPE_ITEM_TYPE_MARKER | RED_PIPE_ITEM_OTHER (data : Z).
Record item := mkItem { it_id : Z; it_kind : item_kind }.

(** The header of a message: the mini header has only the type and the size. *)
Record hdr := mkHdr { h_serial : Z; h_type : Z; h_size : Z; h_sub_list : Z }.
(** A marshaller: the reserved header, if any, and what follows. *)
Record marsh := mkMarsh { m_hdr : option hdr; m_body : list Z }.
Inductive which := Main | Urgent.
#[export] Instance which_eq_dec : EqDecision which.
Proof. solve_decision. Defined.

(** What the channel client passes to the rest of the server. *)
Inductive event :=
  | EvHandled (type : Z) (message : list Z)   (** a message of the derived class *)
  | EvMarkerSent (id : Z)
  | EvFlush                                   (** red_stream_flush *)
  | EvNoDelay (on : bool)                     (** red_stream_set_no_delay *)
  | EvShutdown | EvRemoveClient | EvOnDisconnect | EvRemoveChannel | EvAddClient | EvAddChannel.

Record rcc (W : Type) := mkRcc {
  generation : Z; client_generation : Z; messages_window : Z; client_window : Z; cur_m : which;
  main_m : marsh; urgent_m : marsh; hdr_data : option which; main_hdr_data : option which;
  send_size : Z; blocked : bool; last_sent_serial : Z; blocked_read : bool; during_send : bool;
  pipe : list item; mini : bool; wait_migrate_data : bool; wait_migrate_flush_mark : bool;
  lm_state : QosPingState; last_pong_time : Z; lm_timer : option bool; lm_timeout : Z; lm_id :
  Z; tcp_nodelay : bool; warmup_was_sent : bool; roundtrip : Z; cm_state : ConnectivityState;
  sent_bytes : bool; received_bytes : bool; cm_timeout : Z; cm_timer : option bool; header_buf :
  list Z; header_pos : Z; in_msg : option (list Z); msg_pos : Z; out_pos : Z; out_size : Z;
  has_stream : bool; watch : option Z; connected : bool; wire : list Z; frames : list (list Z);
  handled : list (Z * list Z); log : list event; next_id : Z; env : W }.
Arguments mkRcc {W}.
Arguments generation {W}.
Arguments client_generation {W}.
Arguments messages_window {W}.
Arguments client_window {W}.
Arguments cur_m {W}.
Arguments main_m {W}.
Arguments urgent_m {W}.
Arguments hdr_data {W}.
Arguments main_hdr_data {W}.
Arguments send_size {W}.
Arguments blocked {W}.
Arguments last_sent_serial {W}.
Arguments blocked_read {W}.
Arguments during_send {W}.
Arguments pipe {W}.
Arguments mini {W}.
Arguments wait_migrate_data {W}.
Arguments wait_migrate_flush_mark {W}.
Arguments lm_state {W}.
Arguments last_pong_time {W}.
Arguments lm_timer {W}.
Arguments lm_timeout {W}.
Arguments lm_id {W}.
Arguments tcp_nodelay {W}.
Arguments warmup_was_sent {W}.
Arguments roundtrip {W}.
Arguments cm_state {W}.
Arguments sent_bytes {W}.
Arguments received_bytes {W}.
Arguments cm_timeout {W}.
Arguments cm_timer {W}.
Arguments header_buf {W}.
Arguments header_pos {W}.
Arguments in_msg {W}.
Arguments msg_pos {W}.
Arguments out_pos {W}.
Arguments out_size {W}.
Arguments has_stream {W}.
Arguments watch {W}.
Arguments connected {W}.
Arguments wire {W}.
Arguments frames {W}.
Arguments handled {W}.
Arguments log {W}.
Arguments next_id {W}.
Arguments env {W}.

Definition set_generation {W} (v : Z) (s : rcc W) : rcc W :=
  mkRcc v (client_generation s) (messages_window s) (client_window s) (cur_m s) (main_m s)
    (urgent_m s) (hdr_data s) (main_hdr_data s) (send_size s) (blocked s) (last_sent_serial s)
    (blocked_read s) (during_send s) (pipe s) (mini s) (wait_migrate_data s)
    (wait_migrate_flush_mark s) (lm_state s) (last_pong_time s) (lm_timer s) (lm_timeout s)
    (lm_id s) (tcp_nodelay s) (warmup_was_sent s) (roundtrip s) (cm_state s) (sent_bytes s)
    (received_bytes s) (cm_timeout s) (cm_timer s) (header_buf s) (header_pos s) (in_msg s)
    (msg_pos s) (out_pos s) (out_size s) (has_stream s) (watch s) (connected s) (wire s) (frames
    s) (handled s) (log s) (next_id s) (env s).
Definition set_client_generation {W} (v : Z) (s : rcc W) : rcc W :=
  mkRcc (generation s) v (messages_window s) (client_window s) (cur_m s) (main_m s) (urgent_m s)
    (hdr_data s) (main_hdr_data s) (send_size s) (blocked s) (last_sent_serial s) (blocked_read
    s) (during_send s) (pipe s) (mini s) (wait_migrate_data s) (wait_migrate_flush_mark s)
    (lm_state s) (last_pong_time s) (lm_timer s) (lm_timeout s) (lm_id s) (tcp_nodelay s)
    (warmup_was_sent s) (roundtrip s) (cm_state s) (sent_bytes s) (received_bytes s) (cm_timeout
    s) (cm_timer s) (header_buf s) (header_pos s) (in_msg s) (msg_pos s) (out_pos s) (out_size
    s) (has_stream s) (watch s) (connected s) (wire s) (frames s) (handled s) (log s) (next_id
    s) (env s).
Definition set_messages_window {W} (v : Z) (s : rcc W) : rcc W :=
  mkRcc (generation s) (client_generation s) v (client_window s) (cur_m s) (main_m s) (urgent_m
    s) (hdr_data s) (main_hdr_data s) (send_size s) (blocked s) (last_sent_serial s)
    (blocked_read s) (during_send s) (pipe s) (mini s) (wait_migrate_data s)
    (wait_migrate_flush_mark s) (lm_state s) (last_pong_time s) (lm_timer s) (lm_timeout s)
    (lm_id s) (tcp_nodelay s) (warmup_was_sent s) (roundtrip s) (cm_state s) (sent_bytes s)
    (received_bytes s) (cm_timeout s) (cm_timer s) (header_buf s) (header_pos s) (in_msg s)
    (msg_pos s) (out_pos s) (out_size s) (has_stream s) (watch s) (connected s) (wire s) (frames
    s) (handled s) (log s) (next_id s) (env s).
Definition set_client_window {W} (v : Z) (s : rcc W) : rcc W :=
  mkRcc (generation s) (client_generation s) (messages_window s) v (cur_m s) (main_m s)
    (urgent_m s) (hdr_data s) (main_hdr_data s) (send_size s) (blocked s) (last_sent_serial s)
    (blocked_read s) (during_send s) (pipe s) (mini s) (wait_migrate_data s)
    (wait_migrate_flush_mark s) (lm_state s) (last_pong_time s) (lm_timer s) (lm_timeout s)
    (lm_id s) (tcp_nodelay s) (warmup_was_sent s) (roundtrip s) (cm_state s) (sent_bytes s)
    (received_bytes s) (cm_timeout s) (cm_timer s) (header_buf s) (header_pos s) (in_msg s)
    (msg_pos s) (out_pos s) (out_size s) (has_stream s) (watch s) (connected s) (wire s) (frames
    s) (handled s) (log s) (next_id s) (env s).
Definition set_cur_m {W} (v : which) (s : rcc W) : rcc W :=
  mkRcc (generation s) (client_generation s) (messages_window s) (client_window s) v (main_m s)
    (urgent_m s) (hdr_data s) (main_hdr_data s) (send_size s) (blocked s) (last_sent_serial s)
    (blocked_read s) (during_send s) (pipe s) (mini s) (wait_migrate_data s)
    (wait_migrate_flush_mark s) (lm_state s) (last_pong_time s) (lm_timer s) (lm_timeout s)
    (lm_id s) (tcp_nodelay s) (warmup_was_sent s) (roundtrip s) (cm_state s) (sent_bytes s)
    (received_bytes s) (cm_timeout s) (cm_timer s) (header_buf s) (header_pos s) (in_msg s)
    (msg_pos s) (out_pos s) (out_size s) (has_stream s) (watch s) (connected s) (wire s) (frames
    s) (handled s) (log s) (next_id s) (env s).
Definition set_main_m {W} (v : marsh) (s : rcc W) : rcc W :=
  mkRcc (generation s) (client_generation s) (messages_window s) (client_window s) (cur_m s) v
    (urgent_m s) (hdr_data s) (main_hdr_data s) (send_size s) (blocked s) (last_sent_serial s)
    (blocked_read s) (during_send s) (pipe s) (mini s) (wait_migrate_data s)
    (wait_migrate_flush_mark s) (lm_state s) (last_pong_time s) (lm_timer s) (lm_timeout s)
    (lm_id s) (tcp_nodelay s) (warmup_was_sent s) (roundtrip s) (cm_state s) (sent_bytes s)
    (received_bytes s) (cm_timeout s) (cm_timer s) (header_buf s) (header_pos s) (in_msg s)
    (msg_pos s) (out_pos s) (out_size s) (has_stream s) (watch s) (connected s) (wire s) (frames
    s) (handled s) (log s) (next_id s) (env s).
Definition set_urgent_m {W} (v : marsh) (s : rcc W) : rcc W :=
  mkRcc (generation s) (client_generation s) (messages_window s) (client_window s) (cur_m s)
    (main_m s) v (hdr_data s) (main_hdr_data s) (send_size s) (blocked s) (last_sent_serial s)
    (blocked_read s) (during_send s) (pipe s) (mini s) (wait_migrate_data s)
    (wait_migrate_flush_mark s) (lm_state s) (last_pong_time s) (lm_timer s) (lm_timeout s)
    (lm_id s) (tcp_nodelay s) (warmup_was_sent s) (roundtrip s) (cm_state s) (sent_bytes s)
    (received_bytes s) (cm_timeout s) (cm_timer s) (header_buf s) (header_pos s) (in_msg s)
    (msg_pos s) (out_pos s) (out_size s) (has_stream s) (watch s) (connected s) (wire s) (frames
    s) (handled s) (log s) (next_id s) (env s).
Definition set_hdr_data {W} (v : option which) (s : rcc W) : rcc W :=
  mkRcc (generation s) (client_generation s) (messages_window s) (client_window s) (cur_m s)
    (main_m s) (urgent_m s) v (main_hdr_data s) (send_size s) (blocked s) (last_sent_serial s)
    (blocked_read s) (during_send s) (pipe s) (mini s) (wait_migrate_data s)
    (wait_migrate_flush_mark s) (lm_state s) (last_pong_time s) (lm_timer s) (lm_timeout s)
    (lm_id s) (tcp_nodelay s) (warmup_was_sent s) (roundtrip s) (cm_state s) (sent_bytes s)
    (received_bytes s) (cm_timeout s) (cm_timer s) (header_buf s) (header_pos s) (in_msg s)
    (msg_pos s) (out_pos s) (out_size s) (has_stream s) (watch s) (connected s) (wire s) (frames
    s) (handled s) (log s) (next_id s) (env s).
Definition set_main_hdr_data {W} (v : option which) (s : rcc W) : rcc W :=
  mkRcc (generation s) (client_generation s) (messages_window s) (client_window s) (cur_m s)
    (main_m s) (urgent_m s) (hdr_data s) v (send_size s) (blocked s) (last_sent_serial s)
    (blocked_read s) (during_send s) (pipe s) (mini s) (wait_migrate_data s)
    (wait_migrate_flush_mark s) (lm_state s) (last_pong_time s) (lm_timer s) (lm_timeout s)
    (lm_id s) (tcp_nodelay s) (warmup_was_sent s) (roundtrip s) (cm_state s) (sent_bytes s)
    (received_bytes s) (cm_timeout s) (cm_timer s) (header_buf s) (header_pos s) (in_msg s)
    (msg_pos s) (out_pos s) (out_size s) (has_stream s) (watch s) (connected s) (wire s) (frames
    s) (handled s) (log s) (next_id s) (env s).
Definition set_send_size {W} (v : Z) (s : rcc W) : rcc W :=
  mkRcc (generation s) (client_generation s) (messages_window s) (client_window s) (cur_m s)
    (main_m s) (urgent_m s) (hdr_data s) (main_hdr_data s) v (blocked s) (last_sent_serial s)
    (blocked_read s) (during_send s) (pipe s) (mini s) (wait_migrate_data s)
    (wait_migrate_flush_mark s) (lm_state s) (last_pong_time s) (lm_timer s) (lm_timeout s)
    (lm_id s) (tcp_nodelay s) (warmup_was_sent s) (roundtrip s) (cm_state s) (sent_bytes s)
    (received_bytes s) (cm_timeout s) (cm_timer s) (header_buf s) (header_pos s) (in_msg s)
    (msg_pos s) (out_pos s) (out_size s) (has_stream s) (watch s) (connected s) (wire s) (frames
    s) (handled s) (log s) (next_id s) (env s).
Definition set_blocked {W} (v : bool) (s : rcc W) : rcc W :=
  mkRcc (generation s) (client_generation s) (messages_window s) (client_window s) (cur_m s)
    (main_m s) (urgent_m s) (hdr_data s) (main_hdr_data s) (send_size s) v (last_sent_serial s)
    (blocked_read s) (during_send s) (pipe s) (mini s) (wait_migrate_data s)
    (wait_migrate_flush_mark s) (lm_state s) (last_pong_time s) (lm_timer s) (lm_timeout s)
    (lm_id s) (tcp_nodelay s) (warmup_was_sent s) (roundtrip s) (cm_state s) (sent_bytes s)
    (received_bytes s) (cm_timeout s) (cm_timer s) (header_buf s) (header_pos s) (in_msg s)
    (msg_pos s) (out_pos s) (out_size s) (has_stream s) (watch s) (connected s) (wire s) (frames
    s) (handled s) (log s) (next_id s) (env s).
Definition set_last_sent_serial {W} (v : Z) (s : rcc W) : rcc W :=
  mkRcc (generation s) (client_generation s) (messages_window s) (client_window s) (cur_m s)
    (main_m s) (urgent_m s) (hdr_data s) (main_hdr_data s) (send_size s) (blocked s) v
    (blocked_read s) (during_send s) (pipe s) (mini s) (wait_migrate_data s)
    (wait_migrate_flush_mark s) (lm_state s) (last_pong_time s) (lm_timer s) (lm_timeout s)
    (lm_id s) (tcp_nodelay s) (warmup_was_sent s) (roundtrip s) (cm_state s) (sent_bytes s)
    (received_bytes s) (cm_timeout s) (cm_timer s) (header_buf s) (header_pos s) (in_msg s)
    (msg_pos s) (out_pos s) (out_size s) (has_stream s) (watch s) (connected s) (wire s) (frames
    s) (handled s) (log s) (next_id s) (env s).
Definition set_blocked_read {W} (v : bool) (s : rcc W) : rcc W :=
  mkRcc (generation s) (client_generation s) (messages_window s) (client_window s) (cur_m s)
    (main_m s) (urgent_m s) (hdr_data s) (main_hdr_data s) (send_size s) (blocked s)
    (last_sent_serial s) v (during_send s) (pipe s) (mini s) (wait_migrate_data s)
    (wait_migrate_flush_mark s) (lm_state s) (last_pong_time s) (lm_timer s) (lm_timeout s)
    (lm_id s) (tcp_nodelay s) (warmup_was_sent s) (roundtrip s) (cm_state s) (sent_bytes s)
    (received_bytes s) (cm_timeout s) (cm_timer s) (header_buf s) (header_pos s) (in_msg s)
    (msg_pos s) (out_pos s) (out_size s) (has_stream s) (watch s) (connected s) (wire s) (frames
    s) (handled s) (log s) (next_id s) (env s).
Definition set_during_send {W} (v : bool) (s : rcc W) : rcc W :=
  mkRcc (generation s) (client_generation s) (messages_window s) (client_window s) (cur_m s)
    (main_m s) (urgent_m s) (hdr_data s) (main_hdr_data s) (send_size s) (blocked s)
    (last_sent_serial s) (blocked_read s) v (pipe s) (mini s) (wait_migrate_data s)
    (wait_migrate_flush_mark s) (lm_state s) (last_pong_time s) (lm_timer s) (lm_timeout s)
    (lm_id s) (tcp_nodelay s) (warmup_was_sent s) (roundtrip s) (cm_state s) (sent_bytes s)
    (received_bytes s) (cm_timeout s) (cm_timer s) (header_buf s) (header_pos s) (in_msg s)
    (msg_pos s) (out_pos s) (out_size s) (has_stream s) (watch s) (connected s) (wire s) (frames
    s) (handled s) (log s) (next_id s) (env s).
Definition set_pipe {W} (v : list item) (s : rcc W) : rcc W :=
  mkRcc (generation s) (client_generation s) (messages_window s) (client_window s) (cur_m s)
    (main_m s) (urgent_m s) (hdr_data s) (main_hdr_data s) (send_size s) (blocked s)
    (last_sent_serial s) (blocked_read s) (during_send s) v (mini s) (wait_migrate_data s)
    (wait_migrate_flush_mark s) (lm_state s) (last_pong_time s) (lm_timer s) (lm_timeout s)
    (lm_id s) (tcp_nodelay s) (warmup_was_sent s) (roundtrip s) (cm_state s) (sent_bytes s)
    (received_bytes s) (cm_timeout s) (cm_timer s) (header_buf s) (header_pos s) (in_msg s)
    (msg_pos s) (out_pos s) (out_size s) (has_stream s) (watch s) (connected s) (wire s) (frames
    s) (handled s) (log s) (next_id s) (env s).
Definition set_wait_migrate_data {W} (v : bool) (s : rcc W) : rcc W :=
  mkRcc (generation s) (client_generation s) (messages_window s) (client_window s) (cur_m s)
    (main_m s) (urgent_m s) (hdr_data s) (main_hdr_data s) (send_size s) (blocked s)
    (last_sent_serial s) (blocked_read s) (during_send s) (pipe s) (mini s) v
    (wait_migrate_flush_mark s) (lm_state s) (last_pong_time s) (lm_timer s) (lm_timeout s)
    (lm_id s) (tcp_nodelay s) (warmup_was_sent s) (roundtrip s) (cm_state s) (sent_bytes s)
    (received_bytes s) (cm_timeout s) (cm_timer s) (header_buf s) (header_pos s) (in_msg s)
    (msg_pos s) (out_pos s) (out_size s) (has_stream s) (watch s) (connected s) (wire s) (frames
    s) (handled s) (log s) (next_id s) (env s).
Definition set_wait_migrate_flush_mark {W} (v : bool) (s : rcc W) : rcc W :=
  mkRcc (generation s) (client_generation s) (messages_window s) (client_window s) (cur_m s)
    (main_m s) (urgent_m s) (hdr_data s) (main_hdr_data s) (send_size s) (blocked s)
    (last_sent_serial s) (blocked_read s) (during_send s) (pipe s) (mini s) (wait_migrate_data
    s) v (lm_state s) (last_pong_time s) (lm_timer s) (lm_timeout s) (lm_id s) (tcp_nodelay s)
    (warmup_was_sent s) (roundtrip s) (cm_state s) (sent_bytes s) (received_bytes s) (cm_timeout
    s) (cm_timer s) (header_buf s) (header_pos s) (in_msg s) (msg_pos s) (out_pos s) (out_size
    s) (has_stream s) (watch s) (connected s) (wire s) (frames s) (handled s) (log s) (next_id
    s) (env s).
Definition set_lm_state {W} (v : QosPingState) (s : rcc W) : rcc W :=
  mkRcc (generation s) (client_generation s) (messages_window s) (client_window s) (cur_m s)
    (main_m s) (urgent_m s) (hdr_data s) (main_hdr_data s) (send_size s) (blocked s)
    (last_sent_serial s) (blocked_read s) (during_send s) (pipe s) (mini s) (wait_migrate_data
    s) (wait_migrate_flush_mark s) v (last_pong_time s) (lm_timer s) (lm_timeout s) (lm_id s)
    (tcp_nodelay s) (warmup_was_sent s) (roundtrip s) (cm_state s) (sent_bytes s)
    (received_bytes s) (cm_timeout s) (cm_timer s) (header_buf s) (header_pos s) (in_msg s)
    (msg_pos s) (out_pos s) (out_size s) (has_stream s) (watch s) (connected s) (wire s) (frames
    s) (handled s) (log s) (next_id s) (env s).
Definition set_last_pong_time {W} (v : Z) (s : rcc W) : rcc W :=
  mkRcc (generation s) (client_generation s) (messages_window s) (client_window s) (cur_m s)
    (main_m s) (urgent_m s) (hdr_data s) (main_hdr_data s) (send_size s) (blocked s)
    (last_sent_serial s) (blocked_read s) (during_send s) (pipe s) (mini s) (wait_migrate_data
    s) (wait_migrate_flush_mark s) (lm_state s) v (lm_timer s) (lm_timeout s) (lm_id s)
    (tcp_nodelay s) (warmup_was_sent s) (roundtrip s) (cm_state s) (sent_bytes s)
    (received_bytes s) (cm_timeout s) (cm_timer s) (header_buf s) (header_pos s) (in_msg s)
    (msg_pos s) (out_pos s) (out_size s) (has_stream s) (watch s) (connected s) (wire s) (frames
    s) (handled s) (log s) (next_id s) (env s).
Definition set_lm_timer {W} (v : option bool) (s : rcc W) : rcc W :=
  mkRcc (generation s) (client_generation s) (messages_window s) (client_window s) (cur_m s)
    (main_m s) (urgent_m s) (hdr_data s) (main_hdr_data s) (send_size s) (blocked s)
    (last_sent_serial s) (blocked_read s) (during_send s) (pipe s) (mini s) (wait_migrate_data
    s) (wait_migrate_flush_mark s) (lm_state s) (last_pong_time s) v (lm_timeout s) (lm_id s)
    (tcp_nodelay s) (warmup_was_sent s) (roundtrip s) (cm_state s) (sent_bytes s)
    (received_bytes s) (cm_timeout s) (cm_timer s) (header_buf s) (header_pos s) (in_msg s)
    (msg_pos s) (out_pos s) (out_size s) (has_stream s) (watch s) (connected s) (wire s) (frames
    s) (handled s) (log s) (next_id s) (env s).
Definition set_lm_timeout {W} (v : Z) (s : rcc W) : rcc W :=
  mkRcc (generation s) (client_generation s) (messages_window s) (client_window s) (cur_m s)
    (main_m s) (urgent_m s) (hdr_data s) (main_hdr_data s) (send_size s) (blocked s)
    (last_sent_serial s) (blocked_read s) (during_send s) (pipe s) (mini s) (wait_migrate_data
    s) (wait_migrate_flush_mark s) (lm_state s) (last_pong_time s) (lm_timer s) v (lm_id s)
    (tcp_nodelay s) (warmup_was_sent s) (roundtrip s) (cm_state s) (sent_bytes s)
    (received_bytes s) (cm_timeout s) (cm_timer s) (header_buf s) (header_pos s) (in_msg s)
    (msg_pos s) (out_pos s) (out_size s) (has_stream s) (watch s) (connected s) (wire s) (frames
    s) (handled s) (log s) (next_id s) (env s).
Definition set_lm_id {W} (v : Z) (s : rcc W) : rcc W :=
  mkRcc (generation s) (client_generation s) (messages_window s) (client_window s) (cur_m s)
    (main_m s) (urgent_m s) (hdr_data s) (main_hdr_data s) (send_size s) (blocked s)
    (last_sent_serial s) (blocked_read s) (during_send s) (pipe s) (mini s) (wait_migrate_data
    s) (wait_migrate_flush_mark s) (lm_state s) (last_pong_time s) (lm_timer s) (lm_timeout s) v
    (tcp_nodelay s) (warmup_was_sent s) (roundtrip s) (cm_state s) (sent_bytes s)
    (received_bytes s) (cm_timeout s) (cm_timer s) (header_buf s) (header_pos s) (in_msg s)
    (msg_pos s) (out_pos s) (out_size s) (has_stream s) (watch s) (connected s) (wire s) (frames
    s) (handled s) (log s) (next_id s) (env s).
Definition set_tcp_nodelay {W} (v : bool) (s : rcc W) : rcc W :=
  mkRcc (generation s) (client_generation s) (messages_window s) (client_window s) (cur_m s)
    (main_m s) (urgent_m s) (hdr_data s) (main_hdr_data s) (send_size s) (blocked s)
    (last_sent_serial s) (blocked_read s) (during_send s) (pipe s) (mini s) (wait_migrate_data
    s) (wait_migrate_flush_mark s) (lm_state s) (last_pong_time s) (lm_timer s) (lm_timeout s)
    (lm_id s) v (warmup_was_sent s) (roundtrip s) (cm_state s) (sent_bytes s) (received_bytes s)
    (cm_timeout s) (cm_timer s) (header_buf s) (header_pos s) (in_msg s) (msg_pos s) (out_pos s)
    (out_size s) (has_stream s) (watch s) (connected s) (wire s) (frames s) (handled s) (log s)
    (next_id s) (env s).
Definition set_warmup_was_sent {W} (v : bool) (s : rcc W) : rcc W :=
  mkRcc (generation s) (client_generation s) (messages_window s) (client_window s) (cur_m s)
    (main_m s) (urgent_m s) (hdr_data s) (main_hdr_data s) (send_size s) (blocked s)
    (last_sent_serial s) (blocked_read s) (during_send s) (pipe s) (mini s) (wait_migrate_data
    s) (wait_migrate_flush_mark s) (lm_state s) (last_pong_time s) (lm_timer s) (lm_timeout s)
    (lm_id s) (tcp_nodelay s) v (roundtrip s) (cm_state s) (sent_bytes s) (received_bytes s)
    (cm_timeout s) (cm_timer s) (header_buf s) (header_pos s) (in_msg s) (msg_pos s) (out_pos s)
    (out_size s) (has_stream s) (watch s) (connected s) (wire s) (frames s) (handled s) (log s)
    (next_id s) (env s).
Definition set_roundtrip {W} (v : Z) (s : rcc W) : rcc W :=
  mkRcc (generation s) (client_generation s) (messages_window s) (client_window s) (cur_m s)
    (main_m s) (urgent_m s) (hdr_data s) (main_hdr_data s) (send_size s) (blocked s)
    (last_sent_serial s) (blocked_read s) (during_send s) (pipe s) (mini s) (wait_migrate_data
    s) (wait_migrate_flush_mark s) (lm_state s) (last_pong_time s) (lm_timer s) (lm_timeout s)
    (lm_id s) (tcp_nodelay s) (warmup_was_sent s) v (cm_state s) (sent_bytes s) (received_bytes
    s) (cm_timeout s) (cm_timer s) (header_buf s) (header_pos s) (in_msg s) (msg_pos s) (out_pos
    s) (out_size s) (has_stream s) (watch s) (connected s) (wire s) (frames s) (handled s) (log
    s) (next_id s) (env s).
Definition set_cm_state {W} (v : ConnectivityState) (s : rcc W) : rcc W :=
  mkRcc (generation s) (client_generation s) (messages_window s) (client_window s) (cur_m s)
    (main_m s) (urgent_m s) (hdr_data s) (main_hdr_data s) (send_size s) (blocked s)
    (last_sent_serial s) (blocked_read s) (during_send s) (pipe s) (mini s) (wait_migrate_data
    s) (wait_migrate_flush_mark s) (lm_state s) (last_pong_time s) (lm_timer s) (lm_timeout s)
    (lm_id s) (tcp_nodelay s) (warmup_was_sent s) (roundtrip s) v (sent_bytes s) (received_bytes
    s) (cm_timeout s) (cm_timer s) (header_buf s) (header_pos s) (in_msg s) (msg_pos s) (out_pos
    s) (out_size s) (has_stream s) (watch s) (connected s) (wire s) (frames s) (handled s) (log
    s) (next_id s) (env s).
Definition set_sent_bytes {W} (v : bool) (s : rcc W) : rcc W :=
  mkRcc (generation s) (client_generation s) (messages_window s) (client_window s) (cur_m s)
    (main_m s) (urgent_m s) (hdr_data s) (main_hdr_data s) (send_size s) (blocked s)
    (last_sent_serial s) (blocked_read s) (during_send s) (pipe s) (mini s) (wait_migrate_data
    s) (wait_migrate_flush_mark s) (lm_state s) (last_pong_time s) (lm_timer s) (lm_timeout s)
    (lm_id s) (tcp_nodelay s) (warmup_was_sent s) (roundtrip s) (cm_state s) v (received_bytes
    s) (cm_timeout s) (cm_timer s) (header_buf s) (header_pos s) (in_msg s) (msg_pos s) (out_pos
    s) (out_size s) (has_stream s) (watch s) (connected s) (wire s) (frames s) (handled s) (log
    s) (next_id s) (env s).
Definition set_received_bytes {W} (v : bool) (s : rcc W) : rcc W :=
  mkRcc (generation s) (client_generation s) (messages_window s) (client_window s) (cur_m s)
    (main_m s) (urgent_m s) (hdr_data s) (main_hdr_data s) (send_size s) (blocked s)
    (last_sent_serial s) (blocked_read s) (during_send s) (pipe s) (mini s) (wait_migrate_data
    s) (wait_migrate_flush_mark s) (lm_state s) (last_pong_time s) (lm_timer s) (lm_timeout s)
    (lm_id s) (tcp_nodelay s) (warmup_was_sent s) (roundtrip s) (cm_state s) (sent_bytes s) v
    (cm_timeout s) (cm_timer s) (header_buf s) (header_pos s) (in_msg s) (msg_pos s) (out_pos s)
    (out_size s) (has_stream s) (watch s) (connected s) (wire s) (frames s) (handled s) (log s)
    (next_id s) (env s).
Definition set_cm_timeout {W} (v : Z) (s : rcc W) : rcc W :=
  mkRcc (generation s) (client_generation s) (messages_window s) (client_window s) (cur_m s)
    (main_m s) (urgent_m s) (hdr_data s) (main_hdr_data s) (send_size s) (blocked s)
    (last_sent_serial s) (blocked_read s) (during_send s) (pipe s) (mini s) (wait_migrate_data
    s) (wait_migrate_flush_mark s) (lm_state s) (last_pong_time s) (lm_timer s) (lm_timeout s)
    (lm_id s) (tcp_nodelay s) (warmup_was_sent s) (roundtrip s) (cm_state s) (sent_bytes s)
    (received_bytes s) v (cm_timer s) (header_buf s) (header_pos s) (in_msg s) (msg_pos s)
    (out_pos s) (out_size s) (has_stream s) (watch s) (connected s) (wire s) (frames s) (handled
    s) (log s) (next_id s) (env s).
Definition set_cm_timer {W} (v : option bool) (s : rcc W) : rcc W :=
  mkRcc (generation s) (client_generation s) (messages_window s) (client_window s) (cur_m s)
    (main_m s) (urgent_m s) (hdr_data s) (main_hdr_data s) (send_size s) (blocked s)
    (last_sent_serial s) (blocked_read s) (during_send s) (pipe s) (mini s) (wait_migrate_data
    s) (wait_migrate_flush_mark s) (lm_state s) (last_pong_time s) (lm_timer s) (lm_timeout s)
    (lm_id s) (tcp_nodelay s) (warmup_was_sent s) (roundtrip s) (cm_state s) (sent_bytes s)
    (received_bytes s) (cm_timeout s) v (header_buf s) (header_pos s) (in_msg s) (msg_pos s)
    (out_pos s) (out_size s) (has_stream s) (watch s) (connected s) (wire s) (frames s) (handled
    s) (log s) (next_id s) (env s).
Definition set_header_buf {W} (v : list Z) (s : rcc W) : rcc W :=
  mkRcc (generation s) (client_generation s) (messages_window s) (client_window s) (cur_m s)
    (main_m s) (urgent_m s) (hdr_data s) (main_hdr_data s) (send_size s) (blocked s)
    (last_sent_serial s) (blocked_read s) (during_send s) (pipe s) (mini s) (wait_migrate_data
    s) (wait_migrate_flush_mark s) (lm_state s) (last_pong_time s) (lm_timer s) (lm_timeout s)
    (lm_id s) (tcp_nodelay s) (warmup_was_sent s) (roundtrip s) (cm_state s) (sent_bytes s)
    (received_bytes s) (cm_timeout s) (cm_timer s) v (header_pos s) (in_msg s) (msg_pos s)
    (out_pos s) (out_size s) (has_stream s) (watch s) (connected s) (wire s) (frames s) (handled
    s) (log s) (next_id s) (env s).
Definition set_header_pos {W} (v : Z) (s : rcc W) : rcc W :=
  mkRcc (generation s) (client_generation s) (messages_window s) (client_window s) (cur_m s)
    (main_m s) (urgent_m s) (hdr_data s) (main_hdr_data s) (send_size s) (blocked s)
    (last_sent_serial s) (blocked_read s) (during_send s) (pipe s) (mini s) (wait_migrate_data
    s) (wait_migrate_flush_mark s) (lm_state s) (last_pong_time s) (lm_timer s) (lm_timeout s)
    (lm_id s) (tcp_nodelay s) (warmup_was_sent s) (roundtrip s) (cm_state s) (sent_bytes s)
    (received_bytes s) (cm_timeout s) (cm_timer s) (header_buf s) v (in_msg s) (msg_pos s)
    (out_pos s) (out_size s) (has_stream s) (watch s) (connected s) (wire s) (frames s) (handled
    s) (log s) (next_id s) (env s).
Definition set_in_msg {W} (v : option (list Z)) (s : rcc W) : rcc W :=
  mkRcc (generation s) (client_generation s) (messages_window s) (client_window s) (cur_m s)
    (main_m s) (urgent_m s) (hdr_data s) (main_hdr_data s) (send_size s) (blocked s)
    (last_sent_serial s) (blocked_read s) (during_send s) (pipe s) (mini s) (wait_migrate_data
    s) (wait_migrate_flush_mark s) (lm_state s) (last_pong_time s) (lm_timer s) (lm_timeout s)
    (lm_id s) (tcp_nodelay s) (warmup_was_sent s) (roundtrip s) (cm_state s) (sent_bytes s)
    (received_bytes s) (cm_timeout s) (cm_timer s) (header_buf s) (header_pos s) v (msg_pos s)
    (out_pos s) (out_size s) (has_stream s) (watch s) (connected s) (wire s) (frames s) (handled
    s) (log s) (next_id s) (env s).
Definition set_msg_pos {W} (v : Z) (s : rcc W) : rcc W :=
  mkRcc (generation s) (client_generation s) (messages_window s) (client_window s) (cur_m s)
    (main_m s) (urgent_m s) (hdr_data s) (main_hdr_data s) (send_size s) (blocked s)
    (last_sent_serial s) (blocked_read s) (during_send s) (pipe s) (mini s) (wait_migrate_data
    s) (wait_migrate_flush_mark s) (lm_state s) (last_pong_time s) (lm_timer s) (lm_timeout s)
    (lm_id s) (tcp_nodelay s) (warmup_was_sent s) (roundtrip s) (cm_state s) (sent_bytes s)
    (received_bytes s) (cm_timeout s) (cm_timer s) (header_buf s) (header_pos s) (in_msg s) v
    (out_pos s) (out_size s) (has_stream s) (watch s) (connected s) (wire s) (frames s) (handled
    s) (log s) (next_id s) (env s).
Definition set_out_pos {W} (v : Z) (s : rcc W) : rcc W :=
  mkRcc (generation s) (client_generation s) (messages_window s) (client_window s) (cur_m s)
    (main_m s) (urgent_m s) (hdr_data s) (main_hdr_data s) (send_size s) (blocked s)
    (last_sent_serial s) (blocked_read s) (during_send s) (pipe s) (mini s) (wait_migrate_data
    s) (wait_migrate_flush_mark s) (lm_state s) (last_pong_time s) (lm_timer s) (lm_timeout s)
    (lm_id s) (tcp_nodelay s) (warmup_was_sent s) (roundtrip s) (cm_state s) (sent_bytes s)
    (received_bytes s) (cm_timeout s) (cm_timer s) (header_buf s) (header_pos s) (in_msg s)
    (msg_pos s) v (out_size s) (has_stream s) (watch s) (connected s) (wire s) (frames s)
    (handled s) (log s) (next_id s) (env s).
Definition set_out_size {W} (v : Z) (s : rcc W) : rcc W :=
  mkRcc (generation s) (client_generation s) (messages_window s) (client_window s) (cur_m s)
    (main_m s) (urgent_m s) (hdr_data s) (main_hdr_data s) (send_size s) (blocked s)
    (last_sent_serial s) (blocked_read s) (during_send s) (pipe s) (mini s) (wait_migrate_data
    s) (wait_migrate_flush_mark s) (lm_state s) (last_pong_time s) (lm_timer s) (lm_timeout s)
    (lm_id s) (tcp_nodelay s) (warmup_was_sent s) (roundtrip s) (cm_state s) (sent_bytes s)
    (received_bytes s) (cm_timeout s) (cm_timer s) (header_buf s) (header_pos s) (in_msg s)
    (msg_pos s) (out_pos s) v (has_stream s) (watch s) (connected s) (wire s) (frames s)
    (handled s) (log s) (next_id s) (env s).
Definition set_watch {W} (v : option Z) (s : rcc W) : rcc W :=
  mkRcc (generation s) (client_generation s) (messages_window s) (client_window s) (cur_m s)
    (main_m s) (urgent_m s) (hdr_data s) (main_hdr_data s) (send_size s) (blocked s)
    (last_sent_serial s) (blocked_read s) (during_send s) (pipe s) (mini s) (wait_migrate_data
    s) (wait_migrate_flush_mark s) (lm_state s) (last_pong_time s) (lm_timer s) (lm_timeout s)
    (lm_id s) (tcp_nodelay s) (warmup_was_sent s) (roundtrip s) (cm_state s) (sent_bytes s)
    (received_bytes s) (cm_timeout s) (cm_timer s) (header_buf s) (header_pos s) (in_msg s)
    (msg_pos s) (out_pos s) (out_size s) (has_stream s) v (connected s) (wire s) (frames s)
    (handled s) (log s) (next_id s) (env s).
Definition set_connected {W} (v : bool) (s : rcc W) : rcc W :=
  mkRcc (generation s) (client_generation s) (messages_window s) (client_window s) (cur_m s)
    (main_m s) (urgent_m s) (hdr_data s) (main_hdr_data s) (send_size s) (blocked s)
    (last_sent_serial s) (blocked_read s) (during_send s) (pipe s) (mini s) (wait_migrate_data
    s) (wait_migrate_flush_mark s) (lm_state s) (last_pong_time s) (lm_timer s) (lm_timeout s)
    (lm_id s) (tcp_nodelay s) (warmup_was_sent s) (roundtrip s) (cm_state s) (sent_bytes s)
    (received_bytes s) (cm_timeout s) (cm_timer s) (header_buf s) (header_pos s) (in_msg s)
    (msg_pos s) (out_pos s) (out_size s) (has_stream s) (watch s) v (wire s) (frames s) (handled
    s) (log s) (next_id s) (env s).
Definition set_wire {W} (v : list Z) (s : rcc W) : rcc W :=
  mkRcc (generation s) (client_generation s) (messages_window s) (client_window s) (cur_m s)
    (main_m s) (urgent_m s) (hdr_data s) (main_hdr_data s) (send_size s) (blocked s)
    (last_sent_serial s) (blocked_read s) (during_send s) (pipe s) (mini s) (wait_migrate_data
    s) (wait_migrate_flush_mark s) (lm_state s) (last_pong_time s) (lm_timer s) (lm_timeout s)
    (lm_id s) (tcp_nodelay s) (warmup_was_sent s) (roundtrip s) (cm_state s) (sent_bytes s)
    (received_bytes s) (cm_timeout s) (cm_timer s) (header_buf s) (header_pos s) (in_msg s)
    (msg_pos s) (out_pos s) (out_size s) (has_stream s) (watch s) (connected s) v (frames s)
    (handled s) (log s) (next_id s) (env s).
Definition set_frames {W} (v : list (list Z)) (s : rcc W) : rcc W :=
  mkRcc (generation s) (client_generation s) (messages_window s) (client_window s) (cur_m s)
    (main_m s) (urgent_m s) (hdr_data s) (main_hdr_data s) (send_size s) (blocked s)
    (last_sent_serial s) (blocked_read s) (during_send s) (pipe s) (mini s) (wait_migrate_data
    s) (wait_migrate_flush_mark s) (lm_state s) (last_pong_time s) (lm_timer s) (lm_timeout s)
    (lm_id s) (tcp_nodelay s) (warmup_was_sent s) (roundtrip s) (cm_state s) (sent_bytes s)
    (received_bytes s) (cm_timeout s) (cm_timer s) (header_buf s) (header_pos s) (in_msg s)
    (msg_pos s) (out_pos s) (out_size s) (has_stream s) (watch s) (connected s) (wire s) v
    (handled s) (log s) (next_id s) (env s).
Definition set_handled {W} (v : list (Z * list Z)) (s : rcc W) : rcc W :=
  mkRcc (generation s) (client_generation s) (messages_window s) (client_window s) (cur_m s)
    (main_m s) (urgent_m s) (hdr_data s) (main_hdr_data s) (send_size s) (blocked s)
    (last_sent_serial s) (blocked_read s) (during_send s) (pipe s) (mini s) (wait_migrate_data
    s) (wait_migrate_flush_mark s) (lm_state s) (last_pong_time s) (lm_timer s) (lm_timeout s)
    (lm_id s) (tcp_nodelay s) (warmup_was_sent s) (roundtrip s) (cm_state s) (sent_bytes s)
    (received_bytes s) (cm_timeout s) (cm_timer s) (header_buf s) (header_pos s) (in_msg s)
    (msg_pos s) (out_pos s) (out_size s) (has_stream s) (watch s) (connected s) (wire s) (frames
    s) v (log s) (next_id s) (env s).
Definition set_log {W} (v : list event) (s : rcc W) : rcc W :=
  mkRcc (generation s) (client_generation s) (messages_window s) (client_window s) (cur_m s)
    (main_m s) (urgent_m s) (hdr_data s) (main_hdr_data s) (send_size s) (blocked s)
    (last_sent_serial s) (blocked_read s) (during_send s) (pipe s) (mini s) (wait_migrate_data
    s) (wait_migrate_flush_mark s) (lm_state s) (last_pong_time s) (lm_timer s) (lm_timeout s)
    (lm_id s) (tcp_nodelay s) (warmup_was_sent s) (roundtrip s) (cm_state s) (sent_bytes s)
    (received_bytes s) (cm_timeout s) (cm_timer s) (header_buf s) (header_pos s) (in_msg s)
    (msg_pos s) (out_pos s) (out_size s) (has_stream s) (watch s) (connected s) (wire s) (frames
    s) (handled s) v (next_id s) (env s).
Definition set_next_id {W} (v : Z) (s : rcc W) : rcc W :=
  mkRcc (generation s) (client_generation s) (messages_window s) (client_window s) (cur_m s)
    (main_m s) (urgent_m s) (hdr_data s) (main_hdr_data s) (send_size s) (blocked s)
    (last_sent_serial s) (blocked_read s) (during_send s) (pipe s) (mini s) (wait_migrate_data
    s) (wait_migrate_flush_mark s) (lm_state s) (last_pong_time s) (lm_timer s) (lm_timeout s)
    (lm_id s) (tcp_nodelay s) (warmup_was_sent s) (roundtrip s) (cm_state s) (sent_bytes s)
    (received_bytes s) (cm_timeout s) (cm_timer s) (header_buf s) (header_pos s) (in_msg s)
    (msg_pos s) (out_pos s) (out_size s) (has_stream s) (watch s) (connected s) (wire s) (frames
    s) (handled s) (log s) v (env s).
Definition set_env {W} (v : W) (s : rcc W) : rcc W :=
  mkRcc (generation s) (client_generation s) (messages_window s) (client_window s) (cur_m s)
    (main_m s) (urgent_m s) (hdr_data s) (main_hdr_data s) (send_size s) (blocked s)
    (last_sent_serial s) (blocked_read s) (during_send s) (pipe s) (mini s) (wait_migrate_data
    s) (wait_migrate_flush_mark s) (lm_state s) (last_pong_time s) (lm_timer s) (lm_timeout s)
    (lm_id s) (tcp_nodelay s) (warmup_was_sent s) (roundtrip s) (cm_state s) (sent_bytes s)
    (received_bytes s) (cm_timeout s) (cm_timer s) (header_buf s) (header_pos s) (in_msg s)
    (msg_pos s) (out_pos s) (out_size s) (has_stream s) (watch s) (connected s) (wire s) (frames
    s) (handled s) (log s) (next_id s) v.

(** ** The environment *)

Inductive sysw := WOk (n : Z) | WAgain | WIntr | WPipe | WError.
Inductive sysr := ROk (bs : list Z) | REof | RAgain | RIntr | RError.

(** Calls of the base class made by [send_item] of a channel. *)
Inductive send_cmd :=
  | CInit (type : Z) | CBody (bytes : list Z) | CUrgent | CBegin | CSubList (v : Z).
(** Calls made by a message handler of a channel. *)
Inductive rcall :=
  | KPush | KPipeAdd (k : item_kind) | KPipeAddTail (k : item_kind) | KDisconnect | KShutdown
  | KBlockRead | KUnblockRead.

Class RccEnv (W : Type) := {
  writev : list Z -> W -> sysw * W;
  stream_read : Z -> W -> sysr * W;
  mono_time : W -> Z;                              (** spice_get_monotonic_time_ns *)
  c_rand : W -> Z * W;
  get_no_delay : W -> option bool;                 (** [None]: -1 *)
  unsent_size : W -> Z;                            (** SIOCOUTQ *)
  send_msgfd : W -> bool * W;                      (** no descriptor to send, or sent *)
  during_migrate_at_target : W -> bool;
  seamless_migration_done_for_channel : W -> bool * W;
  add_channel : W -> bool * W;
  config_socket : W -> bool * W;
  handle_acks : bool;
  migration_flags : Z;
  send_item : Z -> W -> list send_cmd * W;
  alloc_recv_buf : Z -> Z -> W -> option (list Z) * W;
  parse : Z -> list Z -> option (list Z);
  handle_derived : Z -> list Z -> W -> option (bool * list rcall) * W;
  handle_migrate_data : list Z -> W -> bool * W;
  migrate_data_serial : list Z -> option Z }.

(** The generated code and the numbers of the protocol. *)
Class RccProto := {
  header_size : bool -> Z;                         (** sizeof of the mini or the full header *)
  enc_header : bool -> hdr -> list Z;
  dec_type : bool -> list Z -> Z;
  dec_size : bool -> list Z -> Z;
  marshall_set_ack : Z -> Z -> list Z;             (** generation, window *)
  marshall_migrate : Z -> list Z;
  marshall_ping : Z -> Z -> list Z;                (** id, timestamp *)
  ack_sync_generation : list Z -> Z;
  ping_id : list Z -> Z;
  ping_timestamp : list Z -> Z;
  SPICE_MSG_MIGRATE : Z; SPICE_MSG_SET_ACK : Z; SPICE_MSG_PING : Z;
  SPICE_MSGC_ACK_SYNC : Z; SPICE_MSGC_ACK : Z; SPICE_MSGC_PONG : Z; SPICE_MSGC_MIGRATE_FLUSH_MARK : Z;
  SPICE_MSGC_MIGRATE_DATA : Z; SPICE_MSGC_DISCONNECTING : Z;
  SPICE_MIGRATE_NEED_FLUSH : Z; SPICE_MIGRATE_NEED_DATA_TRANSFER : Z }.

Section rcc.
Context {W : Type} {E : RccEnv W} {P : RccProto}.
Abbreviation R := (M (rcc W)).

(** Ask the environment. *)
Definition ask {A} (f : W -> A * W) : R A :=
  s ← getS; let '(a, w) := f (env s) in modS (set_env w);; mret a.
Definition emit (e : event) : R unit := modS (fun s => set_log (log s ++ [e]) s).

(** ** Headers and marshallers *)

Definition get_m (w : which) (s : rcc W) : marsh := match w with Main => main_m s | Urgent => urgent_m s end.
Definition set_m (w : which) (m : marsh) (s : rcc W) : rcc W :=
  match w with Main => set_main_m m s | Urgent => set_urgent_m m s end.

Definition urgent_marshaller_is_active (s : rcc W) : bool := bool_decide (cur_m s = Urgent).

(** Write through [send_data.header.data]. *)
Definition set_header (f : hdr -> hdr) : R unit :=
  s ← getS;
  match hdr_data s with
  | None => undef UbNull
  | Some w =>
      match m_hdr (get_m w s) with
      | None => undef UbFree
      | Some h => modS (set_m w (mkMarsh (Some (f h)) (m_body (get_m w s))))
      end
  end.
Definition get_header : R hdr :=
  s ← getS;
  match hdr_data s with
  | None => undef UbNull
  | Some w => match m_hdr (get_m w s) with None => undef UbFree | Some h => mret h end
  end.

Definition full_header_set_msg_type (t : Z) (h : hdr) : hdr := mkHdr (h_serial h) (u16 t) (h_size h) (h_sub_list h).
Definition full_header_set_msg_size (z : Z) (h : hdr) : hdr := mkHdr (h_serial h) (h_type h) (u32 z) (h_sub_list h).
Definition full_header_set_msg_serial (n : Z) (h : hdr) : hdr := mkHdr (u64 n) (h_type h) (h_size h) (h_sub_list h).
Definition full_header_set_msg_sub_list (v : Z) (h : hdr) : hdr := mkHdr (h_serial h) (h_type h) (h_size h) (u32 v).

Definition set_msg_type (t : Z) : R unit := set_header (full_header_set_msg_type t).
Definition set_msg_size (z : Z) : R unit := set_header (full_header_set_msg_size z).
(** The mini header has no serial, and no sub list to set. *)
Definition set_msg_serial (n : Z) : R unit :=
  s ← getS; if mini s then mret tt else set_header (full_header_set_msg_serial n).
Definition set_msg_sub_list (v : Z) : R unit :=
  s ← getS; if mini s then abort else set_header (full_header_set_msg_sub_list v).
Definition set_header_sub_list (v : Z) : R unit := set_msg_sub_list v.

Definition marshaller_bytes (s : rcc W) (m : marsh) : list Z :=
  (match m_hdr m with Some h => enc_header (mini s) h | None => [] end) ++ m_body m.

(** ** Timers and monitors *)

Definition start_ping_timer (timeout : Z) : R unit :=
  modS (fun s =>
    match lm_timer s with
    | None => s
    | Some _ => if bool_decide (lm_state s = PING_STATE_NONE)
                then set_lm_timer (Some true) (set_lm_state PING_STATE_TIMER s) else s
    end).

Definition cancel_ping_timer : R unit :=
  modS (fun s =>
    match lm_timer s with
    | None => s
    | Some _ => if bool_decide (lm_state s = PING_STATE_TIMER)
                then set_lm_state PING_STATE_NONE (set_lm_timer (Some false) s) else s
    end).

Definition restart_ping_timer : R unit :=
  s ← getS;
  match lm_timer s with
  | None => mret tt
  | Some _ =>
      let passed := u64 (mono_time (env s) - last_pong_time s) / NSEC_PER_MILLISEC in
      start_ping_timer (if passed <? lm_timeout s
                        then PING_TEST_IDLE_NET_TIMEOUT_MS + (lm_timeout s - passed)
                        else PING_TEST_IDLE_NET_TIMEOUT_MS)
  end.

Definition data_sent (n : Z) : R unit :=
  modS (fun s => if bool_decide (is_Some (cm_timer s)) then set_sent_bytes true s else s).
Definition data_read (n : Z) : R unit :=
  modS (fun s => if bool_decide (is_Some (cm_timer s)) then set_received_bytes true s else s).

Definition watch_update_mask (event_mask : Z) : R unit :=
  modS (fun s =>
    match watch s with
    | None => s
    | Some _ => set_watch (Some (if blocked_read s then Z.land event_mask (Z.lnot SPICE_WATCH_EVENT_READ)
                                 else event_mask)) s
    end).

Definition block_read : R unit :=
  s ← getS;
  if blocked_read s then mret tt
  else modS (set_blocked_read true);; watch_update_mask SPICE_WATCH_EVENT_WRITE.

Definition unblock_read : R unit :=
  s ← getS;
  if negb (blocked_read s) then mret tt
  else modS (set_blocked_read false);;
       watch_update_mask (Z.lor SPICE_WATCH_EVENT_READ SPICE_WATCH_EVENT_WRITE).

(** ** Disconnection *)

Definition clear_sent_item : R unit :=
  modS (fun s => set_m (cur_m s) (mkMarsh None []) (set_send_size 0 (set_blocked false s))).

Definition pipe_clear : R unit := clear_sent_item;; modS (set_pipe []).

Definition shutdown : R unit :=
  s ← getS;
  if has_stream s && bool_decide (is_Some (watch s))
  then modS (set_watch None);; emit EvShutdown else mret tt.

(** [is_connected]: the channel has the client in its list. *)
Definition disconnect : R unit :=
  s ← getS;
  if negb (connected s) then mret tt
  else
    pipe_clear;;
    shutdown;;
    modS (fun s => set_cm_timer None (set_lm_timer None s));;
    modS (set_connected false);; emit EvRemoveClient;;
    emit EvOnDisconnect;;
    emit EvRemoveChannel.

(** [spice_channel_client_error] *)
Definition channel_client_error : R unit := shutdown.

(** ** Sending *)

Definition no_item_being_sent (s : rcc W) : bool := send_size s =? 0.

Definition waiting_for_ack (s : rcc W) : bool :=
  handle_acks && (u32 (client_window s * 2) <? messages_window s).

Definition reset_send_data : R unit :=
  s ← getS;
  modS (set_m (cur_m s) (mkMarsh (Some (mkHdr 0 0 0 0)) []));;
  modS (set_hdr_data (Some (cur_m s)));;
  set_msg_type 0;;
  set_msg_size 0;;
  if mini s then mret tt
  else spice_assert (bool_decide (cur_m s <> Urgent));; set_msg_sub_list 0.

Definition init_send_data (msg_type : Z) : R unit :=
  s ← getS;
  spice_assert (no_item_being_sent s);;
  spice_assert (negb (u16 msg_type =? 0));;
  set_msg_type msg_type.

(** The generated marshallers add bytes to the current marshaller. *)
Definition marshall (bytes : list Z) : R unit :=
  modS (fun s => set_m (cur_m s) (mkMarsh (m_hdr (get_m (cur_m s) s)) (m_body (get_m (cur_m s) s) ++ bytes)) s).

(** [send] is the call at the end. *)
Definition begin_send_message_with (send : R unit) : R unit :=
  h ← get_header;
  if h_type h =? 0 then mret tt   (** "BUG: header->type == 0" *)
  else
    cancel_ping_timer;;
    modS (fun s => set_send_size (u32 (Z.of_nat (length (marshaller_bytes s (get_m (cur_m s) s))))) s);;
    s ← getS;
    set_msg_size (send_size s - header_size (mini s));;
    modS (fun s => set_last_sent_serial (u64 (last_sent_serial s + 1)) s);;
    s ← getS;
    set_msg_serial (last_sent_serial s);;
    modS (fun s => set_messages_window (u32 (messages_window s + 1)) s);;
    modS (fun s => set_frames (frames s ++ [marshaller_bytes s (get_m (cur_m s) s)]) s);;
    modS (set_hdr_data None);;
    send.

Definition restore_main_sender : R unit :=
  modS (fun s => set_hdr_data (main_hdr_data s) (set_cur_m Main s)).

(** [msg_sent]; [send] is the call made by [begin_send_message]. *)
Definition msg_sent_with (send : R unit) : R unit :=
  ok ← ask send_msgfd;
  if negb (ok : bool) then disconnect
  else
    clear_sent_item;;
    s ← getS;
    if urgent_marshaller_is_active s
    then
      restore_main_sender;;
      s ← getS;
      spice_assert (bool_decide (is_Some (hdr_data s)));;
      begin_send_message_with send
    else if bool_decide (pipe s = []) then restart_ping_timer
    else mret tt.

(** One turn of the loop per unit of [n]; the loop re-enters at the top, where
    nothing happens once [buffer->size] is set. *)
Fixpoint handle_outgoing (n : nat) : R unit :=
  match n with
  | O => undef UbFuel
  | S n' =>
      s ← getS;
      if negb (has_stream s) then mret tt
      else
        modS (fun s => if out_size s =? 0 then set_out_size (s32 (send_size s)) s else s);;
        s ← getS;
        if out_size s =? 0 then mret tt
        else
          r ← ask (writev (drop (Z.to_nat (out_pos s)) (marshaller_bytes s (get_m (cur_m s) s))));
          match r with
          | WAgain => modS (set_blocked true)
          | WIntr => handle_outgoing n'
          | WPipe | WError => disconnect
          | WOk k =>
              modS (fun s => set_wire (wire s ++ take (Z.to_nat k)
                      (drop (Z.to_nat (out_pos s)) (marshaller_bytes s (get_m (cur_m s) s)))) s);;
              modS (fun s => set_out_pos (out_pos s + k) s);;
              data_sent k;;
              s ← getS;
              if out_pos s =? out_size s
              then modS (fun s => set_out_size 0 (set_out_pos 0 s));; msg_sent_with (handle_outgoing n')
              else handle_outgoing n'
          end
  end.

Section ops.
Context (fuel : nat).

Definition send : R unit := handle_outgoing fuel.
Definition begin_send_message : R unit := begin_send_message_with send.
Definition msg_sent : R unit := msg_sent_with send.

Definition switch_to_urgent_sender : R unit :=
  s ← getS;
  spice_assert (no_item_being_sent s);;
  spice_assert (bool_decide (is_Some (hdr_data s)));;
  modS (fun s => set_cur_m Urgent (set_main_hdr_data (hdr_data s) s));;
  reset_send_data.

Definition send_set_ack : R unit :=
  init_send_data SPICE_MSG_SET_ACK;;
  modS (fun s => set_generation (u32 (generation s + 1)) s);;
  modS (set_messages_window 0);;
  s ← getS;
  marshall (marshall_set_ack (generation s) (client_window s));;
  begin_send_message.

Definition send_migrate : R unit :=
  init_send_data SPICE_MSG_MIGRATE;;
  marshall (marshall_migrate migration_flags);;
  (if negb (Z.land migration_flags SPICE_MIGRATE_NEED_FLUSH =? 0)
   then modS (set_wait_migrate_flush_mark true) else mret tt);;
  begin_send_message.

Definition send_ping : R unit :=
  s ← getS;
  (if warmup_was_sent s then mret tt
   else
     modS (fun s => set_tcp_nodelay true (set_warmup_was_sent true s));;
     match get_no_delay (env s) with
     | None => mret tt
     | Some v => modS (set_tcp_nodelay v);; if v then mret tt else emit (EvNoDelay true)
     end);;
  init_send_data SPICE_MSG_PING;;
  s ← getS;
  marshall (marshall_ping (lm_id s) (mono_time (env s)));;
  begin_send_message.

Definition send_empty_msg (msg : Z) : R unit := init_send_data (u16 msg);; begin_send_message.

(** The calls of a channel's [send_item]. *)
Definition run_send_cmd (c : send_cmd) : R unit :=
  match c with
  | CInit t => init_send_data t
  | CBody bs => marshall bs
  | CUrgent => switch_to_urgent_sender
  | CBegin => begin_send_message
  | CSubList v => set_header_sub_list v
  end.

Definition send_any_item (i : item) : R unit :=
  s ← getS;
  spice_assert (no_item_being_sent s);;
  reset_send_data;;
  match it_kind i with
  | RED_PIPE_ITEM_TYPE_SET_ACK => send_set_ack
  | RED_PIPE_ITEM_TYPE_MIGRATE => send_migrate
  | RED_PIPE_ITEM_TYPE_EMPTY_MSG m => send_empty_msg m
  | RED_PIPE_ITEM_TYPE_PING => send_ping
  | RED_PIPE_ITEM_TYPE_MARKER => emit (EvMarkerSent (it_id i))
  | RED_PIPE_ITEM_OTHER d => cmds ← ask (send_item d); iterM run_send_cmd cmds
  end.

(** The back of the pipe. *)
Definition pipe_item_get : R (option item) :=
  s ← getS;
  if blocked s || waiting_for_ack s then mret None
  else match list.last (pipe s) with
       | None => mret None
       | Some i => modS (fun s => set_pipe (removelast (pipe s)) s);; mret (Some i)
       end.

(** One turn per item: nothing is added to the pipe meanwhile. *)
Fixpoint push_loop (n : nat) : R unit :=
  match n with
  | O => undef UbFuel
  | S n' =>
      i ← pipe_item_get;
      match i with
      | None => mret tt
      | Some i => send_any_item i;; push_loop n'
      end
  end.

Definition push : R unit :=
  s ← getS;
  if during_send s then mret tt
  else
    modS (set_during_send true);;
    (if blocked s then send else mret tt);;
    s ← getS;
    (if negb (no_item_being_sent s) && negb (blocked s) then modS (set_blocked true) else mret tt);;
    push_loop (S (length (pipe s)));;
    s ← getS;
    (if (no_item_being_sent s && bool_decide (pipe s = [])) || waiting_for_ack s
     then watch_update_mask SPICE_WATCH_EVENT_READ;; emit EvFlush else mret tt);;
    modS (set_during_send false).

(** ** The pipe *)

Definition prepare_pipe_add : R bool :=
  s ← getS;
  if negb (connected s) then mret false
  else
    (if bool_decide (pipe s = [])
     then watch_update_mask (Z.lor SPICE_WATCH_EVENT_READ SPICE_WATCH_EVENT_WRITE) else mret tt);;
    mret true.

Definition pipe_add (i : item) : R unit :=
  ok ← prepare_pipe_add; if (ok : bool) then modS (fun s => set_pipe (i :: pipe s) s) else mret tt.

Definition pipe_add_tail (i : item) : R unit :=
  ok ← prepare_pipe_add; if (ok : bool) then modS (fun s => set_pipe (pipe s ++ [i]) s) else mret tt.

Definition find_pipe_item (p : list item) (id : Z) : option nat :=
  fst <$> list_find (fun i => it_id i = id) p.

Definition pipe_insert (n : nat) (i : item) : R unit :=
  modS (fun s => set_pipe (take n (pipe s) ++ i :: drop n (pipe s)) s).

(** [pos]: the index of the iterator; the end is the length. *)
Definition pipe_add_after_pos (i : item) (pos : nat) : R unit :=
  s ← getS;
  spice_assert (bool_decide (pos < length (pipe s))%nat);;
  ok ← prepare_pipe_add; if (ok : bool) then pipe_insert (S pos) i else mret tt.
Definition pipe_add_before_pos (i : item) (pos : nat) : R unit :=
  s ← getS;
  spice_assert (bool_decide (pos < length (pipe s))%nat);;
  ok ← prepare_pipe_add; if (ok : bool) then pipe_insert pos i else mret tt.
Definition pipe_add_after (i : item) (id : Z) : R unit :=
  s ← getS;
  match find_pipe_item (pipe s) id with
  | None => mret tt   (** [g_return_if_fail] *)
  | Some pos => pipe_add_after_pos i pos
  end.

Definition pipe_item_is_linked (s : rcc W) (id : Z) : bool := bool_decide (is_Some (find_pipe_item (pipe s) id)).

Definition pipe_remove (id : Z) : R unit :=
  modS (fun s => match find_pipe_item (pipe s) id with
                 | None => s
                 | Some n => set_pipe (take n (pipe s) ++ drop (S n) (pipe s)) s
                 end).

Definition new_item (k : item_kind) : R item :=
  s ← getS; modS (set_next_id (next_id s + 1));; mret (mkItem (next_id s) k).
Definition pipe_add_type (k : item_kind) : R unit := i ← new_item k; pipe_add i.
Definition pipe_add_empty_msg (msg : Z) : R unit := pipe_add_type (RED_PIPE_ITEM_TYPE_EMPTY_MSG msg).
Definition push_set_ack : R unit := pipe_add_type RED_PIPE_ITEM_TYPE_SET_ACK.
Definition pipe_add_push (i : item) : R unit := pipe_add i;; push.

(** ** Pings *)

Definition push_ping : R unit :=
  s ← getS;
  spice_assert (bool_decide (lm_state s = PING_STATE_NONE));;
  modS (fun s => set_warmup_was_sent false (set_lm_state PING_STATE_WARMUP s));;
  id ← ask c_rand;
  modS (set_lm_id (u32 id));;
  pipe_add_type RED_PIPE_ITEM_TYPE_PING;;
  pipe_add_type RED_PIPE_ITEM_TYPE_PING.

Definition ping_timer : R unit :=
  s ← getS;
  spice_assert (bool_decide (lm_state s = PING_STATE_TIMER));;
  cancel_ping_timer;;
  if 0 <? unsent_size (env s) then start_ping_timer PING_TEST_IDLE_NET_TIMEOUT_MS else push_ping.

Definition handle_pong (message : list Z) : R unit :=
  s ← getS;
  if negb (ping_id message =? lm_id s) then mret tt
  else
    let now := mono_time (env s) in
    match lm_state s with
    | PING_STATE_WARMUP => modS (set_lm_state PING_STATE_LATENCY)
    | PING_STATE_LATENCY =>
        (if tcp_nodelay s then mret tt else emit (EvNoDelay false));;
        modS (fun s => if (roundtrip s <? 0) || (u64 (now - ping_timestamp message) <? u64 (roundtrip s))
                       then set_roundtrip (s64 (now - ping_timestamp message)) s else s);;
        modS (fun s => set_lm_state PING_STATE_NONE (set_last_pong_time now s));;
        s ← getS;
        start_ping_timer (lm_timeout s)
    | _ => mret tt
    end.

Definition get_roundtrip_ms (s : rcc W) : Z :=
  if roundtrip s <? 0 then s32 (roundtrip s) else s32 (roundtrip s / NSEC_PER_MILLISEC).

(** ** Connectivity *)

Definition pinging (s : rcc W) : bool :=
  bool_decide (lm_state s = PING_STATE_WARMUP) || bool_decide (lm_state s = PING_STATE_LATENCY).

(** Whether the connection was idle in a state in which it should not be; the
    [spice_error] calls are [Abort]. *)
Definition connectivity_alive : R bool :=
  s ← getS;
  match cm_state s with
  | CONNECTIVITY_STATE_BLOCKED =>
      if negb (received_bytes s) && negb (sent_bytes s)
      then if negb (blocked s) && negb (waiting_for_ack s) then abort else mret false
      else mret true
  | CONNECTIVITY_STATE_WAIT_PONG =>
      if negb (received_bytes s) then if negb (pinging s) then abort else mret false
      else mret true
  | _ => mret true
  end.

Definition connectivity_timer : R unit :=
  is_alive ← connectivity_alive;
  if (is_alive : bool)
  then
    modS (fun s => set_sent_bytes false (set_received_bytes false s));;
    modS (fun s => set_cm_state
      (if blocked s || waiting_for_ack s then CONNECTIVITY_STATE_BLOCKED
       else if pinging s then CONNECTIVITY_STATE_WAIT_PONG else CONNECTIVITY_STATE_CONNECTED) s);;
    modS (fun s => set_cm_timer ((fun _ => true) <$> cm_timer s) s)
  else
    modS (set_cm_state CONNECTIVITY_STATE_DISCONNECTED);;
    disconnect.

Definition start_connectivity_monitoring (timeout_ms : Z) : R unit :=
  s ← getS;
  if negb (connected s) then mret tt
  else
    spice_assert (0 <? timeout_ms);;
    (match lm_timer s with
     | None => modS (fun s => set_roundtrip (-1) (set_lm_timer (Some false) s))
     | Some _ => cancel_ping_timer
     end);;
    modS (set_lm_timeout PING_TEST_TIMEOUT_MS);;
    (if during_migrate_at_target (env s) then mret tt else start_ping_timer PING_TEST_IDLE_NET_TIMEOUT_MS);;
    match cm_timer s with
    | Some _ => mret tt
    | None =>
        modS (fun s => set_cm_timeout timeout_ms
          (set_cm_timer (Some (negb (during_migrate_at_target (env s))))
             (set_cm_state CONNECTIVITY_STATE_CONNECTED s)))
    end.

(** ** Receiving *)

(** The bytes received, [None] for an error.  One turn per unit of [n]. *)
Fixpoint red_peer_receive (n : nat) (size : Z) (acc : list Z) : R (option (list Z)) :=
  if size =? 0 then mret (Some acc)
  else
    match n with
    | O => undef UbFuel
    | S n' =>
        s ← getS;
        if bool_decide (watch s = None) then mret None
        else
          r ← ask (stream_read size);
          match r with
          | ROk bs => red_peer_receive n' (u32 (size - Z.of_nat (length bs))) (acc ++ bs)
          | REof => mret None
          | RAgain => mret (Some acc)
          | RIntr => red_peer_receive n' size acc
          | RError => mret None
          end
    end.

Definition set_message_serial (serial : Z) : R unit := modS (set_last_sent_serial (u64 (serial - 1))).

Definition seamless_migration_done : R unit :=
  modS (set_wait_migrate_data false);;
  ok ← ask seamless_migration_done_for_channel;
  if (ok : bool)
  then
    start_ping_timer PING_TEST_IDLE_NET_TIMEOUT_MS;;
    modS (fun s => set_cm_timer ((fun _ => true) <$> cm_timer s) s)
  else mret tt.

Definition handle_migrate_data_early (message : list Z) : R unit :=
  if Z.land migration_flags SPICE_MIGRATE_NEED_DATA_TRANSFER =? 0 then mret tt
  else
    s ← getS;
    if negb (wait_migrate_data s) then channel_client_error
    else
      (match migrate_data_serial message with
       | Some serial => set_message_serial serial
       | None => mret tt
       end);;
      ok ← ask (handle_migrate_data message);
      if negb (ok : bool) then channel_client_error else seamless_migration_done.

(** RedChannelClient::handle_message *)
Definition handle_message (type : Z) (message : list Z) : R bool :=
  if type =? SPICE_MSGC_ACK_SYNC then
    modS (set_client_generation (ack_sync_generation message));; mret true
  else if type =? SPICE_MSGC_ACK then
    s ← getS;
    (if client_generation s =? generation s
     then
       modS (fun s => set_messages_window (u32 (messages_window s - client_window s)) s);;
       watch_update_mask (Z.lor SPICE_WATCH_EVENT_READ SPICE_WATCH_EVENT_WRITE);;
       push
     else mret tt);;
    mret true
  else if type =? SPICE_MSGC_DISCONNECTING then mret true
  else if type =? SPICE_MSGC_MIGRATE_FLUSH_MARK then
    s ← getS;
    if negb (wait_migrate_flush_mark s) then abort   (** [spice_error] *)
    else modS (set_wait_migrate_flush_mark false);; mret true
  else if type =? SPICE_MSGC_MIGRATE_DATA then handle_migrate_data_early message;; mret true
  else if type =? SPICE_MSGC_PONG then handle_pong message;; mret true
  else mret false.

Definition run_rcall (c : rcall) : R unit :=
  match c with
  | KPush => push
  | KPipeAdd k => pipe_add_type k
  | KPipeAddTail k => i ← new_item k; pipe_add_tail i
  | KDisconnect => disconnect
  | KShutdown => shutdown
  | KBlockRead => block_read
  | KUnblockRead => unblock_read
  end.

(** The virtual [handle_message]: the channel's own messages, or the base class. *)
Definition dispatch_message (type : Z) (message : list Z) : R bool :=
  modS (fun s => set_handled (handled s ++ [(type, message)]) s);;
  r ← ask (handle_derived type message);
  match r with
  | Some (ok, calls) => emit (EvHandled type message);; iterM run_rcall calls;; mret ok
  | None => handle_message type message
  end.

Definition store (pos : Z) (bs buf : list Z) : list Z :=
  take (Z.to_nat pos) buf ++ bs ++ drop (Z.to_nat pos + length bs) buf.

(** Read the rest of the header; [false]: stop. *)
Definition read_header : R bool :=
  s ← getS;
  if negb (header_pos s <? header_size (mini s)) then mret true
  else
    r ← red_peer_receive fuel (header_size (mini s) - header_pos s) [];
    match r with
    | None => disconnect;; mret false
    | Some bs =>
        data_read (Z.of_nat (length bs));;
        modS (fun s => set_header_pos (u32 (header_pos s + Z.of_nat (length bs)))
                         (set_header_buf (store (header_pos s) bs (header_buf s)) s));;
        s ← getS;
        mret (header_pos s =? header_size (mini s))
    end.

(** Read the rest of the body; [false]: stop. *)
Definition read_body (msg_type msg_size : Z) : R bool :=
  s ← getS;
  if negb (msg_pos s <? msg_size) then mret true
  else
    have ← (match in_msg s with
            | Some _ => mret (Some true)
            | None =>
                b ← ask (alloc_recv_buf msg_type msg_size);
                s ← getS;
                match b with
                | Some buf => modS (set_in_msg (Some buf));; mret (Some true)
                | None => if blocked_read s then mret (Some false) else mret None
                end
            end);
    match have with
    | None => disconnect;; mret false
    | Some false => mret false
    | Some true =>
        s ← getS;
        match in_msg s with
        | None => undef UbNull
        | Some buf =>
            if Z.of_nat (length buf) <? msg_size then undef UbHostOob
            else
              r ← red_peer_receive fuel (u32 (msg_size - msg_pos s)) [];
              match r with
              | None => modS (set_in_msg None);; disconnect;; mret false
              | Some bs =>
                  data_read (Z.of_nat (length bs));;
                  modS (fun s => set_msg_pos (u32 (msg_pos s + Z.of_nat (length bs)))
                                   (set_in_msg (store (msg_pos s) bs <$> in_msg s) s));;
                  s ← getS;
                  mret (msg_pos s =? msg_size)
              end
        end
    end.

Definition message_bytes (msg_size : Z) (s : rcc W) : list Z :=
  take (Z.to_nat msg_size) (default [] (in_msg s)).

(** The call of the channel's parser; a message without body has no buffer. *)
Definition parse_message (msg_type msg_size : Z) : R (option (list Z)) :=
  s ← getS;
  if bool_decide (in_msg s = None) && (0 <? msg_size) then undef UbNull
  else mret (parse msg_type (message_bytes msg_size s)).

Fixpoint handle_incoming (n : nat) : R unit :=
  match n with
  | O => undef UbFuel
  | S n' =>
      s ← getS;
      if negb (has_stream s) then mret tt
      else
        ok ← read_header;
        if negb (ok : bool) then mret tt
        else
          s ← getS;
          let msg_size := dec_size (mini s) (header_buf s) in
          let msg_type := dec_type (mini s) (header_buf s) in
          ok ← read_body msg_type msg_size;
          if negb (ok : bool) then mret tt
          else
            parsed ← parse_message msg_type msg_size;
            match parsed with
            | None => modS (set_in_msg None);; disconnect
            | Some parsed =>
                ret_handle ← dispatch_message msg_type parsed;
                modS (fun s => set_header_pos 0 (set_in_msg None (set_msg_pos 0 s)));;
                if negb (ret_handle : bool) then disconnect else handle_incoming n'
            end
  end.

Definition receive : R unit := handle_incoming fuel.

Definition red_channel_client_event (event : Z) : R unit :=
  (if negb (Z.land event SPICE_WATCH_EVENT_READ =? 0) then receive else mret tt);;
  (if negb (Z.land event SPICE_WATCH_EVENT_WRITE =? 0) then push else mret tt).

(** ** Set-up and migration *)

(** [unix]: the socket is a Unix socket, without latency monitor. *)
Definition init (unix monitor_latency : bool) : R bool :=
  s ← getS;
  if negb (has_stream s) then mret false
  else
    ok ← ask config_socket;
    if negb (ok : bool) then mret false
    else
      modS (set_watch (Some SPICE_WATCH_EVENT_READ));;
      s ← getS;
      (if unix then mret tt
       else
         modS (set_lm_timer (Some false));;
         (if during_migrate_at_target (env s) then mret tt
          else start_ping_timer PING_TEST_IDLE_NET_TIMEOUT_MS);;
         modS (fun s => set_lm_timeout (if monitor_latency then PING_TEST_TIMEOUT_MS
                                        else PING_TEST_LONG_TIMEOUT_MS) (set_roundtrip (-1) s)));;
      modS (set_connected true);; emit EvAddClient;;
      ok ← ask add_channel;
      if (ok : bool) then emit EvAddChannel;; mret true
      else modS (set_connected false);; emit EvRemoveClient;; mret false.

Definition semi_seamless_migration_complete : R unit := start_ping_timer PING_TEST_IDLE_NET_TIMEOUT_MS.

Definition migrate : R unit :=
  cancel_ping_timer;;
  modS (fun s => set_cm_timer None (set_lm_timer None s));;
  pipe_add_type RED_PIPE_ITEM_TYPE_MIGRATE.

Definition set_migration_seamless : R bool :=
  if Z.land migration_flags SPICE_MIGRATE_NEED_DATA_TRANSFER =? 0 then mret false
  else modS (set_wait_migrate_data true);; mret true.

Definition init_outgoing_messages_window : R unit := modS (set_messages_window 0);; push.
Definition ack_zero_messages_window : R unit :=
  watch_update_mask (Z.lor SPICE_WATCH_EVENT_READ SPICE_WATCH_EVENT_WRITE);;
  modS (set_messages_window 0).
Definition ack_set_client_window (window : Z) : R unit := modS (set_client_window (u32 window)).

Definition get_message_serial (s : rcc W) : Z := u64 (last_sent_serial s + 1).

(** ** Waiting *)

(** [timeout = -1] never ends by itself: [turns] bounds the turns of the model. *)
Fixpoint wait_loop (turns : nat) (sent : rcc W -> bool) (step : R unit) (timeout end_time : Z) : R bool :=
  match turns with
  | O => undef UbFuel
  | S turns' =>
      step;;
      s ← getS;
      if sent s || (negb (timeout =? -1) && (end_time <=? mono_time (env s))) then mret (sent s)
      else wait_loop turns' sent step timeout end_time
  end.

Definition end_time (timeout : Z) (s : rcc W) : Z :=
  if timeout =? -1 then 2 ^ 64 - 1 else u64 (mono_time (env s) + timeout).

Definition marker_sent (id : Z) (s : rcc W) : bool :=
  existsb (fun e => if e is EvMarkerSent i then i =? id else false) (log s).

Definition wait_pipe_item_sent (turns : nat) (pos : nat) (timeout : Z) : R bool :=
  s ← getS;
  mark ← new_item RED_PIPE_ITEM_TYPE_MARKER;
  pipe_add_before_pos mark pos;;
  wait_loop turns (marker_sent (it_id mark)) (receive;; push) timeout (end_time timeout s).

Definition wait_outgoing_item (turns : nat) (timeout : Z) : R bool :=
  s ← getS;
  if negb (blocked s) then mret true
  else
    ok ← wait_loop turns (fun s => negb (blocked s)) (receive;; send) timeout (end_time timeout s);
    if negb (ok : bool) then mret false
    else s ← getS; spice_assert (no_item_being_sent s);; mret true.
End ops.

(** RedChannelClientPrivate::RedChannelClientPrivate *)
Definition new_RedChannelClient (w : W) (mini_header stream : bool) : rcc W :=
  mkRcc 0 (u32 (-1)) (u32 (-1)) CLIENT_ACK_WINDOW Main (mkMarsh None []) (mkMarsh None []) None None
    0 false 0 false false [] mini_header false false PING_STATE_NONE 0 None 0 0 false false 0
    CONNECTIVITY_STATE_CONNECTED false false 0 None (replicate (Z.to_nat (header_size mini_header)) 0) 0
    None 0 0 0 stream None false [] [] [] [] 1 w.

(** RedChannelClientPrivate::~RedChannelClientPrivate *)
Definition delete_RedChannelClient : R unit :=
  modS (fun s => set_cm_timer None (set_lm_timer None s));;
  modS (fun s => set_urgent_m (mkMarsh None []) (set_main_m (mkMarsh None []) s)).
End rcc.
