(* ===== verification/ChannelClientOk.v ===== *)
(** * Channel clients: the invariant, and sending

    One invariant covers the state between the operations of the class.  It
    has a part for the sending side (nothing is being sent, or a message is
    blocked in the socket), one for the receiving side and one for each
    monitor.  The operations of the sending side are specified by triples; the
    lemmas go up the call graph from the header to [push]. *)

From Stdlib Require Import ZArith Lia.
From stdpp Require Import base list numbers tactics option.
From S2P Require Import Prelude ChannelClient.

Open Scope Z_scope.

(** ** What the code relies on *)

(** What can be observed of the world outside: the bytes the client has sent
    and the server has not read, how many times in a row a call is interrupted
    before it does something, and the largest body a channel marshalls. *)
Class RccWorld (W : Type) := {
  avail : W -> list Z; write_intr : W -> nat; read_intr : W -> nat; max_intr : nat; max_body : Z }.

(** The generated code: headers have their size, message numbers are not 0. *)
Class RccProtoOk {W} (P : RccProto) (O : RccWorld W) : Prop := {
  header_size_ok b : 0 < header_size b < 256;
  enc_header_length b h : Z.of_nat (length (enc_header b h)) = header_size b;
  set_ack_type_ok : 0 < SPICE_MSG_SET_ACK < 65536;
  migrate_type_ok : 0 < SPICE_MSG_MIGRATE < 65536;
  ping_type_ok : 0 < SPICE_MSG_PING < 65536;
  set_ack_length g w : Z.of_nat (length (marshall_set_ack g w)) <= max_body;
  migrate_length f : Z.of_nat (length (marshall_migrate f)) <= max_body;
  ping_length i t : Z.of_nat (length (marshall_ping i t)) <= max_body;
  max_body_ok : max_body < 2 ^ 31 - 256;
  dec_size_range b bs : 0 <= dec_size b bs < 2 ^ 32 }.

Definition body_cmd (mini : bool) (c : send_cmd) : Prop :=
  match c with CBody _ => True | CSubList _ => mini = false | _ => False end.
Definition body_length (cs : list send_cmd) : Z :=
  foldr (fun c n => (if c is CBody bs then Z.of_nat (length bs) else 0) + n) 0 cs.
Definition message_cmds (mini : bool) (max t : Z) (cs : list send_cmd) : Prop :=
  0 < t < 65536 /\ Forall (body_cmd mini) cs /\ body_length cs <= max.

(** How a channel sends an item: not at all, as a message, or as a message
    that an urgent one precedes (only with mini headers). *)
Inductive send_shape (mini : bool) (max : Z) : list send_cmd -> Prop :=
  | shape_none : send_shape mini max []
  | shape_one t cs : message_cmds mini max t cs -> send_shape mini max (CInit t :: cs ++ [CBegin])
  | shape_urgent t cs t' cs' :
      mini = true -> message_cmds mini max t cs -> message_cmds mini max t' cs' ->
      send_shape mini max (CInit t :: cs ++ CUrgent :: CInit t' :: cs' ++ [CBegin]).

Definition kind_ok (k : item_kind) : Prop :=
  match k with RED_PIPE_ITEM_TYPE_EMPTY_MSG m => 0 < u16 m | _ => True end.
Definition item_ok (i : item) : Prop := kind_ok (it_kind i).
Definition rcall_ok (c : rcall) : Prop :=
  match c with KPipeAdd k | KPipeAddTail k => kind_ok k | _ => True end.

(** The socket and the channel's methods.  While an operation runs, only
    reading changes the bytes that have arrived. *)
Class RccEnvOk {W} (E : RccEnv W) (O : RccWorld W) (mini : bool) : Prop := {
  write_intr_max w : (write_intr w <= max_intr)%nat;
  read_intr_max w : (read_intr w <= max_intr)%nat;
  writev_ok bs w n w' : bs <> [] -> writev bs w = (WOk n, w') -> 1 <= n <= Z.of_nat (length bs);
  writev_intr bs w w' : writev bs w = (WIntr, w') -> (write_intr w' < write_intr w)%nat;
  send_item_ok d w : send_shape mini max_body (send_item d w).1;
  handle_derived_ok t m w r cs w' : handle_derived t m w = (Some (r, cs), w') -> Forall rcall_ok cs;
  alloc_ok t z w buf w' : alloc_recv_buf t z w = (Some buf, w') -> z <= Z.of_nat (length buf);
  read_ok z w bs w' : 0 < z -> stream_read z w = (ROk bs, w') ->
    bs <> [] /\ Z.of_nat (length bs) <= z /\ avail w = bs ++ avail w';
  read_again z w w' : 0 < z -> stream_read z w = (RAgain, w') -> avail w = [] /\ avail w' = [];
  read_intr_ok z w w' : stream_read z w = (RIntr, w') -> avail w' = avail w /\ (read_intr w' < read_intr w)%nat;
  read_le z w : (length (avail (stream_read z w).2) <= length (avail w))%nat;
  avail_writev bs w : avail (writev bs w).2 = avail w;
  avail_config w : avail (config_socket w).2 = avail w;
  avail_add_channel w : avail (add_channel w).2 = avail w;
  avail_rand w : avail (c_rand w).2 = avail w;
  avail_msgfd w : avail (send_msgfd w).2 = avail w;
  avail_migration w : avail (seamless_migration_done_for_channel w).2 = avail w;
  avail_send_item d w : avail (send_item d w).2 = avail w;
  avail_alloc t z w : avail (alloc_recv_buf t z w).2 = avail w;
  avail_derived t m w : avail (handle_derived t m w).2 = avail w;
  avail_migrate_data m w : avail (handle_migrate_data m w).2 = avail w }.

(** ** The invariant *)

Section invariant.
Context {W : Type} {E : RccEnv W} {P : RccProto} {O : RccWorld W} (mini0 : bool).
Implicit Types (s : rcc W).

(** The image of the current message. *)
Definition out s : list Z := marshaller_bytes s (get_m (cur_m s) s).

(** Receiving: an incomplete header, or a complete one and an incomplete body. *)
Definition in_ok s : Prop :=
  Z.of_nat (length (header_buf s)) = header_size mini0 /\ 0 <= header_pos s <= header_size mini0 /\
  (header_pos s < header_size mini0 -> msg_pos s = 0 /\ in_msg s = None) /\
  (header_pos s = header_size mini0 ->
     0 <= msg_pos s < dec_size mini0 (header_buf s) /\
     match in_msg s with
     | None => msg_pos s = 0
     | Some buf => dec_size mini0 (header_buf s) <= Z.of_nat (length buf)
     end).

(** Latency monitor: the timer runs only in the state that waits for it. *)
Definition ping_ok s : Prop := lm_timer s = Some true -> lm_state s = PING_STATE_TIMER.

(** Connectivity monitor: as long as no byte has come, the client is waited
    for; and as long as no byte has gone either, sending is blocked. *)
Definition pong_ok s : Prop :=
  is_Some (cm_timer s) -> cm_state s = CONNECTIVITY_STATE_WAIT_PONG -> received_bytes s = false ->
  pinging s = true.
Definition idle_blocked s : Prop :=
  is_Some (cm_timer s) /\ cm_state s = CONNECTIVITY_STATE_BLOCKED /\
  received_bytes s = false /\ sent_bytes s = false.
Definition block_ok s : Prop := idle_blocked s -> blocked s = true \/ waiting_for_ack s = true.

(** A message on the wire: a header that tells the size of what follows. *)
Definition frame_ok (f : list Z) : Prop :=
  exists h body, f = enc_header mini0 h ++ body /\ 0 < h_type h < 65536 /\
    h_size h = Z.of_nat (length body) /\ Z.of_nat (length body) <= max_body.

Definition common s : Prop :=
  has_stream s = true /\ mini s = mini0 /\ ping_ok s /\ pong_ok s /\
  Forall item_ok (pipe s) /\ Forall frame_ok (frames s).

(** A message that is ready to be sent: its header is reserved and typed. *)
Definition message_ready (t n : Z) (m : marsh) : Prop :=
  exists h, m_hdr m = Some h /\ h_type h = t /\ Z.of_nat (length (m_body m)) = n.

(** The main message that follows the urgent one. *)
Definition urgent_ready s : Prop :=
  mini0 = true /\ main_hdr_data s = Some Main /\
  exists t n, 0 < t < 65536 /\ n <= max_body /\ message_ready t n (main_m s).

(** Nothing is being sent. *)
Definition quiet s : Prop :=
  connected s = true /\ send_size s = 0 /\ blocked s = false /\ out_size s = 0 /\ out_pos s = 0 /\
  wire s = concat (frames s) /\ (cur_m s = Urgent -> urgent_ready s).

(** A message is in the socket, up to [out_pos]. *)
Definition sending s : Prop :=
  connected s = true /\ send_size s = Z.of_nat (length (out s)) /\
  0 < send_size s <= max_body + header_size mini0 /\
  (out_size s = 0 /\ out_pos s = 0 \/ out_size s = send_size s /\ 0 <= out_pos s < out_size s) /\
  wire s ++ drop (Z.to_nat (out_pos s)) (out s) = concat (frames s) /\
  (cur_m s = Urgent -> urgent_ready s).

(** The client is gone. *)
Definition dead s : Prop :=
  connected s = false /\ send_size s = 0 /\ blocked s = false /\ pipe s = [] /\
  (exists rest, wire s ++ rest = concat (frames s)) /\ cm_timer s = None /\ lm_timer s = None /\
  watch s = None.

(** Between operations. *)
Definition rest_ok s : Prop :=
  common s /\ block_ok s /\
  (dead s \/ quiet s /\ cur_m s = Main \/
   sending s /\ blocked s = true /\ out_size s = send_size s).

(** A message is being built: nothing is sent, and the monitor cannot be
    waiting for it to become so. *)
Definition prep (w : which) (t n : Z) s : Prop :=
  common s /\ ~ idle_blocked s /\ quiet s /\ hdr_data s = Some w /\ cur_m s = w /\
  message_ready t n (get_m w s).

(** Enough fuel to read what has arrived. *)
Definition read_fuel (fuel : nat) s : Prop :=
  ((S max_intr) * (S (length (avail (env s)))) + 2 < fuel)%nat.

Definition rcc_ok (fuel : nat) s : Prop :=
  rest_ok s /\ (connected s = true -> in_ok s) /\ during_send s = false /\ read_fuel fuel s.

(** What sending does not touch. *)
Definition inside s :=
  (header_buf s, header_pos s, in_msg s, msg_pos s, handled s, during_send s, avail (env s)).
End invariant.

(** ** Sending *)

Section sending.
Context {W : Type} {E : RccEnv W} {P : RccProto} {O : RccWorld W} (mini0 : bool).
Context {POK : RccProtoOk P O} {EOK : RccEnvOk E O mini0}.
Implicit Types (s : rcc W).

(** [m] goes from [Pre] to [Post], cannot stop, and leaves the inside alone. *)
Definition triple {A} (Pre : rcc W -> Prop) (m : M (rcc W) A) (Post : A -> rcc W -> Prop) : Prop :=
  forall s EE, Pre s -> wp m (fun a s' => Post a s' /\ inside s' = inside s) EE s.

Lemma triple_bind {A B} Pre (m : M (rcc W) A) Mid (f : A -> M (rcc W) B) Post :
  triple Pre m Mid -> (forall a, triple (Mid a) (f a) Post) -> triple Pre (bindM m f) Post.
Proof.
  intros Hm Hf s EE Hs. apply wp_bind. eapply wp_conseq; [by apply Hm|].
  intros a s' [Hs' Hi]. rewrite <- Hi. by apply Hf.
Qed.

Lemma triple_wp {A} Pre (m : M (rcc W) A) Post s s0 EE :
  triple Pre m Post -> Pre s -> inside s = inside s0 -> wp m (fun a s' => Post a s' /\ inside s' = inside s0) EE s.
Proof. intros Hm Hs <-. by apply Hm. Qed.

Lemma triple_get {A} Pre (k : rcc W -> M (rcc W) A) Post :
  (forall s0, triple (fun s => Pre s /\ s = s0) (k s0) Post) -> triple Pre (bindM getS k) Post.
Proof. intros Hk s EE Hs. apply wp_getS. by apply Hk. Qed.

Lemma triple_mod Pre (f : rcc W -> rcc W) Post :
  (forall s, Pre s -> Post tt (f s) /\ inside (f s) = inside s) -> triple Pre (modS f) Post.
Proof. intros Hf s EE Hs. by apply Hf. Qed.

Lemma triple_ret {A} (Pre : rcc W -> Prop) (a : A) Post : (forall s, Pre s -> Post a s) -> triple Pre (mret a) Post.
Proof. intros HP s EE Hs. split; [by apply HP|done]. Qed.

Lemma triple_conseq {A} (Pre Pre' : rcc W -> Prop) (m : M (rcc W) A) (Post Post' : A -> rcc W -> Prop) :
  triple Pre' m Post' -> (forall s, Pre s -> Pre' s) -> (forall a s, Post' a s -> Post a s) ->
  triple Pre m Post.
Proof.
  intros Hm H1 H2 s EE Hs. eapply wp_conseq; [apply Hm; auto|]. intros a s' [? ?]. auto.
Qed.

Lemma triple_pre {A} (Pre Pre' : rcc W -> Prop) (m : M (rcc W) A) Post :
  triple Pre' m Post -> (forall s, Pre s -> Pre' s) -> triple Pre m Post.
Proof. intros Hm HP s EE Hs. auto. Qed.

Lemma triple_if {A} Pre (b : bool) (m1 m2 : M (rcc W) A) Post :
  (b = true -> triple Pre m1 Post) -> (b = false -> triple Pre m2 Post) ->
  triple Pre (if b then m1 else m2) Post.
Proof. destruct b; auto. Qed.

Lemma triple_assert Pre b : (forall s, Pre s -> b = true) -> triple Pre (spice_assert b) (fun _ => Pre).
Proof. intros Hb s EE Hs. apply wp_assert; [done|]. by rewrite (Hb s Hs). Qed.

Lemma triple_ask {A} (f : W -> A * W) Pre (Post : A -> rcc W -> Prop) :
  (forall w, avail (f w).2 = avail w) ->
  (forall s, Pre s -> Post (f (env s)).1 (set_env (f (env s)).2 s)) -> triple Pre (ask f) Post.
Proof.
  intros Hf HP s EE Hs. specialize (HP s Hs). specialize (Hf (env s)). unfold ask, wp, bindM, getS, modS.
  destruct (f (env s)) as [a w] eqn:Ef. cbn [fst snd] in *. split; [done|].
  unfold inside. cbn. by rewrite Hf.
Qed.

(** *** The header *)

Lemma set_header_prep w t n f t' :
  (forall h, h_type h = t -> h_type (f h) = t') ->
  triple (prep mini0 w t n) (set_header f) (fun _ => prep mini0 w t' n).
Proof.
  intros Hf. apply triple_get. intros s0 s EE [(Hc & Hi & Hq & Hd & Hw & h & Hh & Ht & Hn) ->].
  rewrite Hd. destruct w; cbn [get_m] in *; rewrite Hh; (split; [|done]);
    (split; [exact Hc|split; [exact Hi|split; [|split; [exact Hd|split; [exact Hw|]]]]]).
  - destruct Hq as (? & ? & ? & ? & ? & ? & Hu). do 6 (split; [done|]).
    intros Hx. change (cur_m s0 = Urgent) in Hx. congruence.
  - exists (f h). split; [done|]. auto.
  - exact Hq.
  - exists (f h). split; [done|]. auto.
Qed.

Lemma set_msg_type_prep w t n t' :
  0 <= t' < 65536 -> triple (prep mini0 w t n) (set_msg_type t') (fun _ => prep mini0 w t' n).
Proof. intros Ht. apply set_header_prep. intros h _. by apply u16_id. Qed.

Lemma set_sub_list_prep w t n v :
  mini0 = false -> triple (prep mini0 w t n) (set_header_sub_list v) (fun _ => prep mini0 w t n).
Proof.
  intros Hm. apply triple_get. intros s0 s EE [Hp ->].
  assert (mini s0 = false) as -> by (destruct Hp as ((_ & -> & _) & _); done).
  revert Hp. apply set_header_prep. done.
Qed.

(** The state in which a message is set up. *)
Definition free s : Prop := common mini0 s /\ ~ idle_blocked s /\ quiet mini0 s.

Lemma reset_send_data_prep w :
  (w = Urgent -> mini0 = true) ->
  triple (fun s => free s /\ cur_m s = w) reset_send_data (fun _ => prep mini0 w 0 0).
Proof.
  intros Hm. apply triple_get. intros s0 s EE [[(Hc & Hi & Hq) Hw] ->].
  assert (prep mini0 w 0 0 (set_hdr_data (Some w) (set_m w (mkMarsh (Some (mkHdr 0 0 0 0)) []) s0))) as Hp.
  { destruct w; (split; [exact Hc|split; [exact Hi|split]]).
    - destruct Hq as (? & ? & ? & ? & ? & ? & ?). do 6 (split; [done|]).
      intros Hx. change (cur_m s0 = Urgent) in Hx. congruence.
    - split; [done|]. split; [exact Hw|]. by eexists.
    - exact Hq.
    - split; [done|]. split; [exact Hw|]. by eexists. }
  rewrite Hw. apply wp_modS, wp_modS. revert Hp.
  set (s1 := set_hdr_data (Some w) _). intros Hp.
  assert (inside s1 = inside s0) as <- by (destruct w; done).
  assert (mini s0 = mini0) as -> by (by destruct Hc as (_ & ? & _)). clearbody s1. revert s1 EE Hp.
  change (triple (prep mini0 w 0 0) (set_msg_type 0;; set_msg_size 0;; if mini0 then mret tt
    else spice_assert (bool_decide (w <> Urgent));; set_msg_sub_list 0) (fun _ => prep mini0 w 0 0)).
  eapply triple_bind; [by apply set_msg_type_prep|intros ?; cbn beta].
  eapply triple_bind; [by apply (set_header_prep _ _ _ _ 0)|intros ?; cbn beta]. apply triple_if; intros Em.
  - by apply triple_ret.
  - eapply triple_bind; [apply triple_assert|intros ?; cbn beta; by apply set_sub_list_prep].
    intros _ _. apply bool_decide_eq_true. intros ->. by rewrite Em in Hm; specialize (Hm eq_refl).
Qed.

Lemma init_send_data_prep w n t :
  0 < t < 65536 -> triple (prep mini0 w 0 n) (init_send_data t) (fun _ => prep mini0 w t n).
Proof.
  intros Ht. apply triple_get. intros s0.
  eapply triple_bind; [apply triple_assert|intros ?; cbn beta].
  { intros s [(_ & _ & (_ & Hz & _) & _) ->]. unfold no_item_being_sent. by rewrite Hz. }
  eapply triple_bind; [apply triple_assert|intros ?; cbn beta].
  { intros _ _. rewrite u16_id by lia. by destruct (Z.eqb_spec t 0); [lia|]. }
  eapply triple_pre; [apply set_msg_type_prep; lia|]. by intros s [? ?].
Qed.

Lemma marshall_prep w t n bs :
  triple (prep mini0 w t n) (marshall bs) (fun _ => prep mini0 w t (n + Z.of_nat (length bs))).
Proof.
  apply triple_mod. intros s (Hc & Hi & Hq & Hd & Hw & h & Hh & Ht & Hn). rewrite Hw.
  destruct w; cbn [get_m] in *; (split; [|done]);
    (split; [exact Hc|split; [exact Hi|split; [|split; [exact Hd|split; [exact Hw|]]]]]).
  - destruct Hq as (? & ? & ? & ? & ? & ? & Hu). do 6 (split; [done|]).
    intros Hx. change (cur_m s = Urgent) in Hx. congruence.
  - exists h. split; [exact Hh|]. split; [done|]. cbn. rewrite length_app. lia.
  - exact Hq.
  - exists h. split; [exact Hh|]. split; [done|]. cbn. rewrite length_app. lia.
Qed.

Lemma switch_to_urgent_prep t n :
  mini0 = true -> 0 < t < 65536 -> n <= max_body ->
  triple (prep mini0 Main t n) switch_to_urgent_sender (fun _ => prep mini0 Urgent 0 0).
Proof.
  intros Hm Ht Hn. apply triple_get. intros s0.
  eapply triple_bind; [apply triple_assert|intros ?; cbn beta].
  { intros s [(_ & _ & (_ & Hz & _) & _) ->]. unfold no_item_being_sent. by rewrite Hz. }
  eapply triple_bind; [apply triple_assert|intros ?; cbn beta].
  { intros s [(_ & _ & _ & Hd & _) ->]. rewrite Hd. by apply bool_decide_eq_true. }
  eapply triple_bind; [|intros ?; by apply reset_send_data_prep].
  apply triple_mod. intros s [(Hc & Hi & Hq & Hd & Hw & Hr) ->]. cbn [get_m] in Hr.
  split; [|done]. split; [|done]. split; [exact Hc|split; [exact Hi|]].
  destruct Hq as (? & ? & ? & ? & ? & ? & _). do 6 (split; [done|]).
  intros _. split; [done|]. split; [exact Hd|]. by exists t, n.
Qed.

(** *** The ping timer *)

(** [Q] does not tell the states without a ping on its way apart. *)
Definition lm_stable (Q : rcc W -> Prop) : Prop :=
  forall s a st, is_Some (lm_timer s) -> pinging s = false -> st = PING_STATE_NONE \/ st = PING_STATE_TIMER ->
    (a = true -> st = PING_STATE_TIMER) -> Q s -> Q (set_lm_timer (Some a) (set_lm_state st s)).

Lemma common_lm : lm_stable (common mini0).
Proof.
  intros s a st Ht Hn Hst Ha (? & ? & Hp & Hq & ? & ?). do 2 (split; [done|]). split; [|split; [|done]].
  - intros [= ->]. by apply Ha.
  - intros Hx Hy Hz. by rewrite (Hq Hx Hy Hz) in Hn.
Qed.

Lemma prep_lm w t n : lm_stable (prep mini0 w t n).
Proof.
  intros s a st Ht Hn Hst Ha (Hc & H). split; [by apply common_lm|].
  destruct w; exact H.
Qed.

(** Nothing is being sent, and nothing blocks. *)
Definition idle s : Prop := common mini0 s /\ ~ idle_blocked s /\ quiet mini0 s /\ cur_m s = Main.

Lemma idle_rest s : idle s -> rest_ok mini0 s.
Proof. intros (Hc & Hi & Hq). split; [done|]. split; [by intros Hx; destruct Hi|]. by right; left. Qed.

Lemma idle_lm : lm_stable idle.
Proof. intros s a st Ht Hn Hst Ha (Hc & H). split; [by apply common_lm|]. exact H. Qed.

Lemma rest_lm : lm_stable (rest_ok mini0).
Proof.
  intros s a st Ht Hn Hst Ha (Hc & Hb & Hd). split; [by apply common_lm|]. split; [exact Hb|].
  destruct Hd as [Hd|Hd]; [|by right]. destruct Hd as (_ & _ & _ & _ & _ & _ & Hx & _).
  rewrite Hx in Ht. by destruct Ht.
Qed.

Lemma start_ping_stable Q timeout : lm_stable Q -> triple Q (start_ping_timer timeout) (fun _ => Q).
Proof.
  intros HQ. apply triple_mod. intros s Hs. destruct (lm_timer s) eqn:Et; [|done]. case_bool_decide as Hb; [|done].
  split; [|done]. apply HQ; [by rewrite Et|unfold pinging; by rewrite Hb|auto..].
Qed.

Lemma cancel_ping_stable Q : lm_stable Q -> triple Q cancel_ping_timer (fun _ => Q).
Proof.
  intros HQ. apply triple_mod. intros s Hs. destruct (lm_timer s) eqn:Et; [|done]. case_bool_decide as Hb; [|done].
  split; [|done]. apply (HQ s false PING_STATE_NONE); [by rewrite Et|unfold pinging; by rewrite Hb|auto|done|done].
Qed.

Lemma restart_ping_stable Q : lm_stable Q -> triple Q restart_ping_timer (fun _ => Q).
Proof.
  intros HQ. apply triple_get. intros s0. destruct (lm_timer s0).
  - eapply triple_pre; [by apply start_ping_stable|]. by intros s [? _].
  - apply triple_ret. by intros s [? _].
Qed.

(** *** Disconnection *)

Definition flowing s : Prop :=
  common mini0 s /\ (exists rest, wire s ++ rest = concat (frames s)) /\ (connected s = false -> dead s).

Lemma dead_rest s : common mini0 s -> dead s -> rest_ok mini0 s.
Proof.
  intros Hc Hd. split; [done|]. split; [|by left]. destruct Hd as (_ & _ & _ & _ & _ & Hx & _).
  intros [Hi _]. rewrite Hx in Hi. by destruct Hi.
Qed.

Lemma disconnect_ok : triple flowing disconnect (fun _ s => rest_ok mini0 s /\ connected s = false).
Proof.
  apply triple_get. intros s0 s EE [(Hc & Hr & Hd) ->].
  destruct (connected s0) eqn:Ek; cbn [negb];
    [|split; [split; [|done]; apply dead_rest; auto|done]].
  clear Hd. destruct Hc as (Hs & Hm & _ & _ & _ & Hf).
  unfold wp, pipe_clear, clear_sent_item, shutdown, emit, bindM, getS, modS. cbn beta iota.
  assert (forall s1 : rcc W, has_stream s1 = has_stream s0 -> mini s1 = mini s0 -> frames s1 = frames s0 ->
    pipe s1 = [] -> cm_timer s1 = None -> lm_timer s1 = None -> common mini0 s1) as Hcs.
  { intros s1 E1 E2 E3 E4 E5 E6. unfold common, ping_ok, pong_ok. rewrite E1, E2, E3, E4, E5, E6.
    do 2 (split; [done|]). split; [done|]. split; [by intros [? ?]|]. by split; [constructor|]. }
  match goal with |- context [if ?b then _ else _] => destruct b eqn:Eb end;
    (split; [split; [apply dead_rest; [by apply Hcs; destruct (cur_m s0)|]|done]|by destruct (cur_m s0)]);
    [do 6 (split; [by destruct (cur_m s0)|]); done|].
  apply andb_false_iff in Eb. rewrite bool_decide_eq_false in Eb.
  do 7 (split; [by destruct (cur_m s0)|]).
  destruct (watch s0) eqn:Ew; [exfalso|by destruct (cur_m s0)].
  destruct Eb as [Eb|Eb]; [destruct (cur_m s0); cbn in Eb; congruence|].
  apply Eb. destruct (cur_m s0); cbn; rewrite Ew; by eexists.
Qed.

(** *** The socket *)

(** What is left to write, of the current message and of the one after it. *)
Definition unsent s : nat :=
  length (out s) - Z.to_nat (out_pos s) +
  match cur_m s with Urgent => length (marshaller_bytes s (main_m s)) | Main => 0 end.

(** [sending], and [n] turns are enough. *)
Definition go (n : nat) s : Prop :=
  common mini0 s /\ sending mini0 s /\ (blocked s = true \/ ~ idle_blocked s) /\
  (S max_intr * unsent s + write_intr (env s) < n)%nat.

(** [prep], and [n] turns are enough. *)
Definition steady (n : nat) s : Prop := (S max_intr * unsent s + max_intr < n)%nat.

Lemma length_message s m h :
  m_hdr m = Some h -> mini s = mini0 ->
  Z.of_nat (length (marshaller_bytes s m)) = header_size mini0 + Z.of_nat (length (m_body m)).
Proof.
  intros Hh Hm. unfold marshaller_bytes. rewrite Hh, Hm, length_app, Nat2Z.inj_add, enc_header_length. done.
Qed.

(** The header of [w] with the size and the serial number. *)
Definition started (mini : bool) (h : hdr) (n serial : Z) : hdr :=
  let h1 := full_header_set_msg_size n h in if mini then h1 else full_header_set_msg_serial serial h1.

(** What matters of the state after [begin_send_message] has set it up. *)
Lemma go_intro (N : nat) s s' f :
  has_stream s' = has_stream s -> mini s' = mini s -> lm_timer s' = lm_timer s ->
  lm_state s' = lm_state s -> cm_timer s' = cm_timer s -> cm_state s' = cm_state s ->
  received_bytes s' = received_bytes s -> sent_bytes s' = sent_bytes s -> pipe s' = pipe s ->
  connected s' = connected s -> wire s' = wire s -> out_size s' = out_size s -> out_pos s' = out_pos s ->
  main_hdr_data s' = main_hdr_data s -> cur_m s' = cur_m s -> env s' = env s ->
  frames s' = frames s ++ [f] -> out s' = f -> send_size s' = Z.of_nat (length f) ->
  (cur_m s = Urgent -> main_m s' = main_m s) ->
  common mini0 s -> ~ idle_blocked s -> quiet mini0 s -> length (out s) = length f ->
  frame_ok mini0 f -> steady N s -> go N s'.
Proof.
  intros E1 E2 E3 E4 E5 E6 E7 E8 E9 E10 E11 E12 E13 E14 E15 E16 E17 E18 E19 E20
    (Hs1 & Hs2 & Hs3 & Hs4 & Hs5 & Hs6) Hi (Hq1 & Hq2 & Hq3 & Hq4 & Hq5 & Hq6 & Hq7) Hl Hf HN.
  assert (0 < Z.of_nat (length f) <= max_body + header_size mini0) as Hfl.
  { destruct Hf as (h & body & -> & _ & _ & ?). rewrite length_app, Nat2Z.inj_add, enc_header_length.
    pose proof (header_size_ok mini0). lia. }
  split; [|split; [|split]].
  - unfold common, ping_ok, pong_ok, pinging in *. rewrite E1, E2, E3, E4, E5, E6, E7, E9, E17.
    do 5 (split; [done|]). apply Forall_app. auto.
  - unfold sending. rewrite E10, E11, E12, E13, E15, E17, E18, E19, Hq4, Hq5, Hq6. do 3 (split; [done|]).
    split; [by left|]. split; [by rewrite concat_app, concat_cons, app_nil_r|].
    intros Hu. unfold urgent_ready in *. rewrite E14, (E20 Hu). by apply Hq7.
  - right. unfold idle_blocked in *. by rewrite E5, E6, E7, E8.
  - unfold steady, unsent in *. rewrite E13, E15, E16, E18, <- Hl.
    replace (match cur_m s with Urgent => length (marshaller_bytes s' (main_m s')) | Main => 0%nat end)
      with (match cur_m s with Urgent => length (marshaller_bytes s (main_m s)) | Main => 0%nat end).
    + pose proof (write_intr_max (env s)). lia.
    + destruct (cur_m s); [done|]. rewrite E20 by done. unfold marshaller_bytes. by rewrite E2.
Qed.

Lemma wp_get_header w s h Q EE :
  hdr_data s = Some w -> m_hdr (get_m w s) = Some h -> Q h s -> wp (get_header (W := W)) Q EE s.
Proof. intros Hd Hh HQ. apply wp_getS. by rewrite Hd, Hh. Qed.

Lemma wp_set_header w s h f Q EE :
  hdr_data s = Some w -> m_hdr (get_m w s) = Some h ->
  Q tt (set_m w (mkMarsh (Some (f h)) (m_body (get_m w s))) s) -> wp (set_header (W := W) f) Q EE s.
Proof. intros Hd Hh HQ. apply wp_getS. by rewrite Hd, Hh. Qed.

Lemma out_set_m w m s : cur_m s = w -> out (set_m w m s) = marshaller_bytes s m.
Proof. intros Hw. destruct w; unfold out; cbn [cur_m set_m set_main_m set_urgent_m]; by rewrite Hw. Qed.

Lemma begin_ok w t n N (send : M (rcc W) unit) :
  0 < t < 65536 -> n <= max_body -> triple (go N) send (fun _ => rest_ok mini0) ->
  triple (fun s => prep mini0 w t n s /\ steady N s) (begin_send_message_with send) (fun _ => rest_ok mini0).
Proof.
  intros Ht Hn Hsend s EE [Hp HN].
  assert (exists h, m_hdr (get_m w s) = Some h /\ h_type h = t /\ hdr_data s = Some w) as (h & Hh & Hty & Hd)
    by (destruct Hp as (_ & _ & _ & ? & _ & h & ? & ? & _); eauto).
  apply wp_bind, (wp_get_header w _ h); [done..|].
  destruct (Z.eqb_spec (h_type h) 0); [lia|]. apply wp_bind.
  assert (lm_stable (fun s => (prep mini0 w t n s /\ m_hdr (get_m w s) = Some h) /\ steady N s)) as Hst.
  { intros s1 a st. intros ? ? ? ? [[? Hx] ?]. split; [split; [by apply prep_lm|]|done]. by destruct w. }
  eapply wp_conseq; [by apply (cancel_ping_stable _ Hst)|]. clear Hp HN Hh Hd. rename s into s00.
  intros [] s [[[Hp Hh] HN] Hin]. cbn beta in Hin |- *. rewrite <- Hin. clear Hin Hst.
  destruct Hp as (Hc & Hi & Hq & Hd & Hw & h' & Hh' & _ & Hlen). rewrite Hh in Hh'. injection Hh' as <-.
  assert (mini s = mini0) as Hm by (by destruct Hc as (_ & ? & _)).
  assert (Z.of_nat (length (out s)) = header_size mini0 + n) as HL.
  { unfold out. rewrite Hw, (length_message s _ _ Hh Hm). by rewrite Hlen. }
  pose proof (header_size_ok mini0) as Hhs. pose proof max_body_ok as Hmb.
  apply wp_modS, wp_getS. fold (out s). rewrite HL, u32_id by lia. cbn [send_size set_send_size].
  replace (header_size mini0 + n - header_size _) with n by (cbn; rewrite Hm; lia).
  apply wp_bind, (wp_set_header w _ h); [done|by destruct w|].
  apply wp_modS, wp_getS. unfold set_msg_serial. apply wp_bind, wp_getS.
  match goal with |- wp (if ?b then _ else _) _ _ _ => replace b with (mini s) by (by destruct w) end.
  set (bs := marshaller_bytes s (mkMarsh (Some (started (mini s) h n (u64 (last_sent_serial s + 1)))) (m_body (get_m w s)))).
  assert (length (out s) = length bs) as HLb.
  { apply Nat2Z.inj. rewrite HL. unfold bs. erewrite length_message; [|reflexivity|exact Hm]. cbn. by rewrite Hlen. }
  assert (frame_ok mini0 bs) as Hf.
  { eexists _, _. unfold bs, marshaller_bytes. cbn [m_hdr m_body]. split; [by rewrite Hm|].
    unfold started, full_header_set_msg_size, full_header_set_msg_serial.
    case_if; cbn; rewrite u32_id by lia; rewrite Hty, Hlen; done. }
  assert (forall s1 m, m = mkMarsh (Some (started (mini s) h n (u64 (last_sent_serial s + 1)))) (m_body (get_m w s)) ->
    inside s1 = inside s -> send_size s1 = header_size mini0 + n ->
    (out (set_m w m s) = bs -> go N s1) ->
    wp send (fun _ s' => rest_ok mini0 s' /\ inside s' = inside s) EE s1) as Hfin.
  { intros s1 m -> <- Hsz Hs1. apply Hsend. by apply Hs1, out_set_m. }
  destruct (mini s) eqn:Em; [apply wp_ret|eapply (wp_set_header w); [by destruct w..|]];
    apply wp_modS, wp_modS, wp_modS; (eapply Hfin; [reflexivity|by destruct w|by destruct w|]); intros Ho.
  all: clear Hfin; clearbody bs; apply (go_intro N s _ bs); try (by destruct w);
    try (rewrite <- Ho; by destruct w);
    [rewrite <- HLb, HL; by destruct w|intros Hu; destruct w; [congruence|done]].
Qed.

(** [sending] with the size of the message noted in the buffer. *)
Definition writing (n : nat) s : Prop := go n s /\ out_size s = send_size s.

Lemma writing_pos n s : writing n s -> 0 <= out_pos s < Z.of_nat (length (out s)).
Proof. intros [(_ & (_ & Hz & Hp & Hd & _) & _) Ho]. lia. Qed.

Lemma writing_env n n' s w :
  writing n s -> (S max_intr * unsent s + write_intr w < n')%nat -> writing n' (set_env w s).
Proof. intros [(Hc & Hs & Hb & _) Ho] Hn. split; [|done]. split; [exact Hc|]. done. Qed.

Lemma writing_wire n s : writing n s -> exists rest, wire s ++ rest = concat (frames s).
Proof. intros [(_ & (_ & _ & _ & _ & Hw & _) & _) _]. eauto. Qed.

Lemma writing_flowing n s : writing n s -> flowing s.
Proof.
  intros Hw. split; [by destruct Hw as [(? & _) _]|]. split; [by eapply writing_wire|].
  destruct Hw as [(_ & (Hk & _) & _) _]. by rewrite Hk.
Qed.

Lemma writing_again n s : writing n s -> rest_ok mini0 (set_blocked true s).
Proof.
  intros [(Hc & Hs & _ & _) Ho]. split; [exact Hc|]. split; [by intros _; left|]. by right; right.
Qed.

(** The state after [k] bytes were taken. *)
Definition taken (k : Z) s : rcc W :=
  let s1 := set_out_pos (out_pos s + k)
              (set_wire (wire s ++ take (Z.to_nat k) (drop (Z.to_nat (out_pos s)) (out s))) s) in
  if bool_decide (is_Some (cm_timer s)) then set_sent_bytes true s1 else s1.

Lemma taken_cases (k : Z) s (Q : rcc W -> Prop) :
  let s1 := set_out_pos (out_pos s + k)
              (set_wire (wire s ++ take (Z.to_nat k) (drop (Z.to_nat (out_pos s)) (out s))) s) in
  (~ is_Some (cm_timer s) -> Q s1) -> Q (set_sent_bytes true s1) -> Q (taken k s).
Proof. intros s1 H1 H2. unfold taken. by case_bool_decide; [|apply H1]. Qed.

Lemma taken_free k s : ~ idle_blocked (taken k s).
Proof. apply taken_cases; [intros Ht [Hx _]; by apply Ht|by intros (_ & _ & _ & ?)]. Qed.

Lemma taken_out k s : out (taken k s) = out s.
Proof. by apply taken_cases. Qed.

Lemma taken_common k s : common mini0 s -> common mini0 (taken k s).
Proof. intros H. by apply taken_cases. Qed.

Lemma taken_wire n k s :
  writing n s -> 1 <= k -> out_pos s + k <= out_size s ->
  wire (taken k s) ++ drop (Z.to_nat (out_pos s + k)) (out s) = concat (frames s).
Proof.
  intros Hw Hk Hp. pose proof (writing_pos _ _ Hw). destruct Hw as [(_ & (_ & _ & _ & _ & Hw & _) & _) Ho].
  replace (wire (taken k s)) with (wire s ++ take (Z.to_nat k) (drop (Z.to_nat (out_pos s)) (out s)))
    by (by apply (taken_cases k s (fun s' => _ = wire s'))).
  rewrite <- app_assoc, Z2Nat.inj_add by lia. rewrite <- drop_drop, take_drop. done.
Qed.

Lemma unsent_taken n k s :
  writing n s -> 1 <= k -> out_pos s + k <= Z.of_nat (length (out s)) ->
  (Z.to_nat k + unsent (taken k s) = unsent s)%nat.
Proof.
  intros Hw Hk Hp. pose proof (writing_pos _ _ Hw). unfold unsent. rewrite taken_out.
  replace (out_pos (taken k s)) with (out_pos s + k) by (by apply (taken_cases k s (fun s' => _ = out_pos s'))).
  assert (forall b, match cur_m (taken k s) with Main => 0%nat
    | Urgent => length (marshaller_bytes (taken k s) (main_m (taken k s))) end = b <->
    match cur_m s with Main => 0%nat | Urgent => length (marshaller_bytes s (main_m s)) end = b) as Hx
    by (intros b; by apply (taken_cases k s)).
  rewrite (proj2 (Hx _) eq_refl). lia.
Qed.

Lemma taken_writing n n' k s :
  writing n s -> 1 <= k -> out_pos s + k < out_size s -> (S max_intr * unsent s <= n')%nat ->
  writing n' (taken k s).
Proof.
  intros Hw Hk Hp Hn. pose proof (writing_pos _ _ Hw) as Hpos. pose proof (taken_wire _ _ _ Hw Hk) as Hwire.
  pose proof (unsent_taken _ _ _ Hw Hk) as Hu. destruct Hw as [(Hc & Hs & _ & HN) Ho].
  assert (out_size s = Z.of_nat (length (out s))) as HL by (destruct Hs as (_ & ? & _); lia).
  rewrite <- HL in Hu. specialize (Hu ltac:(lia)).
  destruct Hs as (Hs1 & Hs2 & Hs3 & Hs4 & Hs5 & Hs6).
  split; [split; [by apply taken_common|split; [|split; [right; apply taken_free|]]]|by apply taken_cases].
  - split; [by apply taken_cases|]. rewrite taken_out. split; [by apply taken_cases|].
    split; [by apply taken_cases|].
    split; [right; apply taken_cases; cbn; lia|]. split.
    + replace (out_pos (taken k s)) with (out_pos s + k) by (by apply (taken_cases k s (fun s' => _ = out_pos s'))).
      rewrite Hwire by lia. by apply taken_cases.
    + by apply taken_cases.
  - pose proof (write_intr_max (env (taken k s))). rewrite <- Hu in Hn. nia.
Qed.

(** The message has been written. *)
Definition finished (n : nat) s : Prop :=
  common mini0 s /\ ~ idle_blocked s /\ connected s = true /\ out_size s = 0 /\ out_pos s = 0 /\
  wire s = concat (frames s) /\ (cur_m s = Urgent -> urgent_ready mini0 s) /\
  (cur_m s = Urgent -> (S max_intr * length (marshaller_bytes s (main_m s)) + max_intr < n)%nat).

Lemma taken_finished n n' k s :
  writing n s -> 1 <= k -> out_pos s + k = out_size s -> (S max_intr * unsent s <= n')%nat ->
  finished n' (set_out_size 0 (set_out_pos 0 (taken k s))).
Proof.
  intros Hw Hk Hp Hn. pose proof (taken_wire _ _ _ Hw Hk) as Hwire. pose proof (unsent_taken _ _ _ Hw Hk) as Hu.
  destruct Hw as [(Hc & Hs & _ & HN) Ho]. destruct Hs as (Hs1 & Hs2 & Hs3 & Hs4 & Hs5 & Hs6).
  split; [exact (taken_common k s Hc)|]. split; [exact (taken_free k s)|].
  split; [by apply taken_cases|]. split; [done|]. split; [done|]. split; [|split].
  - rewrite drop_ge, app_nil_r in Hwire by lia. change (wire (taken k s) = concat (frames (taken k s))).
    rewrite Hwire by lia. by apply taken_cases.
  - by apply taken_cases.
  - change (cur_m (taken k s) = Urgent -> (S max_intr * length (marshaller_bytes (taken k s) (main_m (taken k s)))
      + max_intr < n')%nat). intros Hu'. specialize (Hu ltac:(lia)).
    rewrite <- Hu in Hn. unfold unsent in Hn. rewrite Hu' in Hn. nia.
Qed.

Lemma msg_sent_ok N (send : M (rcc W) unit) :
  triple (go N) send (fun _ => rest_ok mini0) -> triple (finished N) (msg_sent_with send) (fun _ => rest_ok mini0).
Proof.
  intros Hsend. eapply triple_bind; [apply (triple_ask _ _ (fun _ => finished N)); [apply avail_msgfd|done]|].
  intros ok. cbn beta. apply triple_if; intros Eok.
  { eapply triple_conseq; [apply disconnect_ok| |by intros ? ? [? _]].
    intros s (Hc & _ & Hk & _ & _ & Hw & _). split; [done|]. split; [exists []; by rewrite app_nil_r|congruence]. }
  eapply (triple_bind _ _ (fun _ s => free s /\ (cur_m s = Urgent ->
    (S max_intr * length (marshaller_bytes s (main_m s)) + max_intr < N)%nat))).
  { apply triple_mod. intros s (Hc & Hi & Hk & Ho1 & Ho2 & Hw & Hu & HN). cbn beta.
    destruct (cur_m s) eqn:Em; (split; [|done]).
    - split; [split; [exact Hc|split; [exact Hi|]]|intros Hx; change (cur_m s = Urgent) in Hx; congruence].
      split; [exact Hk|]. do 5 (split; [done|]). intros Hx; change (cur_m s = Urgent) in Hx; congruence.
    - split; [|intros _; by apply HN]. split; [exact Hc|split; [exact Hi|]]. split; [exact Hk|].
      do 5 (split; [done|]). intros _. exact (Hu eq_refl). }
  intros _. apply triple_get. intros s0. apply triple_if; unfold urgent_marshaller_is_active; intros Eu.
  - apply bool_decide_eq_true in Eu.
    eapply (triple_bind _ _ (fun _ s => exists t n, 0 < t < 65536 /\ n <= max_body /\ prep mini0 Main t n s /\ steady N s)).
    { apply triple_mod. intros s [[(Hc & Hi & Hq) HN] ->]. split; [|done].
      destruct Hq as (Hq1 & Hq2 & Hq3 & Hq4 & Hq5 & Hq6 & Hq7). specialize (HN Eu).
      destruct (Hq7 Eu) as (Hm & Hd & t & n & Ht & Hn & Hr). exists t, n. do 2 (split; [done|]). split.
      - split; [exact Hc|split; [exact Hi|split; [|by split]]]. done.
      - unfold steady, unsent, out. cbn. rewrite Hq5, Nat.sub_0_r, Nat.add_0_r. exact HN. }
    intros _. apply triple_get. intros s1. eapply triple_bind; [apply triple_assert|].
    { intros s [(t & n & _ & _ & (_ & _ & _ & Hd & _) & _) ->]. rewrite Hd. by apply bool_decide_eq_true. }
    intros _ s EE [(t & n & Ht & Hn & Hp & HN) _]. by apply (begin_ok Main t n N).
  - apply bool_decide_eq_false in Eu. apply (triple_conseq _ idle _ _ (fun _ => idle)).
    + apply triple_if; intros _; [by apply restart_ping_stable, idle_lm|by apply triple_ret].
    + intros s [[(Hc & Hi & Hq) _] ->]. do 3 (split; [done|]). by destruct (cur_m s0).
    + intros _. apply idle_rest.
Qed.

Lemma handle_outgoing_ok n : triple (go n) (handle_outgoing n) (fun _ => rest_ok mini0).
Proof.
  induction n as [|n IH]; [intros s EE (_ & _ & _ & ?); lia|]. cbn [handle_outgoing].
  apply triple_get. intros s0 s EE [Hgo ->].
  assert (has_stream s0 = true) as -> by (by destruct Hgo as ((? & _) & _)). cbn [negb]. apply wp_modS, wp_getS.
  set (s1 := if out_size s0 =? 0 then set_out_size (s32 (send_size s0)) s0 else s0).
  assert (writing (S n) s1 /\ inside s1 = inside s0) as [Hw <-].
  { unfold s1. destruct Hgo as (Hc & Hs & Hb & HN). destruct Hs as (Hs1 & Hs2 & Hs3 & Hs4 & Hs5 & Hs6).
    pose proof (header_size_ok mini0). pose proof max_body_ok. destruct (Z.eqb_spec (out_size s0) 0).
    - rewrite s32_id by lia. split; [|done]. split; [|done]. split; [exact Hc|]. split; [|done].
      do 3 (split; [done|]). split; [right; split; [done|cbn; lia]|]. done.
    - split; [|done]. split; [done|lia]. }
  clearbody s1. clear s0 Hgo. rename s1 into s. pose proof (writing_pos _ _ Hw) as Hpos.
  assert (out_size s = Z.of_nat (length (out s))) as HL by (destruct Hw as [(_ & (_ & ? & _) & _) ?]; lia).
  destruct (Z.eqb_spec (out_size s) 0); [lia|]. fold (out s).
  apply wp_bind, wp_getS. destruct (writev _ _) as [r w'] eqn:Er. apply wp_modS, wp_ret.
  assert (inside (set_env w' s) = inside s) as Hin.
  { unfold inside. cbn. pose proof (avail_writev (drop (Z.to_nat (out_pos s)) (out s)) (env s)) as Ha.
    rewrite Er in Ha. cbn in Ha. by rewrite Ha. }
  rewrite <- Hin. clear Hin. pose proof (writing_env _ _ s w' Hw (Nat.lt_succ_diag_r _)) as Hw'.
  assert (S max_intr * unsent s + write_intr (env s) < S n)%nat as HN by (by destruct Hw as [(_ & _ & _ & ?) _]).
  destruct r as [k| | | |].
  - assert (1 <= k <= Z.of_nat (length (drop (Z.to_nat (out_pos s)) (out s)))) as Hk.
    { eapply writev_ok; [|done]. intros Hx. apply (f_equal length) in Hx. rewrite length_drop in Hx. cbn in Hx. lia. }
    rewrite length_drop in Hk. do 2 apply wp_modS. apply wp_bind.
    match goal with |- wp _ ?Q _ _ => change (Q tt (taken k (set_env w' s))) end. cbn beta. apply wp_getS.
    assert (inside (taken k (set_env w' s)) = inside (set_env w' s)) as <- by (by apply taken_cases).
    replace (out_pos (taken k (set_env w' s))) with (out_pos s + k)
      by (by apply (taken_cases k (set_env w' s) (fun s' => _ = out_pos s'))).
    replace (out_size (taken k (set_env w' s))) with (out_size s)
      by (by apply (taken_cases k (set_env w' s) (fun s' => _ = out_size s'))).
    destruct (Z.eqb_spec (out_pos s + k) (out_size s)).
    + apply wp_modS. apply (triple_wp _ _ _ _ _ _ (msg_sent_ok n _ IH)); [|done].
      eapply taken_finished; [done|lia|done|]. change (unsent (set_env w' s)) with (unsent s). lia.
    + apply IH. eapply taken_writing; [done|lia|cbn; lia|]. change (unsent (set_env w' s)) with (unsent s). lia.
  - split; [|done]. by eapply writing_again.
  - apply IH. eapply writing_env; [done|]. apply writev_intr in Er. lia.
  - eapply wp_conseq; [apply disconnect_ok; by eapply writing_flowing|]. by intros ? s' [[? _] ?].
  - eapply wp_conseq; [apply disconnect_ok; by eapply writing_flowing|]. by intros ? s' [[? _] ?].
Qed.

Lemma iterM_app {A} (f : A -> M (rcc W) unit) l1 l2 s : iterM f (l1 ++ l2) s = (iterM f l1;; iterM f l2) s.
Proof.
  revert s; induction l1 as [|a l1 IH]; intros s; [done|]. cbn. unfold bindM in *. destruct (f a s); [apply IH|done..].
Qed.

Lemma wp_iter_app {A} (f : A -> M (rcc W) unit) l1 l2 Q EE s :
  wp (iterM f l1) (fun _ s' => wp (iterM f l2) Q EE s') EE s -> wp (iterM f (l1 ++ l2)) Q EE s.
Proof. intros Hs. unfold wp at 1. rewrite iterM_app. by apply wp_bind in Hs. Qed.

Lemma triple_iter_app {A} (f : A -> M (rcc W) unit) l1 l2 Pre Mid Post :
  triple Pre (iterM f l1) (fun _ => Mid) -> triple Mid (iterM f l2) Post -> triple Pre (iterM f (l1 ++ l2)) Post.
Proof.
  intros H1 H2 s EE Hs. unfold wp. rewrite iterM_app. by apply (triple_bind _ _ _ _ _ H1 (fun _ => H2)).
Qed.

(** *** While items are sent, the pipe only shrinks and nobody connects *)

Definition pipe_le (n : nat) (k : bool) s : Prop :=
  (length (pipe s) <= n)%nat /\ (connected s = true -> k = true).

Lemma ask_pipe {A} (f : W -> A * W) n k : keeps (pipe_le n k) (fun _ => True) (ask f).
Proof. intros s Hs. unfold ask, wp, bindM, getS, modS. by destruct (f (env s)). Qed.

Lemma getS_pipe n k : keeps (pipe_le n k) (fun _ => True) (getS (S := rcc W)).
Proof. by intros s Hs. Qed.

Ltac walk :=
  repeat first
    [ apply keeps_ret | apply keeps_abort; exact I | apply keeps_undef; exact I | apply keeps_assert; exact I
    | apply ask_pipe | apply getS_pipe | assumption
    | apply keeps_bind; [|intros ?]
    | apply keeps_mod; intros ? [Hle Hk]; unfold set_m; repeat case_match;
      (split; [cbn in *; lia|first [exact Hk|by intros ?]])
    | case_match ].

Lemma set_header_pipe f n k : keeps (pipe_le n k) (fun _ => True) (set_header f).
Proof. unfold set_header. walk. Qed.

Lemma disconnect_pipe n k : keeps (pipe_le n k) (fun _ => True) (disconnect (W := W)).
Proof. unfold disconnect, pipe_clear, clear_sent_item, shutdown, emit. walk. Qed.

Lemma begin_pipe send n k :
  keeps (pipe_le n k) (fun _ => True) send -> keeps (pipe_le n k) (fun _ => True) (begin_send_message_with send).
Proof.
  intros Hs. pose proof (set_header_pipe). unfold begin_send_message_with, get_header, cancel_ping_timer, set_msg_size,
    set_msg_serial. walk; by eauto.
Qed.

Lemma handle_outgoing_pipe f n k : keeps (pipe_le n k) (fun _ => True) (handle_outgoing (W := W) f).
Proof.
  induction f as [|f IH]; [by apply keeps_undef|]. pose proof (begin_pipe _ n k IH). pose proof (disconnect_pipe n k).
  cbn [handle_outgoing]. unfold msg_sent_with, clear_sent_item, data_sent, restore_main_sender, restart_ping_timer,
    start_ping_timer. walk.
Qed.

Lemma send_any_item_pipe fuel i n k : keeps (pipe_le n k) (fun _ => True) (send_any_item fuel i).
Proof.
  pose proof (handle_outgoing_pipe fuel n k) as Hs. pose proof (begin_pipe _ n k Hs). pose proof (set_header_pipe).
  assert (forall cs, keeps (pipe_le n k) (fun _ => True) (iterM (run_send_cmd fuel) cs)).
  { intros cs. apply keeps_iter. intros c. destruct c; unfold run_send_cmd, init_send_data, marshall,
      switch_to_urgent_sender, reset_send_data, begin_send_message, send, set_header_sub_list, set_msg_type,
      set_msg_size, set_msg_sub_list; walk; by eauto. }
  unfold send_any_item, reset_send_data, send_set_ack, send_migrate, send_empty_msg, send_ping, begin_send_message,
    emit, init_send_data, marshall, send, set_msg_type, set_msg_size, set_msg_sub_list. walk; by eauto.
Qed.
(** *** Items *)

Section items.
Context (fuel : nat) (Hfuel : (S max_intr * (2 * Z.to_nat (max_body + 256)) + max_intr < fuel)%nat).

Lemma message_length s m t n :
  message_ready t n m -> n <= max_body -> mini s = mini0 ->
  (length (marshaller_bytes s m) <= Z.to_nat (max_body + 256))%nat.
Proof.
  intros (h & Hh & _ & Hl) Hn Hm. pose proof (length_message s m h Hh Hm). pose proof (header_size_ok mini0). lia.
Qed.

Lemma prep_steady w t n s : prep mini0 w t n s -> n <= max_body -> steady fuel s.
Proof.
  intros ((_ & Hm & _) & _ & (_ & _ & _ & _ & Hp & _ & Hu) & _ & Hw & Hr) Hn. unfold steady, unsent, out.
  pose proof (message_length s _ _ _ Hr Hn Hm) as Hl. rewrite Hp, Hw. destruct w; [nia|].
  destruct (Hu Hw) as (_ & _ & t' & n' & _ & Hn' & Hr').
  pose proof (message_length s _ _ _ Hr' Hn' Hm). nia.
Qed.

Lemma sending_go s : common mini0 s -> sending mini0 s -> blocked s = true -> go fuel s.
Proof.
  intros Hc Hs Hb. do 2 (split; [done|]). split; [by left|].
  destruct Hc as (_ & Hm & _). destruct Hs as (_ & H1 & H2 & H3 & _ & Hu). unfold unsent.
  pose proof (header_size_ok mini0). pose proof (write_intr_max (env s)). destruct (cur_m s) eqn:Ew; [nia|].
  destruct (Hu eq_refl) as (_ & _ & t' & n' & _ & Hn' & Hr').
  pose proof (message_length s _ _ _ Hr' Hn' Hm). nia.
Qed.

Lemma begin_prep w t n :
  0 < t < 65536 -> n <= max_body -> triple (prep mini0 w t n) (begin_send_message fuel) (fun _ => rest_ok mini0).
Proof.
  intros Ht Hn. eapply triple_pre; [by apply (begin_ok w t n fuel _ Ht Hn (handle_outgoing_ok fuel))|].
  intros s Hs. split; [done|]. by eapply prep_steady.
Qed.

Lemma send_set_ack_ok : triple (prep mini0 Main 0 0) (send_set_ack fuel) (fun _ => rest_ok mini0).
Proof.
  eapply triple_bind; [apply init_send_data_prep, set_ack_type_ok|intros ?; cbn beta].
  eapply (triple_bind _ _ (fun _ => prep mini0 Main SPICE_MSG_SET_ACK 0)); [by apply triple_mod|intros _].
  eapply (triple_bind _ _ (fun _ => prep mini0 Main SPICE_MSG_SET_ACK 0)); [by apply triple_mod|intros _].
  apply triple_get. intros s0. eapply triple_bind; [eapply triple_pre; [apply marshall_prep|by intros s [? _]]|].
  intros ?. apply begin_prep; [apply set_ack_type_ok|apply set_ack_length].
Qed.

Lemma send_migrate_ok : triple (prep mini0 Main 0 0) (send_migrate fuel) (fun _ => rest_ok mini0).
Proof.
  eapply triple_bind; [apply init_send_data_prep, migrate_type_ok|intros ?; cbn beta].
  eapply triple_bind; [apply marshall_prep|intros ?; cbn beta].
  eapply (triple_bind _ _ (fun _ => prep mini0 Main SPICE_MSG_MIGRATE (0 + Z.of_nat (length (marshall_migrate migration_flags))))).
  - apply triple_if; intros _; [by apply triple_mod|by apply triple_ret].
  - intros _. apply begin_prep; [apply migrate_type_ok|apply migrate_length].
Qed.

Lemma send_ping_ok : triple (prep mini0 Main 0 0) (send_ping fuel) (fun _ => rest_ok mini0).
Proof.
  apply triple_get. intros s0. apply (triple_pre _ (prep mini0 Main 0 0)); [|by intros s [? _]].
  eapply (triple_bind _ _ (fun _ => prep mini0 Main 0 0)).
  { apply triple_if; intros _; [by apply triple_ret|].
    eapply (triple_bind _ _ (fun _ => prep mini0 Main 0 0)); [by apply triple_mod|intros _].
    destruct (get_no_delay (env s0)) as [v|]; [|by apply triple_ret].
    eapply (triple_bind _ _ (fun _ => prep mini0 Main 0 0)); [by apply triple_mod|intros _].
    apply triple_if; intros _; [by apply triple_ret|by apply triple_mod]. }
  intros _. eapply triple_bind; [apply init_send_data_prep, ping_type_ok|intros ?; cbn beta].
  apply triple_get. intros s1. eapply triple_bind; [eapply triple_pre; [apply marshall_prep|by intros s [? _]]|].
  intros ?. apply begin_prep; [apply ping_type_ok|apply ping_length].
Qed.

Lemma body_cmds_prep w t n cs :
  Forall (body_cmd mini0) cs ->
  triple (prep mini0 w t n) (iterM (run_send_cmd fuel) cs) (fun _ => prep mini0 w t (n + body_length cs)).
Proof.
  intros Hcs. revert n. induction Hcs as [|c cs Hc _ IH]; intros n; cbn [iterM].
  { apply triple_ret. intros s Hs. by rewrite Z.add_0_r. }
  destruct c; cbn in Hc; try done; cbn [run_send_cmd body_length foldr].
  - eapply triple_bind; [apply marshall_prep|intros ?; cbn beta]. rewrite Z.add_assoc. apply IH.
  - eapply triple_bind; [by apply set_sub_list_prep|intros ?; cbn beta]. apply IH.
Qed.

Lemma message_cmds_prep w t cs Post (rest : list send_cmd) :
  message_cmds mini0 max_body t cs ->
  (forall n, n <= max_body -> triple (prep mini0 w t n) (iterM (run_send_cmd fuel) rest) Post) ->
  triple (prep mini0 w 0 0) (iterM (run_send_cmd fuel) (CInit t :: cs ++ rest)) Post.
Proof.
  intros (Ht & Hcs & Hl) Hrest. eapply triple_bind; [by apply init_send_data_prep|intros ?; cbn beta].
  eapply triple_iter_app; [by apply body_cmds_prep|]. by apply Hrest.
Qed.

Lemma last_begin w t n :
  0 < t < 65536 -> n <= max_body ->
  triple (prep mini0 w t n) (iterM (run_send_cmd fuel) [CBegin]) (fun _ => rest_ok mini0).
Proof. intros Ht Hn. eapply triple_bind; [by apply begin_prep|intros ?]. by apply triple_ret. Qed.

Lemma send_cmds_ok cs :
  send_shape mini0 max_body cs ->
  triple (prep mini0 Main 0 0) (iterM (run_send_cmd fuel) cs) (fun _ => rest_ok mini0).
Proof.
  intros [|t cs' Hcs|t cs' t' cs'' Hm Hcs Hcs'].
  - apply triple_ret. intros s (Hc & Hi & Hq & _ & Hw & _). by apply idle_rest.
  - apply message_cmds_prep; [done|]. intros n Hn. apply last_begin; [by apply Hcs|done].
  - apply message_cmds_prep; [done|]. intros n Hn.
    eapply triple_bind; [apply switch_to_urgent_prep; [done|by apply Hcs|done]|intros ?; cbn beta].
    apply message_cmds_prep; [done|]. intros n' Hn'. apply last_begin; [by apply Hcs'|done].
Qed.

Lemma send_any_item_ok i : item_ok i -> triple idle (send_any_item fuel i) (fun _ => rest_ok mini0).
Proof.
  intros Hi. apply triple_get. intros s0.
  eapply triple_bind; [apply triple_assert|intros ?; cbn beta].
  { intros s [(_ & _ & (_ & Hz & _) & _) ->]. unfold no_item_being_sent. by rewrite Hz. }
  eapply triple_bind; [eapply triple_pre; [by apply (reset_send_data_prep Main)|]|intros ?; cbn beta].
  { by intros s [(? & ? & ? & ?) _]. }
  unfold item_ok in Hi. destruct (it_kind i).
  - apply send_set_ack_ok.
  - apply send_migrate_ok.
  - eapply triple_bind; [apply init_send_data_prep|intros ?].
    + cbn in Hi. pose proof (u16_range msg). lia.
    + apply begin_prep; [cbn in Hi; pose proof (u16_range msg); lia|]. pose proof (ping_length 0 0). lia.
  - apply send_ping_ok.
  - apply triple_mod. intros s (Hc & Hx & Hq & _ & Hw & _). split; [|done]. by apply idle_rest.
  - eapply (triple_bind _ _ (fun cs s => send_shape mini0 max_body cs /\ prep mini0 Main 0 0 s)).
    + apply triple_ask; [apply avail_send_item|]. intros s Hs. split; [apply send_item_ok|done].
    + intros cs s EE [Hcs Hs]. by apply send_cmds_ok.
Qed.
End items.
End sending.
