(* ===== verification/ChannelClientOps.v ===== *)
(** * Channel clients: the operations keep the invariant

    [push], the pipe, the timers and the monitors, as triples on the invariant
    of ChannelClientOk. *)

From Stdlib Require Import ZArith Lia.
From stdpp Require Import base list numbers tactics option.
From S2P Require Import Prelude ChannelClient ChannelClientOk.

Open Scope Z_scope.

Section ops.
Context {W : Type} {E : RccEnv W} {P : RccProto} {O : RccWorld W} (mini0 : bool).
Context {POK : RccProtoOk P O} {EOK : RccEnvOk E O mini0}.
Context (fuel : nat) (Hfuel : (S max_intr * (2 * Z.to_nat (max_body + 256)) + max_intr < fuel)%nat).
Implicit Types (s : rcc W).

(** ** [push] *)

Lemma wp_and {A} (m : M (rcc W) A) Q Q' EE s :
  wp m Q EE s -> wp m Q' (fun _ _ => True) s -> wp m (fun a s' => Q a s' /\ Q' a s') EE s.
Proof. unfold wp. destruct (m s); auto. Qed.

Lemma rest_watch s x v : rest_ok mini0 s -> watch s = Some x -> rest_ok mini0 (set_watch v s).
Proof.
  intros (Hc & Hb & Hd) Hw. split; [exact Hc|]. split; [exact Hb|]. destruct Hd as [Hd|Hd]; [|by right].
  destruct Hd as (_ & _ & _ & _ & _ & _ & _ & Hx). congruence.
Qed.

Lemma watch_ok mask : triple (rest_ok mini0) (watch_update_mask mask) (fun _ => rest_ok mini0).
Proof. apply triple_mod. intros s Hs. destruct (watch s) eqn:Ew; [|done]. split; [by eapply rest_watch|done]. Qed.

Lemma emit_ok e : triple (rest_ok mini0) (emit e) (fun _ => rest_ok mini0).
Proof. by apply triple_mod. Qed.

(** An item is taken only when nothing is being sent. *)
Lemma pipe_item_get_ok n :
  triple (fun s => rest_ok mini0 s /\ (length (pipe s) < S n)%nat) pipe_item_get
    (fun i s => match i with
                | None => rest_ok mini0 s
                | Some i => item_ok i /\ idle mini0 s /\ (length (pipe s) < n)%nat
                end).
Proof.
  apply triple_get. intros s0. apply triple_if; intros Eb; [by apply triple_ret; intros s [[? _] ->]|].
  apply orb_false_elim in Eb as [Hb Ha]. destruct (list.last (pipe s0)) as [i|] eqn:El;
    [|by apply triple_ret; intros s [[? _] ->]].
  apply last_Some in El as [l El].
  assert (removelast (pipe s0) = l) as Hl by (by rewrite El, removelast_last).
  eapply (triple_bind _ _ (fun _ s => item_ok i /\ idle mini0 s /\ (length (pipe s) < n)%nat));
    [|intros _; by apply triple_ret].
  apply triple_mod. intros s [[(Hc & Hbo & Hd) Hn] ->]. split; [|done]. cbn [pipe set_pipe]. rewrite Hl.
  rewrite El, length_app in Hn. cbn in Hn.
  destruct Hc as (? & ? & ? & ? & Hp & ?). rewrite El in Hp. apply Forall_app in Hp as [Hp1 Hp2].
  inversion_clear Hp2. split; [done|]. split; [|lia]. split; [|split; [|split]].
  - do 4 (split; [done|]). split; [exact Hp1|done].
  - intros Hx. destruct (Hbo Hx); congruence.
  - destruct Hd as [Hd|[[Hd _]|[_ [Hd _]]]]; [|exact Hd|congruence].
    destruct Hd as (_ & _ & _ & Hd & _). rewrite Hd in El. by destruct l.
  - destruct Hd as [Hd|[[_ Hd]|[_ [Hd _]]]]; [|exact Hd|congruence].
    destruct Hd as (_ & _ & _ & Hd & _). rewrite Hd in El. by destruct l.
Qed.

Lemma push_loop_ok n :
  triple (fun s => rest_ok mini0 s /\ (length (pipe s) < n)%nat) (push_loop fuel n) (fun _ => rest_ok mini0).
Proof.
  induction n as [|n IH]; [intros s EE [_ ?]; lia|]. cbn [push_loop].
  eapply triple_bind; [apply pipe_item_get_ok|]. intros [i|]; cbn beta iota; [|by apply triple_ret].
  intros s EE (Hi & Hs & Hn). apply wp_bind.
  eapply wp_conseq; [apply wp_and; [by apply (send_any_item_ok mini0 fuel Hfuel i Hi)|]|].
  - apply (send_any_item_pipe fuel i (length (pipe s)) true). by split; [lia|].
  - intros ? s' [[Hr <-] Hle]. apply IH. destruct Hle. split; [done|lia].
Qed.

(** The same, whatever [during_send] is. *)
Lemma inside_during b s s' :
  inside s' = inside (set_during_send b s) -> inside (set_during_send (during_send s) s') = inside s.
Proof. unfold inside. cbn. intros Hi. injection Hi. congruence. Qed.

Lemma push_blocked_ok s0 :
  triple (fun s => rest_ok mini0 s /\ s = s0) (if blocked s0 then send fuel else mret tt) (fun _ => rest_ok mini0).
Proof.
  apply triple_if; intros Eb; [|by apply triple_ret; intros s [? _]].
  eapply triple_pre; [by apply (handle_outgoing_ok mini0 fuel)|]. intros s [(Hc & Hbo & Hd) ->].
  destruct Hd as [(_ & _ & ? & _)|[[(_ & _ & ? & _) _]|[Hs [Hb _]]]]; [congruence..|]. by apply sending_go.
Qed.

(** The warning "an item waiting to be sent and not blocked" does not occur. *)
Lemma waiting_is_blocked s : rest_ok mini0 s -> negb (no_item_being_sent s) && negb (blocked s) = false.
Proof.
  intros (_ & _ & Hd). unfold no_item_being_sent.
  destruct Hd as [(_ & -> & _)|[[(_ & -> & _) _]|[_ [-> _]]]]; [done..|]. by destruct (send_size s =? 0).
Qed.

Lemma push_end_ok (b : bool) :
  triple (rest_ok mini0) (if b then watch_update_mask SPICE_WATCH_EVENT_READ;; emit EvFlush else mret tt)
    (fun _ => rest_ok mini0).
Proof.
  apply triple_if; intros _; [|by apply triple_ret]. eapply triple_bind; [apply watch_ok|intros ?; apply emit_ok].
Qed.

Lemma push_ok : triple (rest_ok mini0) (push fuel) (fun _ => rest_ok mini0).
Proof.
  intros s EE Hs. apply wp_getS. destruct (during_send s) eqn:Ed; [done|]. apply wp_modS.
  set (s1 := set_during_send true s). assert (rest_ok mini0 s1) as Hs1 by exact Hs.
  change (blocked s) with (blocked s1). apply wp_bind.
  eapply wp_conseq; [by apply (push_blocked_ok s1)|]. intros [] s2 [Hs2 Hi]. cbn beta in Hi |- *. apply wp_getS.
  rewrite waiting_is_blocked by done. apply wp_bind, wp_ret, wp_bind.
  eapply wp_conseq; [apply (triple_wp _ _ _ _ s1 _ (push_loop_ok _)); [split; [done|lia]|done]|].
  intros [] s3 [Hs3 Hi3]. cbn beta in Hi3 |- *. apply wp_getS, wp_bind.
  eapply wp_conseq; [by apply (triple_wp _ _ _ _ s1 _ (push_end_ok _))|].
  intros [] s4 [Hs4 Hi4]. split; [exact Hs4|]. apply inside_during in Hi4. by rewrite Ed in Hi4.
Qed.

(** ** The pipe *)

(** An operation keeps the invariant, and cannot stop. *)
Definition safe {A} (m : M (rcc W) A) : Prop := triple (rest_ok mini0) m (fun _ => rest_ok mini0).

Lemma safe_bind {A B} (m : M (rcc W) A) (f : A -> M (rcc W) B) :
  safe m -> (forall a, safe (f a)) -> safe (bindM m f).
Proof. intros Hm Hf. by eapply triple_bind. Qed.

Lemma safe_get {A} (k : rcc W -> M (rcc W) A) :
  (forall s0, rest_ok mini0 s0 -> triple (fun s => rest_ok mini0 s /\ s = s0) (k s0) (fun _ => rest_ok mini0)) ->
  safe (bindM getS k).
Proof. intros Hk s EE Hs. apply wp_getS. by apply Hk. Qed.

Lemma safe_pre {A} (m : M (rcc W) A) s0 :
  safe m -> triple (fun s => rest_ok mini0 s /\ s = s0) m (fun _ => rest_ok mini0).
Proof. intros Hm. eapply triple_pre; [done|]. by intros s [? _]. Qed.

Lemma safe_if {A} (b : bool) (m1 m2 : M (rcc W) A) : safe m1 -> safe m2 -> safe (if b then m1 else m2).
Proof. by destruct b. Qed.

Lemma safe_ret {A} (a : A) : safe (mret a).
Proof. by apply triple_ret. Qed.

Lemma safe_mod (f : rcc W -> rcc W) :
  (forall s, rest_ok mini0 s -> rest_ok mini0 (f s) /\ inside (f s) = inside s) -> safe (modS f).
Proof. intros Hf. by apply triple_mod. Qed.

Lemma safe_ask {A} (f : W -> A * W) : (forall w, avail (f w).2 = avail w) -> safe (ask f).
Proof. intros Hf. by apply triple_ask. Qed.

Lemma rest_pipe s p :
  rest_ok mini0 s -> connected s = true -> Forall item_ok p -> rest_ok mini0 (set_pipe p s).
Proof.
  intros (Hc & Hb & Hd) Hk Hp. destruct Hc as (? & ? & ? & ? & _ & ?). split; [|split; [exact Hb|]].
  - do 4 (split; [done|]). by split.
  - destruct Hd as [(? & _)|Hd]; [congruence|]. by right.
Qed.

Lemma prepare_pipe_add_ok :
  triple (rest_ok mini0) prepare_pipe_add (fun ok s => rest_ok mini0 s /\ (ok = true -> connected s = true)).
Proof.
  apply triple_get. intros s0. apply triple_if; intros Ek; zbool; [by apply triple_ret; intros s [? _]|].
  eapply (triple_bind _ _ (fun _ s => rest_ok mini0 s /\ connected s = true)); [|by intros _; apply triple_ret; intros s [? ?]].
  apply triple_if; intros _; [|by apply triple_ret; intros s [? ->]].
  apply triple_mod. intros s [Hs ->]. destruct (watch s0) eqn:Ew; [|done].
  split; [|done]. split; [by eapply rest_watch|done].
Qed.

Lemma pipe_set_ok (f : list item -> list item) :
  (forall p, Forall item_ok p -> Forall item_ok (f p)) ->
  safe (ok ← prepare_pipe_add; if (ok : bool) then modS (fun s => set_pipe (f (pipe s)) s) else mret tt).
Proof.
  intros Hf. eapply triple_bind; [apply prepare_pipe_add_ok|]. intros ok. cbn beta.
  apply triple_if; intros ->; [|by apply triple_ret; intros s [? _]].
  apply triple_mod. intros s [Hs Hk]. split; [|done]. apply rest_pipe; [done|by apply Hk|].
  apply Hf. by destruct Hs as ((_ & _ & _ & _ & ? & _) & _).
Qed.

Lemma pipe_add_ok i : item_ok i -> safe (pipe_add i).
Proof. intros Hi. apply (pipe_set_ok (cons i)). by constructor. Qed.

Lemma pipe_add_tail_ok i : item_ok i -> safe (pipe_add_tail i).
Proof. intros Hi. apply (pipe_set_ok (fun p => p ++ [i])). intros p Hp. apply Forall_app. auto. Qed.

Lemma insert_item_ok n i p : item_ok i -> Forall item_ok p -> Forall item_ok (take n p ++ i :: drop n p).
Proof. intros Hi Hp. apply Forall_app. split; [by apply Forall_take|]. constructor; [done|]. by apply Forall_drop. Qed.

(** The positions of an iterator that is not the end. *)
Lemma pipe_add_pos_ok i s0 pos n :
  item_ok i -> (pos < length (pipe s0))%nat ->
  triple (fun s => rest_ok mini0 s /\ s = s0)
    (s ← getS; spice_assert (bool_decide (pos < length (pipe s))%nat);;
     ok ← prepare_pipe_add; if (ok : bool) then pipe_insert n i else mret tt) (fun _ => rest_ok mini0).
Proof.
  intros Hi Hpos. apply triple_get. intros s1.
  eapply triple_bind; [apply triple_assert|intros ?; cbn beta].
  { intros s [[_ ->] <-]. by apply bool_decide_eq_true. }
  eapply triple_pre; [apply (pipe_set_ok (fun p => take n p ++ i :: drop n p))|by intros s [[? _] _]].
  intros p. by apply insert_item_ok.
Qed.

Lemma pipe_add_after_ok i id : item_ok i -> safe (pipe_add_after i id).
Proof.
  intros Hi. apply triple_get. intros s0. destruct (find_pipe_item (pipe s0) id) as [pos|] eqn:Ef;
    [|by apply triple_ret; intros s [? _]].
  apply (pipe_add_pos_ok i s0 pos); [done|].
  unfold find_pipe_item in Ef. destruct (list_find _ _) as [[j x]|] eqn:El; [|done]. cbn in Ef. simplify_eq.
  apply list_find_Some in El as (Hl & _). by apply lookup_lt_Some in Hl.
Qed.

Lemma pipe_remove_ok id : safe (pipe_remove id).
Proof.
  apply triple_mod. intros s Hs. destruct (find_pipe_item (pipe s) id) as [n|] eqn:Ef; [|done]. split; [|done].
  assert (Forall item_ok (pipe s)) as Hp by (by destruct Hs as ((_ & _ & _ & _ & ? & _) & _)).
  assert (connected s = true) as Hk.
  { destruct Hs as (_ & _ & [(_ & _ & _ & Hd & _)|[[(? & _) _]|[(? & _) _]]]); [|done..]. by rewrite Hd in Ef. }
  apply rest_pipe; [done..|]. apply Forall_app. split; [by apply Forall_take|by apply Forall_drop].
Qed.

Lemma new_item_ok k : triple (rest_ok mini0) (new_item k) (fun i s => rest_ok mini0 s /\ it_kind i = k).
Proof.
  apply triple_get. intros s0. eapply triple_bind; [apply (triple_mod _ _ (fun _ => rest_ok mini0))|intros ?].
  - by intros s [? ->].
  - by apply triple_ret.
Qed.

Lemma new_item_safe k (f : item -> M (rcc W) unit) :
  kind_ok k -> (forall i, item_ok i -> safe (f i)) -> safe (i ← new_item k; f i).
Proof.
  intros Hk Hf. eapply triple_bind; [apply new_item_ok|]. intros i s EE [Hs Hi]. apply Hf; [|done].
  unfold item_ok. by rewrite Hi.
Qed.

Lemma pipe_add_type_ok k : kind_ok k -> safe (pipe_add_type k).
Proof. intros Hk. apply new_item_safe; [done|]. intros i. apply pipe_add_ok. Qed.

(** ** The monitors *)

Lemma rest_common s : rest_ok mini0 s -> common mini0 s.
Proof. by intros [? _]. Qed.

(** A change of [lm_state]: what the two monitors say of it. *)
Lemma rest_lm_state s st :
  rest_ok mini0 s -> lm_timer s <> Some true ->
  (st = PING_STATE_WARMUP \/ st = PING_STATE_LATENCY \/
   (is_Some (cm_timer s) -> received_bytes s = true)) ->
  rest_ok mini0 (set_lm_state st s).
Proof.
  intros ((H1 & H2 & H3 & H4 & H5) & Hb & Hd) Ht Hst. split; [|split; [exact Hb|exact Hd]].
  do 2 (split; [done|]). split; [|split; [|exact H5]]; [by intros Hx|].
  intros Hi Hs Hr. destruct Hst as [->|[->|Hst]]; [done..|].
  change (received_bytes s = false) in Hr. by rewrite (Hst Hi) in Hr.
Qed.

Lemma timer_off s st : rest_ok mini0 s -> lm_state s = st -> st <> PING_STATE_TIMER -> lm_timer s <> Some true.
Proof. intros ((_ & _ & Hp & _) & _) Hs Hne Ht. by rewrite (Hp Ht) in Hs. Qed.

Lemma push_ping_ok :
  triple (fun s => rest_ok mini0 s /\ lm_state s = PING_STATE_NONE) push_ping (fun _ => rest_ok mini0).
Proof.
  apply triple_get. intros s0. eapply triple_bind; [apply triple_assert|intros ?; cbn beta].
  { intros s [[_ H] ->]. by apply bool_decide_eq_true. }
  eapply (triple_bind _ _ (fun _ => rest_ok mini0)).
  { apply triple_mod. intros s [[Hs Hn] _]. split; [|done].
    apply (rest_lm_state s PING_STATE_WARMUP); [done|by eapply timer_off|auto]. }
  intros _. apply safe_bind; [apply safe_ask, avail_rand|]. intros id.
  apply safe_bind; [by apply safe_mod|]. intros _.
  apply safe_bind; [by apply pipe_add_type_ok|]. intros _. by apply pipe_add_type_ok.
Qed.

(** The ping timer expires. *)
Lemma ping_timer_ok :
  triple (fun s => rest_ok mini0 s /\ lm_timer s = Some true) ping_timer (fun _ => rest_ok mini0).
Proof.
  apply triple_get. intros s0. eapply triple_bind; [apply triple_assert|intros ?; cbn beta].
  { intros s [[((_ & _ & H & _) & _) Ht] ->]. apply bool_decide_eq_true. by apply H. }
  eapply (triple_bind _ _ (fun _ s => rest_ok mini0 s /\ lm_state s = PING_STATE_NONE)).
  { intros s EE [[Hs Ht] _]. apply wp_mono with (1 := wp_and _ _ _ EE s (cancel_ping_stable _ (rest_lm mini0) s EE Hs)
      (ltac:(unfold wp, cancel_ping_timer, modS; rewrite Ht; cbn; case_bool_decide as Hb;
        [|destruct Hs as ((_ & _ & Hx & _) & _); by specialize (Hx Ht)]; exact eq_refl)
       : wp cancel_ping_timer (fun _ s' => lm_state s' = PING_STATE_NONE) (fun _ _ => True) s)); [|done].
    by intros ? s' [[? ?] ?]. }
  intros _. apply triple_if; intros _; [|apply push_ping_ok].
  eapply triple_pre; [apply start_ping_stable, rest_lm|]. by intros s [? _].
Qed.

(** A message has been heard of the client since the connectivity timer ran. *)
Definition heard s : Prop := is_Some (cm_timer s) -> received_bytes s = true.

Lemma handle_pong_ok m :
  triple (fun s => rest_ok mini0 s /\ heard s) (handle_pong m) (fun _ => rest_ok mini0).
Proof.
  apply triple_get. intros s0. apply triple_if; intros _; [by apply triple_ret; intros s [[? _] _]|].
  destruct (lm_state s0) eqn:Es; try (by apply triple_ret; intros s [[? _] _]).
  - apply triple_mod. intros s [[Hs Hh] ->]. split; [|done]. apply rest_lm_state; [done|by eapply timer_off|auto].
  - eapply (triple_bind _ _ (fun _ s => rest_ok mini0 s /\ heard s /\ lm_state s = PING_STATE_LATENCY)).
    { apply triple_if; intros _; [by apply triple_ret; intros s [[? ?] ->]|].
      by apply triple_mod; intros s [[? ?] ->]. }
    intros _. eapply (triple_bind _ _ (fun _ s => rest_ok mini0 s /\ heard s /\ lm_state s = PING_STATE_LATENCY)).
    { apply triple_mod. intros s Hs. by case_if. }
    intros _. eapply (triple_bind _ _ (fun _ => rest_ok mini0)).
    { apply triple_mod. intros s (Hs & Hh & Hl). split; [|done].
      apply (rest_lm_state s PING_STATE_NONE); [done|by eapply timer_off|auto]. }
    intros _. apply triple_get. intros s1. apply safe_pre, start_ping_stable, rest_lm.
Qed.

Lemma rest_flowing s : rest_ok mini0 s -> flowing mini0 s.
Proof.
  intros (Hc & _ & Hd). split; [done|].
  destruct Hd as [Hd|[[(Hk & _ & _ & _ & _ & Hw & _) _]|[(Hk & _ & _ & _ & Hw & _) _]]].
  - split; [|done]. by destruct Hd as (_ & _ & _ & _ & ? & _).
  - split; [exists []; by rewrite app_nil_r|congruence].
  - split; [by eexists|congruence].
Qed.

Lemma disconnect_safe : safe disconnect.
Proof.
  eapply triple_conseq; [apply disconnect_ok|intros s; apply rest_flowing|by intros ? s [? _]].
Qed.

(** The [spice_error] calls of the timer are not reached. *)
Lemma connectivity_alive_ok :
  triple (fun s => rest_ok mini0 s /\ is_Some (cm_timer s)) connectivity_alive (fun _ => rest_ok mini0).
Proof.
  apply triple_get. intros s0. destruct (cm_state s0) eqn:Es; try (by apply triple_ret; intros s [[? _] _]).
  - apply triple_if; intros Er; [|by apply triple_ret; intros s [[? _] _]]. zbool.
    intros s EE [[Hs Ht] ->]. destruct (proj1 (proj2 Hs)) as [Hx|Hx]; [done|rewrite Hx; by destruct (blocked s0)..].
  - apply triple_if; intros Er; [|by apply triple_ret; intros s [[? _] _]]. zbool.
    intros s EE [[Hs Ht] ->]. pose proof Hs as ((_ & _ & _ & Hp & _) & _).
    by rewrite (Hp Ht Es Er).
Qed.

Lemma restart_cm_ok : safe (modS (fun s => set_cm_timer ((fun _ => true) <$> cm_timer s) s)).
Proof.
  apply triple_mod. intros s ((H1 & H2 & H3 & H4 & H5) & Hb & Hd). split; [|done]. split; [|split].
  - do 3 (split; [done|]). split; [|exact H5]. intros Hi. apply H4. by apply fmap_is_Some in Hi.
  - intros (Hi & Hx). apply Hb. split; [by apply fmap_is_Some in Hi|done].
  - destruct Hd as [(D1 & D2 & D3 & D4 & D5 & Hx & D7)|Hd]; [left|by right].
    do 5 (split; [done|]). cbn. by rewrite Hx.
Qed.

Lemma connectivity_timer_ok :
  triple (fun s => rest_ok mini0 s /\ is_Some (cm_timer s)) connectivity_timer (fun _ => rest_ok mini0).
Proof.
  eapply triple_bind; [apply connectivity_alive_ok|]. intros alive. cbn beta. apply triple_if; intros _.
  - eapply (triple_bind _ _ (fun _ s => common mini0 (set_cm_state CONNECTIVITY_STATE_CONNECTED s) /\
      received_bytes s = false /\ (dead s \/ quiet mini0 s /\ cur_m s = Main \/
        sending mini0 s /\ blocked s = true /\ out_size s = send_size s))).
    { apply triple_mod. intros s ((H1 & H2 & H3 & H4 & H5) & Hb & Hd). split; [|done]. split; [|done].
      do 3 (split; [done|]). by split. }
    intros _. eapply (triple_bind _ _ (fun _ => rest_ok mini0)).
    + apply triple_mod. intros s ((H1 & H2 & H3 & _ & H5) & Hr & Hd). split; [|done].
      destruct (blocked s || waiting_for_ack s) eqn:Eb; [|destruct (pinging s) eqn:Ep];
        (split; [do 3 (split; [done|]); split; [|exact H5]|split; [|exact Hd]]); try done.
      * intros _. by apply orb_prop in Eb.
      * by intros _ _ _.
      * by intros (_ & ? & _).
      * by intros (_ & ? & _).
    + intros _. apply restart_cm_ok.
  - eapply (triple_bind _ _ (fun _ => flowing mini0)).
    + apply triple_mod. intros s Hs. split; [|done]. destruct (rest_flowing s Hs) as ((H1 & H2 & H3 & H4 & H5) & Hw & Hd).
      split; [|done]. do 3 (split; [done|]). by split.
    + intros _. eapply triple_conseq; [apply disconnect_ok|done|by intros ? s [? _]].
Qed.

Lemma rest_connected s (Q : Prop) :
  rest_ok mini0 s -> connected s = true ->
  (quiet mini0 s /\ cur_m s = Main \/ sending mini0 s /\ blocked s = true /\ out_size s = send_size s -> Q) -> Q.
Proof. intros (_ & _ & [(? & _)|Hd]) Hk HQ; [congruence|by apply HQ]. Qed.

Lemma start_connectivity_monitoring_ok timeout_ms :
  0 < timeout_ms -> safe (start_connectivity_monitoring timeout_ms).
Proof.
  intros Ht. apply triple_get. intros s0. apply triple_if; intros Ek; zbool; [by apply triple_ret; intros s [? _]|].
  eapply triple_bind; [apply triple_assert; intros s _; by apply Z.ltb_lt|intros ?; cbn beta].
  eapply (triple_bind _ _ (fun _ s => rest_ok mini0 s /\ connected s = true /\ cm_timer s = cm_timer s0)).
  { destruct (lm_timer s0) eqn:El.
    - eapply triple_pre; [apply cancel_ping_stable|by intros s [? ->]].
      intros s x st H1 H2 H3 H4 [H5 H6]. split; [by apply rest_lm|exact H6].
    - apply triple_mod. intros s [Hs ->]. split; [|done]. split; [|done].
      eapply rest_connected; [done..|]. intros Hd. destruct Hs as ((H1 & H2 & H3 & H4) & Hb & _).
      split; [do 2 (split; [done|]); split; [by intros [=]|exact H4]|]. split; [exact Hb|]. right. exact Hd. }
  intros _. eapply (triple_bind _ _ (fun _ s => rest_ok mini0 s /\ connected s = true /\ cm_timer s = cm_timer s0));
    [by apply triple_mod|intros _].
  eapply (triple_bind _ _ (fun _ s => rest_ok mini0 s /\ connected s = true /\ cm_timer s = cm_timer s0)).
  { apply triple_if; intros _; [by apply triple_ret|]. apply start_ping_stable.
    intros s x st H1 H2 H3 H4 [H5 H6]. split; [by apply rest_lm|exact H6]. }
  intros _. destruct (cm_timer s0) eqn:Ec; [by apply triple_ret; intros s [? _]|].
  apply triple_mod. intros s (Hs & Hk & Hc). split; [|done]. eapply rest_connected; [done..|]. intros Hd.
  destruct Hs as ((H1 & H2 & H3 & H4 & H5) & Hb & _). split; [do 3 (split; [done|]); by split|].
  split; [by intros (_ & ? & _)|]. by right.
Qed.

Lemma block_read_ok : safe block_read.
Proof.
  apply triple_get. intros s0. apply safe_pre, safe_if; [apply safe_ret|].
  apply safe_bind; [by apply safe_mod|]. intros _. apply watch_ok.
Qed.

Lemma unblock_read_ok : safe unblock_read.
Proof.
  apply triple_get. intros s0. apply safe_pre, safe_if; [apply safe_ret|].
  apply safe_bind; [by apply safe_mod|]. intros _. apply watch_ok.
Qed.

Lemma shutdown_ok : safe shutdown.
Proof.
  apply triple_get. intros s0. apply safe_pre, safe_if; [|apply safe_ret].
  apply safe_bind; [|intros _; apply emit_ok]. apply safe_mod. intros s (Hc & Hb & Hd). split; [|done].
  split; [exact Hc|]. split; [exact Hb|]. destruct Hd as [Hd|Hd]; [left|by right].
  destruct Hd as (? & ? & ? & ? & ? & ? & ? & _). by do 7 (split; [done|]).
Qed.

Lemma migrate_ok : safe migrate.
Proof.
  apply safe_bind; [apply cancel_ping_stable, rest_lm|]. intros _. apply safe_bind.
  - apply safe_mod. intros s ((H1 & H2 & _ & _ & H5) & _ & Hd). split; [|done].
    split; [do 2 (split; [done|]); split; [done|split; [by intros [? ?]|exact H5]]|].
    split; [by intros ([? ?] & _)|].
    destruct Hd as [(D1 & D2 & D3 & D4 & D5 & _ & _ & D8)|Hd]; [left|by right]. by do 7 (split; [done|]).
  - intros _. by apply pipe_add_type_ok.
Qed.

Lemma set_migration_seamless_ok : safe set_migration_seamless.
Proof. apply safe_if; [apply safe_ret|]. apply safe_bind; [by apply safe_mod|]. intros _. apply safe_ret. Qed.

Lemma seamless_migration_done_ok : safe seamless_migration_done.
Proof.
  apply safe_bind; [by apply safe_mod|]. intros _. apply safe_bind; [apply safe_ask, avail_migration|]. intros ok.
  apply safe_if; [|apply safe_ret]. apply safe_bind; [apply start_ping_stable, rest_lm|]. intros _. apply restart_cm_ok.
Qed.

Lemma handle_migrate_data_early_ok m : safe (handle_migrate_data_early m).
Proof.
  apply safe_if; [apply safe_ret|]. apply triple_get. intros s0. apply safe_pre, safe_if; [apply shutdown_ok|].
  apply safe_bind; [destruct (migrate_data_serial m); [by apply safe_mod|apply safe_ret]|]. intros _.
  apply safe_bind; [apply safe_ask, avail_migrate_data|]. intros ok. apply safe_if; [apply shutdown_ok|].
  apply seamless_migration_done_ok.
Qed.

(** The window may be opened at any time at which the monitor does not wait for it. *)
Lemma ack_zero_messages_window_ok :
  triple (fun s => rest_ok mini0 s /\ ~ idle_blocked s) ack_zero_messages_window (fun _ => rest_ok mini0).
Proof.
  eapply (triple_bind _ _ (fun _ s => rest_ok mini0 s /\ ~ idle_blocked s)).
  - apply triple_mod. intros s [Hs Hi]. destruct (watch s) eqn:Ew; [|done].
    split; [|done]. split; [by eapply rest_watch|done].
  - intros _. apply triple_mod. intros s [(Hc & _ & Hd) Hi]. split; [|done]. split; [exact Hc|]. split; [|exact Hd].
    intros Hx. by destruct Hi.
Qed.

Lemma ack_set_client_window_ok w :
  triple (fun s => rest_ok mini0 s /\ ~ idle_blocked s) (ack_set_client_window w) (fun _ => rest_ok mini0).
Proof.
  apply triple_mod. intros s [(Hc & _ & Hd) Hi]. split; [|done]. split; [exact Hc|]. split; [|exact Hd].
  intros Hx. by destruct Hi.
Qed.

Lemma init_outgoing_messages_window_ok :
  triple (fun s => rest_ok mini0 s /\ ~ idle_blocked s) (init_outgoing_messages_window fuel) (fun _ => rest_ok mini0).
Proof.
  eapply triple_bind; [|intros ?; apply push_ok].
  apply triple_mod. intros s [(Hc & _ & Hd) Hi]. split; [|done]. split; [exact Hc|]. split; [|exact Hd].
  intros Hx. by destruct Hi.
Qed.
End ops.
