(* ===== verification/ChannelClientRecv.v ===== *)
(** * Channel clients: receiving

    The messages passed to [handle_message] are the messages in the bytes the
    client sent, in order, however the socket cuts them. *)

From Stdlib Require Import ZArith Lia.
From stdpp Require Import base list numbers tactics option.
From S2P Require Import Prelude ChannelClient ChannelClientOk ChannelClientOps.

Open Scope Z_scope.

Section recv.
Context {W : Type} {E : RccEnv W} {P : RccProto} {O : RccWorld W} (mini0 : bool).
Context {POK : RccProtoOk P O} {EOK : RccEnvOk E O mini0}.
Context (fuel : nat) (Hfuel : (S max_intr * (2 * Z.to_nat (max_body + 256)) + max_intr < fuel)%nat).
Implicit Types (s : rcc W).

(** ** Specification *)

(** A message in the stream: header and body; and as it is handled. *)
Definition decoded (m : list Z * list Z) (tm : Z * list Z) : Prop :=
  Z.of_nat (length m.1) = header_size mini0 /\ Z.of_nat (length m.2) = dec_size mini0 m.1 /\
  tm.1 = dec_type mini0 m.1 /\ parse tm.1 m.2 = Some tm.2.

Definition message_stream (ms : list (list Z * list Z)) : list Z := concat ((fun m => m.1 ++ m.2) <$> ms).

(** The bytes not handled yet: in the buffers, then in the socket. *)
Definition stream_of s : list Z :=
  take (Z.to_nat (header_pos s)) (header_buf s) ++ take (Z.to_nat (msg_pos s)) (default [] (in_msg s)) ++
  avail (env s).

(** From [s] to [s'], [ms] were taken off the stream and handled; a client that
    is still there has nothing to read, or has reading blocked. *)
Definition received s s' : Prop :=
  exists ms tms rest, handled s' = handled s ++ tms /\ Forall2 decoded ms tms /\
    stream_of s = message_stream ms ++ rest /\
    (connected s' = true -> rest = stream_of s' /\ (avail (env s') = [] \/ blocked_read s' = true)).

(** The only way to stop: the client sends a flush mark that is not expected. *)
Definition stop (k : option ub_kind) s : Prop :=
  k = None /\ exists m, list.last (handled s) = Some (SPICE_MSGC_MIGRATE_FLUSH_MARK, m).

(** ** Reading *)

Lemma length_stored pos bs buf :
  0 <= pos -> pos + Z.of_nat (length bs) <= Z.of_nat (length buf) -> length (store pos bs buf) = length buf.
Proof. intros Hp Hl. unfold store. rewrite !length_app, length_take, length_drop. lia. Qed.

Lemma take_stored pos bs buf :
  0 <= pos -> pos + Z.of_nat (length bs) <= Z.of_nat (length buf) ->
  take (Z.to_nat (pos + Z.of_nat (length bs))) (store pos bs buf) = take (Z.to_nat pos) buf ++ bs.
Proof.
  intros Hp Hl. unfold store. rewrite app_assoc, take_app_le by (rewrite length_app, length_take; lia).
  apply take_ge. rewrite length_app, length_take. lia.
Qed.

(** What [red_peer_receive] does to the socket. *)
Definition took (size : Z) (new : list Z) (w w' : W) : Prop :=
  avail w = new ++ avail w' /\ Z.of_nat (length new) <= size /\
  (Z.of_nat (length new) < size -> avail w' = []).

Lemma red_peer_receive_ok n size acc s EE :
  0 <= size < 2 ^ 32 -> (S max_intr * length (avail (env s)) + read_intr (env s) < n)%nat ->
  wp (red_peer_receive n size acc)
    (fun r s' => exists w', s' = set_env w' s /\ (length (avail w') <= length (avail (env s)))%nat /\
       match r with
       | None => True
       | Some bs => exists new, bs = acc ++ new /\ took size new (env s) w'
       end) EE s.
Proof.
  revert size acc s. induction n as [|n IH]; intros size acc s Hsize Hn; [lia|]. cbn [red_peer_receive].
  assert (set_env (env s) s = s) as Hs by (by destruct s).
  destruct (Z.eqb_spec size 0) as [->|Hz].
  { exists (env s). split; [done|]. split; [lia|]. exists []. rewrite app_nil_r.
    split; [done|]. split; [done|]. by split; [|intros Hx; cbn in Hx]. }
  apply wp_getS. case_bool_decide as Hwatch.
  { exists (env s). split; [done|]. split; [lia|]. done. }
  apply wp_bind, wp_getS. destruct (stream_read size (env s)) as [r w'] eqn:Er. apply wp_modS, wp_ret.
  pose proof (read_le size (env s)) as Hle. rewrite Er in Hle. cbn [snd] in Hle.
  destruct r as [bs| | | |].
  - apply read_ok in Er as (Hne & Hlen & Ha); [|lia].
    assert (1 <= length bs)%nat by (destruct bs; [done|cbn; lia]). 
    rewrite u32_id by lia. rewrite Ha, length_app in Hn.
    eapply wp_conseq; [apply IH; [lia|]|].
    + cbn. pose proof (read_intr_max w'). nia.
    + cbn beta. intros r s' (w'' & -> & Hle' & Hr). exists w''. split; [done|]. cbn in Hle'. split; [lia|].
      destruct r as [bs'|]; [|done].
      destruct Hr as (new & -> & Ha' & Hl' & Hx). cbn in Ha'. exists (bs ++ new).
      split; [by rewrite app_assoc|]. unfold took. rewrite Ha, Ha', app_assoc. split; [done|]. rewrite length_app.
      split; [lia|]. intros. apply Hx. lia.
  - exists w'. done.
  - apply read_again in Er as [Ha Ha']; [|lia]. exists w'. split; [done|]. split; [done|].
    exists []. rewrite app_nil_r. split; [done|]. unfold took. rewrite Ha, Ha'. split; [done|]. by split; [cbn; lia|].
  - apply read_intr_ok in Er as [Ha Hi]. eapply wp_conseq; [apply IH; [done|cbn; rewrite Ha; lia]|].
    cbn beta. intros r s' (w'' & -> & Hle' & Hr). exists w''. split; [done|]. split; [cbn in Hle'; lia|].
    destruct r; [|done]. destruct Hr as (new & -> & Ht). exists new. split; [done|].
    unfold took in *. cbn in Ht. by rewrite Ha in Ht.
  - exists w'. done.
Qed.

(** [handle_incoming] returned without another message. *)
Definition stopped s s' : Prop :=
  rcc_ok mini0 fuel s' /\ handled s' = handled s /\
  (connected s' = true -> stream_of s = stream_of s' /\ (avail (env s') = [] \/ blocked_read s' = true)).

Lemma disconnect_stop s s1 EE :
  rest_ok mini0 s1 -> during_send s1 = false -> read_fuel fuel s1 -> handled s1 = handled s ->
  wp disconnect (fun _ s' => stopped s s') EE s1.
Proof.
  intros Hr Hd Hf Hh. eapply wp_conseq; [apply (disconnect_ok mini0); by apply rest_flowing|].
  intros ? s' [[Hr' Hk] Hi]. injection Hi as _ _ _ _ Hh' Hd' Ha.
  split; [|split; [congruence|by rewrite Hk]]. split; [done|]. split; [by rewrite Hk|]. split; [congruence|].
  unfold read_fuel in *. by rewrite Ha.
Qed.

(** [data_read] *)
Definition note_read s : rcc W := if bool_decide (is_Some (cm_timer s)) then set_received_bytes true s else s.

Lemma note_read_cases s (Q : rcc W -> Prop) :
  (~ is_Some (cm_timer s) -> Q s) -> Q (set_received_bytes true s) -> Q (note_read s).
Proof. intros H1 H2. unfold note_read. case_bool_decide; auto. Qed.

Lemma note_read_rest s : rest_ok mini0 s -> rest_ok mini0 (note_read s) /\ heard (note_read s).
Proof.
  intros Hs. apply note_read_cases; [by intros Hn; split; [|intros Hx]|]. split; [|done].
  destruct Hs as ((H1 & H2 & H3 & H4 & H5) & Hb & Hd). split; [|split; [|exact Hd]].
  - do 3 (split; [done|]). split; [|exact H5]. by intros ? ? ?.
  - by intros (_ & _ & ? & _).
Qed.

(** The loop of [handle_incoming] starts. *)
Definition ready s : Prop :=
  rest_ok mini0 s /\ in_ok mini0 s /\ during_send s = false /\ read_fuel fuel s.

(** The header is there: it has just come, or the body is incomplete. *)
Definition hdr_done (n0 : nat) s : Prop :=
  rest_ok mini0 s /\ during_send s = false /\ read_fuel fuel s /\
  header_pos s = header_size mini0 /\ Z.of_nat (length (header_buf s)) = header_size mini0 /\
  (heard s /\ (length (avail (env s)) < n0)%nat /\ msg_pos s = 0 /\ in_msg s = None \/
   (length (avail (env s)) <= n0)%nat /\ 0 <= msg_pos s < dec_size mini0 (header_buf s) /\
   match in_msg s with
   | None => msg_pos s = 0
   | Some buf => dec_size mini0 (header_buf s) <= Z.of_nat (length buf)
   end).

Lemma read_fuel_receive s : read_fuel fuel s -> (S max_intr * length (avail (env s)) + read_intr (env s) < fuel)%nat.
Proof. unfold read_fuel. pose proof (read_intr_max (env s)). nia. Qed.

Lemma read_fuel_le s s' : read_fuel fuel s -> (length (avail (env s')) <= length (avail (env s)))%nat -> read_fuel fuel s'.
Proof. unfold read_fuel. nia. Qed.

Lemma read_header_ok s EE :
  ready s ->
  wp (read_header fuel)
    (fun ok s' => if (ok : bool)
       then hdr_done (length (avail (env s))) s' /\ stream_of s = stream_of s' /\ handled s' = handled s
       else stopped s s') EE s.
Proof.
  intros (Hr & (Hb & Hp & Hlt & Heq) & Hd & Hf). apply wp_getS.
  assert (mini s = mini0) as -> by (by destruct Hr as ((_ & ? & _) & _)). pose proof (header_size_ok mini0) as Hhs.
  destruct (Z.ltb_spec (header_pos s) (header_size mini0)) as [Hl|Hl]; cbn [negb].
  2:{ destruct Heq as [Hm Hi]; [lia|]. split; [|done]. do 3 (split; [done|]). split; [lia|]. split; [done|]. by right. }
  destruct (Hlt Hl) as [Hm Hi]. apply wp_bind.
  eapply wp_conseq; [apply red_peer_receive_ok; [lia|by apply read_fuel_receive]|].
  cbn beta. intros r s' (w' & -> & Hle & Hnew). destruct r as [bs|].
  2:{ apply wp_bind. eapply wp_conseq; [apply (disconnect_stop s); [exact Hr|exact Hd|by eapply read_fuel_le|done]|].
      intros ? s' Hs'. exact Hs'. }
  destruct Hnew as (new & -> & Ha & Hlen & Hx). rewrite app_nil_l.
  apply wp_modS, wp_modS, wp_getS, wp_ret. fold (note_read (set_env w' s)).
  set (s1 := note_read (set_env w' s)).
  assert (rest_ok mini0 s1 /\ heard s1) as [Hr1 Hh1] by (apply note_read_rest; exact Hr).
  assert (header_pos s1 = header_pos s /\ header_buf s1 = header_buf s /\ mini s1 = mini0 /\ in_msg s1 = in_msg s /\
    msg_pos s1 = msg_pos s /\ during_send s1 = during_send s /\ handled s1 = handled s /\ env s1 = w')
    as (E1 & E2 & E3 & E4 & E5 & E6 & E7 & E8)
    by (destruct Hr as ((_ & <- & _) & _); by apply note_read_cases).
  clearbody s1. rewrite E1, E2, u32_id by lia.
  set (s2 := set_header_pos _ _).
  assert (take (Z.to_nat (header_pos s2)) (header_buf s2) = take (Z.to_nat (header_pos s)) (header_buf s) ++ new) as Ht.
  { apply take_stored; lia. }
  assert (Z.of_nat (length (header_buf s2)) = header_size mini0) as Hb2.
  { change (header_buf s2) with (store (header_pos s) new (header_buf s)). rewrite length_stored; lia. }
  assert (stream_of s = stream_of s2) as Hst.
  { unfold stream_of. rewrite Ht. change (msg_pos s2) with (msg_pos s1). change (in_msg s2) with (in_msg s1).
    change (env s2) with (env s1). rewrite E4, E5, E8, Hm, Hi, Ha. cbn. by rewrite <- app_assoc. }
  assert (read_fuel fuel s2) as Hf2 by (eapply read_fuel_le; [done|cbn; rewrite E8; lia]).
  assert (header_pos s2 = header_pos s + Z.of_nat (length new)) as Hp2 by done.
  change (mini s2) with (mini s1). rewrite E3.
  destruct (Z.eqb_spec (header_pos s2) (header_size mini0)) as [Hq|Hq].
  - split; [|split; [done|exact E7]]. split; [exact Hr1|]. split; [cbn; congruence|]. do 3 (split; [done|]). left.
    split; [exact Hh1|]. split; [|cbn; by rewrite E4, E5].
    cbn. rewrite E8. apply (f_equal length) in Ha. rewrite length_app in Ha. lia.
  - split; [|split; [exact E7|]].
    + split; [exact Hr1|]. split; [|split; [cbn; congruence|done]]. intros _. split; [done|]. split; [lia|].
      split; [|lia]. intros _. cbn. by rewrite E4, E5.
    + intros _. split; [done|]. left. cbn. rewrite E8. apply Hx. lia.
Qed.

(** The message is there. *)
Definition body_done (n0 : nat) (hb : list Z) s : Prop :=
  rest_ok mini0 s /\ heard s /\ during_send s = false /\ read_fuel fuel s /\
  header_pos s = header_size mini0 /\ header_buf s = hb /\ Z.of_nat (length hb) = header_size mini0 /\
  msg_pos s = dec_size mini0 hb /\ Z.of_nat (length (message_bytes (dec_size mini0 hb) s)) = dec_size mini0 hb /\
  (in_msg s = None -> dec_size mini0 hb = 0) /\ (length (avail (env s)) < n0)%nat.

(** The body is read into a buffer that is large enough. *)
Lemma read_into_ok n0 s0 s buf EE :
  hdr_done n0 s -> in_msg s = Some buf -> msg_pos s < dec_size mini0 (header_buf s) ->
  dec_size mini0 (header_buf s) <= Z.of_nat (length buf) ->
  stream_of s0 = stream_of s -> handled s = handled s0 ->
  wp (r ← red_peer_receive fuel (u32 (dec_size mini0 (header_buf s) - msg_pos s)) [];
      match r with
      | None => modS (set_in_msg None);; disconnect;; mret false
      | Some bs =>
          data_read (Z.of_nat (length bs));;
          modS (fun s => set_msg_pos (u32 (msg_pos s + Z.of_nat (length bs)))
                           (set_in_msg (store (msg_pos s) bs <$> in_msg s) s));;
          s' ← getS;
          mret (msg_pos s' =? dec_size mini0 (header_buf s))
      end)
    (fun ok s' => if (ok : bool)
       then body_done n0 (header_buf s) s' /\ stream_of s0 = stream_of s' /\ handled s' = handled s0
       else stopped s0 s') EE s.
Proof.
  intros (Hr & Hd & Hf & Hp & Hb & Hor) Hi Hlt Hbuf Hst0 Hh0. pose proof (dec_size_range mini0 (header_buf s)) as Hds.
  assert (0 <= msg_pos s /\ (length (avail (env s)) <= n0)%nat) as [Hm0 Hn0]
    by (destruct Hor as [(_ & ? & ? & ?)|(? & ? & _)]; lia).
  rewrite u32_id by lia. apply wp_bind.
  eapply wp_conseq; [apply red_peer_receive_ok; [lia|by apply read_fuel_receive]|].
  cbn beta. intros r s' (w' & -> & Hle & Hnew). destruct r as [bs|].
  2:{ apply wp_modS, wp_bind. eapply wp_conseq; [apply (disconnect_stop s0); [exact Hr|exact Hd|by eapply read_fuel_le|done]|].
      intros ? s' Hs'. exact Hs'. }
  destruct Hnew as (new & -> & Ha & Hlen & Hx). rewrite app_nil_l.
  apply wp_modS, wp_modS, wp_getS, wp_ret. fold (note_read (set_env w' s)).
  set (s1 := note_read (set_env w' s)).
  assert (rest_ok mini0 s1 /\ heard s1) as [Hr1 Hh1] by (apply note_read_rest; exact Hr).
  assert (header_pos s1 = header_pos s /\ header_buf s1 = header_buf s /\ in_msg s1 = in_msg s /\
    msg_pos s1 = msg_pos s /\ during_send s1 = during_send s /\ handled s1 = handled s /\ env s1 = w')
    as (E1 & E2 & E4 & E5 & E6 & E7 & E8) by (by apply note_read_cases).
  clearbody s1. rewrite E4, E5, Hi, u32_id by lia. cbn [fmap option_fmap option_map].
  set (s2 := set_msg_pos _ _).
  assert (take (Z.to_nat (msg_pos s2)) (default [] (in_msg s2)) = take (Z.to_nat (msg_pos s)) buf ++ new) as Ht.
  { apply take_stored; lia. }
  assert (in_msg s2 = Some (store (msg_pos s) new buf)) as Hi2 by done.
  assert (length (store (msg_pos s) new buf) = length buf) as Hl2 by (apply length_stored; lia).
  assert (stream_of s = stream_of s2) as Hst.
  { unfold stream_of. rewrite Ht. change (header_pos s2) with (header_pos s1). change (header_buf s2) with (header_buf s1).
    change (env s2) with (env s1). rewrite E1, E2, E8, Ha, Hi. cbn. by rewrite <- !app_assoc. }
  assert (read_fuel fuel s2) as Hf2 by (eapply read_fuel_le; [done|cbn; rewrite E8; lia]).
  assert (msg_pos s2 = msg_pos s + Z.of_nat (length new)) as Hp2 by done.
  destruct (Z.eqb_spec (msg_pos s2) (dec_size mini0 (header_buf s))) as [Hq|Hq].
  - split; [|split; [congruence|cbn; congruence]]. split; [exact Hr1|]. split; [exact Hh1|]. split; [cbn; congruence|].
    split; [done|]. split; [cbn; congruence|]. split; [exact E2|]. do 2 (split; [done|]). split; [|split].
    + unfold message_bytes. rewrite Hi2. cbn. rewrite length_take, Hl2. lia.
    + by rewrite Hi2.
    + cbn. rewrite E8. apply (f_equal length) in Ha. rewrite length_app in Ha. lia.
  - split; [|split; [cbn; congruence|]].
    + split; [exact Hr1|]. split; [|split; [cbn; congruence|done]]. intros _.
      split; [cbn; by rewrite E2|]. split; [cbn; lia|]. split; [cbn; lia|]. intros _.
      change (header_buf s2) with (header_buf s1). rewrite E2, Hi2, Hl2. lia.
    + intros _. split; [congruence|]. left. cbn. rewrite E8. apply Hx. lia.
Qed.

Lemma read_body_ok n0 s EE :
  hdr_done n0 s ->
  wp (read_body fuel (dec_type mini0 (header_buf s)) (dec_size mini0 (header_buf s)))
    (fun ok s' => if (ok : bool)
       then body_done n0 (header_buf s) s' /\ stream_of s = stream_of s' /\ handled s' = handled s
       else stopped s s') EE s.
Proof.
  intros Hdone. pose proof Hdone as (Hr & Hd & Hf & Hp & Hb & Hor). apply wp_getS.
  pose proof (dec_size_range mini0 (header_buf s)) as Hds.
  destruct (Z.ltb_spec (msg_pos s) (dec_size mini0 (header_buf s))) as [Hl|Hl]; cbn [negb].
  2:{ destruct Hor as [(Hh & Hn & Hm & Hi)|(_ & Hm & _)]; [|lia].
      assert (dec_size mini0 (header_buf s) = 0) as Hz by lia. split; [|done].
      do 7 (split; [done|]). rewrite Hz. split; [done|]. split; [|done]. unfold message_bytes. done. }
  apply wp_bind. destruct (in_msg s) as [buf|] eqn:Ei.
  - apply wp_ret, wp_getS. rewrite Ei. destruct Hor as [(_ & _ & _ & ?)|(Hn & Hm & Hbuf)]; [done|].
    destruct (Z.ltb_spec (Z.of_nat (length buf)) (dec_size mini0 (header_buf s))); [lia|].
    by apply (read_into_ok n0 s s buf).
  - assert (msg_pos s = 0 /\ (length (avail (env s)) <= n0)%nat) as [Hm Hn]
      by (destruct Hor as [(_ & ? & ? & _)|(? & _ & ?)]; split; [done|lia|done|done]).
    apply wp_bind, wp_getS. destruct (alloc_recv_buf _ _ _) as [b w'] eqn:Ea. apply wp_modS, wp_ret, wp_getS.
    assert (avail w' = avail (env s)) as Haw.
    { pose proof (avail_alloc (dec_type mini0 (header_buf s)) (dec_size mini0 (header_buf s)) (env s)) as Hx.
      by rewrite Ea in Hx. }
    assert (read_fuel fuel (set_env w' s)) as Hf' by (eapply read_fuel_le; [done|cbn; rewrite Haw; lia]).
    destruct b as [buf|].
    + apply alloc_ok in Ea. apply wp_modS, wp_ret, wp_getS. cbn [in_msg set_in_msg].
      destruct (Z.ltb_spec (Z.of_nat (length buf)) (dec_size mini0 (header_buf s))); [lia|].
      apply (read_into_ok n0 s (set_in_msg (Some buf) (set_env w' s)) buf); [|done..| |done].
      * split; [exact Hr|]. do 4 (split; [done|]). right. cbn. rewrite Haw. split; [lia|]. split; [lia|done].
      * unfold stream_of. cbn. by rewrite Ei, Hm, Haw.
    + change (blocked_read (set_env w' s)) with (blocked_read s). destruct (blocked_read s) eqn:Ebr.
      * apply wp_ret, wp_ret. split; [|split; [done|]].
        -- split; [exact Hr|]. split; [|done]. intros _. split; [done|]. split; [cbn; lia|]. split; [cbn; lia|].
           intros _. cbn. rewrite Ei. lia.
        -- intros _. split; [|by right]. unfold stream_of. cbn. by rewrite Haw.
      * apply wp_ret, wp_bind. eapply wp_conseq; [apply (disconnect_stop s); done|]. intros ? s' Hs'. exact Hs'.
Qed.

(** ** Handling *)

Lemma run_rcall_ok c : rcall_ok c -> safe mini0 (run_rcall fuel c).
Proof.
  destruct c; cbn [run_rcall rcall_ok]; intros Hc.
  - by apply push_ok.
  - by apply pipe_add_type_ok.
  - apply new_item_safe; [done|]. intros i. apply pipe_add_tail_ok.
  - apply disconnect_safe.
  - apply shutdown_ok.
  - apply block_read_ok.
  - apply unblock_read_ok.
Qed.

Lemma run_rcalls_ok cs : Forall rcall_ok cs -> safe mini0 (iterM (run_rcall fuel) cs).
Proof.
  induction 1 as [|c cs Hc _ IH]; [apply safe_ret|]. apply safe_bind; [by apply run_rcall_ok|]. by intros _.
Qed.

Lemma handle_message_ok type m s :
  rest_ok mini0 s -> heard s -> list.last (handled s) = Some (type, m) ->
  wp (handle_message fuel type m) (fun _ s' => rest_ok mini0 s' /\ inside s' = inside s) stop s.
Proof.
  intros Hr Hh Hl. unfold handle_message.
  repeat match goal with |- wp (if ?x =? ?y then _ else _) _ _ _ => destruct (Z.eqb_spec x y) as [->|_] end.
  - done.
  - apply wp_getS, wp_bind. eapply wp_conseq; [|intros ? s' Hs'; exact Hs'].
    apply (triple_if (fun s1 => rest_ok mini0 s1 /\ heard s1)); [intros _|intros _; by apply triple_ret; intros ? [? _]|done].
    eapply (triple_bind _ _ (fun _ => rest_ok mini0)).
    + apply triple_mod. intros s1 [(Hc & Hb & Hd) Hh1]. split; [|done]. split; [exact Hc|]. split; [|exact Hd].
      intros (Hi & _ & Hx & _). change (received_bytes s1 = false) in Hx. by rewrite (Hh1 Hi) in Hx.
    + intros _. eapply triple_bind; [apply watch_ok|]. intros ?. by apply push_ok.
  - done.
  - apply wp_getS. destruct (wait_migrate_flush_mark s); [done|]. split; [done|]. by exists m.
  - apply wp_bind. eapply wp_conseq; [by apply handle_migrate_data_early_ok|]. by intros ? s' ?.
  - apply wp_bind. eapply wp_conseq; [by apply handle_pong_ok|]. by intros ? s' ?.
  - done.
Qed.

Lemma dispatch_message_ok type m s :
  rest_ok mini0 s -> heard s ->
  wp (dispatch_message fuel type m)
    (fun _ s' => rest_ok mini0 s' /\ inside s' = inside (set_handled (handled s ++ [(type, m)]) s)) stop s.
Proof.
  intros Hr Hh. apply wp_modS. set (s1 := set_handled _ s).
  assert (rest_ok mini0 s1) as Hr1 by exact Hr. assert (heard s1) as Hh1 by exact Hh.
  assert (list.last (handled s1) = Some (type, m)) as Hl by apply last_snoc. clearbody s1. clear s Hr Hh.
  apply wp_bind, wp_getS. destruct (handle_derived type m (env s1)) as [r w'] eqn:Er. apply wp_modS, wp_ret.
  assert (inside (set_env w' s1) = inside s1) as <-.
  { unfold inside. cbn. pose proof (avail_derived type m (env s1)) as Ha. rewrite Er in Ha. cbn in Ha. by rewrite Ha. }
  destruct r as [[ok cs]|]; [|by apply (handle_message_ok _ _ (set_env w' s1))].
  assert (safe mini0 (emit (EvHandled type m);; iterM (run_rcall fuel) cs;; mret ok)) as Hsafe.
  { apply safe_bind; [apply emit_ok|]. intros _. apply safe_bind; [|intros _; apply safe_ret].
    eapply run_rcalls_ok, handle_derived_ok, Er. }
  by apply Hsafe.
Qed.

(** The message is off the stream. *)
Lemma body_stream n0 hb s :
  body_done n0 hb s -> stream_of s = hb ++ message_bytes (dec_size mini0 hb) s ++ avail (env s).
Proof.
  intros (_ & _ & _ & _ & Hp & <- & Hl & Hm & _). unfold stream_of, message_bytes.
  rewrite Hp, Hm, (take_ge (header_buf s)) by lia. done.
Qed.

Lemma received_refl s s' : stopped s s' -> received s s'.
Proof.
  intros (_ & Hh & Hs). exists [], [], (stream_of s). rewrite app_nil_r. split; [done|]. split; [constructor|]. split; [done|].
  done.
Qed.

Lemma received_cons s s1 s' hb body tm :
  decoded (hb, body) tm -> stream_of s = hb ++ body ++ stream_of s1 -> handled s1 = handled s ++ [tm] ->
  received s1 s' -> received s s'.
Proof.
  intros Hd Hs Hh (ms & tms & rest & Hh' & Hms & Hst & Hrest). exists ((hb, body) :: ms), (tm :: tms), rest.
  split; [rewrite Hh', Hh, <- app_assoc; done|]. split; [by constructor|]. split; [|done].
  rewrite Hs, Hst. unfold message_stream. cbn. by rewrite <- !app_assoc.
Qed.

(** The buffers are reset after a message. *)
Lemma reset_ready n0 hb s s' tms :
  body_done n0 hb s -> rest_ok mini0 s' -> inside s' = inside (set_handled tms s) ->
  let s2 := set_header_pos 0 (set_in_msg None (set_msg_pos 0 s')) in
  ready s2 /\ stream_of s2 = avail (env s) /\ handled s2 = tms.
Proof.
  intros (Hr & _ & Hd & Hf & Hp & <- & Hl & _) Hr' Hi s2. unfold inside in Hi. cbn in Hi.
  injection Hi as Hi1 _ _ _ Hi2 Hi3 Hi4. split; [|split].
  - split; [exact Hr'|]. split; [|split; [by rewrite <- Hd|by eapply read_fuel_le; [done|cbn; rewrite Hi4]]].
    pose proof (header_size_ok mini0). split; [cbn; by rewrite Hi1|]. split; [cbn; lia|]. split; [done|cbn; lia].
  - unfold stream_of. cbn. by rewrite take_0.
  - done.
Qed.

Lemma handle_incoming_ok n s :
  ready s -> (length (avail (env s)) < n)%nat ->
  wp (handle_incoming fuel n) (fun _ s' => rcc_ok mini0 fuel s' /\ received s s') stop s.
Proof.
  revert s. induction n as [|n IH]; intros s Hs Hn; [lia|]. cbn [handle_incoming]. apply wp_getS.
  assert (has_stream s = true) as -> by (by destruct Hs as (((? & _) & _) & _)). cbn [negb]. apply wp_bind.
  eapply wp_conseq; [by apply read_header_ok|]. cbn beta. intros ok s1 H1.
  destruct ok; cbn [negb]; [|split; [by apply H1|by apply received_refl]].
  destruct H1 as (Hd1 & Hst1 & Hh1). apply wp_getS.
  assert (mini s1 = mini0) as -> by (by destruct Hd1 as (((_ & ? & _) & _) & _)). apply wp_bind.
  eapply wp_conseq; [by eapply read_body_ok|]. cbn beta. intros ok s2 H2.
  destruct ok; cbn [negb]; [|split; [by apply H2|]].
  2:{ apply received_refl. destruct H2 as (? & Hx & Hy). split; [done|]. rewrite Hst1, <- Hh1. by split. }
  destruct H2 as (Hd2 & Hst2 & Hh2). set (hb := header_buf s1) in *. clearbody hb.
  pose proof Hd2 as (Hr & Hheard & Hds & Hf & Hp & Hhb & Hl & Hm & Hlen & Hnone & Hn2).
  apply wp_bind, wp_getS.
  assert (bool_decide (in_msg s2 = None) && (0 <? dec_size mini0 hb) = false) as ->.
  { case_bool_decide as Hx; [|done]. rewrite Hnone by done. done. }
  apply wp_ret. destruct (parse _ _) as [m|] eqn:Epar.
  2:{ apply wp_modS. eapply wp_conseq; [apply (disconnect_stop s); [exact Hr|exact Hds|exact Hf|cbn; congruence]|].
      cbn beta. intros ? s' Hs'. split; [by apply Hs'|by apply received_refl]. }
  apply wp_bind. eapply wp_conseq; [by apply dispatch_message_ok|]. cbn beta. intros ret s3 [Hr3 Hi3].
  destruct (reset_ready _ _ _ _ _ Hd2 Hr3 Hi3) as (Hready & Hst4 & Hh4). apply wp_modS.
  assert (inside s3 = inside (set_handled (handled s2 ++ [(dec_type mini0 hb, m)]) s2)) as Hin by exact Hi3.
  injection Hin as _ _ _ _ _ _ Hav. set (s4 := set_header_pos 0 _) in *.
  assert (length (avail (env s4)) < n)%nat as Hn4 by (cbn; rewrite Hav; cbn; lia).
  assert (forall s', received s4 s' -> received s s') as Hrec.
  { intros s'. eapply received_cons with (tm := (dec_type mini0 hb, m)) (hb := hb);
      [|rewrite Hst1, Hst2, Hst4; by eapply body_stream|rewrite Hh4; congruence].
    split; [done|]. split; [done|]. by split. }
  clearbody s4. destruct ret; cbn [negb].
  - eapply wp_conseq; [by apply IH|]. cbn beta. intros ? s' [? ?]. auto.
  - destruct Hready as (Hr4 & Hin4 & Hd4 & Hf4).
    eapply wp_conseq; [by apply (disconnect_stop s4)|]. cbn beta. intros ? s' Hs'.
    split; [by apply Hs'|]. by apply Hrec, received_refl.
Qed.

Lemma receive_ok s :
  rcc_ok mini0 fuel s -> connected s = true ->
  wp (receive fuel) (fun _ s' => rcc_ok mini0 fuel s' /\ received s s') stop s.
Proof.
  intros (Hr & Hi & Hd & Hf) Hk. apply handle_incoming_ok; [by split; [|split; [apply Hi|]]|].
  unfold read_fuel in Hf. nia.
Qed.
End recv.
