(* ===== verification/ChannelClientAck.v ===== *)
(** * Channel clients: the acknowledgement window

    [messages_window] counts the messages sent since the last acknowledgement.
    The urgent message in the socket stands for the main one that follows it:
    the sum of both is what a send can add. *)

From Stdlib Require Import ZArith Lia.
From stdpp Require Import base list numbers tactics option.
From S2P Require Import Prelude ChannelClient ChannelClientOk ChannelClientOps.

Open Scope Z_scope.

Section ack.
Context {W : Type} {E : RccEnv W} {P : RccProto} {O : RccWorld W} (mini0 : bool).
Context {POK : RccProtoOk P O} {EOK : RccEnvOk E O mini0}.
Implicit Types (s : rcc W).

Definition owed s : Z := messages_window s + match cur_m s with Urgent => 1 | Main => 0 end.

(** At most [n] messages are owed, the window is [c]. *)
Definition credit (n c : Z) s : Prop := 0 <= messages_window s /\ owed s <= n /\ client_window s = c.
Abbreviation keeps_credit n c := (keeps (credit n c) (fun _ => True)).

Lemma credit_le n n' c s : credit n c s -> n <= n' -> credit n' c s.
Proof. intros (? & ? & ?) Hn. split; [done|]. split; [lia|done]. Qed.

Lemma ask_credit {A} (f : W -> A * W) n c : keeps_credit n c (ask f).
Proof. intros s Hs. unfold ask, wp, bindM, getS, modS. by destruct (f (env s)). Qed.

Lemma getS_credit n c : keeps_credit n c (getS (S := rcc W)).
Proof. by intros s Hs. Qed.

Ltac walk_credit :=
  repeat first
    [ assumption | apply keeps_ret | apply keeps_abort; exact I | apply keeps_undef; exact I | apply keeps_assert; exact I
    | apply ask_credit | apply getS_credit
    | apply keeps_bind; [|intros ?]
    | apply keeps_mod; intros ? Hle; unfold set_m; repeat case_match; exact Hle
    | case_match ].

Lemma set_header_credit f n c : keeps_credit n c (set_header f).
Proof. unfold set_header. walk_credit. Qed.

Lemma disconnect_credit n c : keeps_credit n c (disconnect (W := W)).
Proof. unfold disconnect, pipe_clear, clear_sent_item, shutdown, emit. walk_credit. Qed.

(** One message more. *)
Lemma begin_credit send n c s :
  keeps_credit (n + 1) c send -> credit n c s ->
  wp (begin_send_message_with send) (fun _ => credit (n + 1) c) (fun _ _ => True) s.
Proof.
  intros Hsend Hs. pose proof set_header_credit as Hsh.
  assert (forall (Q : unit -> rcc W -> Prop) s1, credit n c s1 -> (forall s2, credit (n + 1) c s2 -> Q tt s2) ->
    Q tt (set_messages_window (u32 (messages_window s1 + 1)) s1)) as Hstep.
  { intros Q s1 (H1 & H2 & H3) HQ. apply HQ. unfold credit, owed in *.
    cbn [messages_window set_messages_window cur_m client_window].
    pose proof (u32_range (messages_window s1 + 1)).
    assert (u32 (messages_window s1 + 1) <= messages_window s1 + 1) by (apply Z.mod_le; lia).
    split; [lia|]. split; [|done]. destruct (cur_m s1); lia. }
  unfold begin_send_message_with. apply wp_bind. eapply wp_conseq.
  { assert (keeps_credit n c (get_header (W := W))) as Hg by (unfold get_header; walk_credit). by apply Hg. }
  intros h s1 Hs1. case_if; [by apply (credit_le n); [|lia]|]. apply wp_bind. eapply wp_conseq.
  { assert (keeps_credit n c (cancel_ping_timer (W := W))) as Hg by (unfold cancel_ping_timer; walk_credit). by apply Hg. }
  intros ? s2 Hs2. apply wp_modS, wp_getS, wp_bind. eapply wp_conseq; [by apply (Hsh _ n c)|].
  intros ? s3 Hs3. apply wp_modS, wp_getS, wp_bind. eapply wp_conseq.
  { assert (forall z, keeps_credit n c (set_msg_serial (W := W) z)) as Hg
      by (intros z; unfold set_msg_serial; walk_credit; apply Hsh). by apply Hg. }
  intros ? s4 Hs4. cbn beta. apply wp_modS. apply (Hstep (fun _ s5 => wp _ _ _ s5)); [done|].
  intros s5 Hs5. apply wp_modS, wp_modS. by apply Hsend.
Qed.

Lemma msg_sent_credit send n c : keeps_credit n c send -> keeps_credit n c (msg_sent_with send).
Proof.
  intros Hsend. pose proof (disconnect_credit n c). unfold msg_sent_with. apply keeps_bind; [apply ask_credit|].
  intros ok. case_match; [done|]. apply keeps_bind; [unfold clear_sent_item; walk_credit|]. intros _ s Hs.
  apply wp_getS. unfold urgent_marshaller_is_active. case_bool_decide as Hu.
  - apply wp_modS, wp_getS, wp_bind, wp_assert; [|done]. intros _.
    replace n with (n - 1 + 1) in Hsend |- * by lia. apply begin_credit; [done|].
    destruct Hs as (H1 & H2 & H3). unfold credit, owed in *. rewrite Hu in H2. cbn. split; [done|]. split; [lia|done].
  - revert s Hs Hu. assert (keeps_credit n c (restart_ping_timer (W := W))) as Hr
      by (unfold restart_ping_timer, start_ping_timer; walk_credit).
    intros s Hs _. case_bool_decide; [by apply Hr|done].
Qed.

Lemma handle_outgoing_credit k n c : keeps_credit n c (handle_outgoing (W := W) k).
Proof.
  induction k as [|k IH]; [by apply keeps_undef|]. pose proof (msg_sent_credit _ n c IH). pose proof (disconnect_credit n c).
  cbn [handle_outgoing]. unfold data_sent. walk_credit.
Qed.

(** One item: at most two messages more. *)
Lemma run_send_cmds_credit fuel cs n c s :
  send_shape mini0 max_body cs -> credit n c s ->
  wp (iterM (run_send_cmd fuel) cs) (fun _ => credit (n + 2) c) (fun _ _ => True) s.
Proof.
  intros Hcs Hs. pose proof set_header_credit as Hsh.
  assert (forall t n, keeps_credit n c (init_send_data (W := W) t)) as Hinit
    by (intros t n'; unfold init_send_data, set_msg_type; walk_credit; apply Hsh).
  assert (forall cs n, Forall (body_cmd mini0) cs -> keeps_credit n c (iterM (run_send_cmd fuel) cs)) as Hbody.
  { intros cs' n' Hb. induction Hb as [|d ds Hd _ IH]; [apply keeps_ret|]. apply keeps_bind; [|by intros _].
    destruct d; try done; unfold run_send_cmd, marshall, set_header_sub_list, set_msg_sub_list; walk_credit; apply Hsh. }
  assert (forall n s, credit n c s -> wp (iterM (run_send_cmd fuel) [CBegin]) (fun _ => credit (n + 1) c) (fun _ _ => True) s) as Hbeg.
  { intros n' s' Hs'. apply wp_bind. eapply wp_conseq; [apply begin_credit; [apply handle_outgoing_credit|done]|]. done. }
  assert (forall t cs' n s rest (Q : unit -> rcc W -> Prop), message_cmds mini0 max_body t cs' -> credit n c s ->
    (forall s', credit n c s' -> wp (iterM (run_send_cmd fuel) rest) Q (fun _ _ => True) s') ->
    wp (iterM (run_send_cmd fuel) (CInit t :: cs' ++ rest)) Q (fun _ _ => True) s) as Hmsg.
  { intros t cs' n' s' rest Q (_ & Hb & _) Hs' HQ. apply wp_bind. eapply wp_conseq; [by apply (Hinit _ n')|].
    intros ? s1 Hs1. apply wp_iter_app. eapply wp_conseq; [by apply (Hbody _ n')|].
    intros ? s2 Hs2. by apply HQ. }
  destruct Hcs as [|t cs Hcs|t cs t' cs' _ Hcs Hcs'].
  - apply (credit_le n); [done|lia].
  - eapply Hmsg; [done..|]. intros s' Hs'. eapply wp_conseq; [by apply Hbeg|]. intros ? s'' Hs''.
    apply (credit_le (n + 1)); [done|lia].
  - eapply Hmsg; [done..|]. intros s' Hs'. apply wp_bind. eapply (wp_conseq _ (fun _ => credit (n + 1) c)).
    + apply wp_getS, wp_bind, wp_assert; [intros _|done]. apply wp_bind, wp_assert; [intros _|done].
      apply wp_modS. assert (keeps_credit (n + 1) c (reset_send_data (W := W))) as Hr
        by (unfold reset_send_data, set_msg_type, set_msg_size, set_msg_sub_list; walk_credit; apply Hsh).
      apply Hr. destruct Hs' as (H1 & H2 & H3). split; [done|]. split; [|done]. unfold owed in *. cbn.
      destruct (cur_m s'); lia.
    + intros ? s1 Hs1. eapply Hmsg; [done..|]. intros s2 Hs2. replace (n + 2) with (n + 1 + 1) by lia. by apply Hbeg.
Qed.

Lemma begin_credit_le fuel n n' c s :
  credit n c s -> n + 1 <= n' -> wp (begin_send_message fuel) (fun _ => credit n' c) (fun _ _ => True) s.
Proof.
  intros Hs Hn. eapply wp_conseq; [apply begin_credit; [apply handle_outgoing_credit|done]|].
  intros ? s' Hs'. by apply (credit_le _ _ _ _ Hs').
Qed.

Lemma send_any_item_credit fuel i n c s :
  0 <= n -> credit n c s -> wp (send_any_item fuel i) (fun _ => credit (n + 2) c) (fun _ _ => True) s.
Proof.
  intros Hn Hs. pose proof set_header_credit as Hsh.
  assert (forall t n, keeps_credit n c (init_send_data (W := W) t)) as Hinit
    by (intros t n'; unfold init_send_data, set_msg_type; walk_credit; apply Hsh).
  assert (forall n bs, keeps_credit n c (marshall (W := W) bs)) as Hmar by (intros n' bs; unfold marshall; walk_credit).
  assert (keeps_credit n c (reset_send_data (W := W))) as Hr
    by (unfold reset_send_data, set_msg_type, set_msg_size, set_msg_sub_list; walk_credit; apply Hsh).
  apply wp_getS, wp_bind, wp_assert; [intros _|done].
  apply wp_bind. eapply wp_conseq; [by apply Hr|]. clear s Hs. intros ? s Hs. cbn beta in Hs. destruct (it_kind i).
  - apply wp_bind. eapply wp_conseq; [by apply (Hinit _ n)|]. intros ? s1 Hs1. apply wp_modS, wp_modS, wp_getS, wp_bind.
    eapply wp_conseq; [apply (Hmar (n + 1))|intros ? s2 Hs2; apply (begin_credit_le _ (n + 1)); [done|lia]].
    destruct Hs1 as (H1 & H2 & H3). split; [done|]. split; [|exact H3]. unfold owed. cbn. destruct (cur_m s1); lia.
  - apply wp_bind. eapply wp_conseq; [by apply (Hinit _ n)|]. intros ? s1 Hs1. apply wp_bind.
    eapply wp_conseq; [by apply (Hmar n)|]. intros ? s2 Hs2. apply wp_bind.
    eapply (wp_conseq _ (fun _ => credit n c)); [by case_if|]. intros ? s3 Hs3. apply (begin_credit_le _ n); [done|lia].
  - apply wp_bind. eapply wp_conseq; [by apply (Hinit _ n)|]. intros ? s1 Hs1. apply (begin_credit_le _ n); [done|lia].
  - apply wp_getS, wp_bind. eapply (wp_conseq _ (fun _ => credit n c)).
    { assert (keeps_credit n c (if warmup_was_sent s then mret tt else
        modS (fun s => set_tcp_nodelay true (set_warmup_was_sent true s));;
        match get_no_delay (env s) with
        | None => mret tt
        | Some v => modS (set_tcp_nodelay v);; if v then mret tt else emit (EvNoDelay true)
        end)) as Hp by (unfold emit; walk_credit). by apply Hp. }
    intros ? s1 Hs1. apply wp_bind. eapply wp_conseq; [by apply (Hinit _ n)|]. intros ? s2 Hs2. apply wp_getS, wp_bind.
    eapply wp_conseq; [by apply (Hmar n)|]. intros ? s3 Hs3. apply (begin_credit_le _ n); [done|lia].
  - apply (credit_le n); [done|lia].
  - apply wp_bind, wp_getS. destruct (send_item data (env s)) as [cs w'] eqn:Es. apply wp_modS, wp_ret.
    apply run_send_cmds_credit; [|done]. pose proof (send_item_ok data (env s)) as Hx. by rewrite Es in Hx.
Qed.

(** ** [push] *)

Context (fuel : nat) (Hfuel : (S max_intr * (2 * Z.to_nat (max_body + 256)) + max_intr < fuel)%nat).
Context (Hacks : handle_acks = true).

Lemma waiting_spec c s : client_window s = c -> 0 <= c < 2 ^ 31 -> waiting_for_ack s = (2 * c <? messages_window s).
Proof. intros <- Hc. unfold waiting_for_ack. rewrite Hacks, u32_id by lia. cbn. f_equal. lia. Qed.

(** An item is taken only within the window. *)
Lemma pipe_item_get_credit N c s :
  0 <= c < 2 ^ 31 -> credit N c s ->
  wp pipe_item_get (fun i s' => credit N c s' /\ (is_Some i -> messages_window s' <= 2 * c)) (fun _ _ => True) s.
Proof.
  intros Hc Hs. apply wp_getS. case_if; [by apply wp_ret; split; [|intros [? ?]]|]. zbool.
  destruct (list.last (pipe s)); [|by apply wp_ret; split; [|intros [? ?]]]. split; [exact Hs|]. intros _. cbn.
  destruct Hs as (_ & _ & Hw). match goal with H : waiting_for_ack s = false |- _ => rewrite (waiting_spec c) in H by done end.
  zbool. lia.
Qed.

Lemma push_loop_credit n N c s :
  0 <= c < 2 ^ 31 -> 2 * c + 2 <= N -> rest_ok mini0 s -> credit N c s -> (length (pipe s) < n)%nat ->
  wp (push_loop fuel n) (fun _ => credit N c) (fun _ _ => True) s.
Proof.
  intros Hc HN. revert s. induction n as [|n IH]; intros s Hr Hs Hn; [lia|]. cbn [push_loop]. apply wp_bind.
  eapply wp_conseq; [apply wp_and; [by apply (pipe_item_get_ok mini0 fuel Hfuel n s (fun _ _ => True))|by apply (pipe_item_get_credit N c)]|].
  cbn beta. intros [i|] s1 [[H1 _] [H2 H3]]; [|exact H2]. destruct H1 as (Hi & Hidle & Hn1). apply wp_bind.
  eapply wp_conseq; [apply wp_and; [apply wp_and|]|].
  - by apply (send_any_item_ok mini0 fuel Hfuel i Hi s1 (fun _ _ => True)).
  - apply (send_any_item_pipe fuel i (length (pipe s1)) true). by split; [lia|].
  - apply (send_any_item_credit fuel i (2 * c) c); [lia|]. destruct H2 as (? & ? & ?). split; [done|]. split; [|done].
    unfold owed. destruct Hidle as (_ & _ & _ & ->). specialize (H3 ltac:(by eexists)). lia.
  - cbn beta. intros ? s2 [[[Hr2 _] [Hle _]] Hc2]. apply IH; [done| |lia]. by eapply credit_le.
Qed.

Lemma push_credit N c s :
  0 <= c < 2 ^ 31 -> 2 * c + 2 <= N -> rest_ok mini0 s -> credit N c s ->
  wp (push fuel) (fun _ => credit N c) (fun _ _ => True) s.
Proof.
  intros Hc HN Hr Hs. apply wp_getS. case_if; [done|]. apply wp_modS. set (s1 := set_during_send true s).
  assert (rest_ok mini0 s1) as Hr1 by exact Hr. assert (credit N c s1) as Hs1 by exact Hs.
  change (blocked s) with (blocked s1). clearbody s1. apply wp_bind.
  eapply wp_conseq; [apply wp_and; [by apply (push_blocked_ok mini0 fuel Hfuel s1 s1 (fun _ _ => True))|]|].
  { instantiate (1 := fun _ => credit N c). case_if; [by apply handle_outgoing_credit|done]. }
  cbn beta. intros ? s2 [[Hr2 _] Hs2]. apply wp_getS. rewrite (waiting_is_blocked mini0) by done. apply wp_bind, wp_ret, wp_bind.
  eapply wp_conseq; [apply (push_loop_credit _ N c); [done..|lia]|]. intros ? s3 Hs3. apply wp_getS, wp_bind.
  eapply (wp_conseq _ (fun _ => credit N c)); [|by intros ? s4 Hs4]. case_if; [|done].
  apply wp_bind. unfold watch_update_mask, wp, modS. by destruct (watch s3).
Qed.
End ack.
