(* ===== verification/ChannelClientDemo.v ===== *)
(** * Channel clients: an instance

    A socket with a buffer of bounded room, a client whose bytes are in a list,
    the headers and message numbers of the protocol, and a channel that sends
    an item as one message, or as one after an urgent one.  The instance
    satisfies the laws the theorems assume. *)

From Stdlib Require Import ZArith Lia.
From stdpp Require Import base list numbers tactics option.
From S2P Require Import Prelude ChannelClient ChannelClientOk.

Open Scope Z_scope.

(** [dw_room]: what the socket takes before it blocks. *)
Record demo := mkDemo { dw_in : list Z; dw_room : Z; dw_eof : bool; dw_now : Z }.

Definition demo_write (bs : list Z) (w : demo) : sysw * demo :=
  if bool_decide (bs = []) then (WOk 0, w)
  else if dw_room w <=? 0 then (WAgain, w)
  else let n := Z.min (dw_room w) (Z.of_nat (length bs)) in
       (WOk n, mkDemo (dw_in w) (dw_room w - n) (dw_eof w) (dw_now w)).

Definition demo_read (z : Z) (w : demo) : sysr * demo :=
  if dw_eof w then (REof, w)
  else match dw_in w with
       | [] => (RAgain, w)
       | _ => (ROk (take (Z.to_nat z) (dw_in w)),
               mkDemo (drop (Z.to_nat z) (dw_in w)) (dw_room w) (dw_eof w) (dw_now w))
       end.

Definition demo_send (d : Z) : list send_cmd :=
  if d =? 7 then [CInit 101; CBody [1; 2]; CUrgent; CInit 102; CBody [9]; CBegin]
  else [CInit 101; CBody [d; d]; CBegin].

#[export] Instance demo_env : RccEnv demo := {
  writev := demo_write; stream_read := demo_read; mono_time := dw_now; c_rand w := (17, w);
  get_no_delay _ := Some false; unsent_size _ := 0; send_msgfd w := (true, w); during_migrate_at_target _ := false;
  seamless_migration_done_for_channel w := (true, w); add_channel w := (true, w); config_socket w := (true, w);
  handle_acks := true; migration_flags := 3; send_item d w := (demo_send d, w);
  alloc_recv_buf t z w := (Some (replicate (Z.to_nat z) 0), w);
  parse t bs := if t =? 77 then None else Some bs;
  handle_derived t m w := (if t =? 101 then Some (true, [KPush]) else None, w);
  handle_migrate_data m w := (true, w); migrate_data_serial m := None }.

(** Mini: type (2 bytes), size (4); full: serial (8), type, size, sub list (4). *)
#[export] Instance demo_proto : RccProto := {
  header_size b := if b then 6 else 18;
  enc_header b h := if b then le_encode 2 (h_type h) ++ le_encode 4 (h_size h)
                    else le_encode 8 (h_serial h) ++ le_encode 2 (h_type h) ++ le_encode 4 (h_size h)
                         ++ le_encode 4 (h_sub_list h);
  dec_type b bs := le_decode (take 2 (drop (if b then 0 else 8) bs));
  dec_size b bs := le_decode (take 4 (drop (if b then 2 else 10) bs));
  marshall_set_ack g w := le_encode 4 g ++ le_encode 4 w; marshall_migrate f := le_encode 4 f;
  marshall_ping i t := le_encode 4 i ++ le_encode 8 t; ack_sync_generation := le_decode;
  ping_id m := le_decode (take 4 m); ping_timestamp m := le_decode (drop 4 m);
  SPICE_MSG_MIGRATE := 1; SPICE_MSG_SET_ACK := 3; SPICE_MSG_PING := 4;
  SPICE_MSGC_ACK_SYNC := 1; SPICE_MSGC_ACK := 2; SPICE_MSGC_PONG := 3; SPICE_MSGC_MIGRATE_FLUSH_MARK := 4;
  SPICE_MSGC_MIGRATE_DATA := 5; SPICE_MSGC_DISCONNECTING := 6;
  SPICE_MIGRATE_NEED_FLUSH := 1; SPICE_MIGRATE_NEED_DATA_TRANSFER := 2 }.

#[export] Instance demo_world : RccWorld demo := {
  avail := dw_in; write_intr _ := 0%nat; read_intr _ := 0%nat; max_intr := 0%nat; max_body := 100 }.

#[export] Instance demo_proto_ok : RccProtoOk demo_proto demo_world.
Proof.
  split; cbn -[le_decode]; try lia; try (by intros; cbn; lia).
  - intros []; lia.
  - by intros [] h.
  - intros [] bs.
    all: match goal with |- context [le_decode ?x] => pose proof (le_decode_range x) as H; set (y := x) in * end.
    all: assert (Z.of_nat (length y) <= 4) by (unfold y; rewrite length_take; lia).
    all: assert (256 ^ Z.of_nat (length y) <= 256 ^ 4) by (apply Z.pow_le_mono_r; lia); lia.
Qed.

#[export] Instance demo_env_ok : RccEnvOk demo_env demo_world true.
Proof.
  split; cbn; try done; try lia.
  - intros bs w n w' Hne. unfold demo_write. rewrite bool_decide_eq_false_2 by done.
    destruct (Z.leb_spec (dw_room w) 0); [done|]. intros [= <- _]. destruct bs; [done|]. cbn [length]. lia.
  - intros bs w w'. unfold demo_write. repeat case_match; done.
  - intros d w. unfold demo_send. destruct (d =? 7).
    + apply (shape_urgent true 100 101 [CBody [1; 2]] 102 [CBody [9]]); [done|..];
        (split; [lia|split; [by repeat constructor|cbn; lia]]).
    + apply (shape_one true 100 101 [CBody [d; d]]). split; [lia|split; [by repeat constructor|cbn; lia]].
  - intros t m w r cs w'. case_if; [|done]. intros [= <- <- _]. by repeat constructor.
  - intros t z w buf w' [= <- _]. rewrite length_replicate. lia.
  - intros z w bs w' Hz. unfold demo_read. destruct (dw_eof w); [done|]. destruct (dw_in w) as [|x l] eqn:E; [done|].
    intros [= <- <-]. cbn [dw_in]. split; [|split; [rewrite length_take; lia|by rewrite take_drop]].
    destruct (Z.to_nat z) eqn:Ez; [lia|done].
  - intros z w w' Hz. unfold demo_read. destruct (dw_eof w); [done|]. destruct (dw_in w) eqn:E; [|done].
    intros [= <-]. by rewrite E.
  - intros z w w'. unfold demo_read. repeat case_match; done.
  - intros z w. unfold demo_read. destruct (dw_eof w); [done|]. destruct (dw_in w) eqn:E; cbn; [by rewrite E|].
    rewrite length_drop. cbn. lia.
  - intros bs w. unfold demo_write. repeat case_match; done.
Qed.

(** A client's message. *)
Definition demo_message (type : Z) (body : list Z) : list Z :=
  enc_header true (mkHdr 0 type (Z.of_nat (length body)) 0) ++ body.
