(* ===== verification/ChannelClientThms.v ===== *)
(** * Channel clients: theorems

    The theorems on runs of a client: what its owner, the client, the timers
    and the socket can do to it in any order; flow control; and what goes wrong
    outside of these runs. *)

From Stdlib Require Import ZArith Lia.
From stdpp Require Import base list numbers tactics option.
From S2P Require Import Prelude ChannelClient ChannelClientOk ChannelClientOps ChannelClientRecv ChannelClientAck ChannelClientDemo.

Open Scope Z_scope.

(** ** Runs *)

(** The operations of a client.  [OpWorld]: time passes and bytes arrive. *)
Inductive rcc_op (W : Type) :=
  | OpWorld (w : W)
  | OpEvent (event : Z)                 (** the watch fires *)
  | OpPingTimer | OpConnectivityTimer   (** a timer expires *)
  | OpPush | OpPipeAdd (k : item_kind) | OpPipeAddPush (k : item_kind) | OpPipeAddTail (k : item_kind)
  | OpPipeAddAfter (k : item_kind) (id : Z) | OpPipeRemove (id : Z)
  | OpStartConnectivityMonitoring (timeout_ms : Z)
  | OpDisconnect | OpShutdown | OpBlockRead | OpUnblockRead
  | OpMigrate | OpSetMigrationSeamless | OpSemiSeamlessMigrationComplete
  | OpAckZeroMessagesWindow | OpAckSetClientWindow (window : Z) | OpInitOutgoingMessagesWindow.
Arguments OpWorld {W}. Arguments OpEvent {W}. Arguments OpPingTimer {W}. Arguments OpConnectivityTimer {W}.
Arguments OpPush {W}. Arguments OpPipeAdd {W}. Arguments OpPipeAddPush {W}. Arguments OpPipeAddTail {W}.
Arguments OpPipeAddAfter {W}. Arguments OpPipeRemove {W}. Arguments OpStartConnectivityMonitoring {W}.
Arguments OpDisconnect {W}. Arguments OpShutdown {W}. Arguments OpBlockRead {W}. Arguments OpUnblockRead {W}.
Arguments OpMigrate {W}. Arguments OpSetMigrationSeamless {W}. Arguments OpSemiSeamlessMigrationComplete {W}.
Arguments OpAckZeroMessagesWindow {W}. Arguments OpAckSetClientWindow {W}. Arguments OpInitOutgoingMessagesWindow {W}.

Section runs.
Context {W : Type} {E : RccEnv W} {P : RccProto} {O : RccWorld W} (mini0 : bool).
Context (fuel : nat).
Implicit Types (s : rcc W).

(** A watch or a timer calls back only while it is there.  The channels that
    set their window themselves do not monitor the connectivity. *)
Definition run_op (o : rcc_op W) : M (rcc W) unit :=
  s ← getS;
  match o with
  | OpWorld w => modS (set_env w)
  | OpEvent e => if bool_decide (watch s = None) then mret tt else red_channel_client_event fuel e
  | OpPingTimer => if bool_decide (lm_timer s = Some true) then ping_timer else mret tt
  | OpConnectivityTimer => if bool_decide (cm_timer s = Some true) then connectivity_timer else mret tt
  | OpPush => push fuel
  | OpPipeAdd k => pipe_add_type k
  | OpPipeAddPush k => i ← new_item k; pipe_add_push fuel i
  | OpPipeAddTail k => i ← new_item k; pipe_add_tail i
  | OpPipeAddAfter k id => i ← new_item k; pipe_add_after i id
  | OpPipeRemove id => pipe_remove id
  | OpStartConnectivityMonitoring ms => start_connectivity_monitoring ms
  | OpDisconnect => disconnect
  | OpShutdown => shutdown
  | OpBlockRead => block_read
  | OpUnblockRead => unblock_read
  | OpMigrate => migrate
  | OpSetMigrationSeamless => set_migration_seamless;; mret tt
  | OpSemiSeamlessMigrationComplete => semi_seamless_migration_complete
  | OpAckZeroMessagesWindow => if bool_decide (cm_timer s = None) then ack_zero_messages_window else mret tt
  | OpAckSetClientWindow w => if bool_decide (cm_timer s = None) then ack_set_client_window w else mret tt
  | OpInitOutgoingMessagesWindow =>
      if bool_decide (cm_timer s = None) then init_outgoing_messages_window fuel else mret tt
  end.

Definition op_ok (o : rcc_op W) : Prop :=
  match o with
  | OpWorld w => (S max_intr * S (length (avail w)) + 2 < fuel)%nat
  | OpPipeAdd k | OpPipeAddPush k | OpPipeAddTail k | OpPipeAddAfter k _ => kind_ok k
  | OpStartConnectivityMonitoring ms => 0 < ms
  | _ => True
  end.

(** A new client, and then any operations in any order. *)
Definition rcc_run (unix monitor_latency : bool) (ops : list (rcc_op W)) : M (rcc W) bool :=
  ok ← init unix monitor_latency;
  if (ok : bool) then iterM run_op ops;; mret true else mret false.
End runs.

Section thms.
Context {W : Type} {E : RccEnv W} {P : RccProto} {O : RccWorld W} (mini0 : bool).
Context {POK : RccProtoOk P O} {EOK : RccEnvOk E O mini0}.
Context (fuel : nat) (Hfuel : (S max_intr * (2 * Z.to_nat (max_body + 256)) + max_intr < fuel)%nat).
Implicit Types (s : rcc W).

(** ** The invariant *)

Lemma rcc_inside s s' :
  rcc_ok mini0 fuel s -> (connected s' = true -> connected s = true) -> rest_ok mini0 s' -> inside s' = inside s ->
  rcc_ok mini0 fuel s'.
Proof.
  intros (_ & Hi & Hd & Hf) Hk Hr' Hin. injection Hin as E1 E2 E3 E4 E5 E6 E7. split; [done|]. split; [|split].
  - intros Hk'. specialize (Hi (Hk Hk')). unfold in_ok in *. by rewrite E1, E2, E3, E4.
  - congruence.
  - unfold read_fuel in *. by rewrite E7.
Qed.

(** No operation connects a client. *)
Definition off s : Prop := connected s = false.
Abbreviation keeps_off := (keeps off (fun _ => True)).

Lemma off_pipe {A} (m : M (rcc W) A) : (forall n, keeps (pipe_le n false) (fun _ => True) m) -> keeps_off m.
Proof.
  intros Hm s Hs. eapply wp_conseq; [apply (Hm (length (pipe s))); split; [lia|by rewrite Hs]|].
  intros a s' [_ Hk]. unfold off. destruct (connected s'); [by discriminate Hk|done].
Qed.

Ltac walk_off :=
  repeat first
    [ assumption | apply keeps_ret | apply keeps_abort; exact I | apply keeps_undef; exact I | apply keeps_assert; exact I
    | apply off_pipe; intros ?; first [apply ask_pipe|apply getS_pipe|apply send_any_item_pipe|apply handle_outgoing_pipe
                                      |apply disconnect_pipe]
    | apply keeps_bind; [|intros ?]
    | apply keeps_mod; intros ? Hle; repeat case_match; first [exact Hle|done]
    | case_match ].

Lemma push_off : keeps_off (push fuel).
Proof.
  assert (forall n, keeps_off (push_loop fuel n)) as Hl.
  { intros n. induction n as [|n IH]; [by apply keeps_undef|]. cbn [push_loop]. unfold pipe_item_get. walk_off. }
  unfold push, watch_update_mask, emit. walk_off. apply Hl.
Qed.

Lemma pipe_add_off k : keeps_off (pipe_add_type k).
Proof. unfold pipe_add_type, new_item, pipe_add, prepare_pipe_add, watch_update_mask. walk_off. Qed.

Lemma run_op_off o s : (forall e, o <> OpEvent e) -> off s -> wp (run_op fuel o) (fun _ s' => off s') (fun _ _ => True) s.
Proof.
  intros Ho Hs. pose proof push_off. pose proof (pipe_add_off).
  assert (keeps_off (run_op fuel o)) as Hk; [|by apply Hk].
  destruct o; try (by destruct (Ho _ eq_refl)); unfold run_op, pipe_add_push, pipe_add_tail, pipe_add_after,
    pipe_add_after_pos, pipe_remove, start_connectivity_monitoring, ping_timer, push_ping, connectivity_timer, connectivity_alive,
    shutdown, block_read, unblock_read, migrate, set_migration_seamless, semi_seamless_migration_complete,
    ack_zero_messages_window, ack_set_client_window, init_outgoing_messages_window, start_ping_timer, cancel_ping_timer,
    watch_update_mask, emit, new_item, pipe_add, prepare_pipe_add, pipe_insert; walk_off.
Qed.

Lemma rest_rcc {A} (m : M (rcc W) A) s EE :
  rcc_ok mini0 fuel s -> (off s -> wp m (fun _ s' => off s') (fun _ _ => True) s) ->
  wp m (fun _ s' => rest_ok mini0 s' /\ inside s' = inside s) EE s ->
  wp m (fun _ s' => rcc_ok mini0 fuel s') EE s.
Proof.
  intros Hs Hoff Hm. destruct (connected s) eqn:Ek.
  - eapply wp_conseq; [done|]. intros a s' [Hr Hi]. eapply rcc_inside; [done| |done..]. by rewrite Ek.
  - eapply wp_conseq; [apply (wp_and _ _ _ _ _ Hm (Hoff Ek))|]. intros a s' [[Hr Hi] Hk].
    eapply rcc_inside; [done| |done..]. by rewrite Hk.
Qed.

Lemma no_monitor s : cm_timer s = None -> ~ idle_blocked s.
Proof. intros Hn [[x Hx] _]. congruence. Qed.

Lemma run_op_rest o s EE :
  rest_ok mini0 s -> op_ok fuel o -> (forall e, o <> OpEvent e) -> (forall w, o <> OpWorld w) ->
  wp (run_op fuel o) (fun _ s' => rest_ok mini0 s' /\ inside s' = inside s) EE s.
Proof.
  intros Hs Ho Hne Hnw. apply wp_getS.
  destruct o; cbn [op_ok] in Ho; try (by destruct (Hne _ eq_refl)); try (by destruct (Hnw _ eq_refl));
    try (case_bool_decide; [|by apply wp_ret]).
  - by apply ping_timer_ok.
  - apply (connectivity_timer_ok mini0). split; [done|by eexists].
  - by apply push_ok.
  - by apply (pipe_add_type_ok mini0 k).
  - revert s EE Hs. apply new_item_safe; [done|]. intros i Hi. apply safe_bind; [by apply pipe_add_ok|]. intros _.
    by apply push_ok.
  - revert s EE Hs. apply new_item_safe; [done|]. intros i Hi. by apply pipe_add_tail_ok.
  - revert s EE Hs. apply new_item_safe; [done|]. intros i Hi. by apply pipe_add_after_ok.
  - by apply pipe_remove_ok.
  - by apply start_connectivity_monitoring_ok.
  - by apply disconnect_safe.
  - by apply shutdown_ok.
  - by apply block_read_ok.
  - by apply unblock_read_ok.
  - by apply migrate_ok.
  - revert s EE Hs. apply safe_bind; [apply set_migration_seamless_ok|]. intros _. apply safe_ret.
  - by apply start_ping_stable; [apply rest_lm|].
  - apply (ack_zero_messages_window_ok mini0). split; [done|by apply no_monitor].
  - apply (ack_set_client_window_ok mini0). split; [done|by apply no_monitor].
  - apply (init_outgoing_messages_window_ok mini0 fuel Hfuel). split; [done|by apply no_monitor].
Qed.

Lemma watch_connected s : rest_ok mini0 s -> watch s <> None -> connected s = true.
Proof. intros (_ & _ & [Hd|[[Hd _]|[Hd _]]]) Hw; [|by apply Hd..]. by destruct Hd as (_ & _ & _ & _ & _ & _ & _ & ?). Qed.

Lemma run_op_ok o s :
  rcc_ok mini0 fuel s -> op_ok fuel o -> wp (run_op fuel o) (fun _ s' => rcc_ok mini0 fuel s') stop s.
Proof.
  intros Hs Ho. destruct o as [w|e| | | | | | | | | | | | | | | | | | | ];
    try (apply rest_rcc; [done|by apply run_op_off|apply run_op_rest; [by apply Hs|done..]]).
  - destruct Hs as (Hr & Hi & Hd & _). by split.
  - apply wp_getS. case_bool_decide as Hw; [done|]. pose proof (watch_connected s (proj1 Hs) Hw) as Hk.
    apply wp_bind. eapply (wp_conseq _ (fun _ s' => rcc_ok mini0 fuel s')).
    + case_if; [|done]. eapply wp_conseq; [by apply receive_ok|]. by intros ? s' [? _].
    + intros _ s' Hs'. case_if; [|done]. apply rest_rcc; [done|intros Hoff; by apply push_off|].
      apply (push_ok mini0 fuel Hfuel). by apply Hs'.
Qed.

Lemma run_ops_ok ops s :
  rcc_ok mini0 fuel s -> Forall (op_ok fuel) ops -> wp (iterM (run_op fuel) ops) (fun _ s' => rcc_ok mini0 fuel s') stop s.
Proof.
  intros Hs Hops. revert s Hs. induction Hops as [|o ops Ho _ IH]; intros s Hs; [done|]. apply wp_bind.
  eapply wp_conseq; [by apply run_op_ok|]. intros ? s' Hs'. by apply IH.
Qed.

(** A client before it is connected. *)
Definition fresh (w : W) s : Prop :=
  (has_stream s = true /\ mini s = mini0 /\ ping_ok s /\ cm_timer s = None /\ pipe s = [] /\ frames s = []) /\
  (send_size s = 0 /\ blocked s = false /\ out_size s = 0 /\ out_pos s = 0 /\ wire s = [] /\ cur_m s = Main) /\
  (Z.of_nat (length (header_buf s)) = header_size mini0 /\ header_pos s = 0 /\ msg_pos s = 0 /\ in_msg s = None) /\
  during_send s = false /\ avail (env s) = avail w.

Lemma fresh_ok w s :
  fresh w s -> connected s = true -> (S max_intr * S (length (avail w)) + 2 < fuel)%nat -> rcc_ok mini0 fuel s.
Proof.
  intros ((H1 & H2 & H3 & H4 & H5 & H6) & (G1 & G2 & G3 & G4 & G5 & G6) & (I1 & I2 & I3 & I4) & Hd & Ha) Hk Hf.
  pose proof (header_size_ok mini0). split; [|split; [|split; [done|unfold read_fuel; by rewrite Ha]]].
  - split; [|split].
    + do 3 (split; [done|]). unfold pong_ok. rewrite H4, H5, H6. split; [by intros [? ?]|]. split; constructor.
    + intros [[? ?] _]. congruence.
    + right; left. split; [|done]. do 5 (split; [done|]). rewrite G5, H6. split; [done|]. congruence.
  - intros _. split; [done|]. split; [lia|]. split; [done|lia].
Qed.

(** The end of [init]: the client is added to its channel. *)
Lemma connect_ok w s EE :
  fresh w s -> (S max_intr * S (length (avail w)) + 2 < fuel)%nat ->
  wp (modS (set_connected true);; emit EvAddClient;; ok ← ask add_channel;
      if (ok : bool) then emit EvAddChannel;; mret true
      else modS (set_connected false);; emit EvRemoveClient;; mret false)
    (fun ok s' => ok = true -> rcc_ok mini0 fuel s') EE s.
Proof.
  intros Hs Hf. apply wp_modS, wp_modS, wp_bind, wp_getS.
  destruct (add_channel _) as [ok w2] eqn:Eadd. apply wp_modS, wp_ret.
  destruct ok; [|by apply wp_modS, wp_modS, wp_ret]. apply wp_modS, wp_ret. intros _.
  pose proof (avail_add_channel (env s)) as Ha. cbn in Eadd. rewrite Eadd in Ha. cbn in Ha.
  apply (fresh_ok w); [|done|done]. destruct Hs as (H1 & H2 & H3 & H4 & H5).
  split; [exact H1|]. split; [exact H2|]. split; [exact H3|]. split; [exact H4|]. cbn. by rewrite Ha.
Qed.

Lemma init_ok unix lat w EE :
  (S max_intr * S (length (avail w)) + 2 < fuel)%nat ->
  wp (init unix lat) (fun ok s' => ok = true -> rcc_ok mini0 fuel s') EE (new_RedChannelClient w mini0 true).
Proof.
  intros Hf. pose proof (header_size_ok mini0) as Hh.
  assert (fresh w (new_RedChannelClient w mini0 true) /\ lm_state (new_RedChannelClient w mini0 true) = PING_STATE_NONE) as Hs0.
  { split; [|done]. split; [done|]. split; [done|]. split; [|done]. split; [cbn; rewrite length_replicate; lia|done]. }
  revert Hs0. generalize (new_RedChannelClient w mini0 true). intros s0 [Hs0 Hl0]. apply wp_getS.
  assert (has_stream s0 = true) as -> by (by destruct Hs0 as ((? & _) & _)).
  apply wp_bind. eapply wp_conseq with (Q := fun _ s => fresh w s /\ lm_state s = PING_STATE_NONE).
  { unfold ask, wp, bindM, getS, modS. destruct (config_socket (env s0)) as [ok w'] eqn:Ec. split; [|done].
    pose proof (avail_config (env s0)) as Ha. rewrite Ec in Ha. destruct Hs0 as (H1 & H2 & H3 & H4 & H5).
    do 4 (split; [done|]). cbn in *. congruence. }
  clear s0 Hs0 Hl0. intros ok s [Hs Hl]. destruct ok; cbn [negb]; [|by apply wp_ret].
  apply wp_modS, wp_getS, wp_bind. set (s1 := set_watch _ s).
  assert (fresh w s1 /\ lm_state s1 = PING_STATE_NONE) as [Hs1 Hl1] by done. clearbody s1. clear s Hs Hl.
  destruct unix; [by apply wp_ret, (connect_ok w)|].
  destruct Hs1 as ((H1 & H2 & H3 & H4) & H5). apply wp_modS, wp_bind. case_if.
  - apply wp_ret, (connect_ok w); [|done]. split; [|exact H5]. do 2 (split; [done|]). by split.
  - unfold start_ping_timer, wp at 1, modS. cbn [lm_timer set_lm_timer lm_state].
    rewrite bool_decide_eq_true_2 by done. apply (connect_ok w); [|done]. split; [|exact H5]. do 2 (split; [done|]). by split.
Qed.

Lemma rcc_run_ok unix lat ops w :
  (S max_intr * S (length (avail w)) + 2 < fuel)%nat -> Forall (op_ok fuel) ops ->
  wp (rcc_run fuel unix lat ops) (fun ok s' => ok = true -> rcc_ok mini0 fuel s') stop
    (new_RedChannelClient w mini0 true).
Proof.
  intros Hf Hops. apply wp_bind. eapply wp_conseq; [by apply init_ok|]. intros ok s Hs. destruct ok; [|done].
  apply wp_bind. eapply wp_conseq; [by apply run_ops_ok; [apply Hs|]|]. intros ? s' Hs'. by intros _.
Qed.


Lemma rest_framing s :
  rest_ok mini0 s ->
  Forall (frame_ok mini0) (frames s) /\
  exists rest, wire s ++ rest = concat (frames s) /\ (connected s = true -> send_size s = 0 -> rest = []).
Proof.
  intros (Hc & _ & Hd). split; [by destruct Hc as (_ & _ & _ & _ & _ & ?)|].
  destruct Hd as [Hd|[[Hd _]|[Hd _]]].
  - destruct Hd as (Hk & _ & _ & _ & [rest Hw] & _). exists rest. split; [done|]. by rewrite Hk.
  - destruct Hd as (_ & _ & _ & _ & _ & Hw & _). exists []. by rewrite app_nil_r.
  - destruct Hd as (_ & _ & Hz & _ & Hw & _). eexists. split; [done|]. intros _ Hx. lia.
Qed.


(** C7: [receive] hands to [handle_message] exactly the messages that the
    bytes of the client contain, decoded and in order: what was in the buffers
    and in the socket is the handled messages followed by what is in the
    buffers and in the socket now, however the socket cuts it.  It returns when
    the socket is empty, when reading is blocked or when the client is gone. *)
Theorem receive_refines s :
  rcc_ok mini0 fuel s -> connected s = true ->
  wp (receive fuel) (fun _ s' => rcc_ok mini0 fuel s' /\ received mini0 s s') stop s.
Proof. by apply receive_ok. Qed.

(** ** Flow control *)

Lemma push_waits s EE :
  waiting_for_ack s = true -> blocked s = false -> rest_ok mini0 s ->
  wp (push fuel) (fun _ s' => frames s' = frames s /\ pipe s' = pipe s /\ wire s' = wire s) EE s.
Proof.
  intros Ha Hb Hr. apply wp_getS. case_if; [done|]. apply wp_modS. rewrite Hb. apply wp_bind, wp_ret, wp_getS.
  rewrite (waiting_is_blocked mini0) by exact Hr. apply wp_bind, wp_ret, wp_bind. cbn [push_loop].
  apply wp_bind, wp_getS. change (blocked (set_during_send true s)) with (blocked s).
  change (waiting_for_ack (set_during_send true s)) with (waiting_for_ack s). rewrite Ha, Hb. cbn [orb].
  apply wp_ret, wp_ret, wp_getS, wp_bind.
  change (waiting_for_ack (set_during_send true s)) with (waiting_for_ack s). rewrite Ha, orb_true_r.
  apply wp_bind. unfold watch_update_mask, wp, modS. cbn [watch set_during_send]. by destruct (watch s).
Qed.


(** ** Connectivity *)

Definition unresponsive s : Prop :=
  received_bytes s = false /\
  (cm_state s = CONNECTIVITY_STATE_BLOCKED /\ sent_bytes s = false /\ (blocked s = true \/ waiting_for_ack s = true) \/
   cm_state s = CONNECTIVITY_STATE_WAIT_PONG /\ pinging s = true).

Lemma connectivity_connected s :
  wp connectivity_timer (fun _ s' => connected s' = false -> connected s = true -> unresponsive s) (fun _ _ => True) s.
Proof.
  apply wp_bind. eapply (wp_conseq _ (fun alive s' => s' = s /\ (alive = false -> unresponsive s))).
  - apply wp_getS. unfold unresponsive. destruct (cm_state s); try done; (case_if; [|done]); zbool; (case_if; [done|]).
    + split; [done|]. intros _. split; [done|]. left. do 2 (split; [done|]).
      destruct (blocked s); [by left|]. by destruct (waiting_for_ack s); [right|].
    + split; [done|]. intros _. split; [done|]. right. zbool. done.
  - intros alive s' [-> Hun]. destruct alive.
    + apply wp_modS, wp_modS. intros Hx. change (connected s = false) in Hx. congruence.
    + unfold wp. destruct (bindM _ _ _); [|done..]. intros _ _. by apply Hun.
Qed.

(** C14: The connectivity timer never reaches its [spice_error] calls
    ("mismatch between rcc-state and connectivity-state"), and it disconnects
    only a client from which no byte came since the timer ran last, and which
    had been found, that last time, either blocked (in the socket or for an
    acknowledgement) with no byte sent since, or owing the reply to a ping. *)
Theorem connectivity_timer_correct s :
  rcc_ok mini0 fuel s -> cm_timer s = Some true ->
  wp connectivity_timer (fun _ s' => rest_ok mini0 s' /\ (connected s' = false -> unresponsive s)) (fun _ _ => False) s.
Proof.
  intros (Hr & _) Ht. assert (connected s = true) as Hk.
  { destruct Hr as (_ & _ & [Hd|[[Hd _]|[Hd _]]]); [|by apply Hd..].
    destruct Hd as (_ & _ & _ & _ & _ & Hx & _). congruence. }
  eapply wp_conseq; [apply wp_and; [apply (connectivity_timer_ok mini0); split; [done|by eexists]|apply connectivity_connected]|].
  cbn beta. intros ? s' [[H1 _] H2]. split; [done|]. intros H3. by apply H2.
Qed.
End thms.

(** ** Instances *)

Definition demo_fuel : nat := 1000.

Lemma demo_fuel_ok :
  (S (max_intr (W := demo)) * (2 * Z.to_nat (max_body (W := demo) + 256)) + max_intr (W := demo) < demo_fuel)%nat.
Proof. apply Nat.ltb_lt. vm_compute. done. Qed.



(** A connected client that has sent two messages and the start of a third. *)
Definition demo_client : rcc demo :=
  set_connected true (set_watch (Some SPICE_WATCH_EVENT_READ) (set_messages_window 0
    (new_RedChannelClient (mkDemo (demo_message 101 [5] ++ demo_message 6 [] ++ [101; 0; 3]) 10 false 0) true true))).

Lemma demo_client_ok : rcc_ok true demo_fuel demo_client.
Proof.
  apply (fresh_ok true demo_fuel demo_fuel_ok (env demo_client)); [|done|apply Nat.ltb_lt; vm_compute; done].
  split; [by repeat split|]. split; [by repeat split|]. by repeat split.
Qed.

Lemma receive_refines_witness :
  wp (receive demo_fuel) (fun _ s' => rcc_ok true demo_fuel s' /\ received true demo_client s') stop demo_client.
Proof. apply (receive_refines true demo_fuel demo_fuel_ok); [apply demo_client_ok|done]. Defined.

Example demo_received :
  match receive demo_fuel demo_client with
  | Ok _ s => handled s = [(101, [5]); (6, [])] /\ header_pos s = 3
  | _ => False
  end.
Proof. vm_compute. done. Qed.


(** The same client with the window exhausted, monitored. *)
Definition demo_monitored : rcc demo :=
  set_cm_state CONNECTIVITY_STATE_BLOCKED (set_cm_timer (Some true) (set_messages_window 50 demo_client)).

Lemma demo_monitored_ok : rcc_ok true demo_fuel demo_monitored.
Proof.
  destruct demo_client_ok as (((H1 & H2 & H3 & _ & H5) & _ & Hd) & Hi & Hs & Hf).
  split; [|split; [exact Hi|split; [exact Hs|exact Hf]]]. split; [do 3 (split; [done|]); split; [by intros _|exact H5]|].
  split; [by intros _; right|]. right; left. split; [by repeat split|done].
Qed.

Lemma connectivity_timer_correct_witness :
  wp connectivity_timer (fun _ s' => rest_ok true s' /\ (connected s' = false -> unresponsive demo_monitored))
    (fun _ _ => False) demo_monitored.
Proof.
  apply (connectivity_timer_correct true demo_fuel); [apply demo_monitored_ok|done].
Defined.
