(* ===== verification/ChannelClientErr.v ===== *)
(** * Channel clients: what goes wrong

    Four behaviours outside of the runs of ChannelClientThms or at their edge:
    the two waiting functions go on after the client was disconnected, a client
    can stop the process with one message, and a read of nothing counts as a
    sign of life. *)

From Stdlib Require Import ZArith Lia.
From stdpp Require Import base list numbers tactics option.
From S2P Require Import Prelude ChannelClient ChannelClientOk ChannelClientOps ChannelClientRecv ChannelClientDemo ChannelClientThms.

Open Scope Z_scope.

Section errors.
Context {W : Type} {E : RccEnv W} {P : RccProto} {O : RccWorld W} (mini0 : bool).
Context {POK : RccProtoOk P O} {EOK : RccEnvOk E O mini0}.
Implicit Types (s : rcc W).

Lemma wp_Ok {A} (m : M (rcc W) A) Q s : wp m Q (fun _ _ => False) s -> exists a s', m s = Ok a s' /\ Q a s'.
Proof. unfold wp. destruct (m s) as [a s'| |]; [|done..]. by exists a, s'. Qed.

(** ** Waiting for a message to go out *)

(** A cleared marshaller and a size that is not reset: nothing to write, for ever. *)
Definition stuck s : Prop :=
  has_stream s = true /\ out_size s <> 0 /\ out_pos s <> out_size s /\ get_m (cur_m s) s = mkMarsh None [].

Lemma handle_outgoing_stuck n s :
  (forall w, writev [] w = (WOk 0, w)) -> stuck s ->
  wp (handle_outgoing n) (fun _ _ => False) (fun k _ => k = Some UbFuel) s.
Proof.
  intros Hw. revert s. induction n as [|n IH]; intros s (H1 & H2 & H3 & H4); [done|].
  cbn [handle_outgoing]. apply wp_getS. rewrite H1. cbn [negb]. apply wp_modS.
  destruct (Z.eqb_spec (out_size s) 0); [done|]. apply wp_getS. destruct (Z.eqb_spec (out_size s) 0); [done|].
  apply wp_bind, wp_getS. unfold marshaller_bytes at 1. rewrite H4. cbn [m_hdr m_body app]. rewrite drop_nil, Hw.
  apply wp_modS, wp_ret, wp_modS, wp_modS, wp_modS, wp_getS.
  match goal with |- wp _ _ _ ?s' => assert (stuck s' /\ out_pos s' = out_pos s /\ out_size s' = out_size s) as (Hs & -> & ->) end.
  { unfold stuck. case_bool_decide; cbn -[get_m]; rewrite Z.add_0_r; (split; [|done]); (do 3 (split; [done|])); by destruct (cur_m s). }
  destruct (Z.eqb_spec (out_pos s) (out_size s)); [done|]. by apply IH.
Qed.

(** A disconnected client that was in the middle of a message is stuck. *)
Lemma disconnect_stuck s EE :
  connected s = true -> has_stream s = true -> out_size s <> 0 -> out_pos s <> out_size s ->
  wp disconnect (fun _ s' => stuck s') EE s.
Proof.
  intros Hk H1 H2 H3. apply wp_getS. rewrite Hk. cbn [negb].
  unfold wp, pipe_clear, clear_sent_item, shutdown, emit, bindM, getS, modS. cbn beta iota.
  match goal with |- context [if ?b then _ else _] => destruct b end; unfold stuck;
    destruct (cur_m s) eqn:Em; cbn [set_m]; do 3 (split; [done|]); cbn; by rewrite Em.
Qed.

(** C33: [wait_outgoing_item] does not return when the client closes the
    connection in the middle of the message that is being waited for:
    [receive] disconnects the client, which clears the marshaller but not
    the size in the outgoing buffer, and the [send] that follows writes the
    nothing that is left, again and again.  [writev] of an empty vector takes
    0 bytes (red_stream_writev, red-stream.cpp). *)
Theorem wait_outgoing_item_hangs fuel turns timeout w' s :
  rcc_ok mini0 fuel s -> blocked s = true -> header_pos s < header_size mini0 -> watch s <> None ->
  stream_read (header_size mini0 - header_pos s) (env s) = (REof, w') ->
  (forall w, writev [] w = (WOk 0, w)) -> (0 < turns)%nat ->
  exists s', wait_outgoing_item fuel turns timeout s = Ub UbFuel s'.
Proof.
  intros (Hr & Hi & _ & Hf) Hb Hh Hwt Heof Hw Ht.
  assert (wp (wait_outgoing_item fuel turns timeout) (fun _ _ => False) (fun k _ => k = Some UbFuel) s) as Hwp.
  2:{ unfold wp in Hwp. destruct (wait_outgoing_item _ _ _ _) as [| |k s']; [done..|]. injection Hwp as ->. by eexists. }
  pose proof (watch_connected mini0 s Hr Hwt) as Hk. destruct Hr as (Hc & _ & Hd).
  destruct Hd as [(? & _)|[[(_ & _ & ? & _) _]|[Hs [_ Ho]]]]; [congruence..|].
  assert (out_size s <> 0 /\ out_pos s <> out_size s) as [Ho1 Ho2] by (destruct Hs as (_ & _ & ? & ? & _); lia).
  destruct Hc as (Hst & Hm & _). pose proof (header_size_ok mini0).
  apply wp_getS. rewrite Hb. cbn [negb]. apply wp_bind. destruct turns as [|turns]; [lia|]. cbn [wait_loop].
  destruct fuel as [|n]; [unfold read_fuel in Hf; lia|].
  apply wp_bind, wp_bind. unfold receive. cbn [handle_incoming]. apply wp_getS. rewrite Hst. cbn [negb].
  apply wp_bind, wp_getS. rewrite Hm. destruct (Z.ltb_spec (header_pos s) (header_size mini0)); [|lia]. cbn [negb].
  apply wp_bind. cbn [red_peer_receive]. destruct (Z.eqb_spec (header_size mini0 - header_pos s) 0); [lia|].
  apply wp_getS. rewrite bool_decide_eq_false_2 by done. apply wp_bind, wp_getS. rewrite Heof.
  apply wp_modS, wp_ret, wp_ret, wp_bind. eapply wp_conseq; [by apply disconnect_stuck|].
  cbn beta. intros ? s1 Hs1. apply wp_ret. cbn [negb]. apply wp_ret.
  eapply wp_conseq; [by apply handle_outgoing_stuck|]. by cbn beta.
Qed.

(** ** Reading one message *)

(** A connected client between two messages. *)
Definition between s : Prop :=
  has_stream s = true /\ mini s = mini0 /\ connected s = true /\ watch s <> None /\
  Z.of_nat (length (header_buf s)) = header_size mini0 /\ header_pos s = 0 /\ msg_pos s = 0 /\ in_msg s = None.

Lemma red_peer_receive_all n size bs s w' Q EE :
  0 < size < 2 ^ 32 -> watch s <> None -> stream_read size (env s) = (ROk bs, w') -> Z.of_nat (length bs) = size ->
  Q (Some bs) (set_env w' s) -> wp (red_peer_receive (S (S n)) size []) Q EE s.
Proof.
  intros Hs Hw Hr Hl HQ. cbn [red_peer_receive]. destruct (Z.eqb_spec size 0); [lia|]. apply wp_getS.
  rewrite bool_decide_eq_false_2 by done. apply wp_bind, wp_getS. rewrite Hr. apply wp_modS, wp_ret.
  rewrite Hl, Z.sub_diag. apply HQ.
Qed.

(** The header [hb] is read at once. *)
Definition got_header (hb : list Z) (w' : W) s : rcc W :=
  set_header_pos (header_size mini0) (set_header_buf hb (note_read (set_env w' s))).

Lemma got_header_cases hb w' s (Q : rcc W -> Prop) :
  (forall s1, s1 = set_env w' s \/ s1 = set_received_bytes true (set_env w' s) ->
     Q (set_header_pos (header_size mini0) (set_header_buf hb s1))) -> Q (got_header hb w' s).
Proof. intros HQ. unfold got_header. apply note_read_cases; auto. Qed.

Lemma read_header_all n hb s w' Q EE :
  between s -> stream_read (header_size mini0) (env s) = (ROk hb, w') -> Z.of_nat (length hb) = header_size mini0 ->
  Q true (got_header hb w' s) -> wp (read_header (S (S n))) Q EE s.
Proof.
  intros (H1 & H2 & H3 & H4 & H5 & H6 & H7 & H8) Hr Hl HQ. pose proof (header_size_ok mini0). apply wp_getS.
  rewrite H2, H6. destruct (Z.ltb_spec 0 (header_size mini0)); [|lia]. cbn [negb]. apply wp_bind.
  rewrite Z.sub_0_r. eapply red_peer_receive_all; [lia|done..|]. apply wp_modS, wp_modS, wp_getS, wp_ret.
  fold (note_read (set_env w' s)).
  assert (header_pos (note_read (set_env w' s)) = 0 /\ header_buf (note_read (set_env w' s)) = header_buf s /\
    mini (note_read (set_env w' s)) = mini0) as (E1 & E2 & E3) by (by apply note_read_cases).
  rewrite E1, E2, Hl, Z.add_0_l, u32_id by lia. cbn [header_pos set_header_pos mini set_header_buf].
  change (mini (set_header_pos _ (set_header_buf _ ?s1))) with (mini s1). rewrite E3, Z.eqb_refl.
  assert (store 0 hb (header_buf s) = hb) as ->; [|exact HQ].
  unfold store. cbn [Z.to_nat Nat.add]. rewrite take_0, drop_ge by lia. by rewrite app_nil_l, app_nil_r.
Qed.

(** C35: A [SPICE_MSGC_MIGRATE_FLUSH_MARK] that the server did not ask for, a
    message without body that any client can send at any time, reaches the
    [spice_error] of [handle_message]: the process aborts, and the [return FALSE]
    after it, which would disconnect the client, is not reached. *)
Theorem flush_mark_aborts n hb w1 w2 m s :
  between s -> wait_migrate_flush_mark s = false ->
  stream_read (header_size mini0) (env s) = (ROk hb, w1) -> Z.of_nat (length hb) = header_size mini0 ->
  dec_type mini0 hb = SPICE_MSGC_MIGRATE_FLUSH_MARK -> dec_size mini0 hb = 0 ->
  parse SPICE_MSGC_MIGRATE_FLUSH_MARK [] = Some m ->
  handle_derived SPICE_MSGC_MIGRATE_FLUSH_MARK m w1 = (None, w2) ->
  SPICE_MSGC_MIGRATE_FLUSH_MARK <> SPICE_MSGC_ACK_SYNC -> SPICE_MSGC_MIGRATE_FLUSH_MARK <> SPICE_MSGC_ACK ->
  SPICE_MSGC_MIGRATE_FLUSH_MARK <> SPICE_MSGC_DISCONNECTING ->
  exists s', receive (S (S n)) s = Abort s'.
Proof.
  intros Hs Hwait Hr Hl Hty Hsz Hpar Hder N1 N2 N3.
  assert (wp (receive (S (S n))) (fun _ _ => False) (fun k _ => k = None) s) as Hwp.
  2:{ unfold wp in Hwp. destruct (receive _ _) as [|s'|]; [done| |done]. by exists s'. }
  pose proof Hs as (H1 & H2 & H3 & H4 & H5 & H6 & H7 & H8).
  unfold receive. cbn [handle_incoming]. apply wp_getS. rewrite H1. cbn [negb].
  apply wp_bind. eapply read_header_all; [done..|]. cbn [negb]. apply wp_getS.
  pattern (got_header hb w1 s). apply got_header_cases. intros s1 Hs1.
  assert (mini s1 = mini0 /\ msg_pos s1 = 0 /\ in_msg s1 = None /\ env s1 = w1 /\ wait_migrate_flush_mark s1 = false)
    as (E1 & E2 & E3 & E4 & E5) by (by destruct Hs1 as [->| ->]). clear Hs1. set (s2 := set_header_pos _ _).
  assert (mini s2 = mini0 /\ msg_pos s2 = 0 /\ in_msg s2 = None /\ env s2 = w1 /\ wait_migrate_flush_mark s2 = false /\
    header_buf s2 = hb) as (F1 & F2 & F3 & F4 & F5 & F6) by done. clearbody s2.
  rewrite F1, F6, Hty, Hsz. apply wp_bind, wp_getS. rewrite F2. cbn [Z.ltb Z.compare negb].
  apply wp_ret, wp_bind, wp_getS. rewrite F3. cbn [Z.ltb Z.compare andb]. rewrite andb_false_r.
  apply wp_ret. unfold message_bytes. rewrite F3.
  change (take (Z.to_nat 0) (default [] None)) with (@nil Z). rewrite Hpar.
  apply wp_bind, wp_modS, wp_bind, wp_getS. cbn [env set_handled]. rewrite F4, Hder. apply wp_modS, wp_ret.
  unfold handle_message.
  destruct (Z.eqb_spec SPICE_MSGC_MIGRATE_FLUSH_MARK SPICE_MSGC_ACK_SYNC); [done|].
  destruct (Z.eqb_spec SPICE_MSGC_MIGRATE_FLUSH_MARK SPICE_MSGC_ACK); [done|].
  destruct (Z.eqb_spec SPICE_MSGC_MIGRATE_FLUSH_MARK SPICE_MSGC_DISCONNECTING); [done|].
  rewrite Z.eqb_refl. apply wp_getS. cbn [wait_migrate_flush_mark set_env set_handled].
  change (wait_migrate_flush_mark (set_env _ (set_handled _ ?s0))) with (wait_migrate_flush_mark s0).
  by rewrite F5.
Qed.

(** The buffers after a message that could not be parsed. *)
Definition broken (hb : list Z) s : Prop :=
  has_stream s = true /\ mini s = mini0 /\ connected s = false /\ header_buf s = hb /\
  header_pos s = header_size mini0 /\ msg_pos s = dec_size mini0 hb /\ in_msg s = None.

Lemma disconnect_broken hb s EE :
  connected s = true -> has_stream s = true -> mini s = mini0 -> header_buf s = hb ->
  header_pos s = header_size mini0 -> msg_pos s = dec_size mini0 hb -> in_msg s = None ->
  wp disconnect (fun _ s' => broken hb s') EE s.
Proof.
  intros Hk H1 H2 H3 H4 H5 H6. apply wp_getS. rewrite Hk. cbn [negb].
  unfold wp, pipe_clear, clear_sent_item, shutdown, emit, bindM, getS, modS. cbn beta iota.
  match goal with |- context [if ?b then _ else _] => destruct b end; unfold broken;
    destruct (cur_m s); cbn [set_m]; by repeat (split; [done|]).
Qed.

Lemma broken_receive n hb s :
  broken hb s -> 0 < dec_size mini0 hb -> exists s', receive (S n) s = Ub UbNull s'.
Proof.
  intros (H1 & H2 & H3 & H4 & H5 & H6 & H7) Hz.
  assert (wp (receive (S n)) (fun _ _ => False) (fun k _ => k = Some UbNull) s) as Hwp.
  2:{ unfold wp in Hwp. destruct (receive _ _) as [| |k s']; [done..|]. injection Hwp as ->. by eexists. }
  unfold receive. cbn [handle_incoming]. apply wp_getS. rewrite H1. cbn [negb].
  apply wp_bind, wp_getS. rewrite H2, H5, Z.ltb_irrefl. cbn [negb]. apply wp_ret. cbn [negb]. apply wp_getS.
  rewrite H2, H4. apply wp_bind, wp_getS. rewrite H6, Z.ltb_irrefl. cbn [negb]. apply wp_ret. cbn [negb].
  apply wp_bind, wp_getS. rewrite H7, bool_decide_eq_true_2 by done. by destruct (Z.ltb_spec 0 (dec_size mini0 hb)); [|lia].
Qed.

(** C34: After a message that the channel's parser refuses, [handle_incoming]
    disconnects the client and drops the buffer, but leaves the positions at
    the end of the header and of the body: a [receive] that follows, as in the
    loop of [wait_pipe_item_sent], takes the message for complete and has a
    null buffer of the message's size parsed. *)
Theorem parse_error_then_null n hb body buf w1 w2 w3 s :
  between s ->
  stream_read (header_size mini0) (env s) = (ROk hb, w1) -> Z.of_nat (length hb) = header_size mini0 ->
  0 < dec_size mini0 hb -> alloc_recv_buf (dec_type mini0 hb) (dec_size mini0 hb) w1 = (Some buf, w2) ->
  Z.of_nat (length buf) = dec_size mini0 hb ->
  stream_read (dec_size mini0 hb) w2 = (ROk body, w3) -> Z.of_nat (length body) = dec_size mini0 hb ->
  parse (dec_type mini0 hb) body = None ->
  exists s1 s2, receive (S (S n)) s = Ok tt s1 /\ connected s1 = false /\ receive (S (S n)) s1 = Ub UbNull s2.
Proof.
  intros Hs Hr Hl Hz Hal Hbl Hrb Hbo Hpar.
  assert (wp (receive (S (S n))) (fun _ s1 => broken hb s1) (fun _ _ => False) s) as Hwp.
  2:{ apply wp_Ok in Hwp as ([] & s1 & -> & Hb). destruct (broken_receive (S n) hb s1 Hb Hz) as [s2 H2].
      exists s1, s2. split; [done|]. split; [by destruct Hb as (_ & _ & ? & _)|done]. }
  pose proof Hs as (H1 & H2 & H3 & H4 & H5 & H6 & H7 & H8). pose proof (dec_size_range mini0 hb).
  unfold receive. cbn [handle_incoming]. apply wp_getS. rewrite H1. cbn [negb].
  apply wp_bind. eapply read_header_all; [done..|]. cbn [negb]. apply wp_getS.
  pattern (got_header hb w1 s). apply got_header_cases. intros s1 Hs1.
  assert (mini s1 = mini0 /\ msg_pos s1 = 0 /\ in_msg s1 = None /\ env s1 = w1 /\ has_stream s1 = true /\
    connected s1 = true /\ watch s1 <> None) as (E1 & E2 & E3 & E4 & E5 & E6 & E7) by (by destruct Hs1 as [->| ->]).
  clear Hs1. set (s2 := set_header_pos _ _).
  assert (mini s2 = mini0 /\ msg_pos s2 = 0 /\ in_msg s2 = None /\ env s2 = w1 /\ has_stream s2 = true /\
    connected s2 = true /\ watch s2 <> None /\ header_buf s2 = hb /\ header_pos s2 = header_size mini0)
    as (F1 & F2 & F3 & F4 & F5 & F6 & F7 & F8 & F9) by done. clearbody s2.
  rewrite F1, F8. apply wp_bind, wp_getS. rewrite F2. destruct (Z.ltb_spec 0 (dec_size mini0 hb)); [|lia]. cbn [negb].
  apply wp_bind. rewrite F3. apply wp_bind, wp_getS. rewrite F4, Hal. apply wp_modS, wp_ret, wp_getS, wp_modS, wp_ret, wp_getS.
  cbn [in_msg set_in_msg]. destruct (Z.ltb_spec (Z.of_nat (length buf)) (dec_size mini0 hb)); [lia|].
  apply wp_bind. change (msg_pos (set_in_msg _ (set_env _ ?s0))) with (msg_pos s0). rewrite F2, Z.sub_0_r, u32_id by lia.
  eapply red_peer_receive_all; [lia|done|exact Hrb|done|]. apply wp_modS.
  set (s3 := set_env w3 (set_in_msg (Some buf) (set_env w2 s2))). fold (note_read s3).
  assert (mini (note_read s3) = mini0 /\ msg_pos (note_read s3) = 0 /\ in_msg (note_read s3) = Some buf /\
    has_stream (note_read s3) = true /\ connected (note_read s3) = true /\ header_buf (note_read s3) = hb /\
    header_pos (note_read s3) = header_size mini0) as (G1 & G2 & G3 & G4 & G5 & G6 & G7) by (by apply note_read_cases).
  generalize dependent (note_read s3). clear s3. intros s3 G1 G2 G3 G4 G5 G6 G7. apply wp_modS, wp_getS, wp_ret.
  rewrite G2, G3, Hbo, Z.add_0_l, u32_id by lia. cbn [fmap option_fmap option_map].
  assert (store 0 body buf = body) as ->.
  { unfold store. cbn [Z.to_nat Nat.add]. rewrite take_0, drop_ge by lia. by rewrite app_nil_l, app_nil_r. }
  cbn [msg_pos set_msg_pos]. rewrite Z.eqb_refl. cbn [negb]. apply wp_bind, wp_getS.
  cbn [in_msg set_in_msg set_msg_pos]. rewrite bool_decide_eq_false_2 by done. cbn [andb]. apply wp_ret.
  unfold message_bytes. cbn [in_msg set_in_msg set_msg_pos].
  change (default [] (Some body)) with body. rewrite take_ge by lia. rewrite Hpar.
  apply wp_modS, disconnect_broken; done.
Qed.

(** C36: A [receive] that finds nothing to read still notes that bytes were
    received, since [data_read] is called with 0: the next run of the
    connectivity timer finds the client alive.  The comment at the timer says
    that a connection that has been idle is considered disconnected. *)
Theorem empty_read_is_alive n w' s :
  rest_ok mini0 s -> header_pos s < header_size mini0 -> 0 <= header_pos s -> watch s <> None ->
  is_Some (cm_timer s) -> stream_read (header_size mini0 - header_pos s) (env s) = (RAgain, w') ->
  exists s1 s2, receive (S n) s = Ok tt s1 /\ wire s1 = wire s /\ handled s1 = handled s /\ received_bytes s1 = true /\
    connectivity_timer s1 = Ok tt s2 /\ connected s2 = true.
Proof.
  intros Hr Hlt Hpos Hw Hcm Hread. pose proof (header_size_ok mini0). pose proof (watch_connected mini0 s Hr Hw) as Hk.
  assert (wp (receive (S n)) (fun _ s1 => wire s1 = wire s /\ handled s1 = handled s /\ received_bytes s1 = true /\
    connected s1 = true) (fun _ _ => False) s) as Hwp.
  2:{ apply wp_Ok in Hwp as ([] & s1 & -> & H1 & H2 & H3 & H4). exists s1. unfold connectivity_timer, connectivity_alive.
      unfold bindM, getS, modS. rewrite H3. cbn [negb andb]. destruct (cm_state s1); cbn; by eexists. }
  assert (has_stream s = true /\ mini s = mini0) as [Hst Hm] by (by destruct Hr as ((? & ? & _) & _)).
  unfold receive. cbn [handle_incoming]. apply wp_getS. rewrite Hst. cbn [negb]. apply wp_bind, wp_getS. rewrite Hm.
  destruct (Z.ltb_spec (header_pos s) (header_size mini0)); [|lia]. cbn [negb]. apply wp_bind. cbn [red_peer_receive].
  destruct (Z.eqb_spec (header_size mini0 - header_pos s) 0); [lia|]. apply wp_getS.
  rewrite bool_decide_eq_false_2 by done. apply wp_bind, wp_getS. rewrite Hread. apply wp_modS, wp_ret, wp_ret.
  apply wp_modS. cbn [cm_timer set_env]. rewrite bool_decide_eq_true_2 by done. apply wp_modS, wp_getS, wp_ret.
  cbn [header_pos set_header_pos set_header_buf mini set_received_bytes set_env length Z.of_nat].
  change (mini (set_header_pos _ (set_header_buf _ (set_received_bytes _ (set_env _ s))))) with (mini s).
  change (header_pos (set_received_bytes true (set_env w' s))) with (header_pos s).
  rewrite Hm, Z.add_0_r, u32_id by lia. destruct (Z.eqb_spec (header_pos s) (header_size mini0)); [lia|]. by apply wp_ret.
Qed.
End errors.

(** ** Instances *)

(** A message of 8 bytes of which the socket takes 3; then the client closes. *)
Definition demo_ops : list (rcc_op demo) :=
  [OpWorld (mkDemo [] 3 false 0); OpPipeAddPush (RED_PIPE_ITEM_OTHER 5); OpWorld (mkDemo [] 3 true 0)].
Definition state_of {A} (o : outcome (rcc demo) A) : rcc demo := match o with Ok _ s | Abort s | Ub _ s => s end.
Definition demo_blocked : rcc demo := state_of (iterM (run_op demo_fuel) demo_ops demo_client).

Lemma demo_ops_ok : Forall (op_ok demo_fuel) demo_ops.
Proof. repeat (apply Forall_cons; [try exact I; apply Nat.ltb_lt; vm_compute; done|]). apply Forall_nil. Qed.

Lemma demo_ops_run : match iterM (run_op demo_fuel) demo_ops demo_client with Ok _ _ => true | _ => false end = true.
Proof. vm_compute. reflexivity. Qed.

Lemma wp_state_of {A} (m : M (rcc demo) A) (Q : rcc demo -> Prop) EE s :
  wp m (fun _ s' => Q s') EE s -> match m s with Ok _ _ => true | _ => false end = true -> Q (state_of (m s)).
Proof. unfold wp. by destruct (m s). Qed.

Lemma demo_blocked_ok : rcc_ok true demo_fuel demo_blocked.
Proof.
  exact (wp_state_of _ _ _ _ (run_ops_ok true demo_fuel demo_fuel_ok _ _ demo_client_ok demo_ops_ok) demo_ops_run).
Qed.

Lemma wait_outgoing_item_hangs_witness :
  exists s', wait_outgoing_item demo_fuel 5 1000 demo_blocked = Ub UbFuel s'.
Proof.
  apply (wait_outgoing_item_hangs true demo_fuel 5 1000 (env demo_blocked));
    [apply demo_blocked_ok|vm_compute; done..|done|lia].
Defined.

Definition demo_sends (bs : list Z) : rcc demo := set_env (mkDemo bs 10 false 0) demo_client.

Lemma flush_mark_aborts_witness : exists s', receive 2 (demo_sends (demo_message 4 [])) = Abort s'.
Proof.
  apply (flush_mark_aborts true 0 (demo_message 4 []) (mkDemo [] 10 false 0) (mkDemo [] 10 false 0) []);
    try done; vm_compute; by repeat split.
Defined.

Lemma parse_error_then_null_witness :
  exists s1 s2, receive 2 (demo_sends (demo_message 77 [1; 2])) = Ok tt s1 /\ connected s1 = false /\
    receive 2 s1 = Ub UbNull s2.
Proof.
  apply (parse_error_then_null true 0 (take 6 (demo_message 77 [1; 2])) [1; 2] [0; 0] (mkDemo [1; 2] 10 false 0)
    (mkDemo [1; 2] 10 false 0) (mkDemo [] 10 false 0)); try done; vm_compute; by repeat split.
Defined.

Lemma empty_read_is_alive_witness :
  exists s1 s2, receive 1 (set_env (mkDemo [] 10 false 0) demo_monitored) = Ok tt s1 /\
    wire s1 = wire demo_monitored /\ handled s1 = handled demo_monitored /\ received_bytes s1 = true /\
    connectivity_timer s1 = Ok tt s2 /\ connected s2 = true.
Proof.
  apply (empty_read_is_alive true 0 (mkDemo [] 10 false 0) (set_env (mkDemo [] 10 false 0) demo_monitored));
    [|done..|by eexists|done]. exact (proj1 demo_monitored_ok).
Defined.
