(* ===== verification/AgentFilter.v ===== *)
(** * The agent message filter (agent-msg-filter.c)

    Messages to and from the guest agent come in chunks.  The filter looks at
    the header in the first chunk of a message, decides what becomes of the
    message, and repeats the decision for its other chunks.  The numbers of the
    agent protocol and the layout of its header (vd_agent.h of spice-protocol)
    are the parameter [VdAgent]. *)

From Stdlib Require Import ZArith Lia.
From stdpp Require Import base list numbers tactics option.
From S2P Require Import Prelude.

Open Scope Z_scope.

Inductive AgentMsgFilterResult :=
  | AGENT_MSG_FILTER_OK | AGENT_MSG_FILTER_DISCARD | AGENT_MSG_FILTER_PROTO_ERROR | AGENT_MSG_FILTER_MONITORS_CONFIG.
#[export] Instance AgentMsgFilterResult_eq_dec : EqDecision AgentMsgFilterResult.
Proof. solve_decision. Defined.

(** [msg_data_to_read] is an [int]. *)
Record AgentMsgFilter := mkFilter {
  msg_data_to_read : Z; result : AgentMsgFilterResult; copy_paste_enabled : bool; file_xfer_enabled : bool;
  use_client_monitors_config : bool; discard_all : bool }.

Class VdAgent := {
  VDAgentMessage_size : nat;                 (** sizeof(VDAgentMessage) *)
  vd_protocol : list Z -> Z; vd_type : list Z -> Z; vd_size : list Z -> Z;
  VD_AGENT_MAX_DATA_SIZE : Z; VD_AGENT_PROTOCOL : Z;
  VD_AGENT_CLIPBOARD : Z; VD_AGENT_CLIPBOARD_GRAB : Z; VD_AGENT_CLIPBOARD_REQUEST : Z; VD_AGENT_CLIPBOARD_RELEASE : Z;
  VD_AGENT_FILE_XFER_START : Z; VD_AGENT_FILE_XFER_STATUS : Z; VD_AGENT_FILE_XFER_DATA : Z;
  VD_AGENT_MONITORS_CONFIG : Z }.

Section filter.
Context `{VdAgent}.
Implicit Types (f : AgentMsgFilter).

Definition agent_msg_filter_config f (copy_paste file_xfer client_monitors_config : bool) : AgentMsgFilter :=
  mkFilter (msg_data_to_read f) (result f) copy_paste file_xfer client_monitors_config (discard_all f).

Definition agent_msg_filter_init (copy_paste file_xfer client_monitors_config discard : bool) : AgentMsgFilter :=
  let f := agent_msg_filter_config (mkFilter 0 AGENT_MSG_FILTER_OK false false false false)
             copy_paste file_xfer client_monitors_config in
  mkFilter (msg_data_to_read f) (result f) (copy_paste_enabled f) (file_xfer_enabled f)
    (use_client_monitors_config f) discard.

(** The label [data_to_read].  [len] is a [uint32_t]: the comparison and the
    subtraction are unsigned. *)
Definition data_to_read f (len : Z) : AgentMsgFilterResult * AgentMsgFilter :=
  if u32 (msg_data_to_read f) <? len then (AGENT_MSG_FILTER_PROTO_ERROR, f)
  else (result f, mkFilter (s32 (u32 (msg_data_to_read f) - len)) (result f) (copy_paste_enabled f)
                    (file_xfer_enabled f) (use_client_monitors_config f) (discard_all f)).

(** What becomes of a message of this type. *)
Definition filter_type f (type : Z) : AgentMsgFilterResult :=
  if discard_all f then AGENT_MSG_FILTER_DISCARD
  else if bool_decide (type ∈ [VD_AGENT_CLIPBOARD; VD_AGENT_CLIPBOARD_GRAB; VD_AGENT_CLIPBOARD_REQUEST;
                               VD_AGENT_CLIPBOARD_RELEASE])
  then if copy_paste_enabled f then AGENT_MSG_FILTER_OK else AGENT_MSG_FILTER_DISCARD
  else if bool_decide (type ∈ [VD_AGENT_FILE_XFER_START; VD_AGENT_FILE_XFER_STATUS; VD_AGENT_FILE_XFER_DATA])
  then if file_xfer_enabled f then AGENT_MSG_FILTER_OK else AGENT_MSG_FILTER_DISCARD
  else if type =? VD_AGENT_MONITORS_CONFIG
  then if use_client_monitors_config f then AGENT_MSG_FILTER_MONITORS_CONFIG else AGENT_MSG_FILTER_OK
  else AGENT_MSG_FILTER_OK.

Definition agent_msg_filter_process_data f (data : list Z) : AgentMsgFilterResult * AgentMsgFilter :=
  let len := Z.of_nat (length data) in
  if VD_AGENT_MAX_DATA_SIZE <? len then (AGENT_MSG_FILTER_PROTO_ERROR, f)
  else if negb (msg_data_to_read f =? 0) then data_to_read f len
  else if len <? Z.of_nat VDAgentMessage_size then (AGENT_MSG_FILTER_PROTO_ERROR, f)
  else
    let msg_header := take VDAgentMessage_size data in
    let len := len - Z.of_nat VDAgentMessage_size in
    if negb (vd_protocol msg_header =? VD_AGENT_PROTOCOL) then (AGENT_MSG_FILTER_PROTO_ERROR, f)
    else
      let f := mkFilter (s32 (vd_size msg_header)) (filter_type f (vd_type msg_header)) (copy_paste_enabled f)
                 (file_xfer_enabled f) (use_client_monitors_config f) (discard_all f) in
      if negb (msg_data_to_read f =? 0) then data_to_read f len else (result f, f).

(** ** Sequences of chunks and of changes of the configuration *)

Inductive filter_event := Chunk (data : list Z) | Config (copy_paste file_xfer client_monitors_config : bool).

Fixpoint filter_run f (evs : list filter_event) : list AgentMsgFilterResult * AgentMsgFilter :=
  match evs with
  | [] => ([], f)
  | Chunk d :: evs' =>
      let '(r, f') := agent_msg_filter_process_data f d in
      let '(rs, f'') := filter_run f' evs' in (r :: rs, f'')
  | Config a b c :: evs' => filter_run (agent_msg_filter_config f a b c) evs'
  end.

Definition chunks (evs : list filter_event) : list (list Z) :=
  omap (fun e => if e is Chunk d then Some d else None) evs.

(** ** Theorems *)

Lemma s32_u32 z : u32 (s32 z) = u32 z.
Proof.
  unfold s32, swrap, u32. set (u := uwrap 32 z). assert (0 <= u < 2 ^ 32) as Hu by (apply uwrap_range; lia).
  case_if; zbool; [by apply uwrap_id|]. unfold uwrap. change (2 ^ 32) with 4294967296 in *.
  replace (u - 4294967296) with (u + (-1) * 4294967296) by lia. by rewrite Z.mod_add, Z.mod_small by lia.
Qed.

Lemma s32_zero z : 0 <= z < 2 ^ 32 -> (s32 z =? 0) = (z =? 0).
Proof.
  intros Hz. destruct (Z.eqb_spec z 0) as [->|Hne]; [done|]. apply Z.eqb_neq. intros Hx.
  pose proof (s32_u32 z) as Hu. rewrite Hx, u32_id in Hu by lia. by rewrite u32_id in Hu by lia.
Qed.

(** [n] bytes of a message are missing; [f] repeats [r] for them. *)
Definition inside_message (r : AgentMsgFilterResult) (n : Z) f : Prop :=
  0 <= n < 2 ^ 32 /\ msg_data_to_read f = s32 n /\ result f = r.

Lemma data_to_read_ok r n f len :
  inside_message r n f -> 0 <= len <= n ->
  exists f', data_to_read f len = (r, f') /\ inside_message r (n - len) f'.
Proof.
  intros (Hn & Hm & Hr) Hl. unfold data_to_read. rewrite Hm, s32_u32, u32_id by lia.
  destruct (Z.ltb_spec n len); [lia|]. eexists. split; [by rewrite Hr|]. by split; [lia|split].
Qed.

(** The chunks after the first. *)
Lemma rest_run r evs n f :
  inside_message r n f -> Forall (fun d => d <> [] /\ Z.of_nat (length d) <= VD_AGENT_MAX_DATA_SIZE) (chunks evs) ->
  Z.of_nat (length (concat (chunks evs))) = n ->
  exists f', filter_run f evs = (replicate (length (chunks evs)) r, f') /\ inside_message r 0 f'.
Proof.
  revert n f. induction evs as [|[d|a b c] evs IH]; intros n f Hf Hall Hlen.
  - exists f. by cbn in Hlen; subst n.
  - change (chunks (Chunk d :: evs)) with (d :: chunks evs) in *. cbn [concat filter_run length replicate] in *.
    inversion Hall as [|? ? [Hne Hmax] Hall']; subst x l. rewrite length_app in Hlen.
    assert (0 < Z.of_nat (length d)) by (destruct d; [done|cbn; lia]).
    destruct (data_to_read_ok r n f (Z.of_nat (length d)) Hf ltac:(lia)) as (f1 & Hd & Hf1).
    destruct (IH (n - Z.of_nat (length d)) f1 Hf1 Hall' ltac:(lia)) as (f' & Hrun & Hf').
    exists f'. split; [|done]. unfold agent_msg_filter_process_data.
    destruct (Z.ltb_spec VD_AGENT_MAX_DATA_SIZE (Z.of_nat (length d))); [lia|].
    destruct Hf as (Hn & -> & Hr). rewrite s32_zero by done. destruct (Z.eqb_spec n 0); [lia|]. cbn [negb].
    by rewrite Hd, Hrun.
  - change (chunks (Config a b c :: evs)) with (chunks evs) in *. cbn [filter_run]. by apply (IH n).
Qed.

(** C19: The filter decides on messages as a whole.  When the chunks that
    carry a message (a header with the agent's protocol number, and as many
    bytes as its size field says, any 32-bit size) come to a filter between
    messages, all of them get the verdict that the type and the configuration
    at the first chunk imply, whatever the cutting and whatever changes of the
    configuration come in between, and the filter is between messages again. *)
Theorem filter_decides_once f hdr body evs :
  msg_data_to_read f = 0 -> length hdr = VDAgentMessage_size -> vd_protocol hdr = VD_AGENT_PROTOCOL ->
  0 <= vd_size hdr < 2 ^ 32 ->
  Forall (fun d => Z.of_nat (length d) <= VD_AGENT_MAX_DATA_SIZE) ((hdr ++ body) :: chunks evs) ->
  Forall (fun d => d <> []) (chunks evs) ->
  Z.of_nat (length (body ++ concat (chunks evs))) = vd_size hdr ->
  exists f', filter_run f (Chunk (hdr ++ body) :: evs) =
      (replicate (S (length (chunks evs))) (filter_type f (vd_type hdr)), f') /\ msg_data_to_read f' = 0.
Proof.
  intros Hz Hh Hp Hs Hmax Hne Hlen. inversion Hmax as [|? ? Hm1 Hm2]; subst x l.
  rewrite length_app in Hlen, Hm1. cbn [filter_run]. unfold agent_msg_filter_process_data.
  rewrite length_app, Hz, take_app_length' by done. cbn [Z.eqb negb].
  destruct (Z.ltb_spec VD_AGENT_MAX_DATA_SIZE (Z.of_nat (length hdr + length body))); [lia|].
  destruct (Z.ltb_spec (Z.of_nat (length hdr + length body)) (Z.of_nat VDAgentMessage_size)); [lia|].
  rewrite Hp, Z.eqb_refl. cbn [negb msg_data_to_read result]. rewrite s32_zero by done.
  assert (Forall (fun d => d <> [] /\ Z.of_nat (length d) <= VD_AGENT_MAX_DATA_SIZE) (chunks evs)) as Hall.
  { apply Forall_forall. rewrite Forall_forall in Hne, Hm2. intros x Hx. split; auto. }
  set (r := filter_type f (vd_type hdr)). set (f1 := mkFilter _ _ _ _ _ _).
  assert (inside_message r (vd_size hdr) f1) as Hf1 by done.
  destruct (Z.eqb_spec (vd_size hdr) 0) as [Hzero|Hnz]; cbn [negb].
  - destruct (rest_run r evs 0 f1) as (f' & -> & (_ & Hf' & _)); [by rewrite <- Hzero|done|lia|]. by exists f'.
  - destruct (data_to_read_ok r (vd_size hdr) f1 (Z.of_nat (length hdr + length body) - Z.of_nat VDAgentMessage_size) Hf1
      ltac:(lia)) as (f2 & -> & Hf2).
    destruct (rest_run r evs _ f2 Hf2 Hall ltac:(lia)) as (f' & -> & (_ & Hf' & _)). by exists f'.
Qed.

(** A chunk that goes beyond the end of its message, or that is larger
    than any chunk may be, is a protocol error and leaves the filter as it was. *)
Lemma filter_rejects_overrun r n f d :
  inside_message r n f -> 0 < n -> n < Z.of_nat (length d) \/ VD_AGENT_MAX_DATA_SIZE < Z.of_nat (length d) ->
  agent_msg_filter_process_data f d = (AGENT_MSG_FILTER_PROTO_ERROR, f).
Proof.
  intros (Hn & Hm & Hr) Hpos Hd. unfold agent_msg_filter_process_data.
  destruct (Z.ltb_spec VD_AGENT_MAX_DATA_SIZE (Z.of_nat (length d))); [done|].
  rewrite Hm, s32_zero by lia. destruct (Z.eqb_spec n 0); [lia|]. cbn [negb]. unfold data_to_read.
  rewrite Hm, s32_u32, u32_id by lia. destruct (Z.ltb_spec n (Z.of_nat (length d))); [done|lia].
Qed.
End filter.

(** ** An instance: the numbers of the agent protocol *)

#[local] Instance demo_vd : VdAgent := {|
  VDAgentMessage_size := 20; vd_protocol h := le_decode (take 4 h); vd_type h := le_decode (take 4 (drop 4 h));
  vd_size h := le_decode (take 4 (drop 16 h)); VD_AGENT_MAX_DATA_SIZE := 2048; VD_AGENT_PROTOCOL := 1;
  VD_AGENT_CLIPBOARD := 4; VD_AGENT_CLIPBOARD_GRAB := 7; VD_AGENT_CLIPBOARD_REQUEST := 8; VD_AGENT_CLIPBOARD_RELEASE := 9;
  VD_AGENT_FILE_XFER_START := 10; VD_AGENT_FILE_XFER_STATUS := 11; VD_AGENT_FILE_XFER_DATA := 12;
  VD_AGENT_MONITORS_CONFIG := 2 |}.

Definition demo_header : list Z := le_encode 4 1 ++ le_encode 4 4 ++ le_encode 8 0 ++ le_encode 4 5.

(** A clipboard message in three chunks; copying is enabled before the second. *)
Lemma filter_decides_once_witness :
  exists f', filter_run (agent_msg_filter_init false true true false)
      [Chunk (demo_header ++ [1; 2]); Config true true true; Chunk [3]; Chunk [4; 5]] =
      (replicate 3 AGENT_MSG_FILTER_DISCARD, f') /\ msg_data_to_read f' = 0.
Proof.
  replace AGENT_MSG_FILTER_DISCARD with (filter_type (agent_msg_filter_init false true true false) (vd_type demo_header))
    by (vm_compute; reflexivity).
  apply (filter_decides_once (agent_msg_filter_init false true true false) demo_header [1; 2]
    [Config true true true; Chunk [3]; Chunk [4; 5]]); try done.
  - repeat (apply Forall_cons; [vm_compute; discriminate|]). apply Forall_nil.
  - repeat (apply Forall_cons; [discriminate|]). apply Forall_nil.
Defined.
