(* ===== verification/WebSocket.v ===== *)
(** * WebSocket framing (websocket.c)

    The server reads and writes its byte streams through WebSocket frames when
    the client is a browser.  [websocket_read] takes the payload out of the
    client's frames, answers pings and closes; [websocket_write] and
    [websocket_writev] put data into frames, which the socket may take in
    pieces.  The callbacks on the raw stream are the parameter [WsEnv], as are
    the digest and the encoding of the handshake (glib).  [wire] is ghost state:
    the bytes given to the raw stream. *)

From Stdlib Require Import ZArith Lia Ascii String.
From stdpp Require Import base list numbers tactics option.
From S2P Require Import Prelude.

Open Scope Z_scope.
Open Scope list_scope.

Definition FIN_FLAG : Z := 0x80.
Definition RSV_MASK : Z := 0x70.
Definition TYPE_MASK : Z := 0x0F.
Definition CONTROL_FRAME_MASK : Z := 0x8.
Definition CONTINUATION_FRAME : Z := 0x0.
Definition TEXT_FRAME : Z := 0x1.
Definition BINARY_FRAME : Z := 0x2.
Definition CLOSE_FRAME : Z := 0x8.
Definition PING_FRAME : Z := 0x9.
Definition PONG_FRAME : Z := 0xA.
Definition LENGTH_MASK : Z := 0x7F.
Definition LENGTH_16BIT : Z := 0x7E.
Definition LENGTH_64BIT : Z := 0x7F.
Definition MASK_FLAG : Z := 0x80.
Definition WEBSOCKET_MAX_HEADER_SIZE : Z := 1 + 9 + 4.
Definition MAX_CONTROL_DATA : Z := 125.
Definition CONTROL_HDR_LEN : Z := 2.

(** [raw_data] is the type, the length and the data. *)
Record WebSocketControl := mkControl { raw_pos : Z; c_type : Z; data_len : Z; c_data : list Z }.

Record websocket_frame_t := mkFrame {
  f_type : Z; f_fin : Z; f_unfinished : Z; f_header : list Z; f_header_pos : Z; f_ready : bool; f_masked : bool;
  f_mask : list Z; f_relayed : Z; f_expected : Z }.

Record RedsWebSocket (W : Type) := mkWs { closed : bool; read_frame : websocket_frame_t;
  write_remainder : Z; write_header : list Z; write_header_pos : Z; write_header_len : Z;
  send_unfinished : bool; close_pending : bool; pong : WebSocketControl; pending_pong :
  WebSocketControl; wire : list Z; env : W }.
Arguments mkWs {W}.
Arguments closed {W}.
Arguments read_frame {W}.
Arguments write_remainder {W}.
Arguments write_header {W}.
Arguments write_header_pos {W}.
Arguments write_header_len {W}.
Arguments send_unfinished {W}.
Arguments close_pending {W}.
Arguments pong {W}.
Arguments pending_pong {W}.
Arguments wire {W}.
Arguments env {W}.

Definition set_closed {W} (v : bool) (s : RedsWebSocket W) : RedsWebSocket W :=
  mkWs v (read_frame s) (write_remainder s) (write_header s) (write_header_pos s)
    (write_header_len s) (send_unfinished s) (close_pending s) (pong s) (pending_pong s) (wire s)
    (env s).
Definition set_read_frame {W} (v : websocket_frame_t) (s : RedsWebSocket W) : RedsWebSocket W :=
  mkWs (closed s) v (write_remainder s) (write_header s) (write_header_pos s) (write_header_len s)
    (send_unfinished s) (close_pending s) (pong s) (pending_pong s) (wire s) (env s).
Definition set_write_remainder {W} (v : Z) (s : RedsWebSocket W) : RedsWebSocket W :=
  mkWs (closed s) (read_frame s) v (write_header s) (write_header_pos s) (write_header_len s)
    (send_unfinished s) (close_pending s) (pong s) (pending_pong s) (wire s) (env s).
Definition set_write_header {W} (v : list Z) (s : RedsWebSocket W) : RedsWebSocket W :=
  mkWs (closed s) (read_frame s) (write_remainder s) v (write_header_pos s) (write_header_len s)
    (send_unfinished s) (close_pending s) (pong s) (pending_pong s) (wire s) (env s).
Definition set_write_header_pos {W} (v : Z) (s : RedsWebSocket W) : RedsWebSocket W :=
  mkWs (closed s) (read_frame s) (write_remainder s) (write_header s) v (write_header_len s)
    (send_unfinished s) (close_pending s) (pong s) (pending_pong s) (wire s) (env s).
Definition set_write_header_len {W} (v : Z) (s : RedsWebSocket W) : RedsWebSocket W :=
  mkWs (closed s) (read_frame s) (write_remainder s) (write_header s) (write_header_pos s) v
    (send_unfinished s) (close_pending s) (pong s) (pending_pong s) (wire s) (env s).
Definition set_send_unfinished {W} (v : bool) (s : RedsWebSocket W) : RedsWebSocket W :=
  mkWs (closed s) (read_frame s) (write_remainder s) (write_header s) (write_header_pos s)
    (write_header_len s) v (close_pending s) (pong s) (pending_pong s) (wire s) (env s).
Definition set_close_pending {W} (v : bool) (s : RedsWebSocket W) : RedsWebSocket W :=
  mkWs (closed s) (read_frame s) (write_remainder s) (write_header s) (write_header_pos s)
    (write_header_len s) (send_unfinished s) v (pong s) (pending_pong s) (wire s) (env s).
Definition set_pong {W} (v : WebSocketControl) (s : RedsWebSocket W) : RedsWebSocket W :=
  mkWs (closed s) (read_frame s) (write_remainder s) (write_header s) (write_header_pos s)
    (write_header_len s) (send_unfinished s) (close_pending s) v (pending_pong s) (wire s) (env
    s).
Definition set_pending_pong {W} (v : WebSocketControl) (s : RedsWebSocket W) : RedsWebSocket W :=
  mkWs (closed s) (read_frame s) (write_remainder s) (write_header s) (write_header_pos s)
    (write_header_len s) (send_unfinished s) (close_pending s) (pong s) v (wire s) (env s).
Definition set_wire {W} (v : list Z) (s : RedsWebSocket W) : RedsWebSocket W :=
  mkWs (closed s) (read_frame s) (write_remainder s) (write_header s) (write_header_pos s)
    (write_header_len s) (send_unfinished s) (close_pending s) (pong s) (pending_pong s) v (env
    s).
Definition set_env {W} (v : W) (s : RedsWebSocket W) : RedsWebSocket W :=
  mkWs (closed s) (read_frame s) (write_remainder s) (write_header s) (write_header_pos s)
    (write_header_len s) (send_unfinished s) (close_pending s) (pong s) (pending_pong s) (wire s)
    v.

(** ** The raw stream *)

(** The results of a read ([Eof] is 0) and of a write. *)
Inductive rres := Got (bs : list Z) | Eof | RAgain | RFail.
Inductive wres := Wrote (n : Z) | WAgain | WFail.

Class WsEnv (W : Type) := {
  raw_read_cb : Z -> W -> rres * W;
  raw_write_cb : list Z -> W -> wres * W;
  raw_writev_cb : list (list Z) -> W -> wres * W;
  sha1_base64 : list Z -> list Z }.

(** ** Headers *)

Definition byte_at (bs : list Z) (i : nat) : Z := default 0 (bs !! i).

Definition get_control_raw_len (c : WebSocketControl) : Z := data_len c + CONTROL_HDR_LEN.
Definition control_init (c : WebSocketControl) (type : Z) : WebSocketControl := mkControl CONTROL_HDR_LEN type 0 (c_data c).
Definition control_sent (c : WebSocketControl) : bool := get_control_raw_len c <=? raw_pos c.
Definition pong_init (c : WebSocketControl) : WebSocketControl := control_init c (Z.lor FIN_FLAG PONG_FRAME).
Definition raw_data (c : WebSocketControl) : list Z := c_type c :: data_len c :: c_data c.

(** The length at the start of [buf], and [used]. *)
Definition extract_length (buf : list Z) (used : Z) : Z * Z :=
  let outlen := Z.land (byte_at buf 0) LENGTH_MASK in
  let used := used + 1 in
  if outlen =? LENGTH_64BIT
  then (foldl (fun acc i => Z.lor (u64 (Z.shiftl acc 8)) (byte_at buf i)) 0 (seq 1 8), used + 8)
  else if outlen =? LENGTH_16BIT
  then (Z.lor (Z.shiftl (byte_at buf 1) 8) (byte_at buf 2), used + 2)
  else (outlen, used).

Definition frame_bytes_needed (f : websocket_frame_t) : Z :=
  if f_header_pos f <? 2 then 2 - f_header_pos f
  else
    let b := byte_at (f_header f) 1 in
    let needed := 2 + (if Z.land b LENGTH_MASK =? LENGTH_64BIT then 8
                       else if Z.land b LENGTH_MASK =? LENGTH_16BIT then 2 else 0) in
    (if negb (Z.land b MASK_FLAG =? 0) then needed + 4 else needed) - f_header_pos f.

Definition websocket_clear_frame (f : websocket_frame_t) : websocket_frame_t :=
  mkFrame 0 0 (f_unfinished f) (replicate (Z.to_nat WEBSOCKET_MAX_HEADER_SIZE) 0) 0 false false (replicate 4 0) 0 0.

(** Success, and the frame. *)
Definition websocket_get_frame_header (f : websocket_frame_t) : bool * websocket_frame_t :=
  if 0 <? frame_bytes_needed f then (true, f)
  else
    let h0 := byte_at (f_header f) 0 in
    let h1 := byte_at (f_header f) 1 in
    let fin := Z.land h0 FIN_FLAG in
    let type := Z.land h0 TYPE_MASK in
    let f := mkFrame type fin (f_unfinished f) (f_header f) (f_header_pos f) (f_ready f) (f_masked f) (f_mask f)
               (f_relayed f) (f_expected f) in
    if negb (Z.land h0 RSV_MASK =? 0) then (false, f)
    else if (fin =? 0) && negb (Z.land type CONTROL_FRAME_MASK =? 0) then (false, f)
    else if 3 <=? Z.land type (Z.lnot CONTROL_FRAME_MASK) then (false, f)
    else
      let masked := negb (Z.land h1 MASK_FLAG =? 0) in
      let f := mkFrame type fin (f_unfinished f) (f_header f) (f_header_pos f) (f_ready f) masked (f_mask f)
                 (f_relayed f) (f_expected f) in
      (* the type of a continuation is the type of its first frame *)
      let data := Z.land type CONTROL_FRAME_MASK =? 0 in
      if data && (if type =? CONTINUATION_FRAME then f_unfinished f =? 0 else negb (f_unfinished f =? 0)) then (false, f)
      else
        let type := if data && (type =? CONTINUATION_FRAME) then f_unfinished f else type in
        let unfinished := if data then (if fin =? 0 then type else 0) else f_unfinished f in
        let '(expected_len, used) := extract_length (drop 1 (f_header f)) 1 in
        let mask := if masked then take 4 (drop (Z.to_nat used) (f_header f)) else f_mask f in
        let f := mkFrame type fin unfinished (f_header f) (f_header_pos f) (f_ready f) masked mask
                   (f_relayed f) expected_len in
        if negb (Z.land type CONTROL_FRAME_MASK =? 0) && (LENGTH_16BIT <=? expected_len) then (false, f)
        else (true, mkFrame type fin unfinished (f_header f) (f_header_pos f) true masked mask 0 expected_len).

Definition relay_data (bs : list Z) (f : websocket_frame_t) : list Z :=
  if f_masked f
  then imap (fun i b => Z.lxor b (byte_at (f_mask f) (Z.to_nat ((f_relayed f + Z.of_nat i) mod 4)))) bs
  else bs.

(** The header bytes. *)
Definition fill_header (len type : Z) : list Z :=
  let type := u8 (Z.land type (Z.lor FIN_FLAG TYPE_MASK)) in
  if 65535 <? len then type :: LENGTH_64BIT :: rev (le_encode 8 len)
  else if LENGTH_16BIT <=? len then [type; LENGTH_16BIT; u8 (Z.shiftr len 8); Z.land len 0xFF]
  else [type; len].

Section ws.
Context {W : Type} {E : WsEnv W}.
Abbreviation R := (M (RedsWebSocket W)).

Definition raw_read (n : Z) : R rres :=
  s ← getS; let '(r, w) := raw_read_cb n (env s) in modS (set_env w);; mret r.

(** A write of [bs]; what it took goes on the wire.  The value is [rc]. *)
Definition put (r : wres) (bs : list Z) : R Z :=
  match r with
  | Wrote n => modS (fun s => set_wire (wire s ++ take (Z.to_nat n) bs) s);; mret n
  | WAgain | WFail => mret (-1)
  end.
Definition raw_write (bs : list Z) : R Z :=
  s ← getS; let '(r, w) := raw_write_cb bs (env s) in modS (set_env w);; put r bs.
Definition raw_writev (iov : list (list Z)) : R Z :=
  s ← getS; let '(r, w) := raw_writev_cb iov (env s) in modS (set_env w);; put r (concat iov).

Definition set_frame (f : websocket_frame_t -> websocket_frame_t) : R unit :=
  modS (fun s => set_read_frame (f (read_frame s)) s).

(** ** Sending what is pending *)

Definition websocket_ack_close : R Z :=
  rc ← raw_write [Z.lor FIN_FLAG CLOSE_FRAME; 0];
  (if rc =? 2 then modS (fun s => set_closed true (set_close_pending false s)) else mret tt);;
  mret rc.

Definition send_data_header_left : R Z :=
  s ← getS;
  rc ← raw_write (take (Z.to_nat (write_header_len s - write_header_pos s))
                    (drop (Z.to_nat (write_header_pos s)) (write_header s)));
  if rc <=? 0 then mret rc
  else
    modS (fun s => set_write_header_pos (u8 (write_header_pos s + rc)) s);;
    s ← getS;
    if write_header_len s <=? write_header_pos s
    then modS (fun s => set_write_remainder (extract_length (drop 1 (write_header s)) 1).1 s);;
         mret (write_header_len s)
    else mret (-1).

(** A new header in the buffer. *)
Definition set_header (hdr : list Z) : R unit :=
  modS (fun s => set_write_header_len (Z.of_nat (length hdr))
                   (set_write_header (hdr ++ drop (length hdr) (write_header s)) s)).

Definition send_data_header (len type : Z) : R Z :=
  s ← getS;
  spice_assert (write_header_len s <=? write_header_pos s);;
  spice_assert (write_remainder s =? 0);;
  modS (set_write_header_pos 0);;
  let type := if send_unfinished s then Z.land type FIN_FLAG else type in
  set_header (fill_header len type);;
  modS (set_send_unfinished (Z.land type FIN_FLAG =? 0));;
  send_data_header_left.

(** The end of [send_pending_data]: the pong. *)
Definition send_pong : R Z :=
  s ← getS;
  if control_sent (pending_pong s) then mret 1
  else
    let p := pending_pong s in
    rc ← raw_write (take (Z.to_nat (get_control_raw_len p - raw_pos p)) (drop (Z.to_nat (raw_pos p)) (raw_data p)));
    if rc <=? 0 then mret rc
    else
      modS (set_pending_pong (mkControl (u8 (raw_pos p + rc)) (c_type p) (data_len p) (c_data p)));;
      s ← getS;
      if negb (control_sent (pending_pong s)) then mret (-1)
      else
        modS (fun s => if raw_pos (pong s) =? 0 then set_pong (pong_init (pong s)) (set_pending_pong (pong s) s) else s);;
        mret 1.

Definition send_pending_data : R Z :=
  s ← getS;
  if negb (write_remainder s =? 0) then mret 1
  else if write_header_pos s <? write_header_len s
  then rc ← send_data_header_left; if rc <=? 0 then mret rc else mret 1
  else
    rc ← (if close_pending s then websocket_ack_close else mret 1);
    if rc <=? 0 then mret rc else send_pong.

(** ** Reading *)

(** The value of [websocket_read], what is in the buffer, and the flags. *)
Definition read_result : Type := Z * list Z * Z.

Definition read_error (r : rres) (got : list Z) (flags : Z) : R read_result :=
  match r with
  | RAgain => if 0 <? Z.of_nat (length got) then mret (Z.of_nat (length got), got, flags) else mret (-1, [], flags)
  | Eof => modS (set_closed true);; mret (0, [], flags)
  | _ => mret (-1, [], flags)
  end.

(** A ping begins: its pong replaces one that is pending. *)
Definition ping_start (expected_len : Z) : R unit :=
  modS (fun s => let p := pong_init (pong s) in set_pong (mkControl (raw_pos p) (c_type p) (u8 expected_len) (c_data p)) s).

(** The bytes of a ping, and the pong when they are complete. *)
Definition ping_data (bs : list Z) (f : websocket_frame_t) : R unit :=
  modS (fun s =>
    let p := pong s in
    let bs := relay_data bs f in
    let pos := Z.to_nat (raw_pos p - CONTROL_HDR_LEN) in
    set_pong (mkControl (u8 (raw_pos p + Z.of_nat (length bs))) (c_type p) (data_len p)
                (take pos (c_data p) ++ bs ++ drop (pos + length bs) (c_data p))) s).

Definition ping_done : R unit :=
  s ← getS;
  if data_len (pong s) <=? raw_pos (pong s) - CONTROL_HDR_LEN
  then
    modS (fun s => set_pong (mkControl 0 (c_type (pong s)) (data_len (pong s)) (c_data (pong s))) s);;
    modS (fun s => if control_sent (pending_pong s)
                   then set_pong (pong_init (pong s)) (set_pending_pong (pong s) s) else s);;
    send_pending_data;;
    mret tt
  else mret tt.

Definition add_relayed (rc : Z) (f : websocket_frame_t) : websocket_frame_t :=
  mkFrame (f_type f) (f_fin f) (f_unfinished f) (f_header f) (f_header_pos f) (f_ready f) (f_masked f) (f_mask f)
    (u64 (f_relayed f + rc)) (f_expected f).

(** The bytes go to [header + header_pos]. *)
Definition store_header (bs : list Z) (f : websocket_frame_t) : websocket_frame_t :=
  mkFrame (f_type f) (f_fin f) (f_unfinished f)
    (take (Z.to_nat (f_header_pos f)) (f_header f) ++ bs ++ drop (Z.to_nat (f_header_pos f) + length bs) (f_header f))
    (f_header_pos f + Z.of_nat (length bs)) (f_ready f) (f_masked f) (f_mask f) (f_relayed f) (f_expected f).

(** The next bytes of the payload of the frame [f]: [rc] of the three branches. *)
Definition read_payload (len : Z) (f : websocket_frame_t) : R rres :=
  if (f_type f =? BINARY_FRAME) || (f_type f =? TEXT_FRAME)
  then
    if f_relayed f <? f_expected f then raw_read (Z.min len (f_expected f - f_relayed f)) else mret (Got [])
  else if f_type f =? PING_FRAME
  then
    s ← getS;
    spice_assert (data_len (pong s) =? f_expected f);;
    (if raw_pos (pong s) - CONTROL_HDR_LEN <? data_len (pong s)
     then raw_read (data_len (pong s) - (raw_pos (pong s) - CONTROL_HDR_LEN))
     else mret (Got []))
  else
    if f_relayed f <? f_expected f then raw_read (Z.min 128 (f_expected f - f_relayed f)) else mret (Got []).

(** One turn per unit of [n]. *)
Fixpoint read_loop (n : nat) (len : Z) (got : list Z) (flags : Z) : R read_result :=
  match n with
  | O => undef UbFuel
  | S n' =>
      if len <=? 0 then mret (Z.of_nat (length got), got, flags)
      else
        s ← getS;
        let f := read_frame s in
        if negb (f_ready f)
        then
          r ← raw_read (frame_bytes_needed f);
          match r with
          | Got bs =>
              set_frame (store_header bs);;
              s ← getS;
              let '(ok, f) := websocket_get_frame_header (read_frame s) in
              set_frame (fun _ => f);;
              if negb ok then modS (set_closed true);; mret (-1, [], flags)
              else
                (if f_ready f && (f_type f =? PING_FRAME) then ping_start (f_expected f) else mret tt);;
                read_loop n' len got flags
          | _ => read_error r got flags
          end
        else if f_type f =? CLOSE_FRAME
        then
          modS (set_close_pending true);; set_frame websocket_clear_frame;; send_pending_data;; mret (0, [], flags)
        else
          r ← read_payload len f;
          match r with
          | Got bs =>
              let data := (f_type f =? BINARY_FRAME) || (f_type f =? TEXT_FRAME) in
              let got := if data then got ++ relay_data bs f else got in
              let len := if data then len - Z.of_nat (length bs) else len in
              let flags := if data then f_type f else flags in
              (if negb data && (f_type f =? PING_FRAME) then ping_data bs f;; ping_done else mret tt);;
              set_frame (add_relayed (Z.of_nat (length bs)));;
              s ← getS;
              let f := read_frame s in
              if f_expected f <=? f_relayed f
              then
                let flags := if flags =? 0 then flags else Z.lor flags (f_fin f) in
                set_frame websocket_clear_frame;;
                if flags =? 0 then read_loop n' len got flags
                else mret (Z.of_nat (length got), got, flags)
              else read_loop n' len got flags
          | _ => read_error r got flags
          end
  end.

Section fuel.
Context (fuel : nat).

Definition websocket_read (len : Z) : R read_result :=
  s ← getS;
  if closed s || close_pending s then raw_read 128;; mret (0, [], 0)
  else read_loop fuel len [] 0.
End fuel.

(** ** Writing *)

Fixpoint constrain_iov (iov : list (list Z)) (maxlen : Z) : list (list Z) :=
  match iov with
  | [] => []
  | v :: iov' =>
      if maxlen <=? 0 then []
      else if maxlen <? Z.of_nat (length v) then [take (Z.to_nat maxlen) v]
      else v :: constrain_iov iov' (maxlen - Z.of_nat (length v))
  end.

Definition websocket_writev (iov : list (list Z)) (flags : Z) : R Z :=
  s ← getS;
  if closed s then mret (-1)
  else
    rc ← send_pending_data;
    if rc <=? 0 then mret rc
    else
      s ← getS;
      if 0 <? write_remainder s
      then
        rc ← raw_writev (constrain_iov iov (write_remainder s));
        (if rc <=? 0 then mret tt else modS (fun s => set_write_remainder (u64 (write_remainder s - rc)) s));;
        mret rc
      else
        let len := Z.of_nat (length (concat iov)) in
        modS (set_write_header_pos 0);;
        set_header (fill_header len flags);;
        s ← getS;
        rc ← raw_writev (take (Z.to_nat (write_header_len s)) (write_header s) :: iov);
        if rc <=? 0 then modS (set_write_header_len 0);; mret rc
        else if rc <? write_header_len s
        then modS (set_write_header_pos (u8 (write_header_len s - rc)));; mret (-1)
        else
          modS (set_write_header_pos (write_header_len s));;
          let rc := rc - write_header_len s in
          modS (set_write_remainder (u64 (len - rc)));;
          mret rc.

Definition websocket_write (buf : list Z) (flags : Z) : R Z :=
  s ← getS;
  if closed s then mret (-1)
  else
    rc ← send_pending_data;
    if rc <=? 0 then mret rc
    else
      s ← getS;
      if write_remainder s =? 0
      then
        rc ← send_data_header (Z.of_nat (length buf)) flags;
        if rc <=? 0 then mret rc
        else
          s ← getS;
          rc ← raw_write (take (Z.to_nat (write_remainder s)) buf);
          (if 0 <? rc then modS (fun s => set_write_remainder (u64 (write_remainder s - rc)) s) else mret tt);;
          mret rc
      else
        rc ← raw_write (take (Z.to_nat (Z.min (write_remainder s) (Z.of_nat (length buf)))) buf);
        (if 0 <? rc then modS (fun s => set_write_remainder (u64 (write_remainder s - rc)) s) else mret tt);;
        mret rc.
End ws.

(** ** The handshake *)

Definition bytes_of (s : string) : list Z := (fun c => Z.of_N (N_of_ascii c)) <$> String.list_ascii_of_string s.
Definition NL : Z := 10.
Definition CR : Z := 13.

Definition to_lower (b : Z) : Z := if (65 <=? b) && (b <=? 90) then b + 32 else b.

(** Whether [haystack] starts with [needle], whatever the case. *)
Fixpoint starts_with (haystack needle : list Z) : bool :=
  match needle, haystack with
  | [], _ => true
  | n :: needle', h :: haystack' => (to_lower h =? to_lower n) && starts_with haystack' needle'
  | _ :: _, [] => false
  end.

(** What comes after the first [needle], as strcasestr finds it. *)
Fixpoint find_str (haystack needle : list Z) : option (list Z) :=
  if starts_with haystack needle then Some (drop (length needle) haystack)
  else match haystack with
       | [] => None
       | _ :: haystack' => find_str haystack' needle
       end.

Definition is_space (b : Z) : bool := (b =? 32) || ((9 <=? b) && (b <=? 13)).
Fixpoint skip_spaces (bs : list Z) : list Z :=
  match bs with
  | b :: bs' => if is_space b then skip_spaces bs' else bs
  | [] => []
  end.
Definition g_strstrip (bs : list Z) : list Z := rev (skip_spaces (rev (skip_spaces bs))).

(** A C string ends at the first zero. *)
Fixpoint c_string (bs : list Z) : list Z :=
  match bs with
  | b :: bs' => if b =? 0 then [] else b :: c_string bs'
  | [] => []
  end.

Definition is_prefix (p bs : list Z) : bool := bool_decide (take (length p) bs = p).
Definition is_suffix (p bs : list Z) : bool := bool_decide (drop (length bs - length p) bs = p).

Definition KEY : list Z := NL :: bytes_of "Sec-WebSocket-Key:".
Definition PROTOCOL : list Z := NL :: bytes_of "Sec-WebSocket-Protocol:".

(** [None]: not a start; else whether there is a protocol. *)
Definition websocket_is_start (buf : list Z) : option bool :=
  if negb (is_prefix (bytes_of "GET ") buf) || bool_decide (find_str buf KEY = None)
     || negb (is_suffix [CR; NL; CR; NL] buf)
  then None
  else match find_str buf PROTOCOL with
       | Some protocol => if is_prefix (bytes_of "binary") (skip_spaces protocol) then Some true else None
       | None => Some false
       end.

(** Up to the first [b]; [None] without one. *)
Fixpoint until (b : Z) (bs : list Z) : option (list Z) :=
  match bs with
  | [] => None
  | x :: bs' => if x =? b then Some [] else cons x <$> until b bs'
  end.

Definition WEBSOCKET_GUID : list Z := bytes_of "258EAFA5-E914-47DA-95CA-C5AB0DC85B11".

Section handshake.
Context {W : Type} {E : WsEnv W}.

Definition generate_reply_key (buf : list Z) : option (list Z) :=
  match find_str buf KEY with
  | None => None
  | Some key => match until CR key with
                | None => None
                | Some k => Some (sha1_base64 (W := W) (g_strstrip k ++ WEBSOCKET_GUID))
                end
  end.

Definition CRLF : list Z := [CR; NL].

(** [None]: the key is a null pointer. *)
Definition websocket_create_reply (buf : list Z) (has_protocol : bool) : option (list Z) :=
  match generate_reply_key buf with
  | None => None
  | Some key =>
      Some (bytes_of "HTTP/1.1 101 Switching Protocols" ++ CRLF ++ bytes_of "Upgrade: WebSocket" ++ CRLF
            ++ bytes_of "Connection: Upgrade" ++ CRLF ++ bytes_of "Sec-WebSocket-Accept: " ++ key ++ CRLF
            ++ (if has_protocol then bytes_of "Sec-WebSocket-Protocol: binary" ++ CRLF else []) ++ CRLF)
  end.

Definition zero_control : WebSocketControl := mkControl 0 0 0 (replicate (Z.to_nat MAX_CONTROL_DATA) 0).
Definition zero_frame : websocket_frame_t :=
  mkFrame 0 0 0 (replicate (Z.to_nat WEBSOCKET_MAX_HEADER_SIZE) 0) 0 false false (replicate 4 0) 0 0.

Definition fresh_socket (w : W) : RedsWebSocket W :=
  mkWs false zero_frame 0 (replicate (Z.to_nat WEBSOCKET_MAX_HEADER_SIZE) 0) 0 0 false false (pong_init zero_control)
    (pong_init zero_control) [] w.

Inductive handshake := Refused | NullKey | Overflow | Accepted (ws : RedsWebSocket W).

(** [buf] are the bytes already read; [rbuf] has 4096 bytes, [outbuf] 1024. *)
Definition websocket_new (buf : list Z) (w : W) : handshake * W :=
  if 4096 <? Z.of_nat (length buf) then (Overflow, w)
  else
    let '(r, w) := raw_read_cb (4096 - Z.of_nat (length buf) - 1) w in
    match r with
    | Got bs =>
        let rbuf := c_string (buf ++ bs) in
        match websocket_is_start rbuf with
        | None => (Refused, w)
        | Some has_protocol =>
            match websocket_create_reply rbuf has_protocol with
            | None => (NullKey, w)
            | Some out =>
                if 1024 <=? Z.of_nat (length out) then (Overflow, w)
                else
                  let '(r, w) := raw_write_cb (c_string out) w in
                  match r with
                  | Wrote n =>
                      if n =? Z.of_nat (length (c_string out))
                      then (Accepted (fresh_socket w), w)
                      else (Refused, w)
                  | _ => (Refused, w)
                  end
            end
        end
    | _ => (Refused, w)
    end.
End handshake.
