(* ===== verification/WebSocketRef.v ===== *)
(** * WebSocket framing: the reference decoder

    RFC 6455 as a decoder that takes one byte at a time: the header bytes
    collected so far, or a position in a payload.  It is what the receiving end
    of either direction has to see, and it does not depend on how the bytes are
    cut. *)

From Stdlib Require Import ZArith Lia.
From stdpp Require Import base list numbers tactics option.
From S2P Require Import Prelude WebSocket.

Open Scope Z_scope.

(** ** The decoder *)

Definition be_decode (bs : list Z) : Z := foldl (fun acc b => acc * 256 + b) 0 bs.

(** What a header says. *)
Record fhdr := mkFhdr { h_type : Z; h_fin : bool; h_unf : Z; h_mask : option (list Z); h_len : Z }.

Definition ext_size (b1 : Z) : Z := if b1 mod 128 =? 127 then 8 else if b1 mod 128 =? 126 then 2 else 0.
Definition hdr_size (b1 : Z) : Z := 2 + ext_size b1 + (if 128 <=? b1 then 4 else 0).

(** How many bytes the header still needs before more can be said. *)
Definition ref_need (h : list Z) : Z :=
  if Z.of_nat (length h) <? 2 then 2 - Z.of_nat (length h) else hdr_size (byte_at h 1) - Z.of_nat (length h).

(** [unf]: the type of the message whose fragments are being received, or 0. *)
Definition ref_header (unf : Z) (h : list Z) : option fhdr :=
  let b0 := byte_at h 0 in
  let b1 := byte_at h 1 in
  let fin := 128 <=? b0 in
  let op := b0 mod 16 in
  let control := 8 <=? op in
  let ext := ext_size b1 in
  let len := if ext =? 0 then b1 mod 128 else be_decode (take (Z.to_nat ext) (drop 2 h)) in
  if negb ((b0 / 16) mod 8 =? 0) then None
  else if control && negb fin then None
  else if negb (bool_decide (op ∈ [0; 1; 2; 8; 9; 10])) then None
  else if negb control && (if op =? 0 then unf =? 0 else negb (unf =? 0)) then None
  else if control && (125 <? len) then None
  else
    let type := if op =? 0 then unf else op in
    Some (mkFhdr type fin (if control then unf else if fin then 0 else type)
            (if 128 <=? b1 then Some (take 4 (drop (2 + Z.to_nat ext) h)) else None) len).

Inductive dst :=
  | DHdr (unf : Z) (h : list Z)
  | DBody (fh : fhdr) (n : Z)   (** [n] bytes of the payload have come *)
  | DClosing | DError.

Definition is_data (type : Z) : bool := (type =? 1) || (type =? 2).
Definition unmask (mask : option (list Z)) (n b : Z) : Z :=
  match mask with Some m => Z.lxor b (byte_at m (Z.to_nat (n mod 4))) | None => b end.

(** After [n] bytes of the payload. *)
Definition body_state (fh : fhdr) (n : Z) : dst := if n <? h_len fh then DBody fh n else DHdr (h_unf fh) [].
Definition start_body (fh : fhdr) : dst := if h_type fh =? 8 then DClosing else body_state fh 0.

Definition header_state (unf : Z) (h : list Z) : dst :=
  match ref_header unf h with Some fh => start_body fh | None => DError end.

(** One byte: the state and the data it adds. *)
Definition feed (d : dst) (b : Z) : dst * list Z :=
  match d with
  | DHdr unf h => (if 0 <? ref_need (h ++ [b]) then DHdr unf (h ++ [b]) else header_state unf (h ++ [b]), [])
  | DBody fh n => (body_state fh (n + 1), if is_data (h_type fh) then [unmask (h_mask fh) n b] else [])
  | _ => (d, [])
  end.

Fixpoint deframe (d : dst) (bs : list Z) : dst * list Z :=
  match bs with
  | [] => (d, [])
  | b :: bs' => let '(d', o) := feed d b in let '(d'', os) := deframe d' bs' in (d'', o ++ os)
  end.

(** ** Chunks *)

Lemma deframe_app d bs1 bs2 :
  deframe d (bs1 ++ bs2) =
  ((deframe (deframe d bs1).1 bs2).1, (deframe d bs1).2 ++ (deframe (deframe d bs1).1 bs2).2).
Proof.
  revert d. induction bs1 as [|b bs1 IH]; intros d; cbn [app deframe].
  - cbn [fst snd]. by rewrite <- surjective_pairing.
  - destruct (feed d b) as [d' o]. rewrite IH. destruct (deframe d' bs1) as [d1 o1]. cbn [fst snd].
    destruct (deframe d1 bs2) as [d2 o2]. cbn [fst snd]. by rewrite app_assoc.
Qed.

Lemma byte_at_app h bs i : (i < length h)%nat -> byte_at (h ++ bs) i = byte_at h i.
Proof. intros Hi. unfold byte_at. by rewrite lookup_app_l. Qed.

Lemma ref_need_snoc h b : 2 <= ref_need h -> ref_need (h ++ [b]) = ref_need h - 1.
Proof.
  unfold ref_need. rewrite length_app. cbn [length]. intros Hn.
  destruct (Z.ltb_spec (Z.of_nat (length h)) 2).
  - destruct (Z.ltb_spec (Z.of_nat (length h + 1)) 2); lia.
  - destruct (Z.ltb_spec (Z.of_nat (length h + 1)) 2); [lia|]. rewrite byte_at_app by lia. lia.
Qed.

(** A chunk that is not more than the header needs. *)
Lemma deframe_header unf h bs :
  bs <> [] -> Z.of_nat (length bs) <= ref_need h ->
  deframe (DHdr unf h) bs =
  (if 0 <? ref_need (h ++ bs) then DHdr unf (h ++ bs) else header_state unf (h ++ bs), []).
Proof.
  revert h. induction bs as [|b bs IH]; intros h Hne Hl; [done|]. cbn [deframe feed].
  destruct bs as [|b' bs]; [done|].
  cbn [length] in Hl. rewrite ref_need_snoc by lia. destruct (Z.ltb_spec 0 (ref_need h - 1)); [|lia].
  rewrite IH; [|done|rewrite ref_need_snoc by lia; cbn [length]; lia]. by rewrite <- app_assoc.
Qed.

(** A chunk of a payload. *)
Lemma deframe_body fh n bs :
  0 <= n -> n + Z.of_nat (length bs) <= h_len fh -> (bs = [] -> n < h_len fh) ->
  deframe (DBody fh n) bs =
  (body_state fh (n + Z.of_nat (length bs)),
   if is_data (h_type fh) then imap (fun i b => unmask (h_mask fh) (n + Z.of_nat i) b) bs else []).
Proof.
  revert n. induction bs as [|b bs IH]; intros n Hn Hl Hne; cbn [deframe feed].
  - cbn [length imap]. rewrite Z.add_0_r. unfold body_state. destruct (Z.ltb_spec n (h_len fh)); [|by specialize (Hne eq_refl); lia].
    by destruct (is_data _).
  - cbn [length] in Hl. unfold body_state at 1. destruct (Z.ltb_spec (n + 1) (h_len fh)) as [Hlt|Hge].
    + rewrite IH by lia. cbn [length]. f_equal; [f_equal; lia|].
      destruct (is_data (h_type fh)); [|done]. cbn [imap app]. rewrite Z.add_0_r. f_equal.
      apply imap_ext. intros i x _. cbn. f_equal. lia.
    + destruct bs; [|cbn [length] in Hl; lia]. cbn [deframe length]. change (Z.of_nat 1) with 1. unfold body_state.
      destruct (Z.ltb_spec (n + 1) (h_len fh)); [lia|]. f_equal.
      destruct (is_data _); [|done]. cbn. by rewrite Z.add_0_r.
Qed.

(** ** Bytes *)

Definition byte (b : Z) : Prop := 0 <= b < 256.
Definition is_bytes (bs : list Z) : Prop := Forall byte bs.

Lemma byte_at_byte bs i : is_bytes bs -> byte (byte_at bs i).
Proof.
  intros Hb. unfold byte_at. destruct (bs !! i) eqn:E; cbn; [|unfold byte; lia]. by eapply Forall_lookup_1.
Qed.

(** A fact about every byte is checked on the 256 bytes. *)
Lemma byte_cases (Q : Z -> bool) : forallb Q (zseq 0 256) = true -> forall b, byte b -> Q b = true.
Proof.
  intros HQ b Hb. rewrite forallb_forall in HQ. apply HQ. unfold zseq. apply list_elem_of_In, list_elem_of_fmap.
  exists (Z.to_nat b). split; [unfold byte in Hb; lia|]. apply elem_of_seq. unfold byte in Hb. lia.
Qed.

(** The tests of the code on the first byte of a header. *)
Lemma byte0_bits b :
  byte b ->
  (Z.land b FIN_FLAG =? 0) = negb (128 <=? b) /\ Z.land b TYPE_MASK = b mod 16 /\
  (Z.land b RSV_MASK =? 0) = ((b / 16) mod 8 =? 0) /\
  (Z.land (b mod 16) CONTROL_FRAME_MASK =? 0) = negb (8 <=? b mod 16) /\
  (3 <=? Z.land (b mod 16) (Z.lnot CONTROL_FRAME_MASK)) = negb (bool_decide (b mod 16 ∈ [0; 1; 2; 8; 9; 10])).
Proof.
  intros Hb. assert (byte_cases0 : forallb (fun b =>
    Bool.eqb (Z.land b FIN_FLAG =? 0) (negb (128 <=? b)) && (Z.land b TYPE_MASK =? b mod 16) &&
    Bool.eqb (Z.land b RSV_MASK =? 0) ((b / 16) mod 8 =? 0) &&
    Bool.eqb (Z.land (b mod 16) CONTROL_FRAME_MASK =? 0) (negb (8 <=? b mod 16)) &&
    Bool.eqb (3 <=? Z.land (b mod 16) (Z.lnot CONTROL_FRAME_MASK)) (negb (bool_decide (b mod 16 ∈ [0; 1; 2; 8; 9; 10]))))
    (zseq 0 256) = true) by (vm_compute; reflexivity).
  pose proof (byte_cases _ byte_cases0 b Hb) as H. cbn beta in H.
  rewrite !andb_true_iff, !Bool.eqb_true_iff, Z.eqb_eq in H. tauto.
Qed.

(** And on the second. *)
Lemma byte1_bits b :
  byte b -> Z.land b LENGTH_MASK = b mod 128 /\ (Z.land b MASK_FLAG =? 0) = negb (128 <=? b).
Proof.
  intros Hb. assert (byte_cases1 : forallb (fun b => (Z.land b LENGTH_MASK =? b mod 128) &&
    Bool.eqb (Z.land b MASK_FLAG =? 0) (negb (128 <=? b))) (zseq 0 256) = true) by (vm_compute; reflexivity).
  pose proof (byte_cases _ byte_cases1 b Hb) as H. cbn beta in H.
  by rewrite andb_true_iff, Bool.eqb_true_iff, Z.eqb_eq in H.
Qed.

Lemma lor_shift a b : 0 <= a -> byte b -> Z.lor (Z.shiftl a 8) b = a * 256 + b.
Proof.
  intros Ha Hb. rewrite Z.shiftl_mul_pow2 by lia. change (2 ^ 8) with 256.
  unfold byte in Hb. rewrite <- Z.add_lor_land.
  enough (Z.land (a * 256) b = 0) by lia.
  apply Z.bits_inj'. intros n Hn. rewrite Z.land_spec, Z.bits_0. change 256 with (2 ^ 8).
  destruct (Z.lt_ge_cases n 8); [by rewrite Z.mul_pow2_bits_low by lia|].
  apply andb_false_intro2. destruct (Z.eq_dec b 0) as [->|]; [apply Z.bits_0|].
  apply Z.bits_above_log2; [lia|]. assert (Z.log2 b < 8); [|lia]. apply Z.log2_lt_pow2; lia.
Qed.

(** The loop of [extract_length] does not lose a bit of eight bytes. *)
Lemma shift_loop bs acc :
  is_bytes bs -> 0 <= acc -> (acc + 1) * 256 ^ Z.of_nat (length bs) <= 2 ^ 64 ->
  foldl (fun acc b => Z.lor (u64 (Z.shiftl acc 8)) b) acc bs = foldl (fun acc b => acc * 256 + b) acc bs.
Proof.
  revert acc. induction bs as [|b bs IH]; intros acc Hbs Ha Hl; [done|]. cbn [foldl].
  inversion Hbs as [|? ? Hb Hbs']; subst. unfold byte in Hb.
  cbn [length] in Hl. rewrite Nat2Z.inj_succ, Z.pow_succ_r in Hl by lia.
  assert (1 <= 256 ^ Z.of_nat (length bs)) by (apply (Z.pow_le_mono_r 256 0); lia).
  rewrite u64_id by (rewrite Z.shiftl_mul_pow2 by lia; nia). rewrite lor_shift by done. apply IH; [done|nia|nia].
Qed.

Lemma foldl_fmap {A B C} (f : A -> B -> A) (g : C -> B) l a : foldl f a (g <$> l) = foldl (fun a c => f a (g c)) a l.
Proof. revert a. induction l; intros ?; cbn; auto. Qed.

Lemma byte_at_seq buf i n : (i + n <= length buf)%nat -> byte_at buf <$> seq i n = take n (drop i buf).
Proof.
  intros Hl. apply list_eq. intros j. rewrite list_lookup_fmap.
  destruct (Nat.lt_ge_cases j n) as [Hj|Hj].
  - rewrite lookup_seq_lt, lookup_take_lt, lookup_drop by lia. cbn. unfold byte_at.
    by destruct (lookup_lt_is_Some_2 buf (i + j)) as [x ->]; [lia|].
  - rewrite lookup_seq_ge, lookup_take_ge by lia. done.
Qed.

Lemma byte_at_drop bs k i : byte_at (drop k bs) i = byte_at bs (k + i).
Proof. unfold byte_at. by rewrite lookup_drop. Qed.

Lemma extract_length_ref hdr :
  is_bytes hdr -> (10 <= length hdr)%nat ->
  extract_length (drop 1 hdr) 1 =
  (let ext := ext_size (byte_at hdr 1) in
   if ext =? 0 then byte_at hdr 1 mod 128 else be_decode (take (Z.to_nat ext) (drop 2 hdr)),
   2 + ext_size (byte_at hdr 1)).
Proof.
  intros Hb Hl. unfold extract_length, ext_size. rewrite !byte_at_drop. cbn [Nat.add].
  destruct (byte1_bits (byte_at hdr 1)) as [-> _]; [by apply byte_at_byte|].
  change LENGTH_64BIT with 127. change LENGTH_16BIT with 126.
  destruct (Z.eqb_spec (byte_at hdr 1 mod 128) 127).
  - f_equal. change (8 =? 0) with false. cbn beta iota. unfold be_decode.
    rewrite <- (foldl_fmap (fun acc b => Z.lor (u64 (Z.shiftl acc 8)) b) (byte_at (drop 1 hdr))).
    rewrite byte_at_seq by (rewrite length_drop; lia). rewrite drop_drop. cbn [Nat.add].
    apply shift_loop; [by apply Forall_take, Forall_drop|lia|].
    rewrite length_take, length_drop, Nat.min_l by lia. vm_compute. discriminate.
  - destruct (Z.eqb_spec (byte_at hdr 1 mod 128) 126); [|done]. f_equal.
    change (2 =? 0) with false. cbn beta iota. change (Z.to_nat 2) with 2%nat.
    rewrite <- byte_at_seq by lia. cbn. pose proof (byte_at_byte hdr 2 Hb) as H2. unfold byte in H2.
    rewrite lor_shift; [lia|lia|by apply byte_at_byte].
Qed.

(** ** The header *)

(** The frame holds what the header says. *)
Definition holds (f : websocket_frame_t) (fh : fhdr) : Prop :=
  f_type f = h_type fh /\ (f_fin f =? 0) = negb (h_fin fh) /\ f_unfinished f = h_unf fh /\ f_ready f = true /\
  f_expected f = h_len fh /\
  match h_mask fh with Some m => f_masked f = true /\ f_mask f = m | None => f_masked f = false end.

(** The header so far is [h]. *)
Definition has_header (f : websocket_frame_t) (h : list Z) : Prop :=
  is_bytes (f_header f) /\ length (f_header f) = 14%nat /\ f_header_pos f = Z.of_nat (length h) /\
  take (length h) (f_header f) = h.

Lemma byte_at_header f h i : has_header f h -> (i < length h)%nat -> byte_at (f_header f) i = byte_at h i.
Proof. intros (_ & _ & _ & H) Hi. rewrite <- H. unfold byte_at. by rewrite lookup_take_lt. Qed.

Lemma frame_bytes_needed_ref f h : has_header f h -> frame_bytes_needed f = ref_need h.
Proof.
  intros Hh. pose proof Hh as (Hb & _ & Hp & _). unfold frame_bytes_needed, ref_need, hdr_size, ext_size. rewrite Hp.
  destruct (Z.ltb_spec (Z.of_nat (length h)) 2); [done|].
  rewrite <- (byte_at_header f h 1) by (done || lia).
  destruct (byte1_bits (byte_at (f_header f) 1)) as [-> ->]; [by apply byte_at_byte|]. rewrite negb_involutive.
  change LENGTH_64BIT with 127. change LENGTH_16BIT with 126.
  repeat case_if; lia.
Qed.

Lemma ref_need_le h : Z.of_nat (length h) + ref_need h <= 14.
Proof. unfold ref_need, hdr_size, ext_size. repeat case_if; zbool; lia. Qed.

Lemma websocket_get_frame_header_short f h :
  has_header f h -> 0 < ref_need h -> websocket_get_frame_header f = (true, f).
Proof.
  intros Hh Hn. unfold websocket_get_frame_header. rewrite (frame_bytes_needed_ref f h) by done.
  by destruct (Z.ltb_spec 0 (ref_need h)); [|lia].
Qed.

Lemma ref_need_0 h : ref_need h = 0 -> (2 <= length h)%nat /\ Z.of_nat (length h) = hdr_size (byte_at h 1).
Proof. unfold ref_need. destruct (Z.ltb_spec (Z.of_nat (length h)) 2); lia. Qed.

Lemma take_drop_header f h k n :
  has_header f h -> (k + n <= length h)%nat -> take n (drop k (f_header f)) = take n (drop k h).
Proof.
  intros (_ & _ & _ & <-) Hl. rewrite length_take in Hl. rewrite skipn_firstn_comm, take_take. f_equal. lia.
Qed.

(** [websocket_get_frame_header] reads a whole header as the decoder does. *)
Lemma websocket_get_frame_header_ref f h :
  has_header f h -> ref_need h = 0 -> 0 <= f_unfinished f <= 2 ->
  match ref_header (f_unfinished f) h with
  | None => (websocket_get_frame_header f).1 = false
  | Some fh => let '(ok, f') := websocket_get_frame_header f in
               ok = true /\ holds f' fh /\ f_relayed f' = 0 /\ f_header f' = f_header f
  end.
Proof.
  intros Hh Hn Hu. pose proof Hh as (Hb & Hl & _ & _). destruct (ref_need_0 _ Hn) as [H2 Hs].
  unfold websocket_get_frame_header. rewrite (frame_bytes_needed_ref f h), Hn by done. change (0 <? 0) with false.
  cbn [f_unfinished f_mask f_header f_header_pos f_ready f_relayed f_expected f_masked].
  rewrite extract_length_ref; [|done|rewrite Hl; lia]. unfold ref_header.
  rewrite !(byte_at_header f h) by (done || lia).
  assert (is_bytes h) as Hbh by (destruct Hh as (? & _ & _ & <-); by apply Forall_take).
  destruct (byte0_bits (byte_at h 0)) as (F0 & F1 & F2 & F3 & F4); [by apply byte_at_byte|].
  destruct (byte1_bits (byte_at h 1)) as (G0 & G1); [by apply byte_at_byte|].
  rewrite F1, F2, F0, F4, G1, F3, !negb_involutive.
  assert (0 <= ext_size (byte_at h 1)) as He by (unfold ext_size; repeat case_if; lia).
  unfold hdr_size in Hs. assert (2 + ext_size (byte_at h 1) <= Z.of_nat (length h)) by (revert Hs; case_if; lia).
  rewrite (take_drop_header f h) by (done || lia). set (len := if ext_size (byte_at h 1) =? 0 then _ else _).
  set (mask := if 128 <=? byte_at h 1 then take 4 (drop _ (f_header f)) else f_mask f).
  assert ((128 <=? byte_at h 1) = true -> mask = take 4 (drop (2 + Z.to_nat (ext_size (byte_at h 1))) h)) as Hm.
  { intros Hm. unfold mask. rewrite Hm in *. rewrite Z2Nat.inj_add by lia. rewrite (take_drop_header f h) by (done || lia). done. }
  clearbody len mask.
  destruct (negb (_ =? 0)); [done|].
  assert ((125 <? len) = (LENGTH_16BIT <=? len)) as -> by
    (change LENGTH_16BIT with 126; destruct (Z.ltb_spec 125 len), (Z.leb_spec 126 len); lia).
  rewrite (andb_comm (8 <=? _)). destruct (negb (128 <=? byte_at h 0) && _) eqn:Ec; [done|].
  case_bool_decide as Ho; [|done]. cbn [negb].
  assert (forall type, 0 <= type <= 2 -> Z.land type CONTROL_FRAME_MASK = 0) as Hc.
  { intros type ?. assert (type = 0 \/ type = 1 \/ type = 2) as [->|[->| ->]] by lia; done. }
  unfold holds. set (op := byte_at h 0 mod 16) in *. clearbody op.
  rewrite !list_elem_of_In in Ho. cbn [In] in Ho.
  destruct Ho as [<-|[<-|[<-|[<-|[<-|[<-|[]]]]]]]; vm_compute (8 <=? _); cbn -[Z.land Z.leb Z.ltb f_unfinished];
  destruct (Z.eqb_spec (f_unfinished f) 0) as [Hz|Hz]; cbn -[Z.land Z.leb Z.ltb f_unfinished]; rewrite ?Hz; try done.
  all: rewrite ?(Hc (f_unfinished f)), ?(Hc 1), ?(Hc 2) by lia;
    change (Z.land 8 CONTROL_FRAME_MASK) with 8; change (Z.land 9 CONTROL_FRAME_MASK) with 8;
    change (Z.land 10 CONTROL_FRAME_MASK) with 8; cbn -[Z.land Z.leb Z.ltb f_unfinished].
  all: try (destruct (LENGTH_16BIT <=? len); [done|]).
  all: cbn -[Z.land Z.leb Z.ltb]; split; [done|split; [|done]].
  all: split; [done|split; [exact F0|split; [first [done|by destruct (128 <=? byte_at h 0)]|split; [done|split; [done|]]]]].
  all: destruct (128 <=? byte_at h 1); [split; [done|by apply Hm]|done].
Qed.


(** ** Headers as they are sent *)

Lemma be_decode_snoc bs b : be_decode (bs ++ [b]) = be_decode bs * 256 + b.
Proof. unfold be_decode. by rewrite foldl_app. Qed.

Lemma be_decode_rev bs : is_bytes bs -> be_decode (rev bs) = le_decode bs.
Proof.
  induction 1 as [|b bs Hb Hbs IH]; [done|]. cbn [rev le_decode]. rewrite be_decode_snoc, IH.
  rewrite Z.mod_small by done. lia.
Qed.

Lemma le_encode_bytes n z : is_bytes (le_encode n z).
Proof. revert z. induction n; intros z; [constructor|]. constructor; [apply Z.mod_pos_bound; lia|]. apply IHn. Qed.

Definition head_byte (type : Z) : Z := Z.land type (Z.lor FIN_FLAG TYPE_MASK).

Lemma head_byte_byte type : byte (head_byte type).
Proof.
  assert (Z.land (head_byte type) (Z.ones 8) = head_byte type) as H by (unfold head_byte; by rewrite <- Z.land_assoc).
  rewrite Z.land_ones in H by lia. unfold byte. rewrite <- H. apply Z.mod_pos_bound. lia.
Qed.

Lemma head_byte_bits type :
  (128 <=? head_byte type) = negb (Z.land type FIN_FLAG =? 0) /\ head_byte type mod 16 = Z.land type TYPE_MASK /\
  ((head_byte type / 16) mod 8 =? 0) = true.
Proof.
  destruct (byte0_bits _ (head_byte_byte type)) as (F0 & <- & <- & _).
  assert (forall k, Z.land (head_byte type) k = Z.land type (Z.land (Z.lor FIN_FLAG TYPE_MASK) k)) as Hk
    by (intros k; unfold head_byte; by rewrite Z.land_assoc).
  rewrite Hk in F0. rewrite !Hk. change (Z.land (Z.lor FIN_FLAG TYPE_MASK) FIN_FLAG) with FIN_FLAG in F0. rewrite F0, negb_involutive.
  by rewrite Z.land_0_r.
Qed.

(** The length field of a header that was filled. *)
Lemma fill_header_spec len type :
  0 <= len < 2 ^ 64 ->
  let h := fill_header len type in
  is_bytes h /\ byte_at h 0 = head_byte type /\ byte_at h 1 < 128 /\
  Z.of_nat (length h) = hdr_size (byte_at h 1) /\ (2 <= length h <= 10)%nat /\
  (if ext_size (byte_at h 1) =? 0 then byte_at h 1 mod 128
   else be_decode (take (Z.to_nat (ext_size (byte_at h 1))) (drop 2 h))) = len.
Proof.
  intros Hlen. unfold fill_header. fold (head_byte type). rewrite u8_id by apply head_byte_byte.
  change LENGTH_16BIT with 126. change LENGTH_64BIT with 127. pose proof (head_byte_byte type) as Ht.
  destruct (Z.ltb_spec 65535 len); [|destruct (Z.leb_spec 126 len)]; cbn beta zeta.
  - split_and!; try done; try (cbn; lia).
    + constructor; [done|]. constructor; [done|]. apply Forall_rev, le_encode_bytes.
    + change (be_decode (rev (le_encode 8 len)) = len). rewrite be_decode_rev by apply le_encode_bytes.
      rewrite le_decode_encode. apply Z.mod_small. done.
  - assert (Z.land len 255 = len mod 256) as Hl by (change 255 with (Z.ones 8); by rewrite Z.land_ones).
    rewrite Hl. rewrite Z.shiftr_div_pow2 by lia. change (2 ^ 8) with 256.
    pose proof (Z.div_mod len 256 ltac:(lia)). pose proof (Z.mod_pos_bound len 256 ltac:(lia)).
    assert (0 <= len / 256 < 256) by lia. rewrite u8_id by lia.
    split_and!; try done; try (cbn; lia).
    + do 4 (constructor; [first [done|unfold byte; lia]|]). constructor.
    + change (be_decode [len / 256; len mod 256] = len). unfold be_decode. cbn [foldl]. lia.
  - assert (ext_size len = 0) as He.
    { unfold ext_size. rewrite Z.mod_small by lia. destruct (Z.eqb_spec len 127); [lia|]. destruct (Z.eqb_spec len 126); lia. }
    change (byte_at [head_byte type; len] 1) with len. rewrite He. cbn [length]. split_and!; try done; try lia.
    + constructor; [done|]. constructor; [unfold byte; lia|constructor].
    + unfold hdr_size. rewrite He. destruct (Z.leb_spec 128 len); lia.
    + change (0 =? 0) with true. cbn iota. apply Z.mod_small. lia.
Qed.

(** What the header of a data frame says to an end with [unf]. *)
Definition data_hdr (unf len type : Z) : fhdr :=
  let op := Z.land type TYPE_MASK in
  let fin := negb (Z.land type FIN_FLAG =? 0) in
  let type := if op =? 0 then unf else op in
  mkFhdr type fin (if fin then 0 else type) None len.

(** A continuation continues, a text or binary frame starts a message. *)
Definition data_op (unf op : Z) : Prop := (op = 0 /\ (unf = 1 \/ unf = 2)) \/ (unf = 0 /\ (op = 1 \/ op = 2)).

Lemma ref_header_filled unf len type :
  0 <= len < 2 ^ 64 -> data_op unf (Z.land type TYPE_MASK) ->
  ref_header unf (fill_header len type) = Some (data_hdr unf len type).
Proof.
  intros Hlen Hop. destruct (fill_header_spec len type Hlen) as (_ & H0 & H1 & _ & _ & Hl).
  unfold ref_header. rewrite Hl, H0. destruct (head_byte_bits type) as (Hf & -> & Hr). rewrite Hr, Hf. cbn [negb].
  destruct (Z.leb_spec 128 (byte_at (fill_header len type) 1)); [lia|].
  unfold data_hdr. destruct Hop as [[-> [-> | ->]]|[-> [-> | ->]]]; done.
Qed.

Lemma data_hdr_is_data unf len type : data_op unf (Z.land type TYPE_MASK) -> is_data (h_type (data_hdr unf len type)) = true.
Proof. unfold data_hdr. by intros [[-> [-> | ->]]|[-> [-> | ->]]]. Qed.

Lemma start_body_data unf len type :
  data_op unf (Z.land type TYPE_MASK) -> start_body (data_hdr unf len type) = body_state (data_hdr unf len type) 0.
Proof. unfold start_body, data_hdr. by intros [[-> [-> | ->]]|[-> [-> | ->]]]. Qed.

(** A header that comes in pieces. *)
Lemma deframe_prefix unf h p :
  Z.of_nat (length h) = hdr_size (byte_at h 1) -> (2 <= length h)%nat -> (p <= length h)%nat ->
  deframe (DHdr unf []) (take p h) =
  (if (p <? length h)%nat then DHdr unf (take p h) else header_state unf h, []).
Proof.
  intros Hs H2 Hp. destruct h as [|b0 [|b1 r]]; [cbn in H2; lia..|].
  assert (forall x, ref_need (b0 :: b1 :: x) = hdr_size b1 - Z.of_nat (length (b0 :: b1 :: x))) as Hneed.
  { intros x. unfold ref_need. destruct (Z.ltb_spec (Z.of_nat (length (b0 :: b1 :: x))) 2); [cbn [length] in *; lia|done]. }
  change (byte_at (b0 :: b1 :: r) 1) with b1 in Hs. destruct p as [|[|p]]; [done|done|].
  cbn [take length] in *. cbn [deframe feed app]. change (0 <? ref_need [b0]) with true. cbn iota beta. cbn [deframe feed app].
  rewrite Hneed. cbn [length]. destruct r as [|b2 r].
  - cbn [length] in *. rewrite take_nil. cbn [deframe app]. replace (S (S p) <? 2)%nat with false by (symmetry; apply Nat.ltb_ge; lia).
    by destruct (Z.ltb_spec 0 (hdr_size b1 - Z.of_nat 2)); [lia|].
  - destruct (Z.ltb_spec 0 (hdr_size b1 - Z.of_nat 2)); [|cbn [length] in *; lia].
    destruct p as [|p]; [done|].
    rewrite deframe_header; [|done|rewrite Hneed; cbn [length] in *; rewrite length_take; lia].
    cbn [app]. rewrite Hneed. cbn [length]. rewrite length_take. cbn [length] in *.
    destruct (Nat.ltb_spec (S (S (S p))) (S (S (S (length r))))).
    + by destruct (Z.ltb_spec 0 (hdr_size b1 - Z.of_nat (S (S (Nat.min (S p) (S (length r))))))); [|lia].
    + destruct (Z.ltb_spec 0 (hdr_size b1 - Z.of_nat (S (S (Nat.min (S p) (S (length r))))))); [lia|].
      rewrite take_ge by (cbn [length]; lia). done.
Qed.

(** ** Pongs *)

Definition wf_control (p : WebSocketControl) : Prop :=
  c_type p = Z.lor FIN_FLAG PONG_FRAME /\ 0 <= data_len p <= 125 /\ length (c_data p) = 125%nat.

Definition pong_frame (p : WebSocketControl) : list Z := take (Z.to_nat (get_control_raw_len p)) (raw_data p).

Lemma pong_frame_split p :
  wf_control p -> pong_frame p = [Z.lor FIN_FLAG PONG_FRAME; data_len p] ++ take (Z.to_nat (data_len p)) (c_data p).
Proof.
  intros (Ht & Hl & _). unfold pong_frame, raw_data, get_control_raw_len. rewrite Ht.
  change CONTROL_HDR_LEN with 2. rewrite Z2Nat.inj_add by lia. change (Z.to_nat 2) with 2%nat. by rewrite Nat.add_comm.
Qed.

(** The receiver sees a control frame and no data. *)
Lemma deframe_pong p unf : wf_control p -> deframe (DHdr unf []) (pong_frame p) = (DHdr unf [], []).
Proof.
  intros Hw. rewrite pong_frame_split by done. destruct Hw as (_ & Hl & Hc).
  set (h := [Z.lor FIN_FLAG PONG_FRAME; data_len p]).
  assert (ext_size (data_len p) = 0) as He.
  { unfold ext_size. rewrite Z.mod_small by lia. destruct (Z.eqb_spec (data_len p) 127); [lia|].
    destruct (Z.eqb_spec (data_len p) 126); lia. }
  assert ((128 <=? data_len p) = false) as Hk by (apply Z.leb_gt; lia).
  assert (deframe (DHdr unf []) h = (body_state (mkFhdr 10 true unf None (data_len p)) 0, [])) as Hh.
  { pose proof (deframe_prefix unf h 2) as H. change (take 2 h) with h in H.
    rewrite H; [|unfold hdr_size; change (byte_at h 1) with (data_len p); rewrite He, Hk; done|cbn; lia..].
    change (2 <? length h)%nat with false. cbn iota. unfold header_state, ref_header.
    change (byte_at h 1) with (data_len p). rewrite He, Hk.
    change (byte_at h 0) with 138. cbn [andb orb]. change (0 =? 0) with true. cbn iota.
    rewrite (Z.mod_small (data_len p)) by lia. destruct (Z.ltb_spec 125 (data_len p)); [lia|]. done. }
  rewrite deframe_app, Hh. cbn [fst snd app]. unfold body_state at 1 2. cbn [h_len].
  destruct (Z.ltb_spec 0 (data_len p)).
  - rewrite deframe_body; cbn [h_len h_type]; rewrite ?length_take; [|lia|lia|].
    + change (is_data 10) with false. cbn [fst snd app]. unfold body_state. cbn [h_len h_unf].
      by match goal with |- context [if ?b then _ else _] => replace b with false by (symmetry; apply Z.ltb_ge; lia) end.
    + intros _. lia.
  - replace (data_len p) with 0 by lia. done.
Qed.
