(* ===== verification/WebSocketOk.v ===== *)
(** * WebSocket framing: the sending side

    The laws of the raw stream, the invariant of a socket and the proofs that
    whatever is sent keeps the receiving end in step: what the reference decoder
    makes of the wire is the data that the writes reported as taken. *)

From Stdlib Require Import ZArith Lia.
From stdpp Require Import base list numbers tactics option.
From S2P Require Import Prelude WebSocket WebSocketRef.

Open Scope Z_scope.

(** Read a field of an updated socket. *)
Ltac ws_simp :=
  cbn [set_closed set_read_frame set_write_remainder set_write_header set_write_header_pos set_write_header_len
       set_send_unfinished set_close_pending set_pong set_pending_pong set_wire set_env closed read_frame write_remainder
       write_header write_header_pos write_header_len send_unfinished close_pending pong pending_pong wire env].

(** ** The raw stream *)

(** [avail]: the bytes the peer has sent and nobody has read; [eof], [failed]:
    the stream has reported its end, an error other than "try again". *)
Class WsStream (W : Type) {E : WsEnv W} := {
  avail : W -> list Z;
  eof : W -> bool;
  failed : W -> bool;
  raw_read_law n w :
    0 < n ->
    (eof w = true -> eof (raw_read_cb n w).2 = true) /\ (failed w = true -> failed (raw_read_cb n w).2 = true) /\
    match raw_read_cb n w with
    | (Got bs, w') => bs <> [] /\ Z.of_nat (length bs) <= n /\ is_bytes bs /\ avail w = bs ++ avail w'
    | (Eof, w') => eof w' = true /\ avail w' = avail w
    | (RAgain, w') => avail w' = avail w
    | (RFail, w') => failed w' = true /\ avail w' = avail w
    end;
  raw_write_law bs w :
    let '(r, w') := raw_write_cb bs w in
    (eof w = true -> eof w' = true) /\ (failed w = true -> failed w' = true) /\ avail w' = avail w /\
    match r with Wrote n => 0 <= n <= Z.of_nat (length bs) | _ => True end }.

Lemma be_decode_range bs : is_bytes bs -> 0 <= be_decode bs < 256 ^ Z.of_nat (length bs).
Proof.
  induction bs as [|b bs IH] using rev_ind; [done|]. intros [Hb [Hb1 _]%Forall_cons_1]%Forall_app. rewrite be_decode_snoc, length_app.
  cbn [length]. rewrite Nat2Z.inj_add, Z.pow_add_r by lia. destruct Hb1. specialize (IH Hb). lia.
Qed.

Lemma extract_length_range hdr :
  is_bytes hdr -> length hdr = 14%nat -> 0 <= (extract_length (drop 1 hdr) 1).1 < 2 ^ 64.
Proof.
  intros Hb Hl. rewrite extract_length_ref by (done || lia). cbn [fst]. cbn zeta.
  destruct (Z.eqb_spec (ext_size (byte_at hdr 1)) 0) as [|Hz]; [pose proof (Z.mod_pos_bound (byte_at hdr 1) 128); lia|].
  pose proof (be_decode_range (take (Z.to_nat (ext_size (byte_at hdr 1))) (drop 2 hdr))) as Hr.
  rewrite length_take, length_drop, Hl in Hr. specialize (Hr ltac:(by apply Forall_take, Forall_drop)).
  unfold ext_size in Hr, Hz. unfold ext_size. destruct (_ =? 127); [exact Hr|]. destruct (_ =? 126); [|done].
  change (256 ^ Z.of_nat (Z.to_nat 2 `min` (14 - 2))) with 65536 in Hr. lia.
Qed.

Section sending.
Context {W : Type} {E : WsEnv W} {L : WsStream W}.
Implicit Types (s : RedsWebSocket W) (EE : option ub_kind -> RedsWebSocket W -> Prop).

(** From [w] to [w'] only writes happened. *)
Definition later (w w' : W) : Prop :=
  (eof w = true -> eof w' = true) /\ (failed w = true -> failed w' = true) /\ avail w' = avail w.

Lemma later_refl w : later w w.
Proof. by split_and!. Qed.
Lemma later_trans w1 w2 w3 : later w1 w2 -> later w2 w3 -> later w1 w3.
Proof. intros (H1 & H2 & H3) (G1 & G2 & G3). split_and!; [tauto|tauto|congruence]. Qed.

Lemma wp_raw_write bs (Q : Z -> RedsWebSocket W -> Prop) EE s :
  (forall rc w', later (env s) w' -> -1 <= rc <= Z.of_nat (length bs) ->
     Q rc (set_wire (wire s ++ take (Z.to_nat rc) bs) (set_env w' s))) ->
  wp (raw_write bs) Q EE s.
Proof.
  intros HQ. unfold raw_write. apply wp_getS. pose proof (raw_write_law bs (env s)) as HL.
  destruct (raw_write_cb bs (env s)) as [r w']. destruct HL as (H1 & H2 & H3 & H4).
  apply wp_modS. destruct r as [n| |]; cbn [put].
  - apply wp_modS, wp_ret. apply HQ; [done|lia].
  - apply wp_ret. specialize (HQ (-1) w'). rewrite app_nil_r in HQ. apply HQ; [done|lia].
  - apply wp_ret. specialize (HQ (-1) w'). rewrite app_nil_r in HQ. apply HQ; [done|lia].
Qed.

(** ** The invariant *)

Definition open (s : RedsWebSocket W) : Prop := closed s = false /\ close_pending s = false.
Definition shut (s : RedsWebSocket W) : Prop := closed s = true \/ close_pending s = true.

(** Bounds that hold in every state. *)
Definition header_ok (s : RedsWebSocket W) : Prop :=
  is_bytes (write_header s) /\ length (write_header s) = 14%nat /\ 0 <= write_header_pos s <= 14 /\
  0 <= write_header_len s <= 10 /\ 0 <= write_remainder s < 2 ^ 64.
Definition control_ok (p : WebSocketControl) : Prop := wf_control p /\ 0 <= raw_pos p <= data_len p + 2.
Definition basic (s : RedsWebSocket W) : Prop := header_ok s /\ control_ok (pong s) /\ control_ok (pending_pong s).

(** Nothing of the pong, or all of it, is on the wire. *)
Definition quiet (p : WebSocketControl) : Prop := raw_pos p = 0 \/ raw_pos p = data_len p + 2.

(** Where the receiver is, and the type of its unfinished message once it has
    the header that is being sent. *)
Inductive wphase (s : RedsWebSocket W) : dst -> Z -> Prop :=
  | ph_body fh n :
      0 < write_remainder s -> write_header_len s <= write_header_pos s -> is_data (h_type fh) = true ->
      h_mask fh = None -> 0 <= n -> h_len fh = n + write_remainder s -> quiet (pending_pong s) ->
      wphase s (DBody fh n) (h_unf fh)
  | ph_header unf flen type :
      write_remainder s = 0 -> write_header_pos s < write_header_len s ->
      take (Z.to_nat (write_header_len s)) (write_header s) = fill_header flen type -> 0 <= flen < 2 ^ 64 ->
      data_op unf (Z.land type TYPE_MASK) -> quiet (pending_pong s) ->
      wphase s (DHdr unf (take (Z.to_nat (write_header_pos s)) (write_header s))) (h_unf (data_hdr unf flen type))
  | ph_idle unf :
      write_remainder s = 0 -> write_header_len s <= write_header_pos s ->
      wphase s (deframe (DHdr unf []) (take (Z.to_nat (raw_pos (pending_pong s))) (pong_frame (pending_pong s)))).1 unf.

(** The receiver has got [out] from the wire. *)
Definition sends (s : RedsWebSocket W) (out : list Z) : Prop :=
  exists unf, wphase s (deframe (DHdr 0 []) (wire s)).1 unf /\ (deframe (DHdr 0 []) (wire s)).2 = out /\
              (unf = 0 \/ unf = 1 \/ unf = 2) /\ send_unfinished s = negb (unf =? 0).

Lemma quiet_state p unf :
  wf_control p -> quiet p -> (deframe (DHdr unf []) (take (Z.to_nat (raw_pos p)) (pong_frame p))).1 = DHdr unf [].
Proof.
  intros Hw [Hq|Hq]; rewrite Hq; [done|]. unfold pong_frame. rewrite take_take.
  change (data_len p + 2) with (get_control_raw_len p). rewrite Nat.min_id. fold (pong_frame p). by rewrite deframe_pong.
Qed.

Lemma length_pong_frame p : wf_control p -> Z.of_nat (length (pong_frame p)) = data_len p + 2.
Proof. intros Hw. rewrite pong_frame_split by done. destruct Hw as (_ & ? & Hc). rewrite length_app, length_take, Hc. cbn [length]. lia. Qed.

Lemma pong_no_data p unf n : wf_control p -> (deframe (DHdr unf []) (take n (pong_frame p))).2 = [].
Proof.
  intros Hw. pose proof (deframe_pong p unf Hw) as H. rewrite <- (take_drop n (pong_frame p)), deframe_app in H.
  by apply (f_equal snd), app_eq_nil in H as [? _].
Qed.

(** The fields that decide what the wire means. *)
Definition same_sender (s s' : RedsWebSocket W) : Prop :=
  write_remainder s' = write_remainder s /\ write_header s' = write_header s /\
  write_header_pos s' = write_header_pos s /\ write_header_len s' = write_header_len s /\
  send_unfinished s' = send_unfinished s /\ wire s' = wire s.
(** What sending leaves alone: the frame, and the pong of a ping that has begun. *)
Definition same_input (s s' : RedsWebSocket W) : Prop :=
  read_frame s' = read_frame s /\ (raw_pos (pong s) <> 0 -> pong s' = pong s).
Definition same_reader (s s' : RedsWebSocket W) : Prop :=
  same_input s s' /\ closed s' = closed s /\ close_pending s' = close_pending s.

Lemma same_input_trans s1 s2 s3 : same_input s1 s2 -> same_input s2 s3 -> same_input s1 s3.
Proof.
  intros [H1 H2] [G1 G2]. split; [congruence|]. intros Hp. specialize (H2 Hp). rewrite H2 in G2. rewrite G2; done.
Qed.

Lemma sends_pending s s' out :
  sends s out -> same_sender s s' -> wf_control (pending_pong s) -> wf_control (pending_pong s') ->
  pending_pong s' = pending_pong s \/ (quiet (pending_pong s) /\ quiet (pending_pong s')) -> sends s' out.
Proof.
  intros (unf & Hph & Hd & Hu & Hs) (E1 & E2 & E3 & E4 & E5 & E6) Hw Hw' Hp.
  exists unf. rewrite E6, E5. refine (conj _ (conj Hd (conj Hu Hs))).
  assert (quiet (pending_pong s) -> quiet (pending_pong s')) as Hq by (destruct Hp as [->|[? ?]]; tauto).
  destruct Hph as [fh n|unf flen type|unf].
  - apply ph_body; rewrite ?E1, ?E3, ?E4; auto.
  - rewrite <- E2, <- E3. eapply ph_header; rewrite ?E1, ?E2, ?E3, ?E4; eauto.
  - assert ((deframe (DHdr unf []) (take (Z.to_nat (raw_pos (pending_pong s))) (pong_frame (pending_pong s)))).1 =
            (deframe (DHdr unf []) (take (Z.to_nat (raw_pos (pending_pong s'))) (pong_frame (pending_pong s')))).1) as ->.
    { destruct Hp as [->|[? ?]]; [done|]. by rewrite !quiet_state. }
    apply ph_idle; rewrite ?E1, ?E3, ?E4; auto.
Qed.

(** A header on the wire, up to [n] bytes. *)
Lemma header_sent unf flen type n :
  0 <= flen < 2 ^ 64 -> data_op unf (Z.land type TYPE_MASK) ->
  let h := fill_header flen type in
  (n <= length h)%nat ->
  deframe (DHdr unf []) (take n h) =
  (if (n <? length h)%nat then DHdr unf (take n h) else body_state (data_hdr unf flen type) 0, []).
Proof.
  intros Hl Ho h Hn. destruct (fill_header_spec flen type Hl) as (_ & _ & _ & Hs & [H2 _] & _).
  rewrite deframe_prefix by done. destruct (n <? length h)%nat; [done|].
  unfold header_state, h. by rewrite ref_header_filled, start_body_data by done.
Qed.

Lemma header_sent_more unf flen type n k :
  0 <= flen < 2 ^ 64 -> data_op unf (Z.land type TYPE_MASK) ->
  let h := fill_header flen type in
  (n < length h)%nat -> (n + k <= length h)%nat ->
  deframe (DHdr unf (take n h)) (take k (drop n h)) =
  (if (n + k <? length h)%nat then DHdr unf (take (n + k) h) else body_state (data_hdr unf flen type) 0, []).
Proof.
  intros Hl Ho h Hn Hk. pose proof (header_sent unf flen type (n + k) Hl Ho Hk) as H. cbn zeta in H. fold h in H.
  pose proof (header_sent unf flen type n Hl Ho ltac:(fold h; lia)) as H0. cbn zeta in H0. fold h in H0.
  rewrite <- H, <- take_take_drop, deframe_app, H0.
  destruct (Nat.ltb_spec n (length h)); [|lia]. cbn [fst snd app]. by rewrite <- surjective_pairing.
Qed.

(** The remainder that [send_data_header_left] reads back from the header. *)
Lemma remainder_filled hdr flen type :
  is_bytes hdr -> length hdr = 14%nat -> 0 <= flen < 2 ^ 64 ->
  take (length (fill_header flen type)) hdr = fill_header flen type -> (extract_length (drop 1 hdr) 1).1 = flen.
Proof.
  intros Hb Hl Hf Ht. destruct (fill_header_spec flen type Hf) as (_ & _ & Hk & Hs & [H2 _] & Hlen).
  rewrite extract_length_ref by (done || lia). cbn [fst].
  assert (has_header (mkFrame 0 0 0 hdr (Z.of_nat (length (fill_header flen type))) false false [] 0 0) (fill_header flen type)) as Hh
    by (unfold has_header; cbn [f_header f_header_pos]; by split_and!).
  pose proof (byte_at_header _ _ 1 Hh ltac:(lia)) as Hb1. cbn [f_header] in Hb1.
  pose proof (fun n => take_drop_header _ _ 2 n Hh) as Hd. cbn [f_header] in Hd.
  unfold hdr_size in Hs. destruct (Z.leb_spec 128 (byte_at (fill_header flen type) 1)); [lia|].
  cbn zeta. rewrite Hb1, Hd; [done|]. assert (0 <= ext_size (byte_at (fill_header flen type) 1)) by (unfold ext_size; repeat case_if; lia). lia.
Qed.

(** Stops for nothing. *)
Definition never (k : option ub_kind) (s : RedsWebSocket W) : Prop := False.

(** What the header phase says of the wire after [k] more bytes of the header. *)
Lemma sends_header s s' out k :
  sends s out -> basic s -> write_header_pos s < write_header_len s ->
  0 <= k <= write_header_len s - write_header_pos s ->
  wire s' = wire s ++ take (Z.to_nat k) (drop (Z.to_nat (write_header_pos s)) (write_header s)) ->
  write_header s' = write_header s -> write_header_len s' = write_header_len s ->
  write_header_pos s' = write_header_pos s + k -> send_unfinished s' = send_unfinished s ->
  pending_pong s' = pending_pong s ->
  write_remainder s' = (if k =? write_header_len s - write_header_pos s
                        then (extract_length (drop 1 (write_header s)) 1).1 else write_remainder s) ->
  sends s' out.
Proof.
  intros (unf' & Hph & Hd & Hu & Hsu) ((Hhb & Hhl & Hp & Hl & Hr) & _ & [Hwp _]) Hlt Hk Hw E1 E2 E3 E4 E5 E6.
  exists unf'. rewrite E4, Hw, deframe_app. remember (deframe (DHdr 0 []) (wire s)).1 as d eqn:Ed. rewrite Hd.
  destruct Hph as [fh n|unf flen type Hr0 _ Ht Hf Hop Hq|unf]; [lia| |lia].
  set (h := fill_header flen type) in *. assert (Z.of_nat (length h) = write_header_len s) as Hlh
    by (rewrite <- Ht, length_take; lia).
  assert (forall n, (n <= length h)%nat -> take n (write_header s) = take n h) as Htk
    by (intros n ?; rewrite <- Ht, take_take; f_equal; lia).
  assert (take (Z.to_nat k) (drop (Z.to_nat (write_header_pos s)) (write_header s)) =
          take (Z.to_nat k) (drop (Z.to_nat (write_header_pos s)) h)) as ->
    by (rewrite <- Ht, skipn_firstn_comm, take_take; f_equal; lia).
  rewrite (Htk (Z.to_nat (write_header_pos s))) by lia.
  pose proof (header_sent_more unf flen type (Z.to_nat (write_header_pos s)) (Z.to_nat k) Hf Hop) as Hm.
  cbn zeta in Hm. fold h in Hm. rewrite Hm by lia. clear Hm. cbn [fst snd]. rewrite app_nil_r.
  refine (conj _ (conj eq_refl (conj Hu Hsu))).
  destruct (Nat.ltb_spec (Z.to_nat (write_header_pos s) + Z.to_nat k) (length h)) as [Hlt'|Hge].
  - rewrite <- Htk, <- E1 by lia. replace (Z.to_nat (write_header_pos s) + Z.to_nat k)%nat with (Z.to_nat (write_header_pos s')) by lia.
    destruct (Z.eqb_spec k (write_header_len s - write_header_pos s)); [lia|].
    eapply ph_header; rewrite ?E1, ?E2, ?E5; eauto; lia.
  - replace k with (write_header_len s - write_header_pos s) in E6 at 1 by lia. rewrite Z.eqb_refl in E6.
    rewrite (remainder_filled _ flen type) in E6 by (done || (fold h; rewrite Htk by done; apply firstn_all)).
    unfold body_state. cbn [h_len data_hdr]. destruct (Z.ltb_spec 0 flen).
    + apply ph_body; rewrite ?E5; try done; try lia. by apply data_hdr_is_data.
    + rewrite <- (quiet_state (pending_pong s')) by (by rewrite E5). apply ph_idle; lia.
Qed.

(** A step of the sender: bounds kept, nothing read, and the receiver in step. *)
Definition sender_step (out : list Z) (s s' : RedsWebSocket W) : Prop :=
  same_input s s' /\ basic s' /\ later (env s) (env s') /\
  (shut s <-> shut s') /\ (open s -> sends s out -> open s' /\ sends s' out).

Lemma sender_step_open out s s' :
  same_reader s s' -> basic s' -> later (env s) (env s') -> (open s -> sends s out -> sends s' out) -> sender_step out s s'.
Proof.
  unfold sender_step, open, shut. intros (H1 & H2 & H3) Hb Hl Hs. rewrite H2, H3. split; [done|]. split; [done|]. tauto.
Qed.

Lemma sender_step_intro out s s' :
  same_reader s s' -> basic s' -> later (env s) (env s') -> (sends s out -> sends s' out) -> sender_step out s s'.
Proof. intros. apply sender_step_open; auto. Qed.

Lemma sender_step_refl out s : basic s -> sender_step out s s.
Proof. intros Hb. apply sender_step_intro; [done|done|apply later_refl|done]. Qed.

Lemma sender_step_trans out s1 s2 s3 : sender_step out s1 s2 -> sender_step out s2 s3 -> sender_step out s1 s3.
Proof.
  intros (H1 & H2 & H3 & H4 & H5) (G1 & G2 & G3 & G4 & G5). unfold sender_step. split; [by eapply same_input_trans|]. split; [done|].
  split; [by eapply later_trans|]. split; [tauto|]. intros Ho Hs. destruct (H5 Ho Hs). tauto.
Qed.

Lemma send_data_header_left_spec s out :
  basic s -> write_header_pos s < write_header_len s ->
  wp send_data_header_left (fun rc s' =>
    sender_step out s s' /\ pong s' = pong s /\ pending_pong s' = pending_pong s /\
    send_unfinished s' = send_unfinished s /\ (0 < rc -> write_header_len s' <= write_header_pos s')) never s.
Proof.
  intros Hb Hlt. pose proof Hb as ((Hhb & Hhl & Hp & Hl & Hr) & Hpg & Hpd).
  unfold send_data_header_left. apply wp_getS, wp_bind, wp_raw_write. intros rc w' Hlat Hrc.
  rewrite length_take, length_drop, Hhl in Hrc. rewrite take_take, Nat.min_l by lia. case_if; zbool.
  - apply wp_ret. rewrite (Z2Nat.nonpos rc) by lia. cbn [take]. rewrite app_nil_r.
    split; [|do 3 (split; [done|]); lia]. apply sender_step_intro; try done.
    intros Hs. eapply (sends_pending s); try done; [by destruct Hpd..|by left].
  - apply wp_modS, wp_getS. ws_simp. rewrite ?u8_id by lia. case_if; zbool.
    + apply wp_modS, wp_ret. ws_simp. rewrite ?u8_id by lia. split; [|do 3 (split; [done|]); lia].
      pose proof (extract_length_range _ Hhb Hhl) as Hx.
      apply sender_step_intro; [done| |done|].
      * refine (conj _ (conj Hpg Hpd)). unfold header_ok. ws_simp. rewrite ?u8_id by lia. repeat (split; [done|]). split; [lia|done].
      * intros Hs. eapply (sends_header s _ _ rc); try done; ws_simp; rewrite ?u8_id by lia; try lia.
        by destruct (Z.eqb_spec rc (write_header_len s - write_header_pos s)); [|lia].
    + apply wp_ret. split; [|do 3 (split; [done|]); lia]. apply sender_step_intro; [done| |done|].
      * refine (conj _ (conj Hpg Hpd)). unfold header_ok. ws_simp. rewrite ?u8_id by lia. repeat (split; [done|]). split; [lia|done].
      * intros Hs. eapply (sends_header s _ _ rc); try done; ws_simp; rewrite ?u8_id by lia; try lia.
        by destruct (Z.eqb_spec rc (write_header_len s - write_header_pos s)); [lia|].
Qed.

(** The flags of a caller: a text or binary frame, the last or not. *)
Definition data_flags (type : Z) : Prop := Z.land type TYPE_MASK = 1 \/ Z.land type TYPE_MASK = 2.

Lemma new_header s len type :
  basic s -> 0 <= len < 2 ^ 64 ->
  let h := fill_header len type in
  let s' := set_write_header_len (Z.of_nat (length h)) (set_write_header (h ++ drop (length h) (write_header s))
              (set_write_header_pos 0 s)) in
  basic s' /\ 0 < write_header_len s' /\ take (Z.to_nat (write_header_len s')) (write_header s') = h.
Proof.
  intros ((Hhb & Hhl & Hp & Hl & Hr) & Hpg & Hpd) Hlen h s'.
  destruct (fill_header_spec len type Hlen) as (Hb & _ & _ & _ & [H2 H10] & _). fold h in Hb, H2, H10.
  split; [refine (conj _ (conj Hpg Hpd)); unfold header_ok; unfold s'; ws_simp|].
  - split; [apply Forall_app; split; [done|by apply Forall_drop]|]. rewrite length_app, length_drop. split; [lia|]. lia.
  - unfold s'. ws_simp. split; [lia|]. by rewrite Nat2Z.id, take_app_length.
Qed.

Lemma send_data_header_spec s out len type :
  basic s -> write_header_len s <= write_header_pos s -> write_remainder s = 0 -> 0 <= len < 2 ^ 64 ->
  data_flags type -> (open s -> sends s out -> quiet (pending_pong s)) ->
  wp (send_data_header len type) (fun rc s' =>
    sender_step out s s' /\ pong s' = pong s /\ pending_pong s' = pending_pong s /\
    (0 < rc -> write_header_len s' <= write_header_pos s')) never s.
Proof.
  intros Hb Hle Hr Hlen Hty Hq. unfold send_data_header. apply wp_getS, wp_bind, wp_assert; [intros _|intros H; zbool; lia].
  apply wp_bind, wp_assert; [intros _|intros H; zbool; lia]. apply wp_modS. set (ty := if send_unfinished s then _ else _).
  unfold set_header. apply wp_modS, wp_modS. destruct (new_header s len ty Hb Hlen) as (Hb1 & Hl1 & Ht1). cbn zeta in Hb1, Hl1, Ht1.
  set (s1 := set_send_unfinished _ _). assert (basic s1) as Hb1' by exact Hb1.
  assert (sender_step out s s1) as Hst.
  { apply sender_step_open; [done|done|apply later_refl|]. intros Ho Hs. specialize (Hq Ho Hs).
    destruct Hs as (unf & Hph & Hd & Hu & Hsu).
    exists (h_unf (data_hdr unf len ty)). unfold s1. ws_simp. split; [|split; [done|]].
    - remember (deframe (DHdr 0 []) (wire s)).1 as d eqn:Ed. destruct Hph as [fh n|unf flen type0|unf]; [lia..|].
      rewrite quiet_state by (done || by apply Hb). fold s1.
      change (DHdr unf []) with (DHdr unf (take (Z.to_nat (write_header_pos s1)) (write_header s1))).
      apply ph_header; try done.
      unfold ty. rewrite Hsu. destruct Hu as [->|Hu]; [by right|]. left. destruct Hu as [->| ->]; cbn [Z.eqb negb];
        rewrite <- Z.land_assoc, Z.land_0_r; auto.
    - unfold data_hdr. cbn [h_unf].
      assert (Z.land ty FIN_FLAG = Z.land type FIN_FLAG) as Hfin by (unfold ty; destruct (send_unfinished s); [by rewrite <- Z.land_assoc|done]).
      rewrite Hfin. destruct (Z.land type FIN_FLAG =? 0); cbn [negb]; [|by split; [left|]].
      unfold ty. rewrite Hsu. destruct Hu as [->|[->| ->]]; cbn [Z.eqb negb]; rewrite <- ?Z.land_assoc, ?Z.land_0_r; cbn [Z.eqb];
        [destruct Hty as [->| ->]; auto|auto..]. }
  eapply wp_conseq; [apply (send_data_header_left_spec s1 out Hb1'); unfold s1; ws_simp; done|].
  intros rc s' (H1 & H2 & H3 & _ & H4). split; [by eapply sender_step_trans|]. by split.
Qed.

Lemma control_sent_quiet p : control_ok p -> control_sent p = true -> quiet p.
Proof. intros [_ Hp] Hs. unfold control_sent, get_control_raw_len in Hs. change CONTROL_HDR_LEN with 2 in Hs. zbool. right. lia. Qed.

Lemma pong_init_ok p : control_ok p -> control_ok (pong_init p).
Proof.
  intros [(_ & _ & Hc) _]. split; [split; [done|split; [cbn; lia|done]]|].
  change (raw_pos (pong_init p)) with 2. change (data_len (pong_init p)) with 0. lia.
Qed.

(** [k] more bytes of the pong. *)
Lemma sends_pong s s' out k :
  sends s out -> basic s -> write_remainder s = 0 -> write_header_len s <= write_header_pos s ->
  let p := pending_pong s in
  0 <= k -> raw_pos p + k <= get_control_raw_len p ->
  wire s' = wire s ++ take (Z.to_nat k) (drop (Z.to_nat (raw_pos p)) (raw_data p)) ->
  write_header_len s' = write_header_len s -> write_header_pos s' = write_header_pos s ->
  write_remainder s' = write_remainder s -> send_unfinished s' = send_unfinished s ->
  pending_pong s' = mkControl (raw_pos p + k) (c_type p) (data_len p) (c_data p) -> sends s' out.
Proof.
  intros (unf & Hph & Hd & Hu & Hs) (_ & _ & [Hw Hpos]) Hr Hle p Hk Hlen E1 E2 E3 E4 E5 E6. fold p in Hw, Hpos.
  exists unf. rewrite E5, E1, deframe_app. remember (deframe (DHdr 0 []) (wire s)).1 as d eqn:Ed. rewrite Hd.
  destruct Hph as [fh n|unf flen type|unf]; [lia..|]. fold p.
  set (sent := take (Z.to_nat (raw_pos p)) (pong_frame p)).
  assert (take (Z.to_nat k) (drop (Z.to_nat (raw_pos p)) (raw_data p)) = take (Z.to_nat k) (drop (Z.to_nat (raw_pos p)) (pong_frame p))) as ->
    by (unfold pong_frame; rewrite skipn_firstn_comm, take_take; f_equal; lia).
  set (more := take (Z.to_nat k) _).
  assert (take (Z.to_nat (raw_pos p + k)) (pong_frame p) = sent ++ more) as Hsm
    by (unfold sent, more; rewrite take_take_drop; f_equal; lia).
  pose proof (deframe_app (DHdr unf []) sent more) as Ha. rewrite <- Hsm in Ha.
  assert ((deframe (deframe (DHdr unf []) sent).1 more).2 = []) as Ho.
  { pose proof (pong_no_data p unf (Z.to_nat (raw_pos p + k)) Hw) as Hn. rewrite Ha in Hn. by apply app_eq_nil in Hn as [_ ?]. }
  cbn [fst snd]. rewrite Ho, app_nil_r. refine (conj _ (conj eq_refl (conj Hu Hs))).
  replace (deframe (deframe (DHdr unf []) sent).1 more).1 with
    (deframe (DHdr unf []) (take (Z.to_nat (raw_pos (pending_pong s'))) (pong_frame (pending_pong s')))).1; [apply ph_idle; lia|].
  rewrite E6. cbn [raw_pos]. change (pong_frame (mkControl (raw_pos p + k) (c_type p) (data_len p) (c_data p))) with (pong_frame p). by rewrite Ha.
Qed.

Lemma send_pong_spec s out :
  basic s -> write_remainder s = 0 -> write_header_len s <= write_header_pos s ->
  wp send_pong (fun rc s' =>
    sender_step out s s' /\ (0 < rc -> quiet (pending_pong s')) /\
    write_remainder s' = write_remainder s /\ write_header_len s' = write_header_len s /\
    write_header_pos s' = write_header_pos s) never s.
Proof.
  intros Hb Hr Hle. pose proof Hb as (Hh & Hpg & Hpd). unfold send_pong. apply wp_getS. set (p := pending_pong s) in *.
  destruct (control_sent p) eqn:Hcs.
  { apply wp_ret. split; [by apply sender_step_refl|]. split; [intros _; by apply control_sent_quiet|done]. }
  pose proof Hpd as (Hw & Hpos). destruct Hw as (Hty & Hdl & Hcd).
  unfold control_sent, get_control_raw_len in Hcs. change CONTROL_HDR_LEN with 2 in *. zbool.
  apply wp_bind, wp_raw_write. intros rc w' Hlat Hrc. rewrite length_take, length_drop in Hrc.
  assert (length (raw_data p) = 127%nat) as Hrl by (unfold raw_data; cbn [length]; lia). rewrite Hrl in Hrc.
  unfold get_control_raw_len in *. change CONTROL_HDR_LEN with 2 in *. rewrite take_take.
  assert (forall s', wire s' = wire s ++ take (Z.to_nat rc) (drop (Z.to_nat (raw_pos p)) (raw_data p)) -> 0 <= rc ->
    write_header_len s' = write_header_len s -> write_header_pos s' = write_header_pos s ->
    write_remainder s' = write_remainder s -> send_unfinished s' = send_unfinished s ->
    pending_pong s' = mkControl (raw_pos p + rc) (c_type p) (data_len p) (c_data p) -> sends s out -> sends s' out) as Hsp.
  { intros s' ? ? ? ? ? ? ? ?. eapply (sends_pong s); try done. unfold get_control_raw_len. change CONTROL_HDR_LEN with 2. fold p. lia. }
  rewrite Nat.min_l by lia. case_if; zbool.
  - apply wp_ret. rewrite (Z2Nat.nonpos rc) by lia. cbn [take]. rewrite app_nil_r. split; [|split; [lia|done]].
    apply sender_step_intro; try done. intros Hs. eapply (sends_pending s); try done; by left.
  - apply wp_modS, wp_getS. ws_simp. rewrite u8_id by lia.
    set (p1 := mkControl (raw_pos p + rc) (c_type p) (data_len p) (c_data p)).
    assert (control_ok p1) as Hp1 by (split; [done|cbn; lia]).
    destruct (control_sent p1) eqn:Hcs1; cbn [negb].
    + apply wp_modS, wp_ret. ws_simp. pose proof (control_sent_quiet p1 Hp1 Hcs1) as Hq1. case_if; zbool; ws_simp.
      * split; [|split; [intros _; by left|done]]. apply sender_step_intro; [done| |done|].
        -- split; [done|]. split; [by apply pong_init_ok|done].
        -- intros Hs. apply (sends_pending (set_pending_pong p1 (set_wire (wire s ++ take (Z.to_nat rc) (drop (Z.to_nat (raw_pos p)) (raw_data p))) s)));
           [by apply Hsp; try done; lia| |by apply Hp1|by apply Hpg|]; [done|].
           right. split; [done|by left].
      * split; [|split; [intros _; done|done]]. apply sender_step_intro; [done|by split_and!|done|]. intros Hs. apply Hsp; try done. lia.
    + apply wp_ret. split; [|split; [lia|done]]. apply sender_step_intro; [done|by split_and!|done|]. intros Hs. apply Hsp; try done. lia.
Qed.

Lemma websocket_ack_close_spec s out :
  basic s -> close_pending s = true ->
  wp websocket_ack_close (fun rc s' =>
    sender_step out s s' /\ write_remainder s' = write_remainder s /\ write_header_len s' = write_header_len s /\
    write_header_pos s' = write_header_pos s) never s.
Proof.
  intros Hb Hc. unfold websocket_ack_close. apply wp_bind, wp_raw_write. intros rc w' Hlat Hrc.
  assert (shut s) as Hsh by (by right). assert (~ open s) as Ho by (unfold open; rewrite Hc; by intros [? ?]).
  destruct (rc =? 2).
  - apply wp_modS, wp_ret. split; [|done]. split; [done|]. split; [done|]. split; [done|]. split; [split; intros _; [by left|done]|tauto].
  - apply wp_ret. split; [|done]. split; [done|]. split; [done|]. split; [done|]. split; [split; intros _; [by right|done]|tauto].
Qed.

Lemma send_pending_data_spec s out :
  basic s ->
  wp send_pending_data (fun rc s' =>
    sender_step out s s' /\
    (0 < rc -> 0 < write_remainder s' \/
       (write_remainder s' = 0 /\ write_header_len s' <= write_header_pos s' /\
        (open s -> sends s out -> quiet (pending_pong s'))))) never s.
Proof.
  intros Hb. pose proof Hb as ((_ & _ & _ & _ & Hr) & _). unfold send_pending_data. apply wp_getS.
  destruct (Z.eqb_spec (write_remainder s) 0) as [Hr0|Hr0]; cbn [negb].
  2:{ apply wp_ret. split; [by apply sender_step_refl|]. left. lia. }
  destruct (Z.ltb_spec (write_header_pos s) (write_header_len s)) as [Hlt|Hge].
  - apply wp_bind. eapply wp_conseq; [by apply (send_data_header_left_spec s out)|]. intros rc s' (H1 & H2 & H3 & H4 & H5).
    assert (0 <= write_remainder s') by (destruct H1 as (_ & ((_ & _ & _ & _ & ? & _) & _) & _); done).
    case_if; zbool; apply wp_ret; (split; [done|]); [lia|]. intros _.
    destruct (Z.eq_dec (write_remainder s') 0); [right|left; lia]. split; [done|]. split; [by apply H5; lia|].
    intros _ (unf & Hph & _). rewrite H3. by inversion Hph; try lia.
  - apply wp_bind. apply (wp_conseq _ (fun _ s1 => sender_step out s s1 /\ write_remainder s1 = write_remainder s /\
      write_header_len s1 = write_header_len s /\ write_header_pos s1 = write_header_pos s)).
    { destruct (close_pending s) eqn:Hc; [by apply websocket_ack_close_spec|].
      apply wp_ret. split; [by apply sender_step_refl|done]. }
    intros rc s1 (H1 & H2 & H3 & H4). case_if; zbool; [apply wp_ret; split; [done|lia]|].
    eapply wp_conseq; [apply (send_pong_spec s1 out); [by apply H1|lia..]|].
    intros rc' s2 (G1 & G2 & G3 & G4 & G5). split; [by eapply sender_step_trans|]. intros Hrc'. right. split; [lia|]. split; [lia|].
    intros _ _. by apply G2.
Qed.

(** ** Writing *)

Lemma unmasked fh n bs : h_mask fh = None -> imap (fun i b => unmask (h_mask fh) (n + Z.of_nat i) b) bs = bs.
Proof. intros ->. cbn [unmask]. revert n. induction bs as [|b bs IH]; intros n; [done|]. cbn [imap]. f_equal. exact (IH n). Qed.

(** Bytes of the payload on the wire. *)
Lemma sends_body s s' out bs :
  sends s out -> basic s -> write_header_len s <= write_header_pos s -> Z.of_nat (length bs) <= write_remainder s ->
  wire s' = wire s ++ bs -> write_header_len s' = write_header_len s -> write_header_pos s' = write_header_pos s ->
  write_remainder s' = write_remainder s - Z.of_nat (length bs) -> send_unfinished s' = send_unfinished s ->
  pending_pong s' = pending_pong s -> sends s' (out ++ bs).
Proof.
  intros (unf & Hph & Hd & Hu & Hs) (_ & _ & [Hw _]) Hle Hl E1 E2 E3 E4 E5 E6.
  exists unf. rewrite E5, E1, deframe_app. remember (deframe (DHdr 0 []) (wire s)).1 as d eqn:Ed. rewrite Hd.
  destruct Hph as [fh n Hr _ Hty Hm Hn Hlen Hq|unf flen type|unf Hr _]; [|lia|].
  - rewrite deframe_body by lia. rewrite Hty, unmasked by done. cbn [fst snd].
    refine (conj _ (conj eq_refl (conj Hu Hs))). unfold body_state.
    destruct (Z.ltb_spec (n + Z.of_nat (length bs)) (h_len fh)).
    + apply ph_body; rewrite ?E6; try done; lia.
    + rewrite <- (quiet_state (pending_pong s')) by (by rewrite E6). apply ph_idle; lia.
  - destruct bs; [|cbn [length] in Hl; lia]. cbn [deframe fst snd]. refine (conj _ (conj eq_refl (conj Hu Hs))).
    rewrite <- E6. cbn [length] in E4. apply ph_idle; lia.
Qed.

(** A socket that is shut, or in step with the receiver. *)
Definition in_step (s : RedsWebSocket W) (out : list Z) : Prop := shut s \/ (open s /\ sends s out).

Lemma sender_step_in_step out s s' : sender_step out s s' -> in_step s out -> in_step s' out.
Proof. intros (_ & _ & _ & H1 & H2) [?|[? ?]]; [left; by apply H1|right; auto]. Qed.

Definition write_step (s s' : RedsWebSocket W) : Prop :=
  same_input s s' /\ basic s' /\ later (env s) (env s') /\ (shut s <-> shut s').

Lemma sender_write_step out s s' : sender_step out s s' -> write_step s s'.
Proof. by intros (? & ? & ? & ? & _). Qed.

Lemma write_step_trans s1 s2 s3 : write_step s1 s2 -> write_step s2 s3 -> write_step s1 s3.
Proof.
  intros (H1 & H2 & H3 & H4) (G1 & G2 & G3 & G4). split; [by eapply same_input_trans|]. split; [done|]. split; [by eapply later_trans|tauto].
Qed.

Lemma payload_spec s out buf n :
  basic s -> in_step s out -> (sends s out -> write_header_len s <= write_header_pos s) -> 0 <= n <= write_remainder s ->
  wp (rc ← raw_write (take (Z.to_nat n) buf);
      (if 0 <? rc then modS (fun s => set_write_remainder (u64 (write_remainder s - rc)) s) else mret tt);; mret rc)
    (fun rc s' => write_step s s' /\ in_step s' (out ++ take (Z.to_nat rc) buf)) never s.
Proof.
  intros Hb Hin Hle Hn. pose proof Hb as ((Hhb & Hhl & Hp & Hl & Hr) & Hpg & Hpd).
  apply wp_bind, wp_raw_write. intros rc w' Hlat Hrc. rewrite length_take in Hrc. rewrite take_take, Nat.min_l by lia.
  set (bs := take (Z.to_nat rc) buf). assert (0 <= rc -> Z.of_nat (length bs) = rc) as Hbs by (intros; unfold bs; rewrite length_take; lia).
  destruct (Z.ltb_spec 0 rc).
  - specialize (Hbs ltac:(lia)). apply wp_modS, wp_ret. ws_simp. rewrite u64_id by lia. split.
    + split; [done|]. split; [|by split]. refine (conj _ (conj Hpg Hpd)). unfold header_ok. ws_simp. do 4 (split; [done|]). lia.
    + destruct Hin as [?|[? Hs]]; [by left|right]. split; [done|]. eapply (sends_body s); try done; ws_simp; fold bs; lia || auto.
  - apply wp_ret. split; [by split_and!|]. subst bs. rewrite (Z2Nat.nonpos rc) by lia. cbn [take]. rewrite !app_nil_r.
    destruct Hin as [?|[? Hs]]; [by left|right]. split; [done|]. eapply (sends_pending s); try done; [by destruct Hpd..|by left].
Qed.

Lemma websocket_write_spec s out buf flags :
  basic s -> in_step s out -> Z.of_nat (length buf) < 2 ^ 64 -> data_flags flags ->
  wp (websocket_write buf flags)
    (fun rc s' => write_step s s' /\ in_step s' (out ++ take (Z.to_nat rc) buf)) never s.
Proof.
  intros Hb Hin Hbuf Hfl. unfold websocket_write. apply wp_getS. destruct (closed s) eqn:Hc.
  { apply wp_ret. cbn. rewrite app_nil_r. split; [|done]. split; [done|]. split; [done|]. split; [apply later_refl|done]. }
  apply wp_bind. eapply wp_conseq; [by apply (send_pending_data_spec s out)|]. intros rc s1 (H1 & H2).
  pose proof (sender_step_in_step _ _ _ H1 Hin) as Hin1. pose proof (sender_write_step _ _ _ H1) as Hw1.
  case_if; zbool.
  { apply wp_ret. rewrite (Z2Nat.nonpos rc) by lia. cbn [take]. by rewrite app_nil_r. }
  apply wp_getS. pose proof Hw1 as (_ & Hb1 & _ & Hsh1). specialize (H2 ltac:(lia)). destruct (Z.eqb_spec (write_remainder s1) 0) as [Hr1|Hr1].
  - destruct H2 as [?|(_ & Hle & Hq)]; [lia|]. apply wp_bind.
    eapply wp_conseq; [apply (send_data_header_spec s1 out); try done|].
    { lia. }
    { intros Ho _. destruct Hin as [Hsh|[? ?]]; [|auto]. apply Hsh1 in Hsh. destruct Ho as [H3 H4]. destruct Hsh; congruence. }
    intros rc2 s2 (G1 & G2 & G3 & G4). pose proof (sender_write_step _ _ _ G1) as Hw2. pose proof (write_step_trans _ _ _ Hw1 Hw2) as Hw.
    pose proof (sender_step_in_step _ _ _ G1 Hin1) as Hin2. case_if; zbool.
    { apply wp_ret. rewrite (Z2Nat.nonpos rc2) by lia. cbn [take]. by rewrite app_nil_r. }
    apply wp_getS. pose proof Hw2 as (_ & Hb2 & _). eapply wp_conseq; [apply (payload_spec s2 out); [done|done|by intros _; apply G4; lia|]|].
    { destruct Hb2 as ((_ & _ & _ & _ & ?) & _). lia. }
    intros rc3 s3 [? ?]. split; [by eapply write_step_trans|done].
  - eapply wp_conseq; [apply (payload_spec s1 out); [done|done| |]|].
    + intros (unf & Hph & _). inversion Hph; lia.
    + destruct Hb1 as ((_ & _ & _ & _ & ?) & _). lia.
    + intros rc3 s3 [? ?]. split; [by eapply write_step_trans|done].
Qed.
End sending.
