(* ===== verification/WebSocketRead.v ===== *)
(** * WebSocket framing: the receiving side

    [websocket_read] against the reference decoder: whatever pieces the raw
    stream gives, the data of the frames comes out, the socket closes exactly
    when the decoder does, and the loop ends. *)

From Stdlib Require Import ZArith Lia.
From stdpp Require Import base list numbers tactics option.
From S2P Require Import Prelude WebSocket WebSocketRef WebSocketOk.

Open Scope Z_scope.

Section reading.
Context {W : Type} {E : WsEnv W} {L : WsStream W}.
Implicit Types (s : RedsWebSocket W).

(** From [w] to [w'] the bytes [c] were read. *)
Definition reads (c : list Z) (w w' : W) : Prop :=
  (eof w = true -> eof w' = true) /\ (failed w = true -> failed w' = true) /\ avail w = c ++ avail w'.

Lemma reads_trans c1 c2 w1 w2 w3 : reads c1 w1 w2 -> reads c2 w2 w3 -> reads (c1 ++ c2) w1 w3.
Proof. intros (H1 & H2 & H3) (G1 & G2 & G3). split; [tauto|]. split; [tauto|]. by rewrite H3, G3, app_assoc. Qed.
Lemma later_reads w w' : later w w' -> reads [] w w'.
Proof. by intros (? & ? & ?). Qed.
Lemma reads_length c w w' : reads c w w' -> length (avail w) = (length c + length (avail w'))%nat.
Proof. intros (_ & _ & ->). by rewrite length_app. Qed.

Definition got_bytes (r : rres) : list Z := match r with Got bs => bs | _ => [] end.
Definition read_law (n : Z) (r : rres) (w' : W) : Prop :=
  match r with
  | Got bs => bs <> [] /\ Z.of_nat (length bs) <= n /\ is_bytes bs
  | Eof => eof w' = true
  | RAgain => True
  | RFail => failed w' = true
  end.

Lemma wp_raw_read n (Q : rres -> RedsWebSocket W -> Prop) EE s :
  0 < n -> (forall r w', reads (got_bytes r) (env s) w' -> read_law n r w' -> Q r (set_env w' s)) -> wp (raw_read n) Q EE s.
Proof.
  intros Hn HQ. unfold raw_read. apply wp_getS. pose proof (raw_read_law n (env s) Hn) as HL.
  destruct (raw_read_cb n (env s)) as [r w']. destruct HL as (H1 & H2 & H3). apply wp_modS, wp_ret.
  apply HQ; unfold reads; destruct r; cbn [got_bytes app fst snd read_law] in *; by intuition.
Qed.

(** ** The frame that is being read *)

Inductive frame_rep (f : websocket_frame_t) (p : WebSocketControl) : dst -> Prop :=
  | fr_hdr h : f_ready f = false -> has_header f h -> 0 < ref_need h -> frame_rep f p (DHdr (f_unfinished f) h)
  | fr_close fh : holds f fh -> h_type fh = 8 -> frame_rep f p DClosing
  | fr_body fh :
      holds f fh -> h_type fh <> 8 -> 0 <= f_relayed f <= f_expected f -> f_expected f < 2 ^ 64 ->
      (h_type fh = 9 -> raw_pos p = 2 + f_relayed f /\ data_len p = f_expected f) ->
      frame_rep f p (body_state fh (f_relayed f)).

Definition reading (s : RedsWebSocket W) (d : dst) : Prop :=
  frame_rep (read_frame s) (pong s) d /\ 0 <= f_unfinished (read_frame s) <= 2.

Lemma ref_header_range unf h fh :
  is_bytes h -> 0 <= unf <= 2 -> ref_header unf h = Some fh ->
  0 <= h_unf fh <= 2 /\ 0 <= h_len fh < 2 ^ 64 /\ (8 <= h_type fh -> h_len fh <= 125).
Proof.
  intros Hb Hu. unfold ref_header. set (len := if ext_size (byte_at h 1) =? 0 then _ else _).
  assert (0 <= len < 2 ^ 64) as Hlen.
  { unfold len. destruct (Z.eqb_spec (ext_size (byte_at h 1)) 0); [pose proof (Z.mod_pos_bound (byte_at h 1) 128); lia|].
    set (bs := take _ _). pose proof (be_decode_range bs ltac:(by apply Forall_take, Forall_drop)) as Hr.
    assert (length bs <= 8)%nat as Hl8 by (unfold bs; rewrite length_take; unfold ext_size; repeat case_if; lia).
    assert (256 ^ Z.of_nat (length bs) <= 256 ^ 8) by (apply Z.pow_le_mono_r; lia). lia. }
  clearbody len. destruct (negb (_ =? 0)); [done|]. destruct ((8 <=? _) && negb _); [done|].
  case_bool_decide as Ho; [|done]. cbn [negb]. set (op := byte_at h 0 mod 16) in *. clearbody op.
  rewrite !list_elem_of_In in Ho. cbn [In] in Ho.
  destruct Ho as [<-|[<-|[<-|[<-|[<-|[<-|[]]]]]]]; cbn -[Z.ltb Z.leb];
    change (8 <=? 0) with false; change (8 <=? 1) with false; change (8 <=? 2) with false;
    change (8 <=? 8) with true; change (8 <=? 9) with true; change (8 <=? 10) with true; cbn -[Z.ltb Z.leb];
    repeat case_if; try done; intros [= <-]; cbn [h_unf h_len h_type]; zbool; lia.
Qed.

(** A cleared frame waits for the next header. *)
Lemma clear_reading f p : frame_rep (websocket_clear_frame f) p (DHdr (f_unfinished f) []).
Proof.
  change (f_unfinished f) with (f_unfinished (websocket_clear_frame f)). apply fr_hdr; [done| |done].
  split; [|by split]. repeat (constructor; [done|]). constructor.
Qed.

Lemma has_header_store f h bs :
  has_header f h -> is_bytes bs -> Z.of_nat (length bs) <= ref_need h -> has_header (store_header bs f) (h ++ bs).
Proof.
  intros (Hb & Hl & Hp & Ht) Hbs Hn. pose proof (ref_need_le h) as Hle. unfold has_header, store_header. cbn [f_header f_header_pos].
  rewrite Hp, Nat2Z.id, Ht. split; [|split; [|split]].
  - apply Forall_app. split; [rewrite <- Ht; by apply Forall_take|]. apply Forall_app. split; [done|by apply Forall_drop].
  - rewrite !length_app, length_drop. lia.
  - rewrite length_app. lia.
  - by rewrite app_assoc, take_app_length.
Qed.

Lemma ref_need_app h bs : Z.of_nat (length bs) <= ref_need h -> 0 <= ref_need (h ++ bs).
Proof.
  unfold ref_need. rewrite length_app. intros H.
  assert (forall b, 2 <= hdr_size b) as Hs by (intros b; unfold hdr_size, ext_size; repeat case_if; lia).
  specialize (Hs (byte_at (h ++ bs) 1)).
  destruct (Z.ltb_spec (Z.of_nat (length h)) 2), (Z.ltb_spec (Z.of_nat (length h + length bs)) 2); try lia.
  rewrite byte_at_app by lia. lia.
Qed.

Lemma relay_data_ref f fh bs :
  holds f fh -> relay_data bs f = imap (fun i b => unmask (h_mask fh) (f_relayed f + Z.of_nat i) b) bs.
Proof.
  intros (_ & _ & _ & _ & _ & Hm). unfold relay_data. destruct (h_mask fh) as [m|] eqn:Em.
  - destruct Hm as [-> ->]. done.
  - rewrite Hm. rewrite <- Em. by rewrite unmasked.
Qed.

Lemma deframe_payload fh n bs :
  0 <= n -> n + Z.of_nat (length bs) <= h_len fh ->
  deframe (body_state fh n) bs =
  (body_state fh (n + Z.of_nat (length bs)),
   if is_data (h_type fh) then imap (fun i b => unmask (h_mask fh) (n + Z.of_nat i) b) bs else []).
Proof.
  intros Hn Hl. destruct bs as [|b bs].
  - cbn [deframe length imap]. rewrite Z.add_0_r. by destruct (is_data _).
  - unfold body_state at 1. cbn [length] in *. destruct (Z.ltb_spec n (h_len fh)); [|lia]. by apply deframe_body.
Qed.

(** ** One turn of the loop *)

Definition returned (r : read_result) : list Z := take (Z.to_nat r.1.1) r.1.2.

(** After a read that started in [s0] with the decoder in [d]: the bytes [c]
    were read, and the socket is open with the data of [c] returned after
    [got], or it is shut and so is the decoder, or the stream ended. *)
Definition read_post (d : dst) (out : list Z) (s0 : RedsWebSocket W) (got : list Z) (r : read_result) (s : RedsWebSocket W) : Prop :=
  exists c, reads c (env s0) (env s) /\ basic s /\
    ((open s /\ sends s out /\ reading s (deframe d c).1 /\ (deframe d c).1 <> DClosing /\
      (returned r = got ++ (deframe d c).2 \/ failed (env s) = true)) \/
     (shut s /\ ((deframe d c).1 = DError \/ (deframe d c).1 = DClosing \/ eof (env s) = true))).

Lemma read_post_step d out s0 got c1 s1 r s :
  reads c1 (env s0) (env s1) -> read_post (deframe d c1).1 out s1 (got ++ (deframe d c1).2) r s -> read_post d out s0 got r s.
Proof.
  intros H1 (c & H2 & Hb & H). exists (c1 ++ c). split; [by eapply reads_trans|]. split; [done|].
  rewrite deframe_app. cbn [fst snd]. rewrite <- app_assoc in H. done.
Qed.

Lemma read_error_spec d out s0 s got flags r n :
  (forall bs, r <> Got bs) -> reads [] (env s0) (env s) -> read_law n r (env s) -> basic s -> open s -> sends s out ->
  reading s d -> d <> DClosing ->
  wp (read_error r got flags) (read_post d out s0 got) never s.
Proof.
  intros Hr H1 Hl Hb Ho Hs Hf Hd. destruct r as [bs| | |]; cbn [read_error read_law] in *; [by destruct (Hr bs)|..].
  - apply wp_modS, wp_ret. exists []. do 2 (split; [done|]). right. split; [by left|]. by right; right.
  - case_if; zbool; apply wp_ret; exists []; do 2 (split; [done|]); left; do 4 (split; [done|]); left; cbn; rewrite app_nil_r.
    + unfold returned. cbn. by rewrite Nat2Z.id, firstn_all.
    + destruct got; [done|cbn [length] in *; lia].
  - apply wp_ret. exists []. do 2 (split; [done|]). left. do 4 (split; [done|]). by right.
Qed.

(** The bytes of a payload that a turn reads. *)
Definition payload_post (s : RedsWebSocket W) (fh : fhdr) (len : Z) (f : websocket_frame_t) (r : rres) (s' : RedsWebSocket W) : Prop :=
  exists w', s' = set_env w' s /\ reads (got_bytes r) (env s) w' /\
    match r with
    | Got bs => Z.of_nat (length bs) <= f_expected f - f_relayed f /\ (is_data (h_type fh) = true -> Z.of_nat (length bs) <= len) /\
                is_bytes bs /\ (bs = [] -> f_relayed f = f_expected f)
    | _ => read_law 1 r w'
    end.

Lemma read_payload_spec s fh len :
  basic s -> 0 < len -> holds (read_frame s) fh -> h_type fh <> 8 ->
  let f := read_frame s in
  0 <= f_relayed f <= f_expected f -> (h_type fh = 9 -> raw_pos (pong s) = 2 + f_relayed f /\ data_len (pong s) = f_expected f) ->
  wp (read_payload len f) (payload_post s fh len f) never s.
Proof.
  intros Hb Hlen (Hty & _) H8 f Hrel Hping. unfold read_payload. fold f in Hty. rewrite Hty.
  assert (forall n, 0 < n -> n <= f_expected f - f_relayed f -> (is_data (h_type fh) = true -> n <= len) ->
    wp (raw_read n) (payload_post s fh len f) never s) as Hread.
  { intros n Hn1 Hn2 Hn3. apply wp_raw_read; [done|]. intros r w' Hr Hl. exists w'. split; [done|]. split; [done|].
    destruct r as [bs| | |]; [|done..]. destruct Hl as (? & ? & ?). split; [lia|]. split; [intros Hx; specialize (Hn3 Hx); lia|]. by split. }
  assert (f_relayed f = f_expected f -> wp (mret (Got [])) (payload_post s fh len f) never s) as Hnone.
  { intros He. apply wp_ret. exists (env s). split; [by destruct s|]. split; [apply later_reads, later_refl|].
    cbn [length]. split; [lia|]. split; [lia|]. split; [constructor|done]. }
  unfold payload_post, is_data in *. rewrite (orb_comm (_ =? BINARY_FRAME)). change TEXT_FRAME with 1. change BINARY_FRAME with 2.
  destruct ((h_type fh =? 1) || (h_type fh =? 2)).
  - destruct (Z.ltb_spec (f_relayed f) (f_expected f)); [apply Hread; lia|apply Hnone; lia].
  - destruct (Z.eqb_spec (h_type fh) PING_FRAME) as [H9|_].
    + destruct (Hping H9) as [Hp1 Hp2]. apply wp_getS, wp_bind, wp_assert; [intros _|intros Hx; zbool; lia].
      rewrite Hp1, Hp2. change CONTROL_HDR_LEN with 2.
      destruct (Z.ltb_spec (2 + f_relayed f - 2) (f_expected f)); [apply Hread; lia || done|apply Hnone; lia].
    + destruct (Z.ltb_spec (f_relayed f) (f_expected f)); [apply Hread; lia || done|apply Hnone; lia].
Qed.

(** The pong after a header. *)
Definition started (f : websocket_frame_t) (p : WebSocketControl) : WebSocketControl :=
  if f_ready f && (f_type f =? PING_FRAME)
  then mkControl CONTROL_HDR_LEN (Z.lor FIN_FLAG PONG_FRAME) (u8 (f_expected f)) (c_data p) else p.

Lemma header_turn f p h bs :
  f_ready f = false -> has_header f h -> 0 <= f_unfinished f <= 2 -> control_ok p ->
  bs <> [] -> is_bytes bs -> Z.of_nat (length bs) <= ref_need h ->
  let d := deframe (DHdr (f_unfinished f) h) bs in
  let '(ok, f') := websocket_get_frame_header (store_header bs f) in
  d.2 = [] /\
  if ok then frame_rep f' (started f' p) d.1 /\ 0 <= f_unfinished f' <= 2 /\ control_ok (started f' p) else d.1 = DError.
Proof.
  intros Hrd Hh Hu Hp Hne Hb Hn d. unfold d. rewrite deframe_header by done. cbn [fst snd].
  pose proof (has_header_store f h bs Hh Hb Hn) as Hh'. pose proof (ref_need_app h bs Hn) as Hn'.
  destruct (Z.ltb_spec 0 (ref_need (h ++ bs))).
  - rewrite (websocket_get_frame_header_short _ (h ++ bs)) by done. split; [done|].
    unfold started. change (f_ready (store_header bs f)) with (f_ready f). rewrite Hrd. cbn [andb].
    split; [|done]. change (f_unfinished f) with (f_unfinished (store_header bs f)). by apply fr_hdr.
  - pose proof (websocket_get_frame_header_ref _ (h ++ bs) Hh' ltac:(lia) Hu) as Hg. unfold header_state.
    change (f_unfinished (store_header bs f)) with (f_unfinished f) in Hg.
    destruct (ref_header (f_unfinished f) (h ++ bs)) as [fh|] eqn:Er.
    + destruct (websocket_get_frame_header _) as [ok f']. destruct Hg as (-> & Hf & Hr0 & _). split; [done|].
      assert (is_bytes (h ++ bs)) as Hbb by (destruct Hh' as (? & _ & _ & <-); by apply Forall_take).
      destruct (ref_header_range _ _ _ Hbb Hu Er) as (Hr1 & Hr2 & Hr3). pose proof Hf as (Ht & _ & Hun & Hrdy & Hex & _).
      rewrite Hun. unfold started. rewrite Hrdy, Ht, Hex. cbn [andb]. unfold start_body.
      split; [|split; [done|]].
      * destruct (Z.eqb_spec (h_type fh) 8) as [H8|H8]; [by eapply fr_close|]. rewrite <- Hr0. apply fr_body; [done|done|lia|lia|].
        intros H9. rewrite H9. cbn. rewrite Hr0, u8_id by (rewrite ?Hex; lia). done.
      * destruct (Z.eqb_spec (h_type fh) PING_FRAME) as [H9|]; [|done]. change PING_FRAME with 9 in H9.
        destruct Hp as [(_ & _ & Hc) _]. rewrite u8_id by lia. split; [split; [done|split; [cbn [data_len]; lia|done]]|].
        cbn [raw_pos data_len]. change CONTROL_HDR_LEN with 2. lia.
    + by destruct (websocket_get_frame_header _) as [ok f']; cbn [fst] in Hg; subst ok.
Qed.

Lemma ping_turn s out bs f :
  basic s -> open s -> sends s out -> raw_pos (pong s) = 2 + f_relayed f -> data_len (pong s) = f_expected f ->
  0 <= f_relayed f -> f_relayed f + Z.of_nat (length bs) <= f_expected f ->
  wp (ping_data bs f;; ping_done) (fun _ s' =>
    read_frame s' = read_frame s /\ basic s' /\ later (env s) (env s') /\ open s' /\ sends s' out /\
    (f_relayed f + Z.of_nat (length bs) < f_expected f ->
     raw_pos (pong s') = 2 + (f_relayed f + Z.of_nat (length bs)) /\ data_len (pong s') = f_expected f)) never s.
Proof.
  intros Hb Ho Hs Hp1 Hp2 H0 Hl. pose proof Hb as (Hh & [(Ht & Hdl & Hcd) Hpos] & Hpd).
  assert (length (relay_data bs f) = length bs) as Hrl by (unfold relay_data; case_if; [apply length_imap|done]).
  unfold ping_data. apply wp_modS. rewrite Hrl, Hp1, Hp2, Ht. change CONTROL_HDR_LEN with 2. rewrite u8_id by lia.
  set (p1 := mkControl _ _ _ _).
  assert (control_ok p1) as Hp1'.
  { split; [split; [done|split; [cbn; lia|]]|cbn; lia]. cbn [c_data p1]. rewrite !length_app, length_take, length_drop. lia. }
  assert (data_len p1 = f_expected f /\ raw_pos p1 = 2 + f_relayed f + Z.of_nat (length bs)) as [Hd1 Hq1] by done. clearbody p1.
  unfold ping_done. apply wp_getS. ws_simp. change CONTROL_HDR_LEN with 2. rewrite Hd1, Hq1. case_if; zbool.
  - apply wp_modS, wp_modS. ws_simp. set (p2 := mkControl _ _ _ _).
    assert (control_ok p2) as Hp2' by (split; [by apply Hp1'|]; destruct Hp1' as [(_ & ? & _) _]; cbn; lia).
    assert (quiet p2) as Hq2 by (by left). clearbody p2.
    set (s2 := if control_sent (pending_pong s) then _ else _).
    assert (read_frame s2 = read_frame s /\ basic s2 /\ env s2 = env s /\ open s2 /\ sends s2 out) as (E1 & Hb2 & E3 & Ho2 & Hs2).
    { unfold s2. destruct (control_sent (pending_pong s)) eqn:Hcs; (split; [done|]); (split; [|split; [done|split; [done|]]]).
      - split; [done|]. split; [by apply pong_init_ok|done].
      - eapply (sends_pending s); try done; [by apply Hpd|by apply Hp2'|]. right. split; [|done]. by apply control_sent_quiet.
      - by split.
      - eapply (sends_pending s); try done; [by apply Hpd..|by left]. }
    clearbody s2. apply wp_bind. eapply wp_conseq; [by apply (send_pending_data_spec s2 out)|].
    intros rc s3 [([G1 _] & G2 & G3 & _ & G5) _]. destruct (G5 Ho2 Hs2). apply wp_ret. rewrite <- E3, <- E1. by do 5 (split; [done|]); lia.
  - apply wp_ret. do 2 (split; [done|]). split; [apply later_refl|]. split; [done|]. split; [|intros _; ws_simp; lia].
    eapply (sends_pending s); try done; [by apply Hpd..|by left].
Qed.

(** ** The loop *)

Section loop.
Context (out : list Z).

(** The data so far is of the frame that is being read. *)
Definition mid_frame (f : websocket_frame_t) (got : list Z) (flags : Z) : Prop :=
  (f_ready f = true /\ is_data (f_type f) = true) \/ (got = [] /\ flags = 0).
Definition turns (s : RedsWebSocket W) : nat := 2 * length (avail (env s)) + (if f_ready (read_frame s) then 1 else 0).

Definition loop_ok (n : nat) : Prop := forall len got flags s d,
  basic s -> open s -> sends s out -> reading s d -> mid_frame (read_frame s) got flags -> (d = DClosing -> 0 < len) ->
  (turns s < n)%nat -> wp (read_loop n len got flags) (read_post d out s got) never s.

Lemma wp_loop_step n len got flags d c1 s0 s1 :
  loop_ok n -> reads c1 (env s0) (env s1) -> basic s1 -> open s1 -> sends s1 out -> reading s1 (deframe d c1).1 ->
  mid_frame (read_frame s1) (got ++ (deframe d c1).2) flags -> ((deframe d c1).1 = DClosing -> 0 < len) ->
  (turns s1 < n)%nat -> wp (read_loop n len (got ++ (deframe d c1).2) flags) (read_post d out s0 got) never s1.
Proof.
  intros Hn Hr Hb Ho Hs Hf Hm Hc Ht. eapply wp_conseq; [by apply (Hn len _ flags s1 (deframe d c1).1)|].
  intros r s'. by apply read_post_step.
Qed.

Lemma sends_set_frame s s' : same_sender s s' -> pending_pong s' = pending_pong s -> basic s -> sends s out -> sends s' out.
Proof.
  intros H1 H2 (_ & _ & [Hw _]) Hs. eapply (sends_pending s); [done..|by rewrite H2|by left].
Qed.

Lemma header_branch n len got flags s h :
  loop_ok n -> basic s -> open s -> sends s out -> 0 < len -> got = [] -> flags = 0 ->
  f_ready (read_frame s) = false -> has_header (read_frame s) h -> 0 < ref_need h -> 0 <= f_unfinished (read_frame s) <= 2 ->
  (turns s < S n)%nat ->
  wp (read_loop (S n) len got flags) (read_post (DHdr (f_unfinished (read_frame s)) h) out s got) never s.
Proof.
  intros Hn Hb Ho Hs Hlen -> -> Hrd Hh Hneed Hu Ht. cbn [read_loop]. destruct (Z.leb_spec len 0); [lia|].
  apply wp_getS. rewrite Hrd. cbn [negb]. rewrite (frame_bytes_needed_ref _ h) by done.
  apply wp_bind, wp_raw_read; [done|]. intros r w' Hr Hl.
  assert (reading (set_env w' s) (DHdr (f_unfinished (read_frame s)) h)) as Hrg by (split; [by apply fr_hdr|done]).
  destruct r as [bs| | |]; [|by apply (read_error_spec _ out s (set_env w' s) [] 0 _ (ref_need h)); try done; apply (sends_set_frame s)..].
  destruct Hl as (Hne & Hle & Hbs). unfold set_frame. apply wp_modS, wp_getS. ws_simp.
  pose proof Hb as (Hhd & Hpg & Hpd).
  pose proof (header_turn (read_frame s) (pong s) h bs Hrd Hh Hu Hpg Hne Hbs Hle) as Hturn. cbn zeta in Hturn.
  destruct (websocket_get_frame_header _) as [ok f']. destruct Hturn as [Ho0 Hok]. apply wp_modS. ws_simp.
  pose proof (reads_length _ _ _ Hr) as Hlr. assert (0 < length bs)%nat by (destruct bs; [done|cbn; lia]).
  cbn [got_bytes] in *. destruct ok; cbn [negb].
  - destruct Hok as (Hf & Hu' & Hc'). set (s1 := set_pong (started f' (pong s)) (set_read_frame f' (set_env w' s))).
    assert (wp (read_loop n len [] 0) (read_post (DHdr (f_unfinished (read_frame s)) h) out s []) never s1) as Hnext.
    { pose proof (wp_loop_step n len [] 0 (DHdr (f_unfinished (read_frame s)) h) bs s s1) as Hstep. rewrite Ho0 in Hstep.
      apply Hstep; try done; [by apply (sends_set_frame s)|by right|].
      unfold turns, s1 in *. ws_simp. rewrite Hrd in Ht. destruct (f_ready f'); lia. }
    unfold started in s1. destruct (f_ready f' && (f_type f' =? PING_FRAME)); [apply wp_modS|apply wp_bind, wp_ret]; exact Hnext.
  - apply wp_modS, wp_ret. exists bs. split; [done|]. split; [done|]. right. split; [by left|by left].
Qed.

Lemma close_branch n len got flags s fh :
  basic s -> 0 < len -> holds (read_frame s) fh -> h_type fh = 8 ->
  wp (read_loop (S n) len got flags) (read_post DClosing out s got) never s.
Proof.
  intros Hb Hlen (Hty & _ & _ & Hrdy & _) H8. cbn [read_loop]. destruct (Z.leb_spec len 0); [lia|].
  apply wp_getS. rewrite Hrdy, Hty, H8. cbn [negb]. change (8 =? CLOSE_FRAME) with true. cbn iota.
  apply wp_modS. unfold set_frame. apply wp_modS. set (s1 := set_read_frame _ _).
  apply wp_bind. eapply wp_conseq; [by apply (send_pending_data_spec s1 out)|].
  intros rc s2 [(_ & Hb2 & Hl2 & Hsh & _) _]. apply wp_ret. exists []. split; [by apply later_reads|]. split; [done|].
  right. split; [apply Hsh; by right|by right; left].
Qed.

Lemma body_state_open fh n : body_state fh n <> DClosing.
Proof. unfold body_state. by destruct (n <? h_len fh). Qed.

(** The end of a turn on a payload: [bs] has come, the pong is up to date. *)
Lemma payload_tail n len got flags s0 s1 fh bs :
  let f := read_frame s1 in
  let d := body_state fh (f_relayed f) in
  loop_ok n -> basic s1 -> open s1 -> sends s1 out ->
  holds f fh -> h_type fh <> 8 -> 0 <= f_unfinished f <= 2 -> 0 <= f_relayed f -> f_expected f < 2 ^ 64 ->
  f_relayed f + Z.of_nat (length bs) <= f_expected f -> (bs = [] -> f_relayed f = f_expected f) ->
  (h_type fh = 9 -> f_relayed f + Z.of_nat (length bs) < f_expected f ->
   raw_pos (pong s1) = 2 + (f_relayed f + Z.of_nat (length bs)) /\ data_len (pong s1) = f_expected f) ->
  reads bs (env s0) (env s1) -> read_frame s0 = f -> (turns s0 < S n)%nat ->
  (if is_data (h_type fh) then flags = f_type f else got = [] /\ flags = 0) ->
  wp (set_frame (add_relayed (Z.of_nat (length bs)));;
      s ← getS;
      let f := read_frame s in
      if f_expected f <=? f_relayed f
      then
        let flags := if flags =? 0 then flags else Z.lor flags (f_fin f) in
        set_frame websocket_clear_frame;;
        if flags =? 0 then read_loop n len (got ++ (deframe d bs).2) flags
        else mret (Z.of_nat (length (got ++ (deframe d bs).2)), got ++ (deframe d bs).2, flags)
      else read_loop n len (got ++ (deframe d bs).2) flags) (read_post d out s0 got) never s1.
Proof.
  intros f d Hn Hb Ho Hs Hf H8 Hu H0 H64 Hle Hz Hping Hr Hsame Ht Hfl. pose proof Hf as (Hty & _ & Hun & Hrdy & Hex & _).
  pose proof (deframe_payload fh (f_relayed f) bs H0 ltac:(lia)) as Hdp. fold d in Hdp.
  pose proof (reads_length _ _ _ Hr) as Hlr. unfold turns in Ht. rewrite Hsame, Hrdy in Ht.
  unfold set_frame. apply wp_modS, wp_getS. ws_simp. fold f. unfold add_relayed. cbn [f_expected f_relayed f_fin].
  rewrite u64_id by lia. set (f' := mkFrame _ _ _ _ _ _ _ _ _ _).
  assert (holds f' fh) as Hf' by exact Hf. case_if; zbool.
  - assert ((deframe d bs).1 = DHdr (f_unfinished f') []) as Hd1.
    { rewrite Hdp. cbn [fst]. unfold body_state. destruct (Z.ltb_spec (f_relayed f + Z.of_nat (length bs)) (h_len fh)); [lia|]. by rewrite <- Hun. }
    apply wp_modS. ws_simp. fold f'. set (s2 := set_read_frame _ _).
    assert (reading s2 (deframe d bs).1) as Hrd2 by (rewrite Hd1; split; [apply clear_reading|done]).
    assert (sends s2 out) as Hs2 by (by apply (sends_set_frame s1)).
    destruct (is_data (h_type fh)) eqn:Hdt.
    + subst flags. assert ((f_type f =? 0) = false) as -> by (rewrite Hty; unfold is_data in Hdt; destruct (Z.eqb_spec (h_type fh) 0) as [Hx|]; [by rewrite Hx in Hdt|done]).
      assert ((Z.lor (f_type f) (f_fin f) =? 0) = false) as ->.
      { apply Z.eqb_neq. intros [Hx _]%Z.lor_eq_0_iff. rewrite Hty in Hx. unfold is_data in Hdt. by rewrite Hx in Hdt. }
      apply wp_ret. exists bs. split; [done|]. split; [done|]. left. do 3 (split; [done|]). split; [by rewrite Hd1|].
      left. unfold returned. cbn [fst snd]. by rewrite Nat2Z.id, firstn_all.
    + destruct Hfl as [-> ->]. change (0 =? 0) with true. cbn iota. apply (wp_loop_step n); try done.
      * right. split; [|done]. rewrite Hdp. done.
      * by rewrite Hd1.
      * unfold turns, s2. ws_simp. cbn [f_ready websocket_clear_frame]. lia.
  - assert (bs <> []) as Hne by (intros ->; specialize (Hz eq_refl); cbn [length] in *; lia).
    assert (0 < length bs)%nat by (destruct bs; [done|cbn; lia]).
    assert ((deframe d bs).1 = body_state fh (f_relayed f')) as Hd1 by (by rewrite Hdp).
    apply (wp_loop_step n); try done.
    + by apply (sends_set_frame s1).
    + rewrite Hd1. split; [|done]. apply fr_body; try done; [cbn; lia|]. intros H9. by apply Hping.
    + destruct (is_data (h_type fh)) eqn:Hdt; [left; split; [done|]; by rewrite <- Hty in Hdt|].
      right. destruct Hfl as [-> ->]. split; [|done]. rewrite Hdp. done.
    + rewrite Hd1. by intros ?%body_state_open.
    + unfold turns. ws_simp. change (f_ready f') with (f_ready f). rewrite Hrdy. lia.
Qed.

Lemma body_branch n len got flags s fh :
  let f := read_frame s in
  loop_ok n -> basic s -> open s -> sends s out -> 0 < len ->
  holds f fh -> h_type fh <> 8 -> 0 <= f_unfinished f <= 2 -> 0 <= f_relayed f <= f_expected f -> f_expected f < 2 ^ 64 ->
  (h_type fh = 9 -> raw_pos (pong s) = 2 + f_relayed f /\ data_len (pong s) = f_expected f) ->
  mid_frame f got flags -> (turns s < S n)%nat ->
  wp (read_loop (S n) len got flags) (read_post (body_state fh (f_relayed f)) out s got) never s.
Proof.
  intros f Hn Hb Ho Hs Hlen Hf H8 Hu Hrel H64 Hping Hmid Ht. pose proof Hf as (Hty & _ & Hun & Hrdy & Hex & _).
  cbn [read_loop]. destruct (Z.leb_spec len 0); [lia|]. apply wp_getS. fold f. rewrite Hrdy. cbn [negb].
  destruct (Z.eqb_spec (f_type f) CLOSE_FRAME) as [Hc|_]; [change CLOSE_FRAME with 8 in Hc; lia|].
  apply wp_bind. eapply wp_conseq; [by apply (read_payload_spec s fh)|]. intros r s1 (w' & -> & Hr & Hpost).
  assert (sends (set_env w' s) out) as Hs1 by (by apply (sends_set_frame s)).
  assert (reading (set_env w' s) (body_state fh (f_relayed f))) as Hrg by (split; [by apply fr_body|done]).
  destruct r as [bs| | |]; [|by apply (read_error_spec _ out s (set_env w' s) got flags _ 1); try done; apply body_state_open..].
  destruct Hpost as (Hle & Hlen' & Hbs & Hz). fold f in Hle, Hz. cbn [got_bytes] in Hr.
  assert ((f_type f =? BINARY_FRAME) || (f_type f =? TEXT_FRAME) = is_data (h_type fh)) as Hdata
    by (rewrite Hty; apply orb_comm). rewrite Hdata.
  pose proof (deframe_payload fh (f_relayed f) bs ltac:(lia) ltac:(lia)) as Hdp.
  assert ((if is_data (h_type fh) then got ++ relay_data bs f else got) = got ++ (deframe (body_state fh (f_relayed f)) bs).2) as ->.
  { rewrite Hdp. cbn [snd]. destruct (is_data _); [by rewrite (relay_data_ref f fh)|by rewrite app_nil_r]. }
  apply wp_bind. apply (wp_conseq _ (fun _ s2 => read_frame s2 = f /\ basic s2 /\ later w' (env s2) /\ open s2 /\ sends s2 out /\
    (h_type fh = 9 -> f_relayed f + Z.of_nat (length bs) < f_expected f ->
     raw_pos (pong s2) = 2 + (f_relayed f + Z.of_nat (length bs)) /\ data_len (pong s2) = f_expected f))).
  { destruct (is_data (h_type fh)) eqn:Hdt; cbn [negb andb].
    { apply wp_ret. do 2 (split; [done|]). split; [apply later_refl|]. do 2 (split; [done|]). intros H9. by rewrite H9 in Hdt. }
    destruct (Z.eqb_spec (f_type f) PING_FRAME) as [H9|H9]; change PING_FRAME with 9 in H9.
    - destruct (Hping ltac:(lia)). eapply wp_conseq; [apply (ping_turn (set_env w' s) out bs f); try done; lia|].
      intros [] s2 (G1 & G2 & G3 & G4 & G5 & G6). do 5 (split; [done|]). auto.
    - apply wp_ret. do 2 (split; [done|]). split; [apply later_refl|]. do 2 (split; [done|]). intros ?. lia. }
  intros [] s2 (E1 & Hb2 & Hl2 & Ho2 & Hs2 & Hp2). rewrite <- E1. apply payload_tail; rewrite ?E1; try done; try lia.
  - rewrite <- (app_nil_r bs). eapply reads_trans; [done|by apply later_reads].
  - destruct (is_data (h_type fh)) eqn:Hdt; [done|]. destruct Hmid as [[_ Hx]|?]; [|done]. by rewrite Hty, Hdt in Hx.
Qed.

Lemma read_loop_spec n : loop_ok n.
Proof.
  induction n as [|n IH]; intros len got flags s d Hb Ho Hs [Hf Hu] Hmid Hc Ht; [lia|].
  destruct (Z.leb_spec len 0) as [Hlen|Hlen].
  { cbn [read_loop]. destruct (Z.leb_spec len 0); [|lia]. apply wp_ret. exists []. split; [apply later_reads, later_refl|].
    split; [done|]. left. do 3 (split; [done|]). split; [intros Hx%Hc; lia|]. left. unfold returned. cbn.
    by rewrite Nat2Z.id, firstn_all, app_nil_r. }
  destruct Hf as [h Hrd Hh Hneed|fh Hf H8|fh Hf H8 Hrel H64 Hping].
  - destruct Hmid as [[? _]|[? ?]]; [congruence|]. by apply header_branch.
  - by eapply close_branch.
  - by apply body_branch.
Qed.

(** A whole read. *)
Lemma websocket_read_spec fuel len s d :
  basic s -> open s -> sends s out -> reading s d -> d <> DClosing ->
  (turns s < fuel)%nat -> wp (websocket_read fuel len) (read_post d out s []) never s.
Proof.
  intros Hb [Ho1 Ho2] Hs Hf Hd Ht. unfold websocket_read. apply wp_getS. rewrite Ho1, Ho2. cbn [orb].
  apply read_loop_spec; [done..|by right|done|done].
Qed.
End loop.
End reading.
