(* ===== verification/WebSocketThms.v ===== *)
(** * WebSocket framing: theorems

    Every run of reads and writes on a socket, in both directions, against the
    reference decoder; the header round trip; the handshake; and the defect of
    [websocket_writev]. *)

From Stdlib Require Import ZArith Lia String.
From stdpp Require Import base list numbers tactics option.
From S2P Require Import Prelude WebSocket WebSocketRef WebSocketOk WebSocketRead.

Open Scope Z_scope.
Open Scope list_scope.

(** ** Runs *)

Inductive ws_event := EvRead (len : Z) | EvWrite (buf : list Z) (flags : Z).

Definition ev_ok (e : ws_event) : Prop :=
  match e with EvRead _ => True | EvWrite buf flags => Z.of_nat (length buf) < 2 ^ 64 /\ data_flags flags end.

Section runs.
Context {W : Type} {E : WsEnv W}.

(** What the reads returned and what the writes reported as taken. *)
Fixpoint ws_run (fuel : nat) (evs : list ws_event) (got taken : list Z) : M (RedsWebSocket W) (list Z * list Z) :=
  match evs with
  | [] => mret (got, taken)
  | EvRead len :: evs' => r ← websocket_read fuel len; ws_run fuel evs' (got ++ returned r) taken
  | EvWrite buf flags :: evs' => rc ← websocket_write buf flags; ws_run fuel evs' got (taken ++ take (Z.to_nat rc) buf)
  end.

Context {L : WsStream W}.

(** Both directions after the bytes [c] have been read. *)
Definition run_inv (w0 : W) (got taken : list Z) (s : RedsWebSocket W) : Prop :=
  exists c, reads c w0 (env s) /\ basic s /\
    let d := deframe (DHdr 0 []) c in
    ((open s /\ sends s taken /\ reading s d.1 /\ d.1 <> DClosing /\ (got = d.2 \/ failed (env s) = true)) \/
     (shut s /\ (d.1 = DError \/ d.1 = DClosing \/ eof (env s) = true))).

Lemma fresh_inv w0 : run_inv w0 [] [] (fresh_socket w0).
Proof.
  exists []. split; [apply later_reads, later_refl|]. split.
  - split; [|split; (split; [split; [done|split; [cbn; lia|done]]|cbn; change CONTROL_HDR_LEN with 2; lia])].
    split; [repeat (constructor; [done|]); constructor|]. split; [done|]. cbn. lia.
  - left. split; [done|]. split; [|split; [split; [apply (clear_reading zero_frame)|done]|split; [done|by left]]].
    exists 0. split; [|split; [done|split; [by left|done]]]. cbn [fresh_socket wire deframe fst].
    apply (ph_idle (fresh_socket w0) 0); done.
Qed.

Lemma deframe_stuck d bs : d = DError \/ d = DClosing -> deframe d bs = (d, []).
Proof. intros Hd. induction bs as [|b bs IH]; [done|]. cbn [deframe]. by destruct Hd as [-> | ->]; cbn [feed]; rewrite IH. Qed.

Lemma open_or_shut s : open (W := W) s \/ shut s.
Proof. unfold open, shut. destruct (closed s), (close_pending s); auto. Qed.
Lemma open_not_shut s : open (W := W) s -> ~ shut s.
Proof. unfold open, shut. intros [-> ->] [?|?]; done. Qed.

(** A frame is being read only while the decoder has met no error. *)
Lemma no_error f p d : frame_rep f p d -> d <> DError.
Proof. destruct 1; [done..|]. unfold body_state. by destruct (_ <? _). Qed.

(** Writing does not disturb the frame that is being read. *)
Lemma reading_same s s' d : reading (W := W) s d -> same_input s s' -> reading s' d.
Proof.
  intros [Hf Hu] [E1 E2]. unfold reading. rewrite E1. split; [|done].
  destruct Hf as [h|fh|fh H1 H2 H3 H4 H5]; [by apply fr_hdr|by eapply fr_close|]. apply fr_body; try done.
  intros H9. destruct (H5 H9) as [Hp ?]. by rewrite E2 by lia.
Qed.

Lemma run_read fuel w0 got taken len s :
  run_inv w0 got taken s -> (2 * length (avail w0) + 1 < fuel)%nat ->
  wp (websocket_read fuel len) (fun r s' => run_inv w0 (got ++ returned r) taken s') never s.
Proof.
  intros (c & Hr & Hb & H) Hfuel. pose proof (reads_length _ _ _ Hr) as Hlr. cbn zeta in H.
  destruct H as [(Ho & Hs & Hf & Hd & Hgot)|[Hsh Hd]].
  - eapply wp_conseq; [apply (websocket_read_spec taken fuel len s _ Hb Ho Hs Hf Hd)|].
    + unfold turns. destruct (f_ready _); lia.
    + intros r s' (c' & Hr' & Hb' & H'). exists (c ++ c'). split; [by eapply reads_trans|]. split; [done|].
      cbn zeta. rewrite deframe_app. cbn [fst snd]. destruct H' as [(H1 & H2 & H3 & H4 & H5)|H']; [left|by right].
      do 4 (split; [done|]). destruct Hgot as [->|Hfl]; [|right; by apply Hr'].
      destruct H5 as [->|?]; [by left|by right].
  - unfold websocket_read. apply wp_getS.
    assert (closed s || close_pending s = true) as -> by (destruct Hsh as [-> | ->]; [done|apply orb_true_r]).
    apply wp_bind, wp_raw_read; [done|]. intros r w' Hr' _. apply wp_ret. exists (c ++ got_bytes r).
    split; [by eapply reads_trans|]. split; [done|]. cbn zeta. right. split; [done|]. rewrite deframe_app. cbn [fst snd].
    destruct Hd as [Hd|[Hd|Hd]]; [rewrite deframe_stuck by auto; auto..|]. right. right. by apply Hr'.
Qed.

Lemma run_write w0 got taken buf flags s :
  run_inv w0 got taken s -> Z.of_nat (length buf) < 2 ^ 64 -> data_flags flags ->
  wp (websocket_write buf flags) (fun rc s' => run_inv w0 got (taken ++ take (Z.to_nat rc) buf) s') never s.
Proof.
  intros (c & Hr & Hb & H) Hbuf Hfl. cbn zeta in H.
  assert (in_step s taken) as Hin by (destruct H as [(Ho & Hs & _)|[Hsh _]]; [by right|by left]).
  eapply wp_conseq; [by apply (websocket_write_spec s taken)|]. intros rc s' [(Hf & Hb' & Hl & Hsh) Hin'].
  exists c. split; [rewrite <- (app_nil_r c); eapply reads_trans; [done|by apply later_reads]|]. split; [done|]. cbn zeta.
  destruct H as [(Ho & _ & Hrd & Hd & Hgot)|[Hs Hd]].
  - left. destruct Hin' as [Hx|[Ho' Hs']]; [apply Hsh in Hx; by destruct (open_not_shut s)|].
    split; [done|]. split; [done|]. split; [by eapply reading_same|]. split; [done|].
    destruct Hgot as [?|?]; [by left|right; by apply Hl].
  - right. split; [by apply Hsh|]. destruct Hd as [?|[?|?]]; [auto..|]. right. right. by apply Hl.
Qed.

Lemma ws_run_inv fuel evs w0 got taken s :
  run_inv w0 got taken s -> Forall ev_ok evs -> (2 * length (avail w0) + 1 < fuel)%nat ->
  wp (ws_run fuel evs got taken) (fun '(got', taken') s' => run_inv w0 got' taken' s') never s.
Proof.
  intros Hi Hev Hf. revert got taken s Hi. induction Hev as [|e evs He Hev IH]; intros got taken s Hi; [done|].
  destruct e as [len|buf flags]; cbn [ws_run]; apply wp_bind.
  - eapply wp_conseq; [by apply run_read|]. intros r s'. apply IH.
  - destruct He. eapply wp_conseq; [by apply run_write|]. intros rc s'. apply IH.
Qed.
End runs.

(** ** A raw stream *)

(** The bytes that wait, and how many a call takes at most. *)
Record pipe := mkPipe { waiting : list Z; piece : nat }.

#[export] Instance pipe_env : WsEnv pipe := {
  raw_read_cb n w :=
    match waiting w with
    | [] => (RAgain, w)
    | bs => let k := Nat.min (Z.to_nat n) (S (piece w)) in (Got (take k (u8 <$> bs)), mkPipe (drop k bs) (piece w))
    end;
  raw_write_cb bs w := (Wrote (Z.of_nat (Nat.min (S (piece w)) (length bs))), w);
  raw_writev_cb iov w := (Wrote (Z.of_nat (Nat.min (S (piece w)) (length (concat iov)))), mkPipe (waiting w) 1000);
  sha1_base64 _ := replicate 28 65 }.

#[export, refine] Instance pipe_stream : WsStream pipe := {
  avail w := u8 <$> waiting w; eof _ := false; failed _ := false }.
Proof.
  - intros n [[|b bs] k] Hn; [done|]. split; [done|]. split; [done|]. cbn [raw_read_cb pipe_env waiting piece].
    set (m := Nat.min _ _). assert (1 <= m)%nat by (unfold m; lia). split; [|split; [|split]].
    + destruct m; [lia|done].
    + rewrite length_take. unfold m. lia.
    + apply Forall_take, Forall_fmap, Forall_true. intros x. apply u8_range.
    + by rewrite fmap_drop, take_drop.
  - intros bs w. cbn [raw_write_cb pipe_env]. split; [done|]. split; [done|]. split; [done|]. lia.
Defined.

(** A text frame, a ping in the middle of the next message, and the end of it. *)
Definition demo_input : list Z :=
  [0x81; 0x82; 1; 2; 3; 4; 0x69; 0x6B; 0x02; 1; 7; 0x89; 2; 5; 6; 0x80; 1; 8].
Definition demo_events : list ws_event :=
  [EvRead 10; EvWrite [1; 2; 3; 4; 5] 0x82; EvRead 10; EvWrite [4; 5] 0x82; EvRead 10; EvWrite [6] 0x82].

(** ** Theorems *)

Section theorems.
Context {W : Type} {E : WsEnv W} {L : WsStream W}.

End theorems.


(** The frame that holds the bytes [h] of a header and waits for no more. *)
Definition header_frame (unf : Z) (h : list Z) : websocket_frame_t :=
  mkFrame 0 0 unf (h ++ replicate (14 - length h) 0) (Z.of_nat (length h)) false false (replicate 4 0) 0 0.

(** C37: [websocket_get_frame_header] reads back what [fill_header] writes: for
    every length of 64 bits and every text or binary type, the frame is ready,
    unmasked, with that type, the final flag and that length; [extract_length]
    finds the length in the same bytes, and no header is longer than the buffer. *)
Theorem websocket_header_roundtrip (len type : Z) :
  0 <= len < 2 ^ 64 -> data_flags type ->
  let h := fill_header len type in
  let '(ok, f) := websocket_get_frame_header (header_frame 0 h) in
  ok = true /\ f_ready f = true /\ f_masked f = false /\ f_type f = Z.land type TYPE_MASK /\
  (f_fin f =? 0) = (Z.land type FIN_FLAG =? 0) /\ f_expected f = len /\
  f_unfinished f = (if Z.land type FIN_FLAG =? 0 then f_type f else 0) /\
  (extract_length (drop 1 (f_header (header_frame 0 h))) 1).1 = len /\
  Z.of_nat (length h) <= WEBSOCKET_MAX_HEADER_SIZE.
Proof.
  intros Hlen Hty h. destruct (fill_header_spec len type Hlen) as (Hb & _ & _ & Hs & [H2 H10] & _). fold h in Hb, H2, H10, Hs.
  assert (has_header (header_frame 0 h) h) as Hh.
  { unfold has_header, header_frame. cbn [f_header f_header_pos]. split; [apply Forall_app; split; [done|apply Forall_replicate; done]|].
    rewrite length_app, length_replicate. split; [lia|]. split; [done|]. apply take_app_length. }
  assert (ref_need h = 0) as Hn by (unfold ref_need; destruct (Z.ltb_spec (Z.of_nat (length h)) 2); lia).
  assert (data_op 0 (Z.land type TYPE_MASK)) as Hop by (by right).
  pose proof (websocket_get_frame_header_ref (header_frame 0 h) h Hh Hn ltac:(done)) as H.
  change (f_unfinished (header_frame 0 h)) with 0 in H. unfold h in H at 1. rewrite ref_header_filled in H by done. fold h in H.
  destruct (websocket_get_frame_header _) as [ok f]. destruct H as (-> & (H1 & H3 & H4 & H5 & H6 & H7) & _).
  unfold data_hdr in *. cbn [h_mask h_type h_fin h_unf h_len] in *. rewrite negb_involutive in H3.
  assert ((Z.land type TYPE_MASK =? 0) = false) as Hz by (destruct Hty as [-> | ->]; done). rewrite Hz in *.
  do 3 (split; [done|]). split; [done|]. split; [done|]. split; [done|].
  split; [rewrite H4, H1; by destruct (Z.land type FIN_FLAG =? 0)|]. split; [|change WEBSOCKET_MAX_HEADER_SIZE with 14; lia].
  destruct Hh as (Hb' & Hl' & _ & Ht'). by apply (remainder_filled _ len type).
Qed.

Lemma websocket_header_roundtrip_witness :
  fill_header 70000 0x82 = [0x82; 127; 0; 0; 0; 0; 0; 1; 17; 112] /\
  f_expected (websocket_get_frame_header (header_frame 0 (fill_header 70000 0x82))).2 = 70000.
Proof.
  split; [vm_compute; reflexivity|].
  pose proof (websocket_header_roundtrip 70000 0x82 ltac:(lia) ltac:(right; reflexivity)) as H. cbn zeta in H.
  destruct (websocket_get_frame_header _) as [ok f]. apply H.
Defined.

(** ** A header written in part *)

(** The data of two writes of 200 bytes, after a [websocket_writev] of them of
    which the socket takes one byte. *)
Definition short_data : list Z := replicate 200 7.
Definition short_writev : M (RedsWebSocket pipe) (Z * Z) :=
  rc1 ← websocket_writev [short_data] 0x82; rc2 ← websocket_writev [short_data] 0x82; mret (rc1, rc2).


(** ** The handshake *)

Lemma starts_with_last h n b :
  starts_with h (n ++ [b]) = true -> exists x, h !! length n = Some x /\ to_lower x = to_lower b.
Proof.
  revert h. induction n as [|c n IH]; intros [|x h]; cbn; try done.
  - intros [H%Z.eqb_eq _]%andb_true_iff. by exists x.
  - intros [_ H]%andb_true_iff. by apply IH.
Qed.

Lemma find_str_split h n b r :
  find_str h (n ++ [b]) = Some r -> exists k x, r = drop (S k) h /\ h !! k = Some x /\ to_lower x = to_lower b.
Proof.
  revert r. induction h as [|c h IH]; intros r; cbn [find_str].
  - destruct (starts_with [] (n ++ [b])) eqn:Es; [|done]. apply starts_with_last in Es as (x & Hx & _). done.
  - destruct (starts_with (c :: h) (n ++ [b])) eqn:Es.
    + apply starts_with_last in Es as (x & Hx & Hl). intros [= <-]. exists (length n), x. split; [|done].
      by rewrite length_app, Nat.add_comm.
    + intros (k & x & -> & Hx & Hl)%IH. by exists (S k), x.
Qed.

Lemma until_elem b bs : b ∈ bs -> until b bs <> None.
Proof.
  induction bs as [|x bs IH]; intros Hb; [by apply not_elem_of_nil in Hb|]. cbn [until].
  destruct (Z.eqb_spec x b); [done|]. apply elem_of_cons in Hb as [?|Hb]; [done|]. specialize (IH Hb). by destruct (until b bs).
Qed.

(** A request that is accepted has a carriage return after its key. *)
Lemma is_start_key {W} {E : WsEnv W} buf p : websocket_is_start buf = Some p -> generate_reply_key (W := W) buf <> None.
Proof.
  unfold websocket_is_start, generate_reply_key. destruct (find_str buf KEY) as [key|] eqn:Ek; [|by rewrite orb_true_r].
  destruct (is_suffix [CR; NL; CR; NL] buf) eqn:Es; [|by rewrite orb_true_r]. intros _.
  unfold is_suffix in Es. apply bool_decide_eq_true in Es. cbn [length] in Es.
  assert (4 <= length buf)%nat as H4 by (apply (f_equal length) in Es; rewrite length_drop in Es; cbn in Es; lia).
  change KEY with (removelast KEY ++ [58]) in Ek. apply find_str_split in Ek as (k & x & -> & Hx & Hl).
  assert (k < length buf - 4)%nat as Hk.
  { apply Nat.nle_gt. intros Hge. pose proof (lookup_drop buf (length buf - 4) (k - (length buf - 4))) as Hd.
    replace (length buf - 4 + (k - (length buf - 4)))%nat with k in Hd by lia. rewrite Hx, Es in Hd.
    destruct (k - (length buf - 4))%nat as [|[|[|[|j]]]]; cbn in Hd; try done; by injection Hd as <-. }
  destruct (until CR (drop (S k) buf)) eqn:Eu; [done|]. exfalso. revert Eu. apply until_elem.
  apply (list_elem_of_lookup_2 _ (length buf - 4 - S k)). rewrite lookup_drop.
  replace (S k + (length buf - 4 - S k))%nat with (length buf - 4 + 0)%nat by lia. by rewrite <- lookup_drop, Es.
Qed.

Section handshake.
Context {W : Type} {E : WsEnv W}.

End handshake.

(** A request, and the answer. *)
Definition demo_request : list Z :=
  bytes_of "GET /spice HTTP/1.1" ++ CRLF ++ bytes_of "sec-websocket-key: dGhlIHNhbXBsZQ== " ++ CRLF
  ++ bytes_of "Sec-WebSocket-Protocol: binary" ++ CRLF ++ CRLF.


(** When the answer to a close frame had to wait for the end of a data frame, the
    write that sends it goes on with a data frame of its own, which RFC 6455
    forbids: its data is reported as taken and lost. *)
Lemma websocket_write_after_close :
  match ws_run 100 [EvWrite [1; 2; 3; 4; 5] 0x82; EvRead 10; EvWrite [4; 5] 0x82; EvWrite [6] 0x82] [] []
          (fresh_socket (mkPipe [0x88; 0] 2)) with
  | Ok (got, taken) s =>
      (got, taken, closed s, wire s) = ([], [1; 2; 3; 4; 5; 6], true, [130; 5; 1; 2; 3; 4; 5] ++ [0x88; 0] ++ [130; 1; 6]) /\
      (deframe (DHdr 0 []) (wire s)).2 = [1; 2; 3; 4; 5]
  | _ => False
  end.
Proof. vm_compute. split; reflexivity. Qed.
