(* ===== verification/CacheIndex.v ===== *)
(** * Hash table and ring of a cache

    The caches of the server (image-cache.cpp, pixmap-cache.cpp and the template
    cache-item.tmpl.cpp) keep their items in the chains of a hash table and in a
    ring ordered by use.  This file has that structure once: items are blocks
    with an address, a chain and the ring are lists of addresses. *)

From Stdlib Require Import ZArith Lia.
From stdpp Require Import base list gmap numbers tactics option.
From S2P Require Import Prelude.

Open Scope Z_scope.

(** [fresh] is the address the next allocation returns. *)
Record index (A : Type) := mkIndex { items : gmap Z A; table : list (list Z); lru : list Z; fresh : Z }.
Arguments mkIndex {A}.
Arguments items {A}.
Arguments table {A}.
Arguments lru {A}.
Arguments fresh {A}.

Definition ring_remove (a : Z) (l : list Z) : list Z := filter (fun b => b <> a) l.
Definition ring_add (a : Z) (l : list Z) : list Z := a :: l.
Definition ring_get_tail (l : list Z) : option Z := list.last l.
Definition ring_get_head (l : list Z) : option Z := list.head l.

Section index.
Context {A : Type} (id_of : A -> Z) (key : Z -> nat) (N : nat).
Implicit Types (ix : index A).

Definition bucket ix (k : nat) : list Z := default [] (table ix !! k).

(** Along [next] to the item with this id. *)
Fixpoint chain_find (its : gmap Z A) (id : Z) (chain : list Z) : option Z :=
  match chain with
  | [] => None
  | a :: chain' =>
      match its !! a with
      | Some it => if id_of it =? id then Some a else chain_find its id chain'
      | None => chain_find its id chain'
      end
  end.

Definition idx_find ix (id : Z) : option Z := chain_find (items ix) id (bucket ix (key id)).

(** [ring_remove] and [ring_add] of a link. *)
Definition idx_touch ix (a : Z) : index A := mkIndex (items ix) (table ix) (ring_add a (ring_remove a (lru ix))) (fresh ix).

(** Out of its chain and the ring; [None] when the chain ends before the item. *)
Definition idx_unlink ix (a : Z) : option (index A) :=
  match items ix !! a with
  | None => None
  | Some it =>
      match remove1 a (bucket ix (key (id_of it))) with
      | None => None
      | Some chain => Some (mkIndex (delete a (items ix)) (<[key (id_of it) := chain]> (table ix)) (ring_remove a (lru ix)) (fresh ix))
      end
  end.

Definition idx_link ix (it : A) : index A :=
  mkIndex (<[fresh ix := it]> (items ix)) (<[key (id_of it) := fresh ix :: bucket ix (key (id_of it))]> (table ix))
    (ring_add (fresh ix) (lru ix)) (fresh ix + 1).

Definition idx_empty : index A := mkIndex ∅ (replicate N []) [] 1.

(** The items in the order of their use. *)
Definition contents ix : list A := omap (fun a => items ix !! a) (lru ix).

(** Every item is in its chain and in the ring, once. *)
Definition ix_ok ix : Prop :=
  length (table ix) = N /\ NoDup (lru ix) /\ (forall a, a ∈ lru ix <-> is_Some (items ix !! a)) /\
  (forall k, NoDup (bucket ix k)) /\
  (forall k a, a ∈ bucket ix k <-> exists it, items ix !! a = Some it /\ key (id_of it) = k) /\
  (forall a, is_Some (items ix !! a) -> a < fresh ix).

Context (key_bound : forall id, (key id < N)%nat).

Lemma bucket_insert ix its l n k j c :
  (k < length (table ix))%nat -> bucket (mkIndex its (<[k := c]> (table ix)) l n) j = if decide (j = k) then c else bucket ix j.
Proof.
  intros Hk. unfold bucket. cbn [table]. destruct (decide (j = k)) as [->|Hne].
  - by rewrite list_lookup_insert_eq.
  - by rewrite list_lookup_insert_ne.
Qed.

Lemma ix_empty_ok : ix_ok idx_empty.
Proof.
  assert (forall k, bucket idx_empty k = []) as Hb.
  { intros k. unfold bucket. cbn [idx_empty table]. destruct (replicate N [] !! k) as [c|] eqn:E; [|done].
    by apply lookup_replicate in E as [-> _]. }
  split; [apply length_replicate|]. split; [constructor|]. split; [|split; [|split]].
  - intros a. cbn [idx_empty lru items]. rewrite lookup_empty. split; [by intros ?%not_elem_of_nil|by intros [? ?]].
  - intros k. rewrite Hb. constructor.
  - intros k a. rewrite Hb. cbn [idx_empty items]. rewrite lookup_empty. split; [by intros ?%not_elem_of_nil|by intros (? & ? & _)].
  - intros a. cbn [idx_empty items]. rewrite lookup_empty. by intros [? ?].
Qed.

Lemma chain_find_Some its id chain a :
  chain_find its id chain = Some a -> exists it, its !! a = Some it /\ id_of it = id.
Proof.
  induction chain as [|b chain IH]; [done|]. cbn [chain_find]. destruct (its !! b) as [it|] eqn:E; [|done].
  destruct (Z.eqb_spec (id_of it) id) as [Hid|]; [|done]. intros [= <-]. by exists it.
Qed.

Lemma chain_find_None its id chain a it :
  chain_find its id chain = None -> a ∈ chain -> its !! a = Some it -> id_of it <> id.
Proof.
  intros Hf Ha Hit. induction chain as [|b chain IH]; [by apply not_elem_of_nil in Ha|]. cbn [chain_find] in Hf.
  apply elem_of_cons in Ha as [<-|Ha].
  - rewrite Hit in Hf. by destruct (Z.eqb_spec (id_of it) id).
  - apply IH; [|done]. destruct (its !! b) as [it'|]; [|done]. by destruct (id_of it' =? id).
Qed.

Lemma elem_of_contents ix it : ix_ok ix -> it ∈ contents ix <-> exists a, items ix !! a = Some it.
Proof.
  intros (_ & _ & Hl & _). unfold contents. rewrite list_elem_of_omap. split.
  - intros (a & _ & Ha). by exists a.
  - intros (a & Ha). exists a. split; [apply Hl; by exists it|done].
Qed.

Lemma idx_find_Some ix id a : idx_find ix id = Some a -> exists it, items ix !! a = Some it /\ id_of it = id.
Proof. apply chain_find_Some. Qed.

Lemma idx_find_None ix id it : ix_ok ix -> idx_find ix id = None -> it ∈ contents ix -> id_of it <> id.
Proof.
  intros Hok Hf (a & Ha)%elem_of_contents; [|done]. pose proof Hok as (_ & _ & _ & _ & Hb & _). intros Hid.
  apply (chain_find_None _ _ _ a it Hf); [|done|done]. apply Hb. exists it. by subst id.
Qed.

(** ** Use *)

Lemma elem_of_ring_remove a b l : b ∈ ring_remove a l <-> b ∈ l /\ b <> a.
Proof. unfold ring_remove. rewrite list_elem_of_filter. tauto. Qed.

Lemma ring_remove_split a l : NoDup l -> a ∈ l -> exists l1 l2, l = l1 ++ a :: l2 /\ ring_remove a l = l1 ++ l2.
Proof.
  intros Hd (l1 & l2 & ->)%list_elem_of_split. exists l1, l2. split; [done|].
  apply list.NoDup_app in Hd as (_ & H1 & [H2 _]%list.NoDup_cons). unfold ring_remove. rewrite list.filter_app, filter_cons_False by auto.
  assert (forall l : list Z, (a ∈ l -> False) -> filter (fun b => b <> a) l = l) as Hf.
  { clear. intros l Hl. induction l as [|b l IH]; [done|]. rewrite filter_cons_True; [|intros ->; apply Hl; left]. f_equal. apply IH. intros ?. apply Hl. by right. }
  rewrite !Hf; [done|done|]. intros Ha. apply (H1 a Ha). left.
Qed.

Lemma touch_ok ix a : ix_ok ix -> is_Some (items ix !! a) -> ix_ok (idx_touch ix a).
Proof.
  intros (H1 & H2 & H3 & H4 & H5 & H6) Ha. split; [done|]. cbn [idx_touch lru items]. split; [|split; [|by split_and!]].
  - apply list.NoDup_cons. split; [rewrite elem_of_ring_remove; tauto|]. by apply list.NoDup_filter.
  - intros b. unfold ring_add. rewrite elem_of_cons, elem_of_ring_remove, H3. destruct (decide (b = a)) as [->|]; tauto.
Qed.

Lemma contents_touch ix a it :
  ix_ok ix -> items ix !! a = Some it ->
  exists l1 l2, contents ix = l1 ++ it :: l2 /\ contents (idx_touch ix a) = it :: l1 ++ l2.
Proof.
  intros (_ & H2 & H3 & _) Ha. destruct (ring_remove_split a (lru ix) H2) as (l1 & l2 & E1 & E2); [apply H3; by exists it|].
  exists (omap (fun a => items ix !! a) l1), (omap (fun a => items ix !! a) l2). unfold contents. cbn [idx_touch lru items].
  unfold ring_add. rewrite E1 at 1. rewrite E2, omap_app. cbn [omap list_omap]. rewrite Ha, omap_app. done.
Qed.

(** ** Removal *)

Lemma remove1_NoDup a l : NoDup l -> a ∈ l -> exists l', remove1 a l = Some l' /\ NoDup l' /\ forall b, b ∈ l' <-> b ∈ l /\ b <> a.
Proof.
  induction l as [|c l IH]; intros Hd Ha; [by apply not_elem_of_nil in Ha|]. cbn [remove1]. apply list.NoDup_cons in Hd as [Hc Hd].
  destruct (Z.eqb_spec c a) as [->|Hne].
  - exists l. split; [done|]. split; [done|]. intros b. rewrite elem_of_cons. split; [|tauto].
    intros Hb. split; [by right|]. by intros ->.
  - apply elem_of_cons in Ha as [->|Ha]; [done|]. destruct (IH Hd Ha) as (l' & -> & Hd' & Hl'). exists (c :: l'). split; [done|].
    split; [apply list.NoDup_cons; split; [|done]; rewrite Hl'; tauto|]. intros b. rewrite !elem_of_cons, Hl'.
    split; [intros [->|?]; tauto|tauto].
Qed.

Lemma unlink_ok ix a it :
  ix_ok ix -> items ix !! a = Some it ->
  exists ix', idx_unlink ix a = Some ix' /\ ix_ok ix' /\ items ix' = delete a (items ix) /\ lru ix' = ring_remove a (lru ix).
Proof.
  intros (H1 & H2 & H3 & H4 & H5 & H6) Ha. unfold idx_unlink. rewrite Ha. set (k := key (id_of it)).
  destruct (remove1_NoDup a (bucket ix k) (H4 k)) as (chain & -> & Hd & Hc); [apply H5; by exists it|].
  eexists. split; [done|]. cbn [items lru]. split; [|done]. split; [cbn [table]; by rewrite length_insert|]. cbn [lru items].
  assert (k < length (table ix))%nat as Hk by (rewrite H1; apply key_bound).
  split; [by apply list.NoDup_filter|]. split; [|split; [|split]].
  - intros b. rewrite elem_of_ring_remove, H3. destruct (decide (b = a)) as [->|]; [rewrite lookup_delete_eq|rewrite lookup_delete_ne by done; tauto].
    split; [tauto|by intros [? ?]].
  - intros j. rewrite bucket_insert by done. by destruct (decide (j = k)).
  - intros j b. rewrite bucket_insert by done. cbn [items].
    destruct (decide (b = a)) as [->|Hb].
    + rewrite lookup_delete_eq. split; [|by intros (? & ? & _)]. destruct (decide (j = k)) as [->|Hj]; [rewrite Hc; tauto|].
      rewrite H5. intros (it' & Hit' & Hk'). rewrite Ha in Hit'. injection Hit' as <-. done.
    + rewrite lookup_delete_ne by done. rewrite <- H5. destruct (decide (j = k)) as [->|]; [rewrite Hc; tauto|done].
  - intros b Hb. apply H6. destruct (decide (b = a)) as [->|]; [by exists it|]. by rewrite lookup_delete_ne in Hb.
Qed.

Lemma contents_ext (m m' : gmap Z A) (l : list Z) : (forall a, a ∈ l -> m !! a = m' !! a) -> omap (fun a => m !! a) l = omap (fun a => m' !! a) l.
Proof.
  induction l as [|a l IH]; [done|]. intros H. cbn [omap list_omap]. rewrite <- (H a) by left.
  rewrite IH; [done|]. intros b Hb. apply H. by right.
Qed.

(** Without the item the others keep their order. *)
Lemma contents_unlink ix ix' a it :
  ix_ok ix -> items ix !! a = Some it -> idx_unlink ix a = Some ix' ->
  exists l1 l2, contents ix = l1 ++ it :: l2 /\ contents ix' = l1 ++ l2.
Proof.
  intros Hok Ha Hu. pose proof Hok as (_ & H2 & H3 & _).
  destruct (unlink_ok ix a it Hok Ha) as (ix1 & Hu1 & _ & E1 & E2). rewrite Hu in Hu1. injection Hu1 as <-.
  destruct (ring_remove_split a (lru ix) H2) as (l1 & l2 & G1 & G2); [apply H3; by exists it|].
  exists (omap (fun a => items ix !! a) l1), (omap (fun a => items ix !! a) l2). unfold contents. rewrite E1, E2, G2. rewrite G1 at 1.
  rewrite omap_app. cbn [omap list_omap]. rewrite Ha. split; [done|]. rewrite omap_app.
  rewrite G1 in H2. apply list.NoDup_app in H2 as (_ & Hx & [Hy _]%list.NoDup_cons).
  f_equal; apply contents_ext; intros b Hb; apply lookup_delete_ne; intros <-; [apply (Hx a Hb); left|done].
Qed.

(** The item that was used longest ago is the last of the contents. *)
Lemma contents_unlink_tail ix ix' a :
  ix_ok ix -> ring_get_tail (lru ix) = Some a -> idx_unlink ix a = Some ix' ->
  exists it, items ix !! a = Some it /\ contents ix = contents ix' ++ [it].
Proof.
  intros Hok Ht Hu. pose proof Hok as (_ & H2 & H3 & _). apply last_Some in Ht as [l Hl].
  destruct (proj1 (H3 a)) as [it Ha]; [rewrite Hl; apply elem_of_app; right; left|]. exists it. split; [done|].
  destruct (unlink_ok ix a it Hok Ha) as (ix1 & Hu1 & _ & E1 & E2). rewrite Hu in Hu1. injection Hu1 as <-.
  unfold contents. rewrite E1, E2.
  destruct (ring_remove_split a (lru ix) H2) as (l1 & l2 & G1 & G2); [rewrite Hl; apply elem_of_app; right; left|].
  assert (l2 = []) as ->.
  { rewrite G1 in Hl. destruct l2 as [|x l2] using rev_ind; [done|]. rewrite app_comm_cons, app_assoc in Hl. apply app_inj_tail in Hl as [_ ->].
    rewrite G1 in H2. apply list.NoDup_app in H2 as (_ & _ & [Hx _]%list.NoDup_cons). destruct Hx. apply elem_of_app. right. left. }
  rewrite G2, app_nil_r, G1, omap_app. cbn [omap list_omap]. rewrite Ha. f_equal. apply contents_ext.
  intros b Hb. rewrite lookup_delete_ne; [done|]. intros <-. rewrite G1 in H2. apply list.NoDup_app in H2 as (_ & Hx & _). apply (Hx a Hb). left.
Qed.

(** ** Insertion *)

Lemma link_ok ix it : ix_ok ix -> ix_ok (idx_link ix it).
Proof.
  intros (H1 & H2 & H3 & H4 & H5 & H6). set (k := key (id_of it)).
  assert (items ix !! fresh ix = None) as Hf by (destruct (items ix !! fresh ix) eqn:E; [|done]; specialize (H6 _ (ex_intro _ _ E)); lia).
  assert (k < length (table ix))%nat as Hk by (rewrite H1; apply key_bound).
  split; [cbn; by rewrite length_insert|]. cbn [idx_link lru items fresh]. split; [|split; [|split; [|split]]].
  - apply list.NoDup_cons. split; [|done]. rewrite H3, Hf. by intros [? ?].
  - intros b. unfold ring_add. rewrite elem_of_cons, H3. destruct (decide (b = fresh ix)) as [->|Hb].
    + rewrite lookup_insert_eq. split; [by eauto|by left].
    + rewrite lookup_insert_ne by done. tauto.
  - intros j. unfold idx_link. rewrite bucket_insert by done. destruct (decide (j = _)) as [->|]; [|done]. apply list.NoDup_cons. split; [|done].
    rewrite H5, Hf. by intros (? & ? & _).
  - intros j b. unfold idx_link. rewrite bucket_insert by done. cbn [items]. fold k. destruct (decide (b = fresh ix)) as [->|Hb].
    + rewrite lookup_insert_eq. destruct (decide (j = k)) as [->|Hj].
      * split; [by eauto|]. intros _. left.
      * rewrite H5, Hf. split; [by intros (? & ? & _)|]. intros (? & [= <-] & Hx). done.
    + rewrite lookup_insert_ne by done. destruct (decide (j = k)) as [->|]; [|apply H5]. rewrite elem_of_cons, H5. tauto.
  - intros b. destruct (decide (b = fresh ix)) as [->|Hb]; [lia|]. rewrite lookup_insert_ne by done. intros Hx%H6. lia.
Qed.

Lemma contents_link ix it : ix_ok ix -> contents (idx_link ix it) = it :: contents ix.
Proof.
  intros (_ & _ & H3 & _ & _ & H6). unfold contents. cbn [idx_link lru items ring_add omap list_omap]. rewrite lookup_insert_eq. f_equal.
  apply contents_ext. intros a Ha. rewrite lookup_insert_ne; [done|]. intros <-. apply H3, H6 in Ha. lia.
Qed.

Lemma contents_empty : contents idx_empty = [].
Proof. done. Qed.

Lemma contents_nil ix : ix_ok ix -> ring_get_tail (lru ix) = None -> contents ix = [].
Proof. intros _ Ht. apply last_None in Ht. unfold contents. by rewrite Ht. Qed.

Lemma length_contents ix : ix_ok ix -> length (contents ix) = length (lru ix).
Proof.
  intros (_ & _ & H3 & _). unfold contents. assert (forall a, a ∈ lru ix -> is_Some (items ix !! a)) as H by (intros a; apply H3).
  clear H3. induction (lru ix) as [|a l IH]; [done|]. cbn [omap list_omap]. destruct (H a) as [it ->]; [left|]. cbn [length]. f_equal.
  apply IH. intros b Hb. apply H. by right.
Qed.
End index.
