(* ===== verification/ClientCache.v ===== *)
(** * Caches of palettes and cursors (cache-item.tmpl.cpp)

    The template has two instances, the palettes of a display channel client
    ([red_palette_cache_...]) and the cursors of a cursor channel client
    ([red_cursor_cache_...]), both with 256 chains.  The server only keeps ids:
    the cache itself is in the client, which is told what to forget by messages
    in the pipe.  The reference is a plain list in the order of use. *)

From Stdlib Require Import ZArith Lia.
From stdpp Require Import base list gmap numbers tactics option.
From S2P Require Import Prelude CacheIndex.

Open Scope Z_scope.

Record RedCacheItem := mkItem { ci_size : Z; ci_id : Z }.

(** [inval]: the messages that have been put in the pipe. *)
Record client_cache := mkCache { c_ix : index RedCacheItem; available : Z; inval : list Z }.

Definition CACHE_HASH_SIZE : nat := 256.
Definition CACHE_HASH_KEY (id : Z) : nat := Z.to_nat (Z.land id 255).
Definition CLIENT_PALETTE_CACHE_SIZE : Z := 128.
Definition CLIENT_CURSOR_CACHE_SIZE : Z := 256.

Definition set_ix (ix : index RedCacheItem) (c : client_cache) : client_cache := mkCache ix (available c) (inval c).
Definition set_available (n : Z) (c : client_cache) : client_cache := mkCache (c_ix c) n (inval c).

Definition cache_find (id : Z) : M client_cache bool :=
  c ← getS;
  match idx_find ci_id CACHE_HASH_KEY (c_ix c) id with
  | Some a => modS (fun c => set_ix (idx_touch (c_ix c) a) c);; mret true
  | None => mret false
  end.

(** Without the item in its chain the assertion on [now] fails. *)
Definition cache_remove (a : Z) : M client_cache unit :=
  c ← getS;
  match items (c_ix c) !! a, idx_unlink ci_id CACHE_HASH_KEY (c_ix c) a with
  | Some it, Some ix => modS (fun c => mkCache ix (s64 (available c + ci_size it)) (inval c ++ [ci_id it]))
  | _, _ => abort
  end.

(** The loop of [add]; [false] when the ring is empty. *)
Fixpoint make_room (n : nat) (size : Z) : M client_cache bool :=
  match n with
  | O => undef UbFuel
  | S n' =>
      c ← getS;
      if available c <? 0
      then match ring_get_tail (lru (c_ix c)) with
           | None => modS (fun c => set_available (s64 (available c + size)) c);; mret false
           | Some tail => cache_remove tail;; make_room n' size
           end
      else mret true
  end.

Definition cache_add (id size : Z) : M client_cache bool :=
  modS (fun c => set_available (s64 (available c - size)) c);;
  c ← getS;
  ok ← make_room (S (length (lru (c_ix c)))) size;
  if ok then modS (fun c => set_ix (idx_link ci_id CACHE_HASH_KEY (c_ix c) (mkItem size id)) c);; mret true
  else mret false.

Definition cache_reset (size : Z) : M client_cache unit :=
  modS (fun c => mkCache (idx_empty CACHE_HASH_SIZE) size (inval c)).

(** What the client is told of a palette or a cursor with this id. *)
Inductive verdict := FromCache | CacheMe | NotCached.

(** [dcc_palette_cache_palette], and [cursor_fill] for a cursor. *)
Definition cache_use (unique : Z) : M client_cache verdict :=
  if unique =? 0 then mret NotCached
  else
    hit ← cache_find unique;
    if hit then mret FromCache
    else
      ok ← cache_add unique 1;
      mret (if ok then CacheMe else NotCached).

(** ** The reference *)

Definition total (l : list RedCacheItem) : Z := foldr (fun it n => ci_size it + n) 0 l.

(** Drop the oldest until the rest and [size] fit; the oldest is first. *)
Fixpoint oldest_out (cap size : Z) (rl : list RedCacheItem) : list RedCacheItem * list RedCacheItem :=
  match rl with
  | [] => ([], [])
  | it :: rl' =>
      if total rl + size <=? cap then (rl, [])
      else let '(kept, out) := oldest_out cap size rl' in (kept, it :: out)
  end.

(** The last used first. *)
Definition ref_use (cap : Z) (l : list RedCacheItem) (unique : Z) : verdict * list RedCacheItem * list Z :=
  if unique =? 0 then (NotCached, l, [])
  else if bool_decide (unique ∈ (ci_id <$> l))
  then (FromCache, filter (fun it => ci_id it = unique) l ++ filter (fun it => ci_id it <> unique) l, [])
  else
    let '(kept, out) := oldest_out cap 1 (rev l) in
    if 1 <=? cap then (CacheMe, mkItem 1 unique :: rev kept, ci_id <$> out) else (NotCached, rev kept, ci_id <$> out).

Inductive cache_event := Use (unique : Z) | Reset.

Fixpoint cache_run (cap : Z) (evs : list cache_event) : M client_cache (list verdict) :=
  match evs with
  | [] => mret []
  | Use u :: evs' => v ← cache_use u; vs ← cache_run cap evs'; mret (v :: vs)
  | Reset :: evs' => cache_reset cap;; cache_run cap evs'
  end.

Fixpoint ref_run (cap : Z) (evs : list cache_event) (l : list RedCacheItem) (out : list Z)
    : list verdict * list RedCacheItem * list Z :=
  match evs with
  | [] => ([], l, out)
  | Use u :: evs' =>
      let '(v, l', o) := ref_use cap l u in
      let '(vs, l'', out') := ref_run cap evs' l' (out ++ o) in (v :: vs, l'', out')
  | Reset :: evs' => ref_run cap evs' [] out
  end.

(** ** The proof *)

Lemma key_bound id : (CACHE_HASH_KEY id < CACHE_HASH_SIZE)%nat.
Proof.
  unfold CACHE_HASH_KEY, CACHE_HASH_SIZE. change 255 with (Z.ones 8). rewrite Z.land_ones by lia.
  pose proof (Z.mod_pos_bound id (2 ^ 8)). lia.
Qed.
#[local] Hint Resolve key_bound : core.

Abbreviation ok_ix := (ix_ok ci_id CACHE_HASH_KEY CACHE_HASH_SIZE).

Lemma total_app l1 l2 : total (l1 ++ l2) = total l1 + total l2.
Proof. induction l1 as [|it l1 IH]; [done|]. cbn [app total foldr]. fold (total (l1 ++ l2)) (total l1). lia. Qed.
Lemma total_rev l : total (rev l) = total l.
Proof. induction l as [|it l IH]; [done|]. cbn [rev]. rewrite total_app, IH. cbn. fold (total l). lia. Qed.

Definition sizes_ok (l : list RedCacheItem) : Prop := Forall (fun it => 0 <= ci_size it) l.
Lemma total_nonneg l : sizes_ok l -> 0 <= total l.
Proof. induction 1 as [|it l ? ? IH]; [done|]. cbn. fold (total l). lia. Qed.

Definition never (k : option ub_kind) (c : client_cache) : Prop := False.

Lemma cache_remove_tail c a :
  ok_ix (c_ix c) -> ring_get_tail (lru (c_ix c)) = Some a ->
  wp (cache_remove a) (fun _ c' => exists it, contents (c_ix c) = contents (c_ix c') ++ [it] /\ ok_ix (c_ix c') /\
    available c' = s64 (available c + ci_size it) /\ inval c' = inval c ++ [ci_id it]) never c.
Proof.
  intros Hok Ht. unfold cache_remove. apply wp_getS.
  assert (is_Some (items (c_ix c) !! a)) as [it Ha].
  { destruct Hok as (_ & _ & H & _). apply H. apply last_Some in Ht as [l ->]. apply elem_of_app. right. left. }
  destruct (unlink_ok ci_id CACHE_HASH_KEY CACHE_HASH_SIZE key_bound (c_ix c) a it Hok Ha) as (ix' & Hu & Hok' & _).
  rewrite Ha, Hu. exists it. cbn [c_ix available inval].
  destruct (contents_unlink_tail ci_id CACHE_HASH_KEY CACHE_HASH_SIZE key_bound _ ix' a Hok Ht Hu) as (it' & Ha' & Hc).
  rewrite Ha in Ha'. injection Ha' as <-. done.
Qed.

Lemma make_room_spec cap size n c l :
  ok_ix (c_ix c) -> contents (c_ix c) = l -> available c = cap - total l - size -> 0 <= size -> total l <= cap ->
  cap + size < 2 ^ 63 -> sizes_ok l -> (length l < n)%nat ->
  wp (make_room n size) (fun ok c' =>
    let '(kept, out) := oldest_out cap size (rev l) in
    ok_ix (c_ix c') /\ contents (c_ix c') = rev kept /\ inval c' = inval c ++ (ci_id <$> out) /\ ok = (size <=? cap) /\
    available c' = cap - total kept - (if ok then size else 0)) never c.
Proof.
  intros Hok. revert c l Hok. induction n as [|n IH]; intros c l Hok Hl Hav Hsz Hcap H63 Hs Hn; [lia|].
  pose proof (total_nonneg l Hs) as Ht0. cbn [make_room]. apply wp_getS. destruct (Z.ltb_spec (available c) 0) as [Hneg|Hpos].
  - destruct (ring_get_tail (lru (c_ix c))) as [a|] eqn:Et.
    + apply wp_bind. eapply wp_conseq; [by apply cache_remove_tail|]. intros [] c1 (it & Hc & Hok1 & Hav1 & Hin1).
      rewrite Hl in Hc. set (l1 := contents (c_ix c1)) in *. rewrite Hc in *. clear Hc l.
      apply Forall_app in Hs as [Hs1 Hs2]. inversion Hs2 as [|? ? Hit _]; subst. pose proof (total_nonneg l1 Hs1).
      rewrite rev_app_distr. cbn [rev app oldest_out]. rewrite total_app in *. cbn [total foldr] in *. fold (total (rev l1)). rewrite total_rev.
      destruct (Z.leb_spec (ci_size it + total l1 + size) cap); [lia|].
      rewrite length_app in Hn. cbn [length] in Hn. rewrite s64_id in Hav1 by lia.
      eapply wp_conseq; [apply (IH c1 l1); try done; lia|].
      intros ok c2. destruct (oldest_out cap size (rev l1)) as [kept out]. intros (G1 & G2 & G3 & G4).
      split; [done|]. split; [done|]. split; [|done]. by rewrite G3, Hin1, <- app_assoc.
    + apply wp_modS, wp_ret. assert (l = []) as ->.
      { rewrite <- Hl. by apply (contents_nil ci_id CACHE_HASH_KEY CACHE_HASH_SIZE). }
      cbn in *. rewrite s64_id by lia. rewrite app_nil_r. split; [done|]. split; [done|]. split; [done|]. split; [|lia].
      symmetry. apply Z.leb_gt. lia.
  - apply wp_ret. assert (oldest_out cap size (rev l) = (rev l, [])) as ->.
    { destruct (rev l) as [|it rl] eqn:Er; [done|]. cbn [oldest_out]. rewrite <- Er, total_rev. by destruct (Z.leb_spec (total l + size) cap); [|lia]. }
    cbn [fmap list_fmap]. rewrite app_nil_r, rev_involutive, total_rev. split; [done|]. split; [done|]. split; [done|].
    split; [|lia]. symmetry. apply Z.leb_le. lia.
Qed.

Lemma oldest_out_spec cap size rl :
  let '(kept, out) := oldest_out cap size rl in
  rl = out ++ kept /\ (total kept + size <= cap \/ kept = []).
Proof.
  induction rl as [|it rl IH]; cbn [oldest_out]; [by split; [|right]|].
  destruct (Z.leb_spec (total (it :: rl) + size) cap); [by split; [|left]|].
  destruct (oldest_out cap size rl) as [kept out]. destruct IH as [-> ?]. by split.
Qed.

(** The cache holds the reference list. *)
Definition holds_list (cap : Z) (c : client_cache) (l : list RedCacheItem) (out : list Z) : Prop :=
  ok_ix (c_ix c) /\ contents (c_ix c) = l /\ available c = cap - total l /\ total l <= cap /\ sizes_ok l /\
  NoDup (ci_id <$> l) /\ inval c = out.

Lemma filter_split l1 l2 it :
  NoDup (ci_id <$> l1 ++ it :: l2) ->
  filter (fun x => ci_id x = ci_id it) (l1 ++ it :: l2) ++ filter (fun x => ci_id x <> ci_id it) (l1 ++ it :: l2) = it :: l1 ++ l2.
Proof.
  rewrite fmap_app, fmap_cons. intros (_ & H1 & [H2 _]%list.NoDup_cons)%list.NoDup_app.
  assert (forall l : list RedCacheItem, (ci_id it ∈ (ci_id <$> l) -> False) ->
    filter (fun x => ci_id x = ci_id it) l = [] /\ filter (fun x => ci_id x <> ci_id it) l = l) as Hf.
  { clear. intros l. induction l as [|x l IH]; intros Hl; [done|]. rewrite fmap_cons in Hl.
    assert (ci_id x <> ci_id it) as Hx by (intros Hx; apply Hl; rewrite Hx; left).
    destruct IH as [E1 E2]; [intros ?; apply Hl; by right|].
    rewrite filter_cons_False, filter_cons_True by done. by rewrite E1, E2. }
  destruct (Hf l1) as [E1 E2]; [intros Hx; apply (H1 _ Hx); left|]. destruct (Hf l2) as [E3 E4]; [done|].
  rewrite !list.filter_app, filter_cons_True, filter_cons_False by auto. by rewrite E1, E2, E3, E4.
Qed.

Lemma find_refines cap c l out u :
  holds_list cap c l out ->
  wp (cache_find u) (fun hit c' => hit = bool_decide (u ∈ (ci_id <$> l)) /\
    holds_list cap c' (if hit then filter (fun it => ci_id it = u) l ++ filter (fun it => ci_id it <> u) l else l) out) never c.
Proof.
  intros (Hok & Hl & Hav & Hcap & Hs & Hd & Hin). unfold cache_find. apply wp_getS.
  destruct (idx_find ci_id CACHE_HASH_KEY (c_ix c) u) as [a|] eqn:Ef.
  - apply wp_modS, wp_ret. destruct (idx_find_Some ci_id CACHE_HASH_KEY _ _ _ Ef) as (it & Ha & <-).
    destruct (contents_touch ci_id CACHE_HASH_KEY CACHE_HASH_SIZE _ _ _ Hok Ha) as (l1 & l2 & E1 & E2). rewrite Hl in E1. subst l.
    rewrite E1 in *. rewrite filter_split by done. split.
    + symmetry. apply bool_decide_eq_true. rewrite fmap_app, fmap_cons. apply elem_of_app. right. left.
    + assert (it :: l1 ++ l2 ≡ₚ l1 ++ it :: l2) as HP by apply Permutation_middle.
      split; [by apply touch_ok|]. split; [done|]. cbn [set_ix available inval].
      rewrite total_app in *. cbn [total foldr] in *. fold (total (l1 ++ l2)) (total l2) in *. rewrite total_app.
      split; [lia|]. split; [lia|]. split; [unfold sizes_ok; by rewrite HP|]. split; [by rewrite HP|done].
  - apply wp_ret. split; [|done]. symmetry. apply bool_decide_eq_false. intros (it & -> & Hi)%list_elem_of_fmap. subst l.
    by apply (idx_find_None ci_id CACHE_HASH_KEY CACHE_HASH_SIZE _ _ it Hok Ef).
Qed.

Lemma add_refines cap c l out u :
  holds_list cap c l out -> cap + 1 < 2 ^ 63 -> u ∉ (ci_id <$> l) ->
  wp (cache_add u 1) (fun ok c' =>
    let '(kept, o) := oldest_out cap 1 (rev l) in
    ok = (1 <=? cap) /\ holds_list cap c' (if ok then mkItem 1 u :: rev kept else rev kept) (out ++ (ci_id <$> o))) never c.
Proof.
  intros (Hok & Hl & Hav & Hcap & Hs & Hd & Hin) H63 Hu. unfold cache_add. apply wp_modS, wp_getS.
  pose proof (total_nonneg l Hs). cbn [set_available c_ix available]. rewrite s64_id by lia.
  apply wp_bind. eapply wp_conseq.
  { apply (make_room_spec cap 1 _ _ l); cbn [c_ix available set_available]; try done; try lia.
    rewrite <- Hl. rewrite (length_contents ci_id CACHE_HASH_KEY CACHE_HASH_SIZE) by done. lia. }
  intros ok c1. pose proof (oldest_out_spec cap 1 (rev l)) as Ho. destruct (oldest_out cap 1 (rev l)) as [kept o].
  destruct Ho as [Hrev Hfit]. intros (Hok1 & Hc1 & Hin1 & Hok' & Hav1). cbn [set_available inval] in Hin1.
  assert (l = rev kept ++ rev o) as El by (rewrite <- (rev_involutive l), Hrev; apply rev_app_distr).
  rewrite El in Hs, Hd, Hu. apply Forall_app in Hs as [Hs _]. rewrite fmap_app in Hd, Hu. apply list.NoDup_app in Hd as (Hd & _).
  pose proof (total_nonneg _ Hs) as Hk. rewrite total_rev in Hk. destruct ok.
  - apply wp_modS, wp_ret. split; [done|]. unfold holds_list, set_ix. cbn [c_ix available inval]. split; [by apply link_ok|].
    symmetry in Hok'. apply Z.leb_le in Hok'.
    split; [rewrite (contents_link ci_id CACHE_HASH_KEY CACHE_HASH_SIZE) by done; by rewrite Hc1|]. cbn [total foldr ci_size]. fold (total (rev kept)).
    rewrite total_rev. split; [cbn [available]; lia|]. split; [destruct Hfit as [?| ->]; [lia|cbn; lia]|].
    split; [constructor; [done|exact Hs]|]. split; [|cbn [inval]; by rewrite Hin1, Hin].
    rewrite fmap_cons. apply list.NoDup_cons. split; [|done]. intros Hx. apply Hu, elem_of_app. by left.
  - apply wp_ret. split; [done|]. split; [done|]. split; [done|]. rewrite total_rev. split; [lia|].
    split; [|split; [exact Hs|split; [done|by rewrite Hin1, Hin]]]. destruct Hfit as [?| ->]; [lia|]. cbn.
    assert (total l <= cap) by done. pose proof (total_nonneg l). rewrite El, total_app, !total_rev in *. cbn in *. lia.
Qed.

Lemma use_refines cap c l out u :
  holds_list cap c l out -> cap + 1 < 2 ^ 63 ->
  wp (cache_use u) (fun v c' => let '(v', l', o) := ref_use cap l u in v = v' /\ holds_list cap c' l' (out ++ o)) never c.
Proof.
  intros Hh H63. unfold cache_use, ref_use. destruct (u =? 0); [apply wp_ret; by rewrite app_nil_r|].
  apply wp_bind. eapply wp_conseq; [by apply (find_refines cap c l out u)|]. intros hit c1 [-> Hh1].
  case_bool_decide as Hu.
  - apply wp_ret. by rewrite app_nil_r.
  - apply wp_bind. eapply wp_conseq; [by apply (add_refines cap c1 l out u)|]. intros ok c2.
    destruct (oldest_out cap 1 (rev l)) as [kept o]. intros [-> Hh2]. apply wp_ret. by destruct (1 <=? cap).
Qed.

Lemma run_refines cap evs c l out :
  holds_list cap c l out -> 0 <= cap -> cap + 1 < 2 ^ 63 ->
  wp (cache_run cap evs) (fun vs c' => let '(vs', l', out') := ref_run cap evs l out in vs = vs' /\ holds_list cap c' l' out') never c.
Proof.
  intros Hh H0 H63. revert c l out Hh. induction evs as [|[u|] evs IH]; intros c l out Hh; cbn [cache_run ref_run]; [done|..].
  - apply wp_bind. eapply wp_conseq; [by apply (use_refines cap c l out u)|]. intros v c1. destruct (ref_use cap l u) as [[v' l'] o].
    intros [-> Hh1]. apply wp_bind. eapply wp_conseq; [by apply (IH c1 l' (out ++ o))|]. intros vs c2.
    destruct (ref_run cap evs l' (out ++ o)) as [[vs' l''] out']. intros [-> ?]. by apply wp_ret.
  - apply wp_modS. apply IH. unfold holds_list. cbn [c_ix available inval]. split; [apply ix_empty_ok|]. split; [done|]. cbn.
    split; [lia|]. split; [lia|]. split; [constructor|]. split; [constructor|]. apply Hh.
Qed.

Definition fresh_cache (cap : Z) : client_cache := mkCache (idx_empty CACHE_HASH_SIZE) cap [].

(** C16: The palette and cursor caches, with their hash chains, their ring and
    their count of free room, behave as a plain list in the order of use: for
    every sequence of uses and resets the client is told the same (take it from
    the cache, keep it, neither) as by the reference, the same ids are
    invalidated in the same order, the oldest first and no more than needed, the
    room is the capacity less what is held and never negative, no id is held
    twice, and no assertion fails. *)
Theorem client_cache_refines (cap : Z) (evs : list cache_event) :
  0 <= cap < 2 ^ 62 ->
  wp (cache_run cap evs) (fun vs c =>
    let '(vs', l, out) := ref_run cap evs [] [] in
    vs = vs' /\ contents (c_ix c) = l /\ inval c = out /\ NoDup (ci_id <$> l) /\
    available c = cap - total l /\ 0 <= available c) (fun _ _ => False) (fresh_cache cap).
Proof.
  intros Hcap. eapply wp_conseq; [apply (run_refines cap evs (fresh_cache cap) [] []); [|lia|lia]|].
  - split; [apply ix_empty_ok|]. split; [done|]. cbn. split; [lia|]. split; [lia|]. split; [constructor|]. split; [constructor|done].
  - intros vs c. destruct (ref_run cap evs [] []) as [[vs' l] out]. intros (-> & _ & ? & ? & ? & ? & ? & ?). do 5 (split; [done|]). lia.
Qed.

Lemma client_cache_refines_witness :
  0 <= 2 < 2 ^ 62 /\
  match cache_run 2 [Use 5; Use 261; Use 5; Use 7; Use 261; Use 0; Reset; Use 7] (fresh_cache 2) with
  | Ok vs c => vs = [CacheMe; CacheMe; FromCache; CacheMe; CacheMe; NotCached; CacheMe] /\ inval c = [261; 5] /\
               available c = 1
  | _ => False
  end /\
  wp (cache_run 2 [Use 5; Use 261; Use 5; Use 7; Use 261]) (fun vs c =>
    let '(vs', l, out) := ref_run 2 [Use 5; Use 261; Use 5; Use 7; Use 261] [] [] in
    vs = vs' /\ contents (c_ix c) = l /\ inval c = out /\ NoDup (ci_id <$> l) /\
    available c = 2 - total l /\ 0 <= available c) (fun _ _ => False) (fresh_cache 2).
Proof.
  split; [lia|]. split; [vm_compute; auto|]. apply (client_cache_refines 2 [Use 5; Use 261; Use 5; Use 7; Use 261]). lia.
Defined.
