(* ===== verification/PixmapCache.v ===== *)
(** * The pixmap cache (pixmap-cache.cpp, with its users in dcc.cpp and dcc-send.cpp)

    The pixmaps that a client keeps are shared by its display channels, at most
    four.  Every channel stamps the pixmaps it uses with the serial of its
    message; when one channel makes room, the client must not drop a pixmap
    before the messages of the other channels that use it, and a message must
    not drop what it uses itself. *)

From Stdlib Require Import ZArith Lia.
From stdpp Require Import base list gmap numbers tactics option.
From S2P Require Import Prelude CacheIndex.

Open Scope Z_scope.

Definition MAX_CACHE_CLIENTS : nat := 4.
Definition BITS_CACHE_HASH_SIZE : nat := 1024.
Definition BITS_CACHE_HASH_KEY (id : Z) : nat := Z.to_nat (Z.land id 1023).

Record NewCacheItem := mkNewItem { ni_id : Z; ni_sync : list Z; ni_size : Z; ni_lossy : bool }.

(** [frozen]: the ring and the items that a freeze has set aside. *)
Record PixmapCache := mkPixmap {
  px_ix : index NewCacheItem; px_available : Z; px_size : Z; frozen : option (list Z * gmap Z NewCacheItem);
  generation : Z; init_client : nat; init_message : Z; px_sync : list Z }.

(** The fields of a display channel client that the cache uses.  [d_serial] is
    [get_message_serial]; [free_res] and [free_sync] are its free list. *)
Record dcc := mkDcc {
  d_id : nat; d_generation : Z; pending_pixmaps_sync : bool; d_serial : Z; free_res : list Z; free_sync : list Z;
  pixmap_cache_items : list Z; d_pipe : Z }.

(** Ghost state: each release, with the serial of the message it goes with and
    the free list's [sync] after it. *)
Record release := mkRelease { rel_client : nat; rel_serial : Z; rel_item : NewCacheItem; rel_wait : list Z }.

Record pst := mkPst { cache : PixmapCache; me : dcc; log : list release }.

Definition set_cache (f : PixmapCache -> PixmapCache) (s : pst) : pst := mkPst (f (cache s)) (me s) (log s).
Definition set_me (f : dcc -> dcc) (s : pst) : pst := mkPst (cache s) (f (me s)) (log s).
Definition with_ix (ix : index NewCacheItem) (c : PixmapCache) : PixmapCache :=
  mkPixmap ix (px_available c) (px_size c) (frozen c) (generation c) (init_client c) (init_message c) (px_sync c).
Definition with_available (n : Z) (c : PixmapCache) : PixmapCache :=
  mkPixmap (px_ix c) n (px_size c) (frozen c) (generation c) (init_client c) (init_message c) (px_sync c).
Definition with_sync (i : nat) (serial : Z) (c : PixmapCache) : PixmapCache :=
  mkPixmap (px_ix c) (px_available c) (px_size c) (frozen c) (generation c) (init_client c) (init_message c)
    (<[i := serial]> (px_sync c)).

(** [sync[dcc->priv->id]] of an array of four. *)
Definition check_sync : M pst unit :=
  s ← getS; if (d_id (me s) <? MAX_CACHE_CLIENTS)%nat then mret tt else undef UbIndex.

Definition update_item (a : Z) (f : NewCacheItem -> NewCacheItem) (c : PixmapCache) : PixmapCache :=
  with_ix (mkIndex (alter f a (items (px_ix c))) (table (px_ix c)) (lru (px_ix c)) (fresh (px_ix c))) c.

Definition pixmap_cache_unlocked_set_lossy (id : Z) (lossy : bool) : M pst bool :=
  s ← getS;
  match idx_find ni_id BITS_CACHE_HASH_KEY (px_ix (cache s)) id with
  | Some a => modS (set_cache (update_item a (fun it => mkNewItem (ni_id it) (ni_sync it) (ni_size it) lossy)));; mret true
  | None => mret false
  end.

(** The items of the ring, which are those set aside when it was frozen, are freed. *)
Definition pixmap_cache_clear : M pst unit :=
  modS (set_cache (fun c =>
    mkPixmap (mkIndex ∅ (replicate BITS_CACHE_HASH_SIZE []) [] (fresh (px_ix c))) (px_size c) (px_size c) None
      (generation c) (init_client c) (init_message c) (px_sync c))).

Definition pixmap_cache_freeze : M pst bool :=
  s ← getS;
  match frozen (cache s) with
  | Some _ => mret false
  | None =>
      modS (set_cache (fun c =>
        mkPixmap (mkIndex ∅ (replicate BITS_CACHE_HASH_SIZE []) [] (fresh (px_ix c))) (-1) (px_size c)
          (Some (lru (px_ix c), items (px_ix c))) (generation c) (init_client c) (init_message c) (px_sync c)));;
      mret true
  end.

(** [Some]: whether the pixmap the client has is lossy. *)
Definition dcc_pixmap_cache_unlocked_hit (id : Z) : M pst (option bool) :=
  s ← getS;
  match idx_find ni_id BITS_CACHE_HASH_KEY (px_ix (cache s)) id with
  | Some a =>
      modS (set_cache (fun c => with_ix (idx_touch (px_ix c) a) c));;
      spice_assert (d_id (me s) <? MAX_CACHE_CLIENTS)%nat;;
      modS (set_cache (update_item a (fun it =>
        mkNewItem (ni_id it) (<[d_id (me s) := d_serial (me s)]> (ni_sync it)) (ni_size it) (ni_lossy it))));;
      modS (set_cache (with_sync (d_id (me s)) (d_serial (me s))));;
      mret (ni_lossy <$> items (px_ix (cache s)) !! a)
  | None => mret None
  end.

Definition dcc_push_release (it : NewCacheItem) : M pst unit :=
  modS (fun s =>
    let d := me s in
    let sync := zip_with Z.max (free_sync d) (ni_sync it) in
    mkPst (cache s)
      (mkDcc (d_id d) (d_generation d) (pending_pixmaps_sync d) (d_serial d) (free_res d ++ [ni_id it]) sync
         (pixmap_cache_items d) (d_pipe d))
      (log s ++ [mkRelease (d_id d) (d_serial d) it sync])).

(** The loop of the next function. *)
Fixpoint pixmap_room (n : nat) (size : Z) : M pst bool :=
  match n with
  | O => undef UbFuel
  | S n' =>
      s ← getS;
      let refuse := modS (set_cache (fun c => with_available (s64 (px_available c + size)) c));; mret false in
      if px_available (cache s) <? 0
      then
        match ring_get_tail (lru (px_ix (cache s))) with
        | None => refuse
        | Some a =>
            check_sync;;
            match items (px_ix (cache s)) !! a with
            | None => undef UbNull
            | Some tail =>
                if bool_decide (ni_sync tail !! d_id (me s) = Some (d_serial (me s))) then refuse
                else
                  match idx_unlink ni_id BITS_CACHE_HASH_KEY (px_ix (cache s)) a with
                  | None => abort
                  | Some ix =>
                      modS (set_cache (fun c => with_sync (d_id (me s)) (d_serial (me s))
                              (with_available (s64 (px_available c + ni_size tail)) (with_ix ix c))));;
                      dcc_push_release tail;;
                      pixmap_room n' size
                  end
            end
        end
      else mret true
  end.

Definition dcc_pixmap_cache_unlocked_add (id size : Z) (lossy : bool) : M pst bool :=
  spice_assert (0 <? size);;
  s ← getS;
  if negb (generation (cache s) =? d_generation (me s))
  then
    (if pending_pixmaps_sync (me s) then mret tt
     else modS (set_me (fun d => mkDcc (d_id d) (d_generation d) true (d_serial d) (free_res d) (free_sync d)
                          (pixmap_cache_items d) (d_pipe d + 1))));;
    mret false
  else
    modS (set_cache (fun c => with_available (s64 (px_available c - size)) c));;
    ok ← pixmap_room (S (length (lru (px_ix (cache s))))) size;
    if negb ok then mret false
    else
      check_sync;;
      modS (set_cache (fun c =>
        with_sync (d_id (me s)) (d_serial (me s))
          (with_ix (idx_link ni_id BITS_CACHE_HASH_KEY (px_ix c)
             (mkNewItem id (<[d_id (me s) := d_serial (me s)]> (replicate MAX_CACHE_CLIENTS 0)) size lossy)) c)));;
      mret true.

(** The part of [red_display_add_image_to_pixmap_cache] for an image that the
    client shall keep. *)
Definition red_display_add_image_to_pixmap_cache (id size : Z) (lossy : bool) : M pst bool :=
  ok ← dcc_pixmap_cache_unlocked_add id size lossy;
  (if ok then modS (set_me (fun d => mkDcc (d_id d) (d_generation d) (pending_pixmaps_sync d) (d_serial d) (free_res d)
                      (free_sync d) (pixmap_cache_items d ++ [id]) (d_pipe d)))
   else mret tt);;
  mret ok.

(** The channels, other than this one, with a serial to wait for. *)
Definition wait_list (sync : list Z) (i : nat) : list (nat * Z) :=
  filter (fun p => p.2 <> 0 /\ p.1 <> i) (imap pair sync).

Definition dcc_pixmap_cache_reset : M pst (list (nat * Z)) :=
  pixmap_cache_clear;;
  check_sync;;
  s ← getS;
  let d := me s in
  let gen := u32 (generation (cache s) + 1) in
  modS (set_cache (fun c => mkPixmap (px_ix c) (px_available c) (px_size c) (frozen c) gen (d_id d) (d_serial d)
                              (<[d_id d := d_serial d]> (px_sync c))));;
  modS (set_me (fun d => mkDcc (d_id d) gen (pending_pixmaps_sync d) (d_serial d) (free_res d) (free_sync d)
                           (pixmap_cache_items d) (d_pipe d)));;
  s ← getS;
  mret (wait_list (px_sync (cache s)) (d_id d)).

(** The channel and the serial to wait for. *)
Definition display_channel_marshall_pixmap_sync : M pst (nat * Z) :=
  s ← getS;
  modS (set_me (fun d => mkDcc (d_id d) (generation (cache s)) false (d_serial d) (free_res d) (free_sync d)
                           (pixmap_cache_items d) (d_pipe d)));;
  mret (init_client (cache s), init_message (cache s)).

Definition next_serial : M pst unit :=
  modS (set_me (fun d => mkDcc (d_id d) (d_generation d) (pending_pixmaps_sync d) (u64 (d_serial d + 1)) (free_res d)
                           (free_sync d) (pixmap_cache_items d) (d_pipe d))).

(** The wait list of the message, with [mini] headers after the pixmaps it uses
    have moved to the next serial, as the free list goes in a message of its own. *)
Definition begin_send_message (mini : bool) : M pst (list (nat * Z)) :=
  s ← getS;
  (if negb (bool_decide (free_res (me s) = [])) && mini
   then next_serial;; iterM (fun id => dcc_pixmap_cache_unlocked_hit id;; mret tt) (pixmap_cache_items (me s))
   else mret tt);;
  next_serial;;
  mret (if bool_decide (free_res (me s) = []) then [] else wait_list (free_sync (me s)) (d_id (me s))).

Definition reset_send_data : M pst unit :=
  modS (set_me (fun d => mkDcc (d_id d) (d_generation d) (pending_pixmaps_sync d) (d_serial d) []
                           (replicate MAX_CACHE_CLIENTS 0) [] (d_pipe d))).

(** ** The list of caches *)

Definition pixmap_cache_new (size : Z) : PixmapCache :=
  mkPixmap (idx_empty BITS_CACHE_HASH_SIZE) size size None 0 0 0 (replicate MAX_CACHE_CLIENTS 0).

(** A cache is known by its client and id. *)
Record cache_entry := mkEntry { e_client : Z; e_id : Z; e_refs : Z; e_cache : PixmapCache }.

(** The place of the cache in the list, and the list. *)
Definition pixmap_cache_get (client id size : Z) (l : list cache_entry) : nat * list cache_entry :=
  match list_find (fun e => e_client e = client /\ e_id e = id) l with
  | Some (i, e) => (i, <[i := mkEntry (e_client e) (e_id e) (u32 (e_refs e + 1)) (e_cache e)]> l)
  | None => (0%nat, mkEntry client id 1 (pixmap_cache_new size) :: l)
  end.

(** Without references left the cache is cleared and freed. *)
Definition pixmap_cache_unref (client id : Z) (l : list cache_entry) : list cache_entry :=
  match list_find (fun e => e_client e = client /\ e_id e = id) l with
  | Some (i, e) =>
      if u32 (e_refs e - 1) =? 0 then delete i l
      else <[i := mkEntry (e_client e) (e_id e) (u32 (e_refs e - 1)) (e_cache e)]> l
  | None => l
  end.
