(* ===== verification/PixmapCacheThms.v ===== *)
(** * The pixmap cache: theorems *)

From Stdlib Require Import ZArith Lia.
From stdpp Require Import base list gmap numbers tactics option.
From S2P Require Import Prelude CacheIndex PixmapCache.

Open Scope Z_scope.

(** ** The invariant *)

Lemma bits_key_bound id : (BITS_CACHE_HASH_KEY id < BITS_CACHE_HASH_SIZE)%nat.
Proof.
  unfold BITS_CACHE_HASH_KEY, BITS_CACHE_HASH_SIZE. change 1023 with (Z.ones 10). rewrite Z.land_ones by lia.
  pose proof (Z.mod_pos_bound id (2 ^ 10)). lia.
Qed.

Abbreviation ok_ix := (ix_ok ni_id BITS_CACHE_HASH_KEY BITS_CACHE_HASH_SIZE).

Definition px_total (l : list NewCacheItem) : Z := foldr (fun it n => ni_size it + n) 0 l.
Definition item_ok (it : NewCacheItem) : Prop := 0 < ni_size it < 2 ^ 32 /\ length (ni_sync it) = MAX_CACHE_CLIENTS.

(** A release is not of a pixmap that the same message uses, and the client is
    told to wait for every other use of it. *)
Definition good_release (r : release) : Prop :=
  ni_sync (rel_item r) !! rel_client r <> Some (rel_serial r) /\
  length (ni_sync (rel_item r)) = MAX_CACHE_CLIENTS /\ Forall2 Z.le (ni_sync (rel_item r)) (rel_wait r).

(** The room there is; none while the cache is frozen. *)
Definition base (c : PixmapCache) : Z := match frozen c with None => px_size c | Some _ => -1 end.

(** [extra]: what has been taken off [px_available] in advance. *)
Definition cache_room (extra : Z) (c : PixmapCache) : Prop :=
  ok_ix (px_ix c) /\ Forall item_ok (contents (px_ix c)) /\ - 2 ^ 62 <= px_size c <= 2 ^ 62 /\
  px_available c = base c - px_total (contents (px_ix c)) - extra /\ px_total (contents (px_ix c)) <= Z.max 0 (base c).
Definition cache_ok (c : PixmapCache) : Prop := cache_room 0 c.

Definition dcc_ok (d : dcc) : Prop := (d_id d < MAX_CACHE_CLIENTS)%nat /\ length (free_sync d) = MAX_CACHE_CLIENTS.
Definition pinv (s : pst) : Prop := cache_ok (cache s) /\ dcc_ok (me s) /\ Forall good_release (log s).

Abbreviation kept := (keeps pinv (fun _ : option ub_kind => False)).

Lemma px_total_app l1 l2 : px_total (l1 ++ l2) = px_total l1 + px_total l2.
Proof. induction l1 as [|it l1 IH]; [done|]. cbn [app px_total foldr]. fold (px_total (l1 ++ l2)) (px_total l1). lia. Qed.
Lemma px_total_nonneg l : Forall item_ok l -> 0 <= px_total l.
Proof. induction 1 as [|it l [? _] ? IH]; [done|]. cbn. fold (px_total l). lia. Qed.
Lemma px_total_perm l l' : l ≡ₚ l' -> px_total l = px_total l'.
Proof. induction 1; cbn in *; fold px_total in *; try (change (foldr _ 0 ?x) with (px_total x) in *); lia. Qed.

(** An item that is updated in place, with the same id and size. *)
Lemma update_item_ok c a f :
  cache_ok c -> (forall it, item_ok it -> ni_id (f it) = ni_id it /\ ni_size (f it) = ni_size it /\ item_ok (f it)) ->
  cache_ok (update_item a f c).
Proof.
  intros (Hok & Hi & Hs & Hav & Hto) Hfi. pose proof Hok as (H1 & H2 & H3 & H4 & H5 & H6).
  assert (forall b it, items (px_ix c) !! b = Some it -> item_ok it) as Hall.
  { intros b it Hb. rewrite list.Forall_forall in Hi. apply Hi. apply (elem_of_contents ni_id BITS_CACHE_HASH_KEY BITS_CACHE_HASH_SIZE); [done|by exists b]. }
  assert (forall b, alter f a (items (px_ix c)) !! b = (fun it => if decide (b = a) then f it else it) <$> items (px_ix c) !! b) as Hal.
  { intros b. destruct (decide (b = a)) as [->|]; [by rewrite lookup_alter_eq|]. rewrite lookup_alter_ne by done. by destruct (items (px_ix c) !! b). }
  assert (forall b, is_Some (alter f a (items (px_ix c)) !! b) <-> is_Some (items (px_ix c) !! b)) as His
    by (intros b; rewrite Hal; apply fmap_is_Some).
  assert (Forall2 (fun it it' => item_ok it' /\ ni_size it' = ni_size it) (contents (px_ix c)) (contents (px_ix (update_item a f c)))) as H2l.
  { unfold contents, update_item. cbn [with_ix px_ix items lru]. clear H2 H3 H4 H5 H6 Hi Hok H1.
    induction (lru (px_ix c)) as [|b l IH]; [constructor|]. cbn [omap list_omap]. rewrite Hal.
    destruct (items (px_ix c) !! b) as [it|] eqn:Eb; [|exact IH]. cbn [fmap option_fmap option_map]. constructor; [|exact IH].
    specialize (Hall b it Eb). destruct (decide (b = a)); [|done]. destruct (Hfi it Hall) as (_ & ? & ?). done. }
  assert (px_total (contents (px_ix (update_item a f c))) = px_total (contents (px_ix c))) as Ht.
  { clear -H2l. induction H2l as [|it it' l l' [_ E] _ IH]; [done|]. cbn. fold (px_total l) (px_total l'). lia. }
  split; [|split; [|split; [done|]]].
  - split; [done|]. split; [done|]. cbn [update_item with_ix px_ix items lru fresh]. split; [|split; [done|split]].
    + intros b. by rewrite His.
    + intros k b. unfold bucket. cbn [table]. fold (bucket (px_ix c) k). rewrite H5, Hal. split.
      * intros (it & Hb & Hk). rewrite Hb. eexists. split; [done|]. destruct (decide (b = a)); [|done].
        by destruct (Hfi it (Hall b it Hb)) as (-> & _).
      * destruct (items (px_ix c) !! b) as [it|] eqn:Eb; [|by intros (? & ? & _)]. intros (it' & [= <-] & Hk). exists it. split; [done|].
        destruct (decide (b = a)); [|done]. by destruct (Hfi it (Hall b it Eb)) as (<- & _).
    + intros b Hb. apply H6. by apply His.
  - clear -H2l. induction H2l as [|? ? ? ? [? _]]; constructor; auto.
  - by rewrite Ht.
Qed.

Lemma touch_cache_ok c a : cache_ok c -> is_Some (items (px_ix c) !! a) -> cache_ok (with_ix (idx_touch (px_ix c) a) c).
Proof.
  intros (Hok & Hi & Hs & Hav & Hto) [it Ha].
  destruct (contents_touch ni_id BITS_CACHE_HASH_KEY BITS_CACHE_HASH_SIZE _ _ _ Hok Ha) as (l1 & l2 & E1 & E2).
  assert (it :: l1 ++ l2 ≡ₚ l1 ++ it :: l2) as HP by apply Permutation_middle.
  split; [cbn; apply touch_ok; [done|by exists it]|]. cbn [with_ix px_ix]. rewrite E2.
  rewrite (px_total_perm _ _ HP), <- E1. split; [by rewrite HP, <- E1|]. exact (conj Hs (conj Hav Hto)).
Qed.

Lemma with_sync_ok i n c : cache_ok c -> cache_ok (with_sync i n c).
Proof. done. Qed.

(** ** The operations *)

Lemma base_range c : - 2 ^ 62 <= px_size c <= 2 ^ 62 -> - 2 ^ 62 <= base c <= 2 ^ 62.
Proof. intros H. unfold base. destruct (frozen c); lia. Qed.

Definition never (k : option ub_kind) (s : pst) : Prop := False.

Lemma zip_max_le l1 l2 : length l1 = length l2 -> length (zip_with Z.max l1 l2) = length l2 /\ Forall2 Z.le l2 (zip_with Z.max l1 l2).
Proof.
  revert l2. induction l1 as [|x l1 IH]; intros [|y l2] Hl; try done. cbn in *. destruct (IH l2) as [E F]; [lia|].
  split; [lia|]. constructor; [lia|done].
Qed.

Lemma pixmap_room_spec n size s :
  cache_room size (cache s) -> dcc_ok (me s) -> Forall good_release (log s) -> 0 < size < 2 ^ 32 ->
  (length (lru (px_ix (cache s))) < n)%nat ->
  wp (pixmap_room n size) (fun ok s' =>
    cache_room (if ok then size else 0) (cache s') /\ dcc_ok (me s') /\ Forall good_release (log s') /\
    d_id (me s') = d_id (me s) /\ (ok = true -> 0 <= px_available (cache s'))) never s.
Proof.
  revert s. induction n as [|n IH]; intros s Hc Hd Hg Hsz Hn; [lia|].
  pose proof Hc as (Hok & Hi & Hs & Hav & Hto). pose proof (base_range _ Hs) as Hb. pose proof (px_total_nonneg _ Hi) as H0.
  cbn [pixmap_room]. apply wp_getS.
  assert (px_available (cache s) < 0 -> wp (modS (set_cache (fun c => with_available (s64 (px_available c + size)) c));; mret false)
    (fun ok s' => cache_room (if ok then size else 0) (cache s') /\ dcc_ok (me s') /\ Forall good_release (log s') /\
      d_id (me s') = d_id (me s) /\ (ok = true -> 0 <= px_available (cache s'))) never s) as Hrefuse.
  { intros Hneg. apply wp_modS, wp_ret. split; [|by do 3 (split; [done|])]. split; [done|]. split; [done|]. split; [done|].
    split; [|exact Hto]. change (base (cache (set_cache _ s))) with (base (cache s)). cbn [set_cache cache with_available px_available px_ix].
    rewrite s64_id by lia. lia. }
  destruct (Z.ltb_spec (px_available (cache s)) 0) as [Hneg|Hpos]; [|apply wp_ret; by do 4 (split; [done|])].
  destruct (ring_get_tail (lru (px_ix (cache s)))) as [a|] eqn:Et; [|by apply Hrefuse].
  apply wp_bind. unfold check_sync. apply wp_getS. destruct Hd as [Hid Hfs].
  destruct (Nat.ltb_spec (d_id (me s)) MAX_CACHE_CLIENTS); [|lia]. apply wp_ret.
  assert (is_Some (items (px_ix (cache s)) !! a)) as [it Ha].
  { destruct Hok as (_ & _ & Hl & _). apply Hl. apply last_Some in Et as [l ->]. apply elem_of_app. right. left. }
  rewrite Ha. case_bool_decide as Hser; [by apply Hrefuse|].
  destruct (unlink_ok ni_id BITS_CACHE_HASH_KEY BITS_CACHE_HASH_SIZE bits_key_bound _ a it Hok Ha) as (ix' & Hu & Hok' & _ & Hl').
  destruct (contents_unlink_tail ni_id BITS_CACHE_HASH_KEY BITS_CACHE_HASH_SIZE bits_key_bound _ ix' a Hok Et Hu) as (it' & Ha' & Hcon).
  rewrite Ha in Ha'. injection Ha' as <-. rewrite Hu. apply wp_modS. unfold dcc_push_release. apply wp_modS.
  pose proof (length_contents ni_id BITS_CACHE_HASH_KEY BITS_CACHE_HASH_SIZE _ Hok) as Hlc.
  pose proof (length_contents ni_id BITS_CACHE_HASH_KEY BITS_CACHE_HASH_SIZE _ Hok') as Hlc'.
  rewrite Hcon in Hi, Hlc, Hav, Hto, H0. rewrite length_app in Hlc. cbn [length] in Hlc. apply Forall_app in Hi as [Hi1 [Hit _]%Forall_cons_1].
  rewrite px_total_app in *. cbn [px_total foldr] in Hav, Hto, H0. pose proof (px_total_nonneg _ Hi1). destruct Hit as [Hsz1 Hsy].
  set (s1 := mkPst _ _ _). destruct (zip_max_le (free_sync (me s)) (ni_sync it)) as [Hz1 Hz2]; [congruence|].
  eapply wp_conseq; [apply (IH s1)|intros ok s2 (G1 & G2 & G3 & G4 & G5); done].
  - split; [done|]. split; [done|]. split; [done|]. change (base (cache s1)) with (base (cache s)).
    cbn [s1 set_cache cache with_sync with_available with_ix px_available px_ix]. rewrite s64_id by lia. split; lia.
  - split; [done|]. cbn. congruence.
  - cbn [s1 log set_cache me]. apply Forall_app. split; [done|]. constructor; [|constructor]. split; [done|]. split; [done|]. done.
  - done.
  - cbn [s1 set_cache cache with_sync with_available with_ix px_ix]. lia.
Qed.

Lemma find_item c id a : idx_find ni_id BITS_CACHE_HASH_KEY (px_ix c) id = Some a -> is_Some (items (px_ix c) !! a).
Proof. intros (it & Ha & _)%idx_find_Some. by exists it. Qed.

Lemma kept_me f : (forall d, dcc_ok d -> dcc_ok (f d)) -> kept (modS (set_me f)).
Proof. intros Hf. apply keeps_mod. intros s (Hc & Hd & Hg). split; [done|]. split; [by apply Hf|done]. Qed.

Lemma kept_cache f : (forall c, cache_ok c -> cache_ok (f c)) -> kept (modS (set_cache f)).
Proof. intros Hf. apply keeps_mod. intros s (Hc & Hd & Hg). split; [by apply Hf|done]. Qed.

Lemma set_lossy_kept id lossy : kept (pixmap_cache_unlocked_set_lossy id lossy).
Proof.
  intros s Hs. unfold pixmap_cache_unlocked_set_lossy. apply wp_getS. destruct (idx_find _ _ _ id) as [a|]; [|by apply wp_ret].
  apply (wp_keeps_bind pinv); [apply kept_cache|done|intros []; apply keeps_ret].
  intros c Hc. by apply update_item_ok.
Qed.

Lemma hit_kept id : kept (dcc_pixmap_cache_unlocked_hit id).
Proof.
  intros s Hs. unfold dcc_pixmap_cache_unlocked_hit. apply wp_getS. destruct (idx_find _ _ _ id) as [a|] eqn:Ef; [|by apply wp_ret].
  pose proof Hs as (Hc & [Hid Hfs] & Hg). apply find_item in Ef. apply wp_modS, wp_bind, wp_assert; intros Hx; [|by apply Nat.ltb_nlt in Hx].
  apply (wp_keeps_bind pinv); [apply kept_cache|split; [by apply touch_cache_ok|done]|].
  { intros c Hc'. apply update_item_ok; [done|]. intros it [? ?]. split; [done|]. split; [done|]. split; [done|].
    cbn. by rewrite length_insert. }
  intros []. apply keeps_bind; [by apply kept_cache|]. intros []. apply keeps_ret.
Qed.

Lemma empty_room c av : av = base c -> - 2 ^ 62 <= px_size c <= 2 ^ 62 ->
  px_ix c = mkIndex ∅ (replicate BITS_CACHE_HASH_SIZE []) [] (fresh (px_ix c)) -> px_available c = av -> cache_ok c.
Proof.
  intros -> Hs Hix Hav. pose proof (ix_empty_ok ni_id BITS_CACHE_HASH_KEY BITS_CACHE_HASH_SIZE) as (H1 & H2 & H3 & H4 & H5 & _).
  unfold cache_ok, cache_room. rewrite Hix, Hav. split; [|split; [constructor|split; [done|cbn; lia]]].
  split; [done|]. split; [done|]. split; [done|]. split; [done|]. split; [done|]. cbn. intros a [? ?]. done.
Qed.

Lemma clear_kept : kept pixmap_cache_clear.
Proof. apply kept_cache. intros c (_ & _ & Hs & _). by eapply empty_room. Qed.

Lemma freeze_kept : kept pixmap_cache_freeze.
Proof.
  intros s Hs. unfold pixmap_cache_freeze. apply wp_getS. destruct (frozen (cache s)) as [p|]; [by apply wp_ret|].
  apply (wp_keeps_bind pinv); [apply kept_cache|done|intros []; apply keeps_ret]. intros c (_ & _ & Hc & _). by eapply empty_room.
Qed.

Lemma check_sync_kept : kept check_sync.
Proof.
  intros s Hs. unfold check_sync. apply wp_getS. pose proof Hs as (_ & [Hid _] & _).
  destruct (Nat.ltb_spec (d_id (me s)) MAX_CACHE_CLIENTS); [by apply wp_ret|lia].
Qed.

Lemma add_kept id size lossy : 0 < size < 2 ^ 32 -> kept (dcc_pixmap_cache_unlocked_add id size lossy).
Proof.
  intros Hsz s Hs. unfold dcc_pixmap_cache_unlocked_add. apply wp_bind, wp_assert; intros Hx; [|apply Z.ltb_ge in Hx; lia].
  apply wp_getS. destruct (negb _).
  { apply (wp_keeps_bind pinv); [|done|intros []; apply keeps_ret].
    destruct (pending_pixmaps_sync _); [apply keeps_ret|by apply kept_me]. }
  destruct Hs as (Hc & Hd & Hg). pose proof Hc as (Hok & Hi & Hsi & Hav & Hto). pose proof (base_range _ Hsi). pose proof (px_total_nonneg _ Hi).
  apply wp_modS. set (s1 := set_cache _ s). apply wp_bind. eapply wp_conseq.
  { apply (pixmap_room_spec _ size s1); try done; [|cbn; lia]. split; [done|]. split; [done|]. split; [done|]. split; [|exact Hto].
    change (base (cache s1)) with (base (cache s)). cbn [s1 set_cache cache with_available px_available px_ix]. rewrite s64_id by lia. lia. }
  intros ok s2 (Hr & Hd2 & Hg2 & Hid & Hp). destruct ok; cbn [negb]; [|by apply wp_ret].
  apply wp_bind. eapply wp_conseq with (Q := fun _ s' => s' = s2).
  { unfold check_sync. apply wp_getS. destruct Hd2. destruct (Nat.ltb_spec (d_id (me s2)) MAX_CACHE_CLIENTS); [by apply wp_ret|lia]. }
  intros [] ? ->. apply wp_modS, wp_ret. split; [|done]. cbn [set_cache cache]. apply with_sync_ok.
  destruct Hr as (Hok2 & Hi2 & Hs2 & Hav2 & Hto2). set (it := mkNewItem _ _ _ _). specialize (Hp eq_refl).
  assert (contents (idx_link ni_id BITS_CACHE_HASH_KEY (px_ix (cache s2)) it) = it :: contents (px_ix (cache s2))) as Hcl
    by (by apply (contents_link ni_id BITS_CACHE_HASH_KEY BITS_CACHE_HASH_SIZE)).
  split; [apply link_ok; [apply bits_key_bound|done]|]. cbn [with_ix px_ix]. rewrite Hcl. split; [|split; [done|]].
  - constructor; [|done]. split; [done|]. cbn. by rewrite length_insert.
  - cbn [px_total foldr]. fold (px_total (contents (px_ix (cache s2)))). change (ni_size it) with size.
    change (base (with_ix _ (cache s2))) with (base (cache s2)). change (px_available (with_ix _ (cache s2))) with (px_available (cache s2)). lia.
Qed.

Lemma add_image_kept id size lossy : 0 < size < 2 ^ 32 -> kept (red_display_add_image_to_pixmap_cache id size lossy).
Proof.
  intros Hsz. apply keeps_bind; [by apply add_kept|]. intros ok. apply keeps_bind; [|intros []; apply keeps_ret].
  destruct ok; [by apply kept_me|apply keeps_ret].
Qed.

Lemma reset_kept : kept dcc_pixmap_cache_reset.
Proof.
  apply keeps_bind; [apply clear_kept|]. intros []. apply keeps_bind; [apply check_sync_kept|]. intros [] s Hs. apply wp_getS.
  apply (wp_keeps_bind pinv); [by apply kept_cache|done|]. intros []. apply keeps_bind; [by apply kept_me|]. intros [] s' Hs'. by apply wp_getS, wp_ret.
Qed.

Lemma sync_kept : kept display_channel_marshall_pixmap_sync.
Proof. intros s Hs. apply wp_getS. apply (wp_keeps_bind pinv); [by apply kept_me|done|intros []; apply keeps_ret]. Qed.

Lemma next_serial_kept : kept next_serial.
Proof. by apply kept_me. Qed.

Lemma begin_send_kept mini : kept (begin_send_message mini).
Proof.
  intros s Hs. apply wp_getS. apply (wp_keeps_bind pinv); [|done|].
  - destruct (_ && mini); [|apply keeps_ret]. apply keeps_bind; [apply next_serial_kept|]. intros []. apply keeps_iter.
    intros id. apply keeps_bind; [apply hit_kept|]. intros ?. apply keeps_ret.
  - intros []. apply keeps_bind; [apply next_serial_kept|]. intros []. apply keeps_ret.
Qed.

(** ** Runs of several channels on one cache *)

Inductive px_op :=
  | OpHit (id : Z) | OpAdd (id size : Z) (lossy : bool) | OpSetLossy (id : Z) (lossy : bool) | OpFreeze | OpReset | OpSync
  | OpSend (mini : bool).

Definition op_ok (op : px_op) : Prop := match op with OpAdd _ size _ => 0 < size < 2 ^ 32 | _ => True end.

Definition px_step (op : px_op) : M pst unit :=
  match op with
  | OpHit id => dcc_pixmap_cache_unlocked_hit id;; mret tt
  | OpAdd id size lossy => red_display_add_image_to_pixmap_cache id size lossy;; mret tt
  | OpSetLossy id lossy => pixmap_cache_unlocked_set_lossy id lossy;; mret tt
  | OpFreeze => pixmap_cache_freeze;; mret tt
  | OpReset => dcc_pixmap_cache_reset;; mret tt
  | OpSync => display_channel_marshall_pixmap_sync;; mret tt
  | OpSend mini => begin_send_message mini;; reset_send_data
  end.

(** The lock of the cache makes each operation a step. *)
Record psys := mkSys { sys_cache : PixmapCache; sys_dccs : list dcc; sys_log : list release }.

Definition sys_step (i : nat) (op : px_op) : M psys unit := fun s =>
  match sys_dccs s !! i with
  | None => Ok tt s
  | Some d =>
      match px_step op (mkPst (sys_cache s) d (sys_log s)) with
      | Ok _ t => Ok tt (mkSys (cache t) (<[i := me t]> (sys_dccs s)) (log t))
      | Abort t => Abort (mkSys (cache t) (<[i := me t]> (sys_dccs s)) (log t))
      | Ub k t => Ub k (mkSys (cache t) (<[i := me t]> (sys_dccs s)) (log t))
      end
  end.

Definition sys_run (evs : list (nat * px_op)) : M psys unit := iterM (fun '(i, op) => sys_step i op) evs.

Definition sys_ok (s : psys) : Prop := cache_ok (sys_cache s) /\ Forall dcc_ok (sys_dccs s) /\ Forall good_release (sys_log s).

Lemma px_step_kept op : op_ok op -> kept (px_step op).
Proof.
  intros Hop. destruct op; cbn [px_step]; apply keeps_bind; try (intros ?; apply keeps_ret);
    auto using hit_kept, set_lossy_kept, freeze_kept, reset_kept, sync_kept, begin_send_kept, add_image_kept.
  intros _. apply kept_me. intros d [? ?]. by split.
Qed.

Lemma sys_step_kept i op : op_ok op -> keeps sys_ok (fun _ => False) (sys_step i op).
Proof.
  intros Hop s (Hc & Hd & Hg). unfold wp, sys_step. destruct (sys_dccs s !! i) as [d|] eqn:Ei; [|done].
  pose proof (px_step_kept op Hop (mkPst (sys_cache s) d (sys_log s))) as H. unfold wp in H.
  assert (pinv (mkPst (sys_cache s) d (sys_log s))) as Hp by (split; [done|split; [by eapply Forall_lookup_1|done]]).
  specialize (H Hp). destruct (px_step op _) as [[] t|t|k t]; [|done..]. destruct H as (H1 & H2 & H3).
  split; [done|]. split; [by apply Forall_insert|done].
Qed.

(** ** Theorems *)

Definition new_dcc (id : nat) : dcc := mkDcc id 0 false 1 [] (replicate MAX_CACHE_CLIENTS 0) [] 0.
Definition new_sys (size : Z) (ids : list nat) : psys := mkSys (pixmap_cache_new size) (new_dcc <$> ids) [].

Lemma new_sys_ok size ids : - 2 ^ 62 <= size <= 2 ^ 62 -> Forall (fun i => (i < MAX_CACHE_CLIENTS)%nat) ids -> sys_ok (new_sys size ids).
Proof.
  intros Hs Hids. split; [by eapply empty_room|]. split; [|constructor]. apply Forall_fmap.
  eapply list.Forall_impl; [done|]. intros i Hi. by split.
Qed.


(** Two channels: the second drops what the first used, and waits for it. *)
Definition px_demo : list (nat * px_op) :=
  [(0%nat, OpAdd 7 60 false); (0%nat, OpSend true); (1%nat, OpHit 7); (1%nat, OpSend true); (1%nat, OpAdd 8 60 false);
   (1%nat, OpAdd 9 60 false); (0%nat, OpFreeze); (0%nat, OpReset); (1%nat, OpAdd 9 60 false); (1%nat, OpSync)].


(** A reference that is taken and given back leaves the list of caches as it was,
    and no cache in the list is without a reference. *)
Lemma pixmap_cache_get_unref client id size l :
  Forall (fun e => 0 < e_refs e < 2 ^ 32 - 1) l ->
  exists i l', pixmap_cache_get client id size l = (i, l') /\ Forall (fun e => 0 < e_refs e) l' /\
    pixmap_cache_unref client id l' = l.
Proof.
  intros Hl. unfold pixmap_cache_get. destruct (list_find _ l) as [[i e]|] eqn:Ef.
  - apply list_find_Some in Ef as (Hi & [Hc Hid] & Hbefore). set (e' := mkEntry _ _ _ _). exists i, (<[i := e']> l).
    pose proof Hl as Hl'. rewrite list.Forall_forall in Hl'.
    assert (0 < e_refs e < 2 ^ 32 - 1) as He by (apply Hl'; by eapply list_elem_of_lookup_2).
    assert (e_refs e' = e_refs e + 1) as Hr by (cbn; apply u32_id; lia).
    split; [done|]. split.
    { apply Forall_insert; [|lia]. eapply list.Forall_impl; [done|]. cbn. lia. }
    unfold pixmap_cache_unref. assert (list_find (fun e => e_client e = client /\ e_id e = id) (<[i := e']> l) = Some (i, e')) as ->.
    { apply list_find_Some. apply lookup_lt_Some in Hi as Hlt. rewrite list_lookup_insert_eq by done. split; [done|]. split; [done|].
      intros j y Hj Hlt'. rewrite list_lookup_insert_ne in Hj by lia. by eapply Hbefore. }
    rewrite Hr. rewrite u32_id by lia. destruct (Z.eqb_spec (e_refs e + 1 - 1) 0); [lia|].
    rewrite list_insert_insert_eq. apply list_insert_id. rewrite Hi. f_equal. destruct e; cbn in *. unfold e'. cbn. f_equal; lia.
  - exists 0%nat, (mkEntry client id 1 (pixmap_cache_new size) :: l). split; [done|]. split.
    { constructor; [done|]. eapply list.Forall_impl; [done|]. cbn. lia. }
    unfold pixmap_cache_unref. cbn [list_find e_client e_id]. rewrite decide_True by done. done.
Qed.

(** A fifth display channel: only the hit is guarded, the add writes past the
    end of [sync]. *)
Lemma pixmap_add_fifth_channel :
  match sys_run [(0%nat, OpAdd 7 60 false)] (new_sys 100 [4%nat]) with Ub UbIndex _ => True | _ => False end.
Proof. vm_compute. done. Qed.

(** The size comes from the client; the smallest 64-bit number wraps around and
    makes room for everything. *)
Lemma pixmap_cache_size_wraps :
  match sys_run [(0%nat, OpAdd 7 60 false)] (new_sys (- 2 ^ 63) [0%nat]) with
  | Ok _ s => px_available (sys_cache s) = 2 ^ 63 - 60 /\ length (contents (px_ix (sys_cache s))) = 1%nat
  | _ => False
  end.
Proof. vm_compute. done. Qed.
