(* ===== verification/ImageCache.v ===== *)
(** * The image cache of the renderer (image-cache.cpp)

    Decoded images that later commands name by id; two are kept
    ([IMAGE_CACHE_AGE] is not defined in any configuration).  [img_refs] counts
    the references to the images, which belong to pixman. *)

From Stdlib Require Import ZArith Lia.
From stdpp Require Import base list gmap numbers tactics option.
From S2P Require Import Prelude CacheIndex.

Open Scope Z_scope.

Record ImageCacheItem := mkImageItem { ic_id : Z; ic_image : Z }.
Record ImageCache := mkImageCache { im_ix : index ImageCacheItem; num_items : Z; img_refs : gmap Z Z }.

Definition IMAGE_CACHE_HASH_SIZE : nat := 1024.
Definition IMAGE_CACHE_MAX_ITEMS : Z := 2.
Definition image_key (id : Z) : nat := Z.to_nat (id mod 1024).

Definition refs_of (c : ImageCache) (img : Z) : Z := default 0 (img_refs c !! img).
Definition add_ref (img n : Z) (c : ImageCache) : ImageCache :=
  mkImageCache (im_ix c) (num_items c) (<[img := refs_of c img + n]> (img_refs c)).

Definition image_cache_find (c : ImageCache) (id : Z) : option Z := idx_find ic_id image_key (im_ix c) id.

Definition image_cache_hit (id : Z) : M ImageCache bool :=
  c ← getS;
  match image_cache_find c id with
  | None => mret false
  | Some a => modS (fun c => mkImageCache (idx_touch (im_ix c) a) (num_items c) (img_refs c));; mret true
  end.

(** Without the item in its chain the assertion on [now] fails. *)
Definition image_cache_remove (a : Z) : M ImageCache unit :=
  c ← getS;
  match items (im_ix c) !! a, idx_unlink ic_id image_key (im_ix c) a with
  | Some it, Some ix => modS (fun c => add_ref (ic_image it) (-1) (mkImageCache ix (u32 (num_items c - 1)) (img_refs c)))
  | _, _ => abort
  end.

Definition image_cache_put (id image : Z) : M ImageCache unit :=
  c ← getS;
  (if num_items c =? IMAGE_CACHE_MAX_ITEMS
   then match ring_get_tail (lru (im_ix c)) with
        | Some tail => image_cache_remove tail
        | None => abort
        end
   else mret tt);;
  modS (fun c => mkImageCache (im_ix c) (u32 (num_items c + 1)) (img_refs c));;
  modS (add_ref image 1);;
  modS (fun c => mkImageCache (idx_link ic_id image_key (im_ix c) (mkImageItem id image)) (num_items c) (img_refs c)).

Definition image_cache_get (id : Z) : M ImageCache Z :=
  c ← getS;
  match image_cache_find c id with
  | None => abort
  | Some a =>
      match items (im_ix c) !! a with
      | None => undef UbNull
      | Some it => modS (add_ref (ic_image it) 1);; mret (ic_image it)
      end
  end.

Definition image_cache_init (refs : gmap Z Z) : ImageCache := mkImageCache (idx_empty IMAGE_CACHE_HASH_SIZE) 0 refs.

Fixpoint reset_loop (n : nat) : M ImageCache unit :=
  match n with
  | O => undef UbFuel
  | S n' =>
      c ← getS;
      match ring_get_head (lru (im_ix c)) with
      | None => mret tt
      | Some a => image_cache_remove a;; reset_loop n'
      end
  end.
Definition image_cache_reset : M ImageCache unit := c ← getS; reset_loop (S (length (lru (im_ix c)))).

Definition image_cache_aging : M ImageCache unit := mret tt.

(** ** Images of a command *)

Inductive image_type := TQuic | TBitmap | TSurface | TFromCache | TOther.

(** The descriptor and the union of a [SpiceImage]. *)
Record SpiceImage := mkImage { i_id : Z; i_type : image_type; i_flags : Z; i_width : Z; i_height : Z; i_data : list Z }.

Section localize.
Context (SPICE_IMAGE_FLAGS_CACHE_ME : Z).

(** The image the command has afterwards: its own, or the store's.  [self] is the
    self bitmap of the drawable; its absence fails an assertion. *)
Definition image_cache_localize (image : option SpiceImage) (store : SpiceImage) (self : option SpiceImage) : M ImageCache SpiceImage :=
  match image with
  | None => match self with Some b => mret b | None => abort end
  | Some im =>
      hit ← image_cache_hit (i_id im);
      if hit then mret (mkImage (i_id im) TFromCache 0 (i_width im) (i_height im) (i_data store))
      else
        match i_type im with
        | TQuic =>
            mret (mkImage (i_id im) (i_type im)
                    (if 640 * 480 <=? u32 (i_width im * i_height im) then Z.lor (i_flags im) SPICE_IMAGE_FLAGS_CACHE_ME else i_flags im)
                    (i_width im) (i_height im) (i_data im))
        | TBitmap | TSurface => mret im
        | _ => abort
        end
  end.

(** The pattern of a brush, if it has one, and the bitmap of a mask. *)
Definition image_cache_localize_brush (pat : option (option SpiceImage)) (store : SpiceImage) : M ImageCache (option SpiceImage) :=
  match pat with
  | Some image => im ← image_cache_localize image store None; mret (Some im)
  | None => mret None
  end.
Definition image_cache_localize_mask (bitmap : option SpiceImage) (store : SpiceImage) : M ImageCache (option SpiceImage) :=
  match bitmap with
  | Some im => im ← image_cache_localize (Some im) store None; mret (Some im)
  | None => mret None
  end.
End localize.

(** ** The invariant *)

Lemma image_key_bound id : (image_key id < IMAGE_CACHE_HASH_SIZE)%nat.
Proof. unfold image_key, IMAGE_CACHE_HASH_SIZE. pose proof (Z.mod_pos_bound id 1024). lia. Qed.

Abbreviation ok_ix := (ix_ok ic_id image_key IMAGE_CACHE_HASH_SIZE).
Abbreviation held c := (contents (im_ix c)).

(** How often the cache holds an image. *)
Definition holds_image (l : list ImageCacheItem) (img : Z) : Z := Z.of_nat (length (filter (fun it => ic_image it = img) l)).

(** [taken]: the references given out by [image_cache_get]; [r0]: those from before. *)
Definition image_inv (r0 : Z -> Z) (taken : Z -> Z) (c : ImageCache) : Prop :=
  ok_ix (im_ix c) /\ num_items c = Z.of_nat (length (held c)) /\ num_items c <= IMAGE_CACHE_MAX_ITEMS /\
  forall img, refs_of c img = r0 img + taken img + holds_image (held c) img.

Definition never (k : option ub_kind) (c : ImageCache) : Prop := False.

Lemma refs_add img n c j : refs_of (add_ref img n c) j = refs_of c j + (if decide (j = img) then n else 0).
Proof.
  unfold refs_of at 1, add_ref. cbn [img_refs]. destruct (decide (j = img)) as [->|].
  - by rewrite lookup_insert_eq.
  - rewrite lookup_insert_ne by done. unfold refs_of. lia.
Qed.

Lemma holds_app l1 l2 img : holds_image (l1 ++ l2) img = holds_image l1 img + holds_image l2 img.
Proof. unfold holds_image. rewrite list.filter_app, length_app. lia. Qed.
Lemma holds_one it img : holds_image [it] img = if decide (img = ic_image it) then 1 else 0.
Proof.
  unfold holds_image. destruct (decide (img = ic_image it)) as [->|Hne].
  - by rewrite filter_cons_True.
  - rewrite filter_cons_False; [done|]. congruence.
Qed.
Lemma holds_perm l l' img : l ≡ₚ l' -> holds_image l img = holds_image l' img.
Proof. intros HP. unfold holds_image. by rewrite HP. Qed.

(** ** The operations *)

Section inv.
Context (r0 : Z -> Z).

Lemma image_remove_spec taken c a it :
  image_inv r0 taken c -> items (im_ix c) !! a = Some it ->
  wp (image_cache_remove a) (fun _ c' => image_inv r0 taken c' /\ length (held c) = S (length (held c')) /\
    exists l1 l2, held c = l1 ++ it :: l2 /\ held c' = l1 ++ l2) never c.
Proof.
  intros (Hok & Hn & Hmax & Hr) Ha. unfold image_cache_remove. apply wp_getS.
  destruct (unlink_ok ic_id image_key IMAGE_CACHE_HASH_SIZE image_key_bound _ a it Hok Ha) as (ix' & Hu & Hok' & _).
  destruct (contents_unlink ic_id image_key IMAGE_CACHE_HASH_SIZE image_key_bound _ ix' a it Hok Ha Hu) as (l1 & l2 & E1 & E2).
  rewrite Ha, Hu. unfold wp, modS.
  assert (length (held c) = S (length (l1 ++ l2))) as Hlen by (rewrite E1, !length_app; cbn; lia).
  change IMAGE_CACHE_MAX_ITEMS with 2 in *.
  split; [|split; [exact (eq_trans Hlen (f_equal (fun l => S (length l)) (eq_sym E2)))|by exists l1, l2]].
  split; [done|]. cbn [add_ref im_ix num_items]. rewrite E2, u32_id by lia. split; [lia|]. split; [change IMAGE_CACHE_MAX_ITEMS with 2; lia|].
  intros img. rewrite refs_add. change (refs_of (mkImageCache _ _ (img_refs c)) img) with (refs_of c img).
  rewrite Hr, E1, !holds_app. change (it :: l2) with ([it] ++ l2). rewrite holds_app, holds_one. destruct (decide _); lia.
Qed.

Lemma remove_tail_spec taken c a it :
  image_inv r0 taken c -> items (im_ix c) !! a = Some it -> ring_get_tail (lru (im_ix c)) = Some a ->
  wp (image_cache_remove a) (fun _ c' => image_inv r0 taken c' /\ length (held c) = S (length (held c')) /\ held c = held c' ++ [it]) never c.
Proof.
  intros Hinv Ha Ht. pose proof (image_remove_spec taken c a it Hinv Ha) as Hw. pose proof Hinv as (Hok & _). revert Hw.
  unfold image_cache_remove. unfold wp, bindM, getS. rewrite Ha. destruct (idx_unlink ic_id image_key (im_ix c) a) as [ix'|] eqn:Hu; [|done].
  intros (H1 & H2 & _). split; [done|]. split; [done|].
  destruct (contents_unlink_tail ic_id image_key IMAGE_CACHE_HASH_SIZE image_key_bound _ ix' a Hok Ht Hu) as (it' & Ha' & Hc).
  rewrite Ha in Ha'. by injection Ha' as <-.
Qed.

Lemma hit_spec taken c id :
  image_inv r0 taken c ->
  wp (image_cache_hit id) (fun hit c' => image_inv r0 taken c' /\
    (hit = true <-> id ∈ (ic_id <$> held c)) /\ (hit = true -> exists it l, ic_id it = id /\ held c' = it :: l)) never c.
Proof.
  intros (Hok & Hn & Hmax & Hr). unfold image_cache_hit. apply wp_getS. unfold image_cache_find.
  destruct (idx_find _ _ _ id) as [a|] eqn:Ef.
  - apply wp_modS, wp_ret. apply idx_find_Some in Ef as (it & Ha & Hid).
    destruct (contents_touch ic_id image_key IMAGE_CACHE_HASH_SIZE _ _ _ Hok Ha) as (l1 & l2 & E1 & E2).
    assert (it :: l1 ++ l2 ≡ₚ l1 ++ it :: l2) as HP by apply Permutation_middle. split; [|split].
    + split; [cbn; apply touch_ok; [done|by exists it]|]. cbn [im_ix num_items]. rewrite E2, (Permutation_length HP), <- E1.
      split; [done|]. split; [done|]. intros img. rewrite (holds_perm _ _ _ HP), <- E1. apply Hr.
    + split; [|done]. intros _. rewrite E1, fmap_app, fmap_cons, Hid. apply elem_of_app. right. left.
    + intros _. by exists it, (l1 ++ l2).
  - apply wp_ret. split; [done|]. split; [|done]. split; [done|]. intros (it & -> & Hi)%list_elem_of_fmap.
    by destruct (idx_find_None ic_id image_key IMAGE_CACHE_HASH_SIZE _ _ it Hok Ef Hi).
Qed.

(** A put leaves the image in front; of the others only the last can go. *)
Lemma put_spec taken c id img :
  image_inv r0 taken c ->
  wp (image_cache_put id img) (fun _ c' => image_inv r0 taken c' /\
    exists l, held c' = mkImageItem id img :: l /\ (held c = l \/ exists it, held c = l ++ [it])) never c.
Proof.
  intros Hinv. pose proof Hinv as (Hok & Hn & Hmax & _). unfold image_cache_put. apply wp_getS, wp_bind.
  apply (wp_conseq _ (fun _ c1 => image_inv r0 taken c1 /\ num_items c1 < 2 /\ (held c = held c1 \/ exists it, held c = held c1 ++ [it]))).
  { change IMAGE_CACHE_MAX_ITEMS with 2 in *. destruct (Z.eqb_spec (num_items c) 2) as [H2|H2]; [|apply wp_ret; split; [done|split; [lia|by left]]].
    destruct (ring_get_tail (lru (im_ix c))) as [a|] eqn:Et.
    - assert (is_Some (items (im_ix c) !! a)) as [it Ha].
      { destruct Hok as (_ & _ & Hl & _). apply Hl. apply last_Some in Et as [l ->]. apply elem_of_app. right. left. }
      eapply wp_conseq; [by apply (remove_tail_spec taken c a it)|]. intros [] c1 (H1 & Hlen & Hc). split; [done|]. split; [|right; by exists it].
      destruct H1 as (_ & Hn1 & _). lia.
    - apply (contents_nil ic_id image_key IMAGE_CACHE_HASH_SIZE) in Et; [|done]. rewrite Et in Hn. cbn in Hn. lia. }
  intros [] c1 ((Hok1 & Hn1 & Hmax1 & Hr1) & Hlt & Hc). apply wp_modS, wp_modS. unfold wp, modS.
  assert (contents (idx_link ic_id image_key (im_ix c1) (mkImageItem id img)) = mkImageItem id img :: held c1) as Hl
    by (by apply (contents_link ic_id image_key IMAGE_CACHE_HASH_SIZE)).
  split; [|exists (held c1); by split].
  split; [apply link_ok; [apply image_key_bound|done]|]. cbn [im_ix num_items add_ref]. rewrite Hl, u32_id by lia. cbn [length].
  split; [lia|]. split; [change IMAGE_CACHE_MAX_ITEMS with 2; lia|]. intros j.
  change (mkImageItem id img :: held c1) with ([mkImageItem id img] ++ held c1). rewrite holds_app, holds_one. cbn [ic_image].
  change (refs_of _ j) with (refs_of (add_ref img 1 (mkImageCache (im_ix c1) 0 (img_refs c1))) j).
  rewrite refs_add. change (refs_of (mkImageCache _ _ (img_refs c1)) j) with (refs_of c1 j). rewrite Hr1. destruct (decide _); lia.
Qed.

Definition take_ref (taken : Z -> Z) (img : Z) : Z -> Z := fun j => taken j + (if decide (j = img) then 1 else 0).

(** Only an image that is not there stops the process. *)
Lemma get_spec taken c id :
  image_inv r0 taken c ->
  wp (image_cache_get id) (fun img c' => image_inv r0 (take_ref taken img) c' /\ mkImageItem id img ∈ held c /\ held c' = held c)
    (fun k c' => k = None /\ c' = c /\ id ∉ (ic_id <$> held c)) c.
Proof.
  intros (Hok & Hn & Hmax & Hr). unfold image_cache_get. apply wp_getS. unfold image_cache_find.
  destruct (idx_find _ _ _ id) as [a|] eqn:Ef.
  - apply idx_find_Some in Ef as (it & Ha & Hid). rewrite Ha. apply wp_modS, wp_ret. split; [|split; [|done]].
    + do 3 (split; [done|]). intros j. rewrite refs_add. cbn [add_ref im_ix]. rewrite Hr. unfold take_ref. lia.
    + apply (elem_of_contents ic_id image_key IMAGE_CACHE_HASH_SIZE); [done|]. exists a. rewrite Ha. f_equal. subst id. by destruct it.
  - split; [done|]. split; [done|]. intros (it & -> & Hi)%list_elem_of_fmap.
    by apply (idx_find_None ic_id image_key IMAGE_CACHE_HASH_SIZE _ _ it Hok Ef Hi).
Qed.

Lemma reset_spec taken c : image_inv r0 taken c -> wp image_cache_reset (fun _ c' => image_inv r0 taken c' /\ held c' = []) never c.
Proof.
  intros Hinv. unfold image_cache_reset. apply wp_getS.
  assert (forall n c, image_inv r0 taken c -> (length (held c) < n)%nat ->
    wp (reset_loop n) (fun _ c' => image_inv r0 taken c' /\ held c' = []) never c) as Hloop.
  { clear. induction n as [|n IH]; intros c Hinv Hl; [lia|]. cbn [reset_loop]. apply wp_getS. pose proof Hinv as (Hok & _).
    destruct (ring_get_head (lru (im_ix c))) as [a|] eqn:Eh.
    - assert (is_Some (items (im_ix c) !! a)) as [it Ha].
      { destruct Hok as (_ & _ & Hx & _). apply Hx. destruct (lru (im_ix c)); [done|]. injection Eh as ->. left. }
      apply wp_bind. eapply wp_conseq; [by apply (image_remove_spec taken c a it)|]. intros [] c1 (Hinv1 & Hlen & _). apply IH; [done|lia].
    - apply wp_ret. split; [done|]. unfold contents. by destruct (lru (im_ix c)). }
  apply Hloop; [done|]. destruct Hinv as (Hok & _). rewrite (length_contents ic_id image_key IMAGE_CACHE_HASH_SIZE) by done. lia.
Qed.
End inv.

(** ** Theorems *)

(** What the renderer does: [ILocalize] before a command, [IPut] and [IGet] from
    the canvas while it draws. *)
Inductive image_event := ILocalize (im : SpiceImage) | IPut (id image : Z) | IGet (id : Z) | IReset.

Definition ievent_ok (e : image_event) : Prop :=
  match e with ILocalize im => i_type im = TQuic \/ i_type im = TBitmap \/ i_type im = TSurface | _ => True end.

Section runs.
Context (CACHE_ME : Z) (r0 : Z -> Z).

(** The images that were handed out. *)
Fixpoint image_run (evs : list image_event) (out : list Z) : M ImageCache (list Z) :=
  match evs with
  | [] => mret out
  | ILocalize im :: evs' => image_cache_localize CACHE_ME (Some im) im None;; image_run evs' out
  | IPut id image :: evs' => image_cache_put id image;; image_run evs' out
  | IGet id :: evs' => img ← image_cache_get id; image_run evs' (img :: out)
  | IReset :: evs' => image_cache_reset;; image_run evs' out
  end.

Definition given (out : list Z) (img : Z) : Z := Z.of_nat (length (filter (fun j => j = img) out)).

Lemma given_cons out img j : given (img :: out) j = take_ref (given out) img j.
Proof.
  unfold given, take_ref. destruct (decide (j = img)) as [->|Hne].
  - rewrite filter_cons_True by done. cbn [length]. lia.
  - rewrite filter_cons_False by congruence. lia.
Qed.

Lemma image_inv_ext t t' c : (forall j, t j = t' j) -> image_inv r0 t c -> image_inv r0 t' c.
Proof. intros Ht (H1 & H2 & H3 & H4). do 3 (split; [done|]). intros j. by rewrite H4, Ht. Qed.

Lemma localize_spec taken c im :
  image_inv r0 taken c -> ievent_ok (ILocalize im) ->
  wp (image_cache_localize CACHE_ME (Some im) im None) (fun im' c' => image_inv r0 taken c' /\
    (i_type im' = TFromCache <-> i_id im ∈ (ic_id <$> held c)) /\
    (i_type im' = TFromCache -> exists it l, ic_id it = i_id im /\ held c' = it :: l)) never c.
Proof.
  intros Hinv Hty. unfold image_cache_localize. apply wp_bind. eapply wp_conseq; [by apply (hit_spec r0 taken c (i_id im))|].
  intros hit c1 (H1 & H2 & H3). destruct hit; [apply wp_ret; split; [done|]; cbn; tauto|].
  assert (i_id im ∉ (ic_id <$> held c)) as Hno by (rewrite <- H2; done).
  destruct Hty as [Ht|[Ht|Ht]]; rewrite Ht; apply wp_ret; (split; [done|]); cbn [i_type]; rewrite ?Ht; split; try done; split; done.
Qed.

(** Where a run that asks for an image that is not there stops. *)
Definition asked_for_missing (evs : list image_event) (k : option ub_kind) (c : ImageCache) : Prop :=
  k = None /\ exists id, IGet id ∈ evs /\ id ∉ (ic_id <$> held c).

End runs.

Definition big (id : Z) : SpiceImage := mkImage id TQuic 0 640 480 [].


(** A command with three images can find two, and the put of the third drops
    the first before the canvas asks for it. *)
Lemma image_found_then_dropped :
  match image_run 1 [IPut 1 11; IPut 2 12; ILocalize (big 1); ILocalize (big 2); ILocalize (big 3); IPut 3 13; IGet 1] []
          (image_cache_init ∅) with
  | Abort c => (ic_id <$> held c) = [3; 2]
  | _ => False
  end.
Proof. vm_compute. done. Qed.
